(** * c4-memory: the Memory Evolution Engine

    A shallow embedding of the evolution code of c4-memory
    (db/operations.ts, db/schema.ts, db/embeddings.ts, tools/feedback.ts,
    tools/prune.ts, tools/consolidate.ts) and the properties its
    specification states about it.

    Reading of the source:
    - a SQLite table is the list of its rows in rowid order; a statement is
      a function on the database value; better-sqlite3 runs every statement
      in autocommit mode, so what was written before a throwing statement
      stays written;
    - INTEGER columns and [Date.now()] are [Z]; REAL columns and every other
      JavaScript number are real numbers ([R]).  The score, the sums and the
      averages are computed without rounding ([Math.pow] and [Math.log] are
      [Rpower] and [ln]); the decay of a relationship strength and the
      cosine similarity round every operation to a double ([fl]);
    - [Date.now()] is the argument [now] of each operation;
    - a thrown exception is the [Throw] result of the monad [M];
    - the columns added by the second schema version ([usefulness_score],
      [times_helpful], [times_unhelpful], [status], [level]) are declared
      with defaults and no statement of the code writes NULL to them, so a
      row holds a value there and the [?? default] of [rowToMemory] is not
      modelled;
    - the collaborators the engine calls but does not define (the encoder,
      the embedding service) are the fields of the record [Host]. *)

From Stdlib Require Import ZArith List String Ascii Bool Reals Lra Lia.
From Stdlib Require Import DecimalString Sorted Permutation.
Import ListNotations.

Local Open Scope string_scope.
Local Open Scope list_scope.
Local Open Scope Z_scope.

(** ** Numbers *)

Definition Rltb (x y : R) : bool := if Rlt_dec x y then true else false.
Definition Rleb (x y : R) : bool := if Rle_dec x y then true else false.
Definition Reqb (x y : R) : bool := if Req_dec_T x y then true else false.

Arguments Rltb : simpl never.
Arguments Rleb : simpl never.
Arguments Reqb : simpl never.

(** [Math.min] and [Math.max] on two numbers. *)
Definition Math_min (x y : R) : R := Rmin x y.
Definition Math_max (x y : R) : R := Rmax x y.

(** [Math.floor] and [Math.round] (half up) on a real, as an integer. *)
Definition Math_floor (x : R) : Z := Int_part x.
Definition Math_round (x : R) : Z := Int_part (x + / 2).

(** *** Doubles

    A JavaScript number and a SQLite REAL are IEEE 754 doubles: 53
    significant bits, exponents from -1022 to 1023, subnormal numbers below.
    [fl x] is the double nearest to the real [x], ties to the even
    significand; an operation of the code whose rounding matters to a
    property is written with it.  A result beyond the largest double (an
    overflow to [Infinity]) is outside the model. *)

Definition pow2 (e : Z) : R := powerRZ 2 e.

(** The largest [e' <= e] with [2 ^ e' <= x], looking at most [n] steps
    down. *)
Fixpoint exponent_from (n : nat) (e : Z) (x : R) : Z :=
  match n with
  | O => e
  | S n' => if Rle_dec (pow2 e) x then e else exponent_from n' (e - 1) x
  end.

(** The exponent of [x >= 0]: that of its binade, between -1022 (subnormal
    numbers included) and 1023. *)
Definition exponent (x : R) : Z := exponent_from 2045 1023 x.

(** The distance between the doubles around [x]. *)
Definition ulp (x : R) : R := pow2 (exponent x - 52).

(** The nearest integer, ties to even. *)
Definition rne (q : R) : Z :=
  let n := Int_part q in
  let r := (q - IZR n)%R in
  if Rlt_dec r (1 / 2) then n
  else if Rlt_dec (1 / 2) r then n + 1
  else if Z.even n then n else n + 1.

Definition fl_pos (x : R) : R := (IZR (rne (x / ulp x)) * ulp x)%R.

Definition fl (x : R) : R :=
  if Rle_dec 0 x then fl_pos x else (- fl_pos (- x))%R.

Arguments pow2 : simpl never.
Arguments exponent : simpl never.
Arguments ulp : simpl never.
Arguments rne : simpl never.
Arguments fl_pos : simpl never.
Arguments fl : simpl never.

(** A text between double quotes, and the line feed. *)
Definition dquote : string := String (ascii_of_nat 34) EmptyString.
Definition quoted (s : string) : string := (dquote ++ s ++ dquote)%string.
Definition LF : string := String (ascii_of_nat 10) EmptyString.

(** Template-literal rendering of an integer: [`${n}`]. *)
Definition show_Z (z : Z) : string := NilZero.string_of_int (Z.to_int z).

(** ** types.ts *)

Inductive MemoryType := T_entity | T_lesson | T_error | T_relation.
Inductive MemoryScope := global | project.
Inductive MemoryStatus := active | archived | consolidated.
Inductive FeedbackType := helpful | unhelpful | outdated | incorrect.
Inductive RelationshipType := similar | supersedes | contradicts | derived_from.

Definition MemoryType_eqb (a b : MemoryType) : bool :=
  match a, b with
  | T_entity, T_entity | T_lesson, T_lesson
  | T_error, T_error | T_relation, T_relation => true
  | _, _ => false
  end.

Definition MemoryType_eq_dec (a b : MemoryType) : {a = b} + {a <> b}.
Proof. decide equality. Defined.

Definition MemoryType_name (a : MemoryType) : string :=
  match a with
  | T_entity => "entity" | T_lesson => "lesson"
  | T_error => "error" | T_relation => "relation"
  end.

Definition is_global (s : MemoryScope) : bool :=
  match s with global => true | project => false end.

Definition is_active (s : MemoryStatus) : bool :=
  match s with active => true | _ => false end.

Definition is_similar (r : RelationshipType) : bool :=
  match r with similar => true | _ => false end.

Definition option_string_eqb (a : option string) (b : string) : bool :=
  match a with Some s => String.eqb s b | None => false end.

(** ** Rows of the schema (db/schema.ts, migrations v1 and v2) *)

Module Memory.
Record t := mk {
  id : Z;
  type : MemoryType;
  encoded : string;
  decoded_cache : option string;
  scope : MemoryScope;
  project_hash : option string;
  importance : Z;
  created_at : Z;
  accessed_at : Z;
  access_count : Z;
  usefulness_score : R;
  times_helpful : Z;
  times_unhelpful : Z;
  status : MemoryStatus;
  parent_id : option Z;
  level : Z;
  last_decay : option Z
}.

(** [SET accessed_at = ?, access_count = access_count + 1] *)
Definition touch (now : Z) (m : t) : t :=
  mk (id m) (type m) (encoded m) (decoded_cache m) (scope m) (project_hash m)
     (importance m) (created_at m) now (access_count m + 1)
     (usefulness_score m) (times_helpful m) (times_unhelpful m) (status m)
     (parent_id m) (level m) (last_decay m).

(** [SET usefulness_score = ?, last_decay = ?] *)
Definition set_score (s : R) (now : Z) (m : t) : t :=
  mk (id m) (type m) (encoded m) (decoded_cache m) (scope m) (project_hash m)
     (importance m) (created_at m) (accessed_at m) (access_count m)
     s (times_helpful m) (times_unhelpful m) (status m)
     (parent_id m) (level m) (Some now).

(** [SET times_helpful = times_helpful + 1] *)
Definition incr_helpful (m : t) : t :=
  mk (id m) (type m) (encoded m) (decoded_cache m) (scope m) (project_hash m)
     (importance m) (created_at m) (accessed_at m) (access_count m)
     (usefulness_score m) (times_helpful m + 1) (times_unhelpful m) (status m)
     (parent_id m) (level m) (last_decay m).

(** [SET times_unhelpful = times_unhelpful + 1] *)
Definition incr_unhelpful (m : t) : t :=
  mk (id m) (type m) (encoded m) (decoded_cache m) (scope m) (project_hash m)
     (importance m) (created_at m) (accessed_at m) (access_count m)
     (usefulness_score m) (times_helpful m) (times_unhelpful m + 1) (status m)
     (parent_id m) (level m) (last_decay m).

(** [SET status = ?, parent_id = ?] *)
Definition set_status (s : MemoryStatus) (p : option Z) (m : t) : t :=
  mk (id m) (type m) (encoded m) (decoded_cache m) (scope m) (project_hash m)
     (importance m) (created_at m) (accessed_at m) (access_count m)
     (usefulness_score m) (times_helpful m) (times_unhelpful m) s
     p (level m) (last_decay m).

(** [SET level = ?] *)
Definition set_level (l : Z) (m : t) : t :=
  mk (id m) (type m) (encoded m) (decoded_cache m) (scope m) (project_hash m)
     (importance m) (created_at m) (accessed_at m) (access_count m)
     (usefulness_score m) (times_helpful m) (times_unhelpful m) (status m)
     (parent_id m) l (last_decay m).

(** [parent_id ... ON DELETE SET NULL] for a deleted parent [p]. *)
Definition orphan (p : Z) (m : t) : t :=
  match parent_id m with
  | Some q => if q =? p then set_status (status m) None m else m
  | None => m
  end.
End Memory.

Module Embedding.
Record t := mk { memory_id : Z; vector : list R; model : string }.
End Embedding.

Module AutoLearn.
Record t := mk {
  id : Z; trigger_type : string; context : string;
  memory_id : option Z; timestamp : Z
}.

(** [memory_id ... ON DELETE SET NULL] *)
Definition orphan (p : Z) (a : t) : t :=
  match memory_id a with
  | Some q => if q =? p then mk (id a) (trigger_type a) (context a) None (timestamp a) else a
  | None => a
  end.
End AutoLearn.

Module MemoryFeedback.
Record t := mk {
  id : Z; memory_id : Z; feedback_type : FeedbackType;
  context : option string; timestamp : Z
}.
End MemoryFeedback.

Module MemoryRelationship.
Record t := mk {
  id : Z; source_id : Z; target_id : Z;
  relationship : RelationshipType; strength : R; created_at : Z
}.

(** [SET strength = ?] *)
Definition set_strength (s : R) (r : t) : t :=
  mk (id r) (source_id r) (target_id r) (relationship r) s (created_at r).
End MemoryRelationship.

(** ** The database connection

    [foreign_keys] is the connection's [PRAGMA foreign_keys];
    [initializeSchema] turns it on.  Each [*_seq] is the table's row of
    [sqlite_sequence] (the tables are AUTOINCREMENT). *)

Record Db := mkDb {
  foreign_keys : bool;
  memories : list Memory.t;
  memories_seq : Z;
  embeddings : list Embedding.t;
  auto_learn_log : list AutoLearn.t;
  memory_feedback : list MemoryFeedback.t;
  memory_feedback_seq : Z;
  memory_relationships : list MemoryRelationship.t;
  memory_relationships_seq : Z
}.

Definition with_memories (ms : list Memory.t) (seq : Z) (db : Db) : Db :=
  mkDb (foreign_keys db) ms seq (embeddings db) (auto_learn_log db)
       (memory_feedback db) (memory_feedback_seq db)
       (memory_relationships db) (memory_relationships_seq db).

Definition with_embeddings (es : list Embedding.t) (db : Db) : Db :=
  mkDb (foreign_keys db) (memories db) (memories_seq db) es (auto_learn_log db)
       (memory_feedback db) (memory_feedback_seq db)
       (memory_relationships db) (memory_relationships_seq db).

Definition with_feedback (fs : list MemoryFeedback.t) (seq : Z) (db : Db) : Db :=
  mkDb (foreign_keys db) (memories db) (memories_seq db) (embeddings db)
       (auto_learn_log db) fs seq
       (memory_relationships db) (memory_relationships_seq db).

Definition with_relationships (rs : list MemoryRelationship.t) (seq : Z) (db : Db) : Db :=
  mkDb (foreign_keys db) (memories db) (memories_seq db) (embeddings db)
       (auto_learn_log db) (memory_feedback db) (memory_feedback_seq db) rs seq.

(** [initializeSchema]: [db.pragma('foreign_keys = ON')]; the migrations
    create tables that exist already in this value. *)
Definition initializeSchema (db : Db) : Db :=
  mkDb true (memories db) (memories_seq db) (embeddings db) (auto_learn_log db)
       (memory_feedback db) (memory_feedback_seq db)
       (memory_relationships db) (memory_relationships_seq db).

(** The rowid an AUTOINCREMENT table gives its next row: one more than the
    largest rowid the table has ever held. *)
Definition next_rowid (seq : Z) (ids : list Z) : Z :=
  fold_right Z.max seq ids + 1.

(** ** Exceptions and the statement monad *)

Inductive Exn :=
| SqliteError (code : string)
| Error (message : string).

Definition FOREIGN_KEY_FAILED : Exn := SqliteError "SQLITE_CONSTRAINT_FOREIGNKEY".
Definition CHECK_FAILED : Exn := SqliteError "SQLITE_CONSTRAINT_CHECK".

Inductive Result (A : Type) :=
| Ok (a : A)
| Throw (e : Exn).
Arguments Ok {A} a.
Arguments Throw {A} e.

Definition M (A : Type) : Type := Db -> Result A * Db.

Definition ret {A} (a : A) : M A := fun db => (Ok a, db).
Definition throw {A} (e : Exn) : M A := fun db => (Throw e, db).
Definition bind {A B} (c : M A) (k : A -> M B) : M B :=
  fun db => match c db with
            | (Ok a, db') => k a db'
            | (Throw e, db') => (Throw e, db')
            end.
Definition get : M Db := fun db => (Ok db, db).
Definition put (db' : Db) : M unit := fun _ => (Ok tt, db').

Notation "x <- c ;; k" := (bind c (fun x => k))
  (at level 61, c at next level, right associativity).
Notation "c ;;; k" := (bind c (fun _ => k))
  (at level 61, right associativity).

(** [for (const x of xs) body] *)
Fixpoint forM_ {A} (xs : list A) (body : A -> M unit) : M unit :=
  match xs with
  | [] => ret tt
  | x :: xs' => body x ;;; forM_ xs' body
  end.

(** [try { c } catch (error) { handler }] for a statement sequence. *)
Definition try_catch {A} (c : M A) (handler : Exn -> M A) : M A :=
  fun db => match c db with
            | (Ok a, db') => (Ok a, db')
            | (Throw e, db') => handler e db'
            end.

(** ** db/operations.ts: rows of [memories] *)

Definition memory_exists (id : Z) (db : Db) : bool :=
  existsb (fun m => Memory.id m =? id) (memories db).

(** [SELECT ... FROM memories WHERE id = ?].get(id) *)
Definition select_memory (id : Z) (db : Db) : option Memory.t :=
  find (fun m => Memory.id m =? id) (memories db).

(** [UPDATE memories SET ... WHERE id = ?] *)
Definition update_memory (id : Z) (f : Memory.t -> Memory.t) (db : Db) : Db :=
  with_memories
    (map (fun m => if Memory.id m =? id then f m else m) (memories db))
    (memories_seq db) db.

(** [getMemory]: the row as it was read, and the access bookkeeping as a
    side effect. *)
Definition getMemory (id : Z) (now : Z) : M (option Memory.t) :=
  db <- get ;;
  match select_memory id db with
  | None => ret None
  | Some row =>
      put (update_memory id (Memory.touch now) db) ;;;
      ret (Some row)
  end.

(** [updateMemoryAccess] *)
Definition updateMemoryAccess (id : Z) (now : Z) : M unit :=
  db <- get ;;
  put (update_memory id (Memory.touch now) db).

(** ** The usefulness scorer *)

Definition DAY_MS : Z := 1000 * 60 * 60 * 24.

Local Open Scope R_scope.

(** The expression of [updateUsefulnessScore], on the columns it selects. *)
Definition usefulness (row : Memory.t) (now : Z) : R :=
  let baseImportance := IZR (Memory.importance row) in
  let timesHelpful := Memory.times_helpful row in
  let timesUnhelpful := Memory.times_unhelpful row in
  let accessCount := Memory.access_count row in
  let daysSinceAccess := IZR (now - Memory.accessed_at row) / IZR DAY_MS in
  let helpfulRatio :=
    IZR (timesHelpful + 1) / IZR (timesHelpful + timesUnhelpful + 2) in
  let recencyBoost := Rpower 0.98 (Math_min daysSinceAccess 365) in
  let accessBoost := ln (IZR (accessCount + 1)) / 10 in
  Math_min 9.0 (Math_max 1.0
    (baseImportance *
       (0.5 + helpfulRatio * 0.3 + recencyBoost * 0.15 + accessBoost * 0.05))).

Local Close Scope R_scope.

Definition updateUsefulnessScore (memoryId : Z) (now : Z) : M R :=
  db <- get ;;
  match select_memory memoryId db with
  | None => ret 5.0%R
  | Some row =>
      let usefulnessScore := usefulness row now in
      put (update_memory memoryId (Memory.set_score usefulnessScore now) db) ;;;
      ret usefulnessScore
  end.

(** [applyDecayToAll]: every active memory, in table order. *)
Definition applyDecayToAll (now : Z) : M Z :=
  db <- get ;;
  let memories :=
    map Memory.id (filter (fun m => is_active (Memory.status m)) (memories db)) in
  forM_ memories (fun id => updateUsefulnessScore id now ;;; ret tt) ;;;
  ret (Z.of_nat (List.length memories)).

(** ** Feedback (db/operations.ts, tools/feedback.ts) *)

(** [INSERT INTO memory_feedback ...]; [memory_id] references
    [memories(id)], which the connection enforces when [foreign_keys] is on. *)
Definition insert_memory_feedback
  (memory_id : Z) (feedback_type : FeedbackType) (context : option string)
  (timestamp : Z) : M Z :=
  db <- get ;;
  if foreign_keys db && negb (memory_exists memory_id db)
  then throw FOREIGN_KEY_FAILED
  else
    let id := next_rowid (memory_feedback_seq db)
                         (map MemoryFeedback.id (memory_feedback db)) in
    put (with_feedback
           (memory_feedback db ++
              [MemoryFeedback.mk id memory_id feedback_type context timestamp])
           id db) ;;;
    ret id.

Definition recordFeedback
  (memoryId : Z) (feedbackType : FeedbackType) (context : option string)
  (now : Z) : M MemoryFeedback.t :=
  lastInsertRowid <- insert_memory_feedback memoryId feedbackType context now ;;
  (match feedbackType with
   | helpful =>
       db <- get ;; put (update_memory memoryId Memory.incr_helpful db)
   | unhelpful | incorrect =>
       db <- get ;; put (update_memory memoryId Memory.incr_unhelpful db)
   | outdated => ret tt
   end) ;;;
  updateUsefulnessScore memoryId now ;;;
  ret (MemoryFeedback.mk lastInsertRowid memoryId feedbackType context now).

(** [LIMIT ?]: a negative limit is no limit. *)
Definition sql_limit {A} (limit : Z) (rows : list A) : list A :=
  if limit <? 0 then rows else firstn (Z.to_nat limit) rows.

(** A stable insertion sort: the model of [ORDER BY], rows that compare
    equal keep the order in which they are read. *)
Fixpoint insert_by {A} (leb : A -> A -> bool) (x : A) (l : list A) : list A :=
  match l with
  | [] => [x]
  | y :: l' => if leb x y then x :: l else y :: insert_by leb x l'
  end.

Definition order_by {A} (leb : A -> A -> bool) (l : list A) : list A :=
  fold_right (fun x acc => insert_by leb x acc) [] l.

(** [getMemoryFeedback]: newest first, at most [limit]. *)
Definition getMemoryFeedback (memoryId : Z) (limit : Z) (db : Db)
  : list MemoryFeedback.t :=
  sql_limit limit
    (order_by (fun a b => MemoryFeedback.timestamp b <=? MemoryFeedback.timestamp a)
       (filter (fun f => MemoryFeedback.memory_id f =? memoryId)
               (memory_feedback db))).

Record FeedbackInput := {
  fi_memoryIds : option (list Z);
  fi_feedback : option FeedbackType;
  fi_context : option string
}.

Record MemoryUpdated := {
  mu_id : Z;
  mu_newUsefulnessScore : R;
  mu_timesHelpful : Z;
  mu_timesUnhelpful : Z
}.

Record FeedbackResult := {
  fr_success : bool;
  fr_feedbackRecorded : Z;
  fr_memoriesUpdated : list MemoryUpdated;
  fr_warnings : option (list string)
}.

(** [warnings.length > 0 ? warnings : undefined] *)
Definition some_if_nonempty {A} (l : list A) : option (list A) :=
  match l with [] => None | _ => Some l end.

(** The body of the [for] loop of [feedback], with its two accumulators. *)
Fixpoint feedback_loop
  (memoryIds : list Z) (fb : FeedbackType) (context : option string) (now : Z)
  (warnings : list string) (memoriesUpdated : list MemoryUpdated)
  : M (list string * list MemoryUpdated) :=
  match memoryIds with
  | [] => ret (warnings, memoriesUpdated)
  | memoryId :: rest =>
      memory <- getMemory memoryId now ;;
      match memory with
      | None =>
          feedback_loop rest fb context now
            (warnings ++ [("Memory #" ++ show_Z memoryId ++ " not found")%string])
            memoriesUpdated
      | Some _ =>
          recordFeedback memoryId fb context now ;;;
          updatedMemory <- getMemory memoryId now ;;
          match updatedMemory with
          | Some u =>
              feedback_loop rest fb context now warnings
                (memoriesUpdated ++
                   [Build_MemoryUpdated memoryId (Memory.usefulness_score u)
                      (Memory.times_helpful u) (Memory.times_unhelpful u)])
          | None => feedback_loop rest fb context now warnings memoriesUpdated
          end
      end
  end.

(** [feedback]: the tool.  [openGlobalDb()] is the stored database behind a
    connection that [initializeSchema] has set up. *)
Definition feedback (input : FeedbackInput) (now : Z) : M FeedbackResult :=
  match fi_memoryIds input with
  | None | Some [] =>
      ret (Build_FeedbackResult false 0 []
             (Some ["No memory IDs provided. Specify memoryIds array."]))
  | Some memoryIds =>
      match fi_feedback input with
      | None =>
          ret (Build_FeedbackResult false 0 []
                 (Some [("No feedback type provided. Use " ++ quoted "helpful" ++ ", "
                          ++ quoted "unhelpful" ++ ", " ++ quoted "outdated"
                          ++ ", or " ++ quoted "incorrect" ++ ".")%string]))
      | Some fb =>
          stored <- get ;;
          put (initializeSchema stored) ;;;
          acc <- feedback_loop memoryIds fb (fi_context input) now [] [] ;;
          let '(warnings, memoriesUpdated) := acc in
          ret (Build_FeedbackResult true
                 (Z.of_nat (List.length memoriesUpdated)) memoriesUpdated
                 (some_if_nonempty warnings))
      end
  end.

(** ** Status, creation, deletion, relationships *)

(** [UPDATE memories SET status = ?, parent_id = ? WHERE id = ?];
    [parent_id] references [memories(id)]. *)
Definition updateMemoryStatus
  (memoryId : Z) (status : MemoryStatus) (parentId : option Z) : M bool :=
  db <- get ;;
  let changes := memory_exists memoryId db in
  let parent_missing :=
    match parentId with
    | Some p => negb (memory_exists p db)
    | None => false
    end in
  if foreign_keys db && changes && parent_missing
  then throw FOREIGN_KEY_FAILED
  else
    put (update_memory memoryId (Memory.set_status status parentId) db) ;;;
    ret changes.

Record CreateMemoryInput := {
  cm_type : MemoryType;
  cm_encoded : string;
  cm_decodedCache : option string;
  cm_scope : MemoryScope;
  cm_projectHash : option string;
  cm_importance : option Z
}.

(** [createMemory]: the INSERT names ten columns, the v2 columns take their
    defaults; [importance] is CHECKed to lie between 1 and 9. *)
Definition createMemory (input : CreateMemoryInput) (now : Z) : M Memory.t :=
  db <- get ;;
  let importance := match cm_importance input with Some i => i | None => 5 end in
  if negb ((1 <=? importance) && (importance <=? 9))
  then throw CHECK_FAILED
  else
    let id := next_rowid (memories_seq db) (map Memory.id (memories db)) in
    let row :=
      Memory.mk id (cm_type input) (cm_encoded input) (cm_decodedCache input)
        (cm_scope input) (cm_projectHash input) importance now now 0
        5.0%R 0 0 active None 1 None in
    put (with_memories (memories db ++ [row]) id db) ;;;
    ret row.

(** [DELETE FROM memories WHERE id = ?].  With [foreign_keys] on, the
    delete cascades as the schema declares: [embeddings], [memory_feedback]
    and [memory_relationships] rows of the memory go (ON DELETE CASCADE),
    [auto_learn_log.memory_id] and [memories.parent_id] are set to NULL. *)
Definition deleteMemory (id : Z) : M bool :=
  db <- get ;;
  let changes := memory_exists id db in
  let kept := filter (fun m => negb (Memory.id m =? id)) (memories db) in
  if foreign_keys db && changes then
    put (mkDb (foreign_keys db)
           (map (Memory.orphan id) kept)
           (memories_seq db)
           (filter (fun e => negb (Embedding.memory_id e =? id)) (embeddings db))
           (map (AutoLearn.orphan id) (auto_learn_log db))
           (filter (fun f => negb (MemoryFeedback.memory_id f =? id))
                   (memory_feedback db))
           (memory_feedback_seq db)
           (filter (fun r => negb ((MemoryRelationship.source_id r =? id)
                                   || (MemoryRelationship.target_id r =? id)))
                   (memory_relationships db))
           (memory_relationships_seq db)) ;;;
    ret changes
  else
    put (with_memories kept (memories_seq db) db) ;;;
    ret changes.

(** [INSERT INTO memory_relationships ...]; both ends reference
    [memories(id)]. *)
Definition insert_memory_relationship
  (source_id target_id : Z) (relationship : RelationshipType) (strength : R)
  (created_at : Z) : M Z :=
  db <- get ;;
  if foreign_keys db &&
     negb (memory_exists source_id db && memory_exists target_id db)
  then throw FOREIGN_KEY_FAILED
  else
    let id := next_rowid (memory_relationships_seq db)
                (map MemoryRelationship.id (memory_relationships db)) in
    put (with_relationships
           (memory_relationships db ++
              [MemoryRelationship.mk id source_id target_id relationship
                 strength created_at])
           id db) ;;;
    ret id.

Definition createRelationship
  (sourceId targetId : Z) (relationship : RelationshipType) (strength : R)
  (now : Z) : M MemoryRelationship.t :=
  id <- insert_memory_relationship sourceId targetId relationship strength now ;;
  ret (MemoryRelationship.mk id sourceId targetId relationship strength now).

(** ** Pruning (db/operations.ts, tools/prune.ts) *)

(** [getLowUsefulnessMemories]: the candidates of a prune, lowest score
    first. *)
Definition getLowUsefulnessMemories
  (maxUsefulness maxDaysSinceAccess : R) (limit : Z) (now : Z) (db : Db)
  : list Memory.t :=
  let cutoffTime := (IZR now - maxDaysSinceAccess * 24 * 60 * 60 * 1000)%R in
  sql_limit limit
    (order_by
       (fun a b => Rleb (Memory.usefulness_score a) (Memory.usefulness_score b))
       (filter
          (fun m =>
             is_active (Memory.status m)
             && Rltb (Memory.usefulness_score m) maxUsefulness
             && Rltb (IZR (Memory.accessed_at m)) cutoffTime
             && (Memory.importance m <? 8))
          (memories db))).

Record PruneInput := {
  pi_minUsefulness : option R;
  pi_maxAge : option R;
  pi_dryRun : option bool;
  pi_permanent : option bool
}.

Record PrunedMemory := {
  pm_id : Z;
  pm_type : string;
  pm_usefulnessScore : R;
  pm_daysSinceAccess : Z;
  pm_importance : Z;
  pm_preview : string
}.

Record PruneResult := {
  pr_success : bool;
  pr_dryRun : bool;
  pr_memoriesPruned : Z;
  pr_spaceSaved_memories : Z;
  pr_spaceSaved_estimatedBytes : Z;
  pr_prunedMemories : option (list PrunedMemory);
  pr_warnings : option (list string)
}.

(** [x ?? d] *)
Definition orElse {A} (x : option A) (d : A) : A :=
  match x with Some a => a | None => d end.

(** A string is truthy when it is not empty. *)
Definition truthy (s : option string) : option string :=
  match s with
  | Some "" => None
  | other => other
  end.

(** [daysSinceAccess]: whole days, rounded down. *)
Definition daysSinceAccess (accessedAt : Z) (now : Z) : Z :=
  (now - accessedAt) / DAY_MS.

Definition strlen (s : string) : Z := Z.of_nat (String.length s).

Definition estimateMemorySize (memory : Memory.t) : Z :=
  strlen (Memory.encoded memory)
  + match Memory.decoded_cache memory with
    | Some d => strlen d
    | None => 0
    end
  + 100.

(** [memory.decodedCache || memory.encoded] *)
Definition content_of (memory : Memory.t) : string :=
  match truthy (Memory.decoded_cache memory) with
  | Some d => d
  | None => Memory.encoded memory
  end.

Definition recentCutoff : Z := 7.

(** The safety filter of [prune]: the callback of [filtered.filter], with
    the warnings it pushes. *)
Fixpoint safety_filter (now : Z) (filtered : list Memory.t) (warnings : list string)
  : list Memory.t * list string :=
  match filtered with
  | [] => ([], warnings)
  | m :: rest =>
      let days := daysSinceAccess (Memory.accessed_at m) now in
      if 8 <=? Memory.importance m then
        safety_filter now rest
          (warnings ++
             [("Skipping high-importance memory #" ++ show_Z (Memory.id m)
               ++ " (importance=" ++ show_Z (Memory.importance m) ++ ")")%string])
      else if days <? recentCutoff then
        safety_filter now rest
          (warnings ++
             [("Skipping recently accessed memory #" ++ show_Z (Memory.id m)
               ++ " (" ++ show_Z days ++ " days ago)")%string])
      else
        let '(safe, warnings') := safety_filter now rest warnings in
        (m :: safe, warnings')
  end.

Definition prunedDetail (now : Z) (memory : Memory.t) : PrunedMemory :=
  let preview := substring 0 100 (content_of memory) in
  Build_PrunedMemory
    (Memory.id memory)
    (MemoryType_name (Memory.type memory))
    (IZR (Math_round (Memory.usefulness_score memory * 100)) / 100)%R
    (daysSinceAccess (Memory.accessed_at memory) now)
    (Memory.importance memory)
    (if strlen preview =? 100 then (preview ++ "...")%string else preview).

Definition prune (input : PruneInput) (projectHash : option string) (now : Z)
  : M PruneResult :=
  let minUsefulness := orElse (pi_minUsefulness input) 2.0%R in
  let maxAge := orElse (pi_maxAge input) 90%R in
  let dryRun := orElse (pi_dryRun input) false in
  let permanent := orElse (pi_permanent input) false in
  db <- get ;;
  let candidates := getLowUsefulnessMemories minUsefulness maxAge 200 now db in
  let filtered :=
    match truthy projectHash with
    | Some h =>
        filter (fun m => is_global (Memory.scope m)
                         || option_string_eqb (Memory.project_hash m) h)
               candidates
    | None => candidates
    end in
  let '(safeMemories, warnings) := safety_filter now filtered [] in
  match safeMemories with
  | [] =>
      ret (Build_PruneResult true dryRun 0 0 0 None
             (Some (match warnings with
                    | [] => ["No memories eligible for pruning."]
                    | _ => warnings
                    end)))
  | _ =>
      let totalBytes := fold_left (fun acc m => acc + estimateMemorySize m) safeMemories 0 in
      let prunedDetails := map (prunedDetail now) safeMemories in
      let n := Z.of_nat (List.length safeMemories) in
      if dryRun then
        ret (Build_PruneResult true true n n totalBytes (Some prunedDetails)
               (some_if_nonempty warnings))
      else
        forM_ safeMemories
          (fun memory =>
             if permanent
             then deleteMemory (Memory.id memory) ;;; ret tt
             else updateMemoryStatus (Memory.id memory) archived None ;;; ret tt) ;;;
        ret (Build_PruneResult true false n n totalBytes (Some prunedDetails)
               (some_if_nonempty warnings))
  end.

Definition getPruneCandidates (minUsefulness maxAge : R) (now : Z) (db : Db)
  : list Memory.t :=
  getLowUsefulnessMemories minUsefulness maxAge 200 now db.

Definition restoreArchivedMemory (memoryId : Z) : M bool :=
  updateMemoryStatus memoryId active None.

(** ** Access-pattern learning (db/operations.ts) *)

(** [SELECT id, strength FROM memory_relationships WHERE source_id = ? AND
    target_id = ? AND relationship = 'similar'].get(...) *)
Definition select_similar (sourceId targetId : Z) (db : Db)
  : option MemoryRelationship.t :=
  find (fun r => (MemoryRelationship.source_id r =? sourceId)
                 && (MemoryRelationship.target_id r =? targetId)
                 && is_similar (MemoryRelationship.relationship r))
       (memory_relationships db).

(** [UPDATE memory_relationships SET strength = ? WHERE id = ?] *)
Definition update_strength (id : Z) (s : R) (db : Db) : Db :=
  with_relationships
    (map (fun r => if MemoryRelationship.id r =? id
                   then MemoryRelationship.set_strength s r else r)
         (memory_relationships db))
    (memory_relationships_seq db) db.

(** The body of the inner loop of [recordCoAccess], for the pair
    [(memoryIds[i], memoryIds[j])]. *)
Definition coAccessPair (strength : R) (now : Z) (a b : Z) : M unit :=
  let '(sourceId, targetId) := if a <? b then (a, b) else (b, a) in
  db <- get ;;
  match select_similar sourceId targetId db with
  | Some existing =>
      let newStrength :=
        Math_min 10 (MemoryRelationship.strength existing + strength)%R in
      put (update_strength (MemoryRelationship.id existing) newStrength db)
  | None =>
      insert_memory_relationship sourceId targetId similar strength now ;;;
      ret tt
  end.

(** The two nested loops: [i] over the list, [j] over what follows [i]. *)
Fixpoint coAccessLoop (strength : R) (now : Z) (memoryIds : list Z) : M unit :=
  match memoryIds with
  | [] => ret tt
  | a :: rest =>
      forM_ rest (coAccessPair strength now a) ;;;
      coAccessLoop strength now rest
  end.

Definition recordCoAccess (memoryIds : list Z) (strength : R) (now : Z) : M unit :=
  if Z.of_nat (List.length memoryIds) <? 2 then ret tt
  else coAccessLoop strength now memoryIds.

(** [decayRelationshipStrengths]: the UPDATE, then the DELETE; the result
    is the number of rows the UPDATE changed. *)
Definition decayRelationshipStrengths (decayFactor minStrength : R) : M Z :=
  db <- get ;;
  let changes :=
    List.length (filter (fun r => Rltb minStrength (MemoryRelationship.strength r))
                        (memory_relationships db)) in
  let updated :=
    map (fun r => if Rltb minStrength (MemoryRelationship.strength r)
                  then MemoryRelationship.set_strength
                         (fl (MemoryRelationship.strength r * decayFactor)) r
                  else r)
        (memory_relationships db) in
  let kept :=
    filter (fun r => negb (Rltb (MemoryRelationship.strength r) minStrength))
           updated in
  put (with_relationships kept (memory_relationships_seq db) db) ;;;
  ret (Z.of_nat changes).

Definition mem_Z (x : Z) (l : list Z) : bool := existsb (Z.eqb x) l.

(** The [related_id] column of the query of [getSuggestedMemories]. *)
Definition related_id (current : list Z) (r : MemoryRelationship.t) : Z :=
  if mem_Z (MemoryRelationship.source_id r) current
  then MemoryRelationship.target_id r
  else MemoryRelationship.source_id r.

Definition sum_R (l : list R) : R := fold_right Rplus 0%R l.

(** The SELECT of [getSuggestedMemories]: [(related_id, total_strength)]
    rows.  SQLite sorts the rows for GROUP BY in the direction of the
    ORDER BY term, so the groups come in descending [related_id]; rows of
    equal [total_strength] keep that order. *)
Definition suggested_rows (current : list Z) (limit : Z) (db : Db)
  : list (Z * R) :=
  let matching :=
    filter (fun r => (mem_Z (MemoryRelationship.source_id r) current
                      || mem_Z (MemoryRelationship.target_id r) current)
                     && is_similar (MemoryRelationship.relationship r))
           (memory_relationships db) in
  let keys :=
    order_by (fun a b => b <=? a)
      (nodup Z.eq_dec (map (related_id current) matching)) in
  let groups :=
    map (fun k =>
           (k, sum_R (map MemoryRelationship.strength
                        (filter (fun r => related_id current r =? k) matching))))
        keys in
  let having := filter (fun g => negb (mem_Z (fst g) current)) groups in
  sql_limit limit (order_by (fun a b => Rleb (snd b) (snd a)) having).

(** The loop of [getSuggestedMemories] over the rows. *)
Fixpoint suggested_loop (rows : list (Z * R)) (now : Z) : M (list Memory.t) :=
  match rows with
  | [] => ret []
  | row :: rest =>
      memory <- getMemory (fst row) now ;;
      more <- suggested_loop rest now ;;
      match memory with
      | Some m => if is_active (Memory.status m) then ret (m :: more) else ret more
      | None => ret more
      end
  end.

Definition getSuggestedMemories (currentMemoryIds : list Z) (limit : Z) (now : Z)
  : M (list Memory.t) :=
  match currentMemoryIds with
  | [] => ret []
  | _ =>
      db <- get ;;
      suggested_loop (suggested_rows currentMemoryIds limit db) now
  end.

(** ** Queries and embeddings (db/operations.ts, db/embeddings.ts) *)

Record QueryMemoriesInput := {
  qm_scope : option (option MemoryScope);   (* Some None is 'both' *)
  qm_projectHash : option string;
  qm_types : option (list MemoryType);
  qm_minImportance : option Z;
  qm_limit : option Z;
  qm_offset : option Z;
  qm_includeArchived : option bool
}.

Definition MemoryScope_eqb (a b : MemoryScope) : bool :=
  match a, b with
  | global, global | project, project => true
  | _, _ => false
  end.

(** [ORDER BY usefulness_score DESC, importance DESC, accessed_at DESC] *)
Definition query_order (a b : Memory.t) : bool :=
  if Rltb (Memory.usefulness_score b) (Memory.usefulness_score a) then true
  else if Rltb (Memory.usefulness_score a) (Memory.usefulness_score b) then false
  else if Memory.importance b <? Memory.importance a then true
  else if Memory.importance a <? Memory.importance b then false
  else Memory.accessed_at b <=? Memory.accessed_at a.

(** The order in which SQLite hands the selected rows to the sorter; the
    sorter keeps it among rows that tie on the three keys.  With
    [status = 'active'] in the [WHERE] clause the rows are searched through
    [idx_memories_status] and come by id.  With [includeArchived] they come
    by id when one type is asked for ([idx_memories_type]) and when neither
    a scope nor a type is ([idx_memories_usefulness]); with a scope and no
    single type they come through [idx_memories_scope], by project hash,
    [NULL] first; with several types and no scope through
    [idx_memories_type], by the name of the type. *)
Definition project_hash_order (a b : Memory.t) : bool :=
  match Memory.project_hash a, Memory.project_hash b with
  | None, _ => true
  | Some _, None => false
  | Some x, Some y => String.leb x y
  end.

Definition type_order (a b : Memory.t) : bool :=
  String.leb (MemoryType_name (Memory.type a)) (MemoryType_name (Memory.type b)).

Definition query_scan (input : QueryMemoriesInput) (rows : list Memory.t)
  : list Memory.t :=
  if orElse (qm_includeArchived input) false then
    match qm_types input, qm_scope input with
    | Some [_], _ => rows
    | _, Some (Some _) => order_by project_hash_order rows
    | Some (_ :: _ :: _), _ => order_by type_order rows
    | _, _ => rows
    end
  else rows.

Definition queryMemories (input : QueryMemoriesInput) (db : Db) : list Memory.t :=
  let c_status m :=
    if orElse (qm_includeArchived input) false then true
    else is_active (Memory.status m) in
  let c_scope m :=
    match qm_scope input with
    | Some (Some s) => MemoryScope_eqb (Memory.scope m) s
    | _ => true
    end in
  let c_project m :=
    match truthy (qm_projectHash input) with
    | Some h => option_string_eqb (Memory.project_hash m) h
                || is_global (Memory.scope m)
    | None => true
    end in
  let c_types m :=
    match qm_types input with
    | Some (t :: ts) => existsb (MemoryType_eqb (Memory.type m)) (t :: ts)
    | _ => true
    end in
  let c_importance m :=
    match qm_minImportance input with
    | Some i => i <=? Memory.importance m
    | None => true
    end in
  let rows :=
    order_by query_order
      (query_scan input
         (filter (fun m => c_status m && c_scope m && c_project m
                           && c_types m && c_importance m)
                 (memories db))) in
  let offset := orElse (qm_offset input) 0 in
  sql_limit (orElse (qm_limit input) 100)
            (skipn (Z.to_nat offset) rows).

(** A [Float32Array]: [fa_length] elements, from element [fa_offset] on,
    of an underlying [ArrayBuffer], here the list of its 4-byte slots. *)
Record Float32Array := {
  fa_buffer : list R;
  fa_offset : nat;
  fa_length : nat
}.

(** The elements [v[0], ..., v[length - 1]]. *)
Definition elements (v : Float32Array) : list R :=
  firstn (fa_length v) (skipn (fa_offset v) (fa_buffer v)).

(** [new Float32Array(numbers)]: an array over a buffer of its own. *)
Definition Float32Array_from (numbers : list R) : Float32Array :=
  Build_Float32Array numbers 0 (List.length numbers).

(** [getEmbedding]: the elements of
    [new Float32Array(row.vector.buffer, row.vector.byteOffset,
    row.vector.length / 4)], every slot of the stored blob. *)
Definition getEmbedding (memoryId : Z) (db : Db) : option (list R) :=
  option_map Embedding.vector
    (find (fun e => Embedding.memory_id e =? memoryId) (embeddings db)).

(** [storeEmbedding]: INSERT OR REPLACE on the primary key [memory_id],
    which references [memories(id)].  The blob is [Buffer.from(vector.buffer)]:
    the whole buffer under [vector], not only the part [vector] views. *)
Definition storeEmbedding (memoryId : Z) (vector : Float32Array) (model : string)
  : M unit :=
  db <- get ;;
  let buffer := fa_buffer vector in
  if foreign_keys db && negb (memory_exists memoryId db)
  then throw FOREIGN_KEY_FAILED
  else
    put (with_embeddings
           (filter (fun e => negb (Embedding.memory_id e =? memoryId))
                   (embeddings db)
            ++ [Embedding.mk memoryId buffer model])
           db).

(** The loop of [cosineSimilarity], [sum += a[i] * b[i]] over the common
    length: the product and the sum are each rounded to a double. *)
Fixpoint dot_from (sum : R) (a b : list R) : R :=
  match a, b with
  | x :: a', y :: b' => dot_from (fl (sum + fl (x * y))) a' b'
  | _, _ => sum
  end.

Definition dot (a b : list R) : R := dot_from 0 a b.

Definition cosineSimilarity (a b : list R) : Result R :=
  if negb (Nat.eqb (List.length a) (List.length b))
  then Throw (Error "Vectors must have same dimension")
  else
    let dotProduct := dot a b in
    let normA := dot a a in
    let normB := dot b b in
    let magnitude := fl (fl (sqrt normA) * fl (sqrt normB)) in
    if Reqb magnitude 0 then Ok 0%R
    else Ok (fl (dotProduct / magnitude)).

(** ** Consolidation (tools/consolidate.ts) *)

(** What the engine is handed by its host: the OpenAI client (or none),
    the embedding call, the AIME encoder and the rendering of a number in a
    template literal.  None of them is code of the engine. *)
Record Host := {
  isEmbeddingsAvailable : bool;
  generateEmbedding : string -> string -> Result (list R);
  quickEncode : string -> string -> Z -> string;
  show_number : R -> string;
  show_error : Exn -> string
}.

Record ConsolidationCluster := {
  cc_memories : list Memory.t;
  cc_averageSimilarity : R;
  cc_combinedImportance : Z;
  cc_suggestedAbstraction : string
}.

Record Abstraction := {
  ab_id : Z;
  ab_level : Z;
  ab_content : string;
  ab_sourceCount : Z;
  ab_combinedImportance : Z
}.

Record ConsolidateResult := {
  cr_success : bool;
  cr_dryRun : bool;
  cr_clustersFound : Z;
  cr_memoriesConsolidated : Z;
  cr_abstractionsCreated : list Abstraction;
  cr_clusters : option (list ConsolidationCluster);
  cr_warnings : option (list string)
}.

Record ConsolidateInput := {
  ci_topic : option string;
  ci_threshold : option R;
  ci_dryRun : option bool
}.

(** [Math.max(...xs)] on the integers of a list; the code applies it to
    clusters only, which are never empty. *)
Definition max_list (xs : list Z) : Z :=
  match xs with
  | [] => 0
  | x :: xs' => fold_right Z.max x xs'
  end.

Definition generateAbstraction (memories : list Memory.t) : string :=
  let types := nodup MemoryType_eq_dec (map Memory.type memories) in
  let typeStr :=
    match types with
    | [t] => MemoryType_name t
    | _ => "mixed"
    end in
  let n := show_Z (Z.of_nat (List.length memories)) in
  let pre := ("[PATTERN from " ++ n ++ " " ++ typeStr ++ " memories]")%string in
  let firstContent :=
    match memories with
    | m :: _ => content_of m
    | [] => ""
    end in
  let maxLen := 500%nat in
  let truncatedContent :=
    if (Nat.ltb maxLen (String.length firstContent))
    then (substring 0 maxLen firstContent ++ "...")%string
    else firstContent in
  (pre ++ LF ++ LF ++ "Common pattern:" ++ LF ++ truncatedContent ++ LF ++ LF
   ++ "(Consolidated from " ++ n ++ " similar memories)")%string.

(** The inner loop of [findSimilarClusters]: scan [others] for memories
    similar to the anchor's [embedding]. *)
Fixpoint scan_similar
  (db : Db) (embedding : list R) (threshold : R) (others : list Memory.t)
  (assigned : list Z) (cluster : list Memory.t)
  : Result (list Memory.t * list Z) :=
  match others with
  | [] => Ok (cluster, assigned)
  | other :: rest =>
      if mem_Z (Memory.id other) assigned
      then scan_similar db embedding threshold rest assigned cluster
      else
        match getEmbedding (Memory.id other) db with
        | None => scan_similar db embedding threshold rest assigned cluster
        | Some otherEmbedding =>
            match cosineSimilarity embedding otherEmbedding with
            | Throw e => Throw e
            | Ok similarity =>
                if Rleb threshold similarity
                then scan_similar db embedding threshold rest
                       (assigned ++ [Memory.id other]) (cluster ++ [other])
                else scan_similar db embedding threshold rest assigned cluster
            end
        end
  end.

(** The similarities of [embI] with the members after it. *)
Fixpoint sims_with (db : Db) (embI : list R) (after : list Memory.t)
  : Result (R * Z) :=
  match after with
  | [] => Ok (0%R, 0)
  | mj :: rest =>
      match getEmbedding (Memory.id mj) db with
      | None => sims_with db embI rest
      | Some embJ =>
          match cosineSimilarity embI embJ with
          | Throw e => Throw e
          | Ok s =>
              match sims_with db embI rest with
              | Throw e => Throw e
              | Ok (total, count) => Ok ((s + total)%R, 1 + count)
              end
          end
      end
  end.

(** [totalSim] and [pairCount] over the pairs [i < j] of a cluster. *)
Fixpoint pairwise_sims (db : Db) (cluster : list Memory.t) : Result (R * Z) :=
  match cluster with
  | [] => Ok (0%R, 0)
  | mi :: rest =>
      match getEmbedding (Memory.id mi) db with
      | None => pairwise_sims db rest
      | Some embI =>
          match sims_with db embI rest with
          | Throw e => Throw e
          | Ok (t1, c1) =>
              match pairwise_sims db rest with
              | Throw e => Throw e
              | Ok (t2, c2) => Ok ((t1 + t2)%R, c1 + c2)
              end
          end
      end
  end.

Definition make_cluster (db : Db) (cluster : list Memory.t)
  : Result ConsolidationCluster :=
  match pairwise_sims db cluster with
  | Throw e => Throw e
  | Ok (totalSim, pairCount) =>
      let avgSimilarity :=
        if 0 <? pairCount then (totalSim / IZR pairCount)%R else 0%R in
      let maxImportance := max_list (map Memory.importance cluster) in
      let combinedImportance :=
        Z.min 9 (maxImportance + Z.log2 (Z.of_nat (List.length cluster))) in
      Ok (Build_ConsolidationCluster cluster avgSimilarity combinedImportance
            (generateAbstraction cluster))
  end.

(** The outer loop of [findSimilarClusters] over [todo], a suffix of
    [memories]. *)
Fixpoint cluster_loop
  (db : Db) (memories : list Memory.t) (threshold : R) (todo : list Memory.t)
  (assigned : list Z) (clusters : list ConsolidationCluster)
  : Result (list ConsolidationCluster) :=
  match todo with
  | [] => Ok clusters
  | memory :: rest =>
      if mem_Z (Memory.id memory) assigned
      then cluster_loop db memories threshold rest assigned clusters
      else
        match getEmbedding (Memory.id memory) db with
        | None => cluster_loop db memories threshold rest assigned clusters
        | Some embedding =>
            match scan_similar db embedding threshold memories
                    (assigned ++ [Memory.id memory]) [memory] with
            | Throw e => Throw e
            | Ok (cluster, assigned') =>
                if 2 <=? Z.of_nat (List.length cluster) then
                  match make_cluster db cluster with
                  | Throw e => Throw e
                  | Ok c =>
                      cluster_loop db memories threshold rest assigned'
                        (clusters ++ [c])
                  end
                else cluster_loop db memories threshold rest assigned' clusters
            end
        end
  end.

Definition findSimilarClusters (db : Db) (memories : list Memory.t) (threshold : R)
  : Result (list ConsolidationCluster) :=
  cluster_loop db memories threshold memories [] [].

Definition embedding_model : string := "text-embedding-3-small".

(** [embedMemory]; [generateEmbedding] returns
    [new Float32Array(embedding)], the numbers of the response in an array
    of their own. *)
Definition embedMemory (host : Host) (memoryId : Z) (text : string) : M unit :=
  match generateEmbedding host text embedding_model with
  | Throw e => throw e
  | Ok embedding =>
      storeEmbedding memoryId (Float32Array_from embedding) embedding_model
  end.

(** [Math.min(3, sourceLevel + 1)] *)
Definition newLevel_of (cluster : ConsolidationCluster) : Z :=
  let sourceLevel := max_list (map Memory.level (cc_memories cluster)) in
  Z.min 3 (sourceLevel + 1).

(** [UPDATE memories SET level = ? WHERE id = ?]; [level] is CHECKed to lie
    between 1 and 3. *)
Definition update_level (id : Z) (level : Z) : M unit :=
  db <- get ;;
  if memory_exists id db && negb ((1 <=? level) && (level <=? 3))
  then throw CHECK_FAILED
  else put (update_memory id (Memory.set_level level) db).

(** The body of the loop of [consolidate] over the clusters: the
    abstraction it creates and the warnings it pushes. *)
Definition consolidateCluster
  (host : Host) (projectHash : option string) (now : Z)
  (cluster : ConsolidationCluster) : M (Abstraction * list string) :=
  let newLevel := newLevel_of cluster in
  let hasGlobal :=
    existsb (fun m => is_global (Memory.scope m)) (cc_memories cluster) in
  let scope := if hasGlobal then global else project in
  let encoded :=
    quickEncode host (cc_suggestedAbstraction cluster) "pattern"
      (cc_combinedImportance cluster) in
  newMemory <-
    createMemory
      (Build_CreateMemoryInput T_lesson encoded
         (Some (cc_suggestedAbstraction cluster)) scope
         (if hasGlobal then None else projectHash)
         (Some (cc_combinedImportance cluster)))
      now ;;
  update_level (Memory.id newMemory) newLevel ;;;
  warnings <-
    try_catch
      (embedMemory host (Memory.id newMemory) (cc_suggestedAbstraction cluster) ;;;
       ret [])
      (fun e =>
         ret [("Failed to embed consolidated memory #"
               ++ show_Z (Memory.id newMemory) ++ ": " ++ show_error host e)%string]) ;;
  forM_ (cc_memories cluster)
    (fun source =>
       updateMemoryStatus (Memory.id source) consolidated
         (Some (Memory.id newMemory)) ;;;
       createRelationship (Memory.id source) (Memory.id newMemory) derived_from
         (cc_averageSimilarity cluster) now ;;;
       ret tt) ;;;
  ret (Build_Abstraction (Memory.id newMemory) newLevel
         (substring 0 200 (cc_suggestedAbstraction cluster) ++ "...")%string
         (Z.of_nat (List.length (cc_memories cluster)))
         (cc_combinedImportance cluster),
       warnings).

(** The loop of [consolidate] over the clusters, with its accumulators. *)
Fixpoint consolidate_loop
  (host : Host) (projectHash : option string) (now : Z)
  (clusters : list ConsolidationCluster)
  (abstractionsCreated : list Abstraction) (totalConsolidated : Z)
  (warnings : list string)
  : M (list Abstraction * Z * list string) :=
  match clusters with
  | [] => ret (abstractionsCreated, totalConsolidated, warnings)
  | cluster :: rest =>
      r <- consolidateCluster host projectHash now cluster ;;
      consolidate_loop host projectHash now rest
        (abstractionsCreated ++ [fst r])
        (totalConsolidated + Z.of_nat (List.length (cc_memories cluster)))
        (warnings ++ snd r)
  end.

(** [clusters.map((c, i) => ...)] of the dry run. *)
Fixpoint dry_abstractions (i : Z) (clusters : list ConsolidationCluster)
  : list Abstraction :=
  match clusters with
  | [] => []
  | c :: rest =>
      Build_Abstraction (-1 - i) 2 (cc_suggestedAbstraction c)
        (Z.of_nat (List.length (cc_memories c))) (cc_combinedImportance c)
      :: dry_abstractions (i + 1) rest
  end.

Definition consolidate
  (host : Host) (input : ConsolidateInput) (projectHash : option string)
  (now : Z) : M ConsolidateResult :=
  let threshold := orElse (ci_threshold input) 0.85%R in
  let dryRun := orElse (ci_dryRun input) false in
  if negb (isEmbeddingsAvailable host) then
    ret (Build_ConsolidateResult false dryRun 0 0 [] None
           (Some ["Embeddings not available. Set OpenAI API key using memory_config to enable consolidation."]))
  else
    db <- get ;;
    let memories :=
      filter (fun m => Memory.level m =? 1)
        (queryMemories
           (Build_QueryMemoriesInput None projectHash None None (Some 500) None
              (Some false))
           db) in
    let warnings :=
      match truthy (ci_topic input) with
      | Some _ =>
          [("Topic filtering not yet implemented. Processing all "
            ++ show_Z (Z.of_nat (List.length memories)) ++ " memories.")%string]
      | None => []
      end in
    if Z.of_nat (List.length memories) <? 2 then
      ret (Build_ConsolidateResult true dryRun 0 0 [] None
             (Some ["Not enough memories to consolidate (need at least 2)."]))
    else
      match findSimilarClusters db memories threshold with
      | Throw e => throw e
      | Ok [] =>
          ret (Build_ConsolidateResult true dryRun 0 0 [] None
                 (Some [("No similar memory clusters found at threshold "
                         ++ show_number host threshold
                         ++ ". Try lowering the threshold.")%string]))
      | Ok clusters =>
          if dryRun then
            ret (Build_ConsolidateResult true true
                   (Z.of_nat (List.length clusters))
                   (fold_left
                      (fun sum c => sum + Z.of_nat (List.length (cc_memories c)))
                      clusters 0)
                   (dry_abstractions 0 clusters) (Some clusters) None)
          else
            r <- consolidate_loop host projectHash now clusters [] 0 warnings ;;
            let '(abstractionsCreated, totalConsolidated, warnings') := r in
            ret (Build_ConsolidateResult true false
                   (Z.of_nat (List.length clusters)) totalConsolidated
                   abstractionsCreated None (some_if_nonempty warnings'))
      end.

(** ** The engine's operations as one type

    Every operation of the engine that writes to the store or reads it
    through [getMemory], used to state properties of "any operation". *)

Inductive EngineOp :=
| OpGetMemory (id : Z)
| OpFeedback (input : FeedbackInput)
| OpRecordFeedback (memoryId : Z) (feedbackType : FeedbackType)
    (context : option string)
| OpUpdateUsefulnessScore (memoryId : Z)
| OpApplyDecayToAll
| OpRecordCoAccess (memoryIds : list Z) (strength : R)
| OpDecayRelationshipStrengths (decayFactor minStrength : R)
| OpGetSuggestedMemories (currentMemoryIds : list Z) (limit : Z)
| OpConsolidate (host : Host) (input : ConsolidateInput)
    (projectHash : option string)
| OpPrune (input : PruneInput) (projectHash : option string)
| OpRestoreArchivedMemory (memoryId : Z).

(** The store after an operation, whether it returned or threw. *)
Definition exec (op : EngineOp) (now : Z) (db : Db) : Db :=
  match op with
  | OpGetMemory id => snd (getMemory id now db)
  | OpFeedback input => snd (feedback input now db)
  | OpRecordFeedback memoryId feedbackType context =>
      snd (recordFeedback memoryId feedbackType context now db)
  | OpUpdateUsefulnessScore memoryId => snd (updateUsefulnessScore memoryId now db)
  | OpApplyDecayToAll => snd (applyDecayToAll now db)
  | OpRecordCoAccess memoryIds strength =>
      snd (recordCoAccess memoryIds strength now db)
  | OpDecayRelationshipStrengths decayFactor minStrength =>
      snd (decayRelationshipStrengths decayFactor minStrength db)
  | OpGetSuggestedMemories currentMemoryIds limit =>
      snd (getSuggestedMemories currentMemoryIds limit now db)
  | OpConsolidate host input projectHash =>
      snd (consolidate host input projectHash now db)
  | OpPrune input projectHash => snd (prune input projectHash now db)
  | OpRestoreArchivedMemory memoryId => snd (restoreArchivedMemory memoryId db)
  end.

(** ** The specification's scorer (spec 4.1), in its own words *)

Module Spec.
Local Open Scope R_scope.

Definition daysSinceLastAccess (m : Memory.t) (now : Z) : R :=
  IZR (now - Memory.accessed_at m) / IZR DAY_MS.

Definition helpfulRatio (m : Memory.t) : R :=
  IZR (Memory.times_helpful m + 1)
  / IZR (Memory.times_helpful m + Memory.times_unhelpful m + 2).

Definition recencyBoost (m : Memory.t) (now : Z) : R :=
  Rpower 0.98 (Rmin (daysSinceLastAccess m now) 365).

Definition accessBoost (m : Memory.t) : R :=
  ln (IZR (Memory.access_count m + 1)) / 10.

Definition rawScore (m : Memory.t) (now : Z) : R :=
  IZR (Memory.importance m)
  * (0.5 + 0.3 * helpfulRatio m + 0.15 * recencyBoost m now
     + 0.05 * accessBoost m).

Definition clamp (x lo hi : R) : R :=
  if Rlt_dec x lo then lo else if Rlt_dec hi x then hi else x.

Definition score (m : Memory.t) (now : Z) : R := clamp (rawScore m now) 1.0 9.0.
End Spec.

(** ** More of db/embeddings.ts *)

(** [deleteEmbedding]: [DELETE FROM embeddings WHERE memory_id = ?]. *)
Definition deleteEmbedding (memoryId : Z) : M bool :=
  db <- get ;;
  let changes :=
    existsb (fun e => Embedding.memory_id e =? memoryId) (embeddings db) in
  put (with_embeddings
         (filter (fun e => negb (Embedding.memory_id e =? memoryId))
                 (embeddings db))
         db) ;;;
  ret changes.

(** [searchBySimilarity] (db/embeddings.ts) *)

Record SearchOptions := {
  so_limit : option Z;
  so_minSimilarity : option R;
  so_scope : option (option MemoryScope);   (* Some None is 'both' *)
  so_projectHash : option string;
  so_model : option string
}.

(** [xs.slice(0, n)]: a negative [n] counts from the end. *)
Definition slice_to {A} (n : Z) (xs : list A) : list A :=
  if n <? 0
  then firstn (Z.to_nat (Z.max 0 (Z.of_nat (List.length xs) + n))) xs
  else firstn (Z.to_nat n) xs.

(** The loop of [searchBySimilarity] over the memories. *)
Fixpoint similarity_loop
  (db : Db) (queryEmbedding : list R) (minSimilarity : R)
  (memories : list Memory.t) : Result (list (Memory.t * R)) :=
  match memories with
  | [] => Ok []
  | memory :: rest =>
      match getEmbedding (Memory.id memory) db with
      | None => similarity_loop db queryEmbedding minSimilarity rest
      | Some embedding =>
          match cosineSimilarity queryEmbedding embedding with
          | Throw e => Throw e
          | Ok similarity =>
              match similarity_loop db queryEmbedding minSimilarity rest with
              | Throw e => Throw e
              | Ok results =>
                  if Rleb minSimilarity similarity
                  then Ok ((memory, similarity) :: results)
                  else Ok results
              end
          end
      end
  end.

(** [results.sort((a, b) => b.similarity - a.similarity)] *)
Definition by_similarity_desc (a b : Memory.t * R) : bool :=
  Rleb (snd b) (snd a).

Definition searchBySimilarity (host : Host) (query : string)
  (options : SearchOptions) : M (list (Memory.t * R)) :=
  let limit := orElse (so_limit options) 10 in
  let minSimilarity := orElse (so_minSimilarity options) 0.5%R in
  let scope := orElse (so_scope options) None in
  let model := orElse (so_model options) embedding_model in
  match generateEmbedding host query model with
  | Throw e => throw e
  | Ok queryEmbedding =>
      db <- get ;;
      let memories :=
        queryMemories
          (Build_QueryMemoriesInput (Some scope) (so_projectHash options)
             None None (Some 1000) None None)
          db in
      match similarity_loop db queryEmbedding minSimilarity memories with
      | Throw e => throw e
      | Ok results => ret (slice_to limit (order_by by_similarity_desc results))
      end
  end.

(** ** More of tools/feedback.ts *)

Record FeedbackSummary := {
  totalHelpful : Z;
  totalUnhelpful : Z;
  totalOutdated : Z;
  totalIncorrect : Z
}.

Record FeedbackEntry := {
  fe_type : FeedbackType;
  fe_context : option string;
  fe_timestamp : Z
}.

Record FeedbackHistory := {
  fh_success : bool;
  fh_memoryId : Z;
  fh_feedback : list FeedbackEntry;
  fh_summary : FeedbackSummary
}.

(** The body of the [for] loop of [getFeedbackHistory]. *)
Definition tally (summary : FeedbackSummary) (fb : MemoryFeedback.t) : FeedbackSummary :=
  match MemoryFeedback.feedback_type fb with
  | helpful =>
      Build_FeedbackSummary (totalHelpful summary + 1) (totalUnhelpful summary)
        (totalOutdated summary) (totalIncorrect summary)
  | unhelpful =>
      Build_FeedbackSummary (totalHelpful summary) (totalUnhelpful summary + 1)
        (totalOutdated summary) (totalIncorrect summary)
  | outdated =>
      Build_FeedbackSummary (totalHelpful summary) (totalUnhelpful summary)
        (totalOutdated summary + 1) (totalIncorrect summary)
  | incorrect =>
      Build_FeedbackSummary (totalHelpful summary) (totalUnhelpful summary)
        (totalOutdated summary) (totalIncorrect summary + 1)
  end.

(** [getFeedbackHistory(memoryId, limit = 20)] *)
Definition getFeedbackHistory (memoryId : Z) (limit : option Z) : M FeedbackHistory :=
  stored <- get ;;
  put (initializeSchema stored) ;;;
  db <- get ;;
  let feedbackList := getMemoryFeedback memoryId (orElse limit 20) db in
  let summary := fold_left tally feedbackList (Build_FeedbackSummary 0 0 0 0) in
  ret (Build_FeedbackHistory true memoryId
         (map (fun fb => Build_FeedbackEntry (MemoryFeedback.feedback_type fb)
                           (MemoryFeedback.context fb) (MemoryFeedback.timestamp fb))
              feedbackList)
         summary).

(** ** More of db/operations.ts: the readers of the v2 columns *)

(** [WHERE parent_id = ?] *)
Definition has_parent (parentId : Z) (m : Memory.t) : bool :=
  match Memory.parent_id m with
  | Some p => p =? parentId
  | None => false
  end.

(** [getChildMemories]: rows in table order. *)
Definition getChildMemories (parentId : Z) (db : Db) : list Memory.t :=
  filter (has_parent parentId) (memories db).

(** ** Access-pattern learning (db/operations.ts) *)

(** [if (!buckets.has(key)) buckets.set(key, []); buckets.get(key).push(id)]
    on a [Map], whose keys keep their insertion order. *)
Definition bucket_push (key id : Z) (buckets : list (Z * list Z))
  : list (Z * list Z) :=
  if existsb (fun b => fst b =? key) buckets
  then map (fun b => if fst b =? key then (fst b, snd b ++ [id]) else b) buckets
  else buckets ++ [(key, [id])].

(** [Math.floor(row.accessed_at / bucketSize) * bucketSize] *)
Definition bucketKey (bucketSize : Z) (row : Memory.t) : Z :=
  Memory.accessed_at row / bucketSize * bucketSize.

(** [getRecentlyAccessedTogether(db, windowMs = 60000, minCount = 2)] *)
Definition getRecentlyAccessedTogether
  (windowMs minCount : option Z) (now : Z) (db : Db) : list (Z * list Z) :=
  let windowMs := orElse windowMs 60000 in
  let minCount := orElse minCount 2 in
  let cutoff := now - windowMs in
  let rows :=
    order_by (fun a b => Memory.accessed_at b <=? Memory.accessed_at a)
      (filter (fun m => cutoff <? Memory.accessed_at m) (memories db)) in
  if Z.of_nat (List.length rows) <? minCount then []
  else
    let bucketSize := 5000 in
    let buckets :=
      fold_left (fun buckets row =>
                   bucket_push (bucketKey bucketSize row) (Memory.id row) buckets)
                rows [] in
    filter (fun b => minCount <=? Z.of_nat (List.length (snd b))) buckets.

(** The loop of [learnFromAccessPatterns] over the patterns. *)
Fixpoint learn_loop (now : Z) (patterns : list (Z * list Z))
  (relationshipsUpdated : Z) : M Z :=
  match patterns with
  | [] => ret relationshipsUpdated
  | (_, memoryIds) :: rest =>
      recordCoAccess memoryIds 0.1%R now ;;;
      let n := Z.of_nat (List.length memoryIds) in
      learn_loop now rest (relationshipsUpdated + (n * (n - 1)) / 2)
  end.

(** [learnFromAccessPatterns(db, windowMs = 300000)] *)
Definition learnFromAccessPatterns (windowMs : option Z) (now : Z) : M Z :=
  db <- get ;;
  let patterns :=
    getRecentlyAccessedTogether (Some (orElse windowMs 300000)) (Some 2) now db in
  learn_loop now patterns 0.

(** ** tools/forget.ts *)

(** What the tools call outside the engine: the configuration, the AIME
    decoder and [String.prototype.toLowerCase]. *)
Record ToolHost := {
  hasApiKey : bool;
  config_embedding_model : option string;
  config_default_scope : option MemoryScope;   (* None is 'both' *)
  decode : string -> string;
  toLowerCase : string -> string
}.

Record ForgetInput := {
  fg_query : option string;
  fg_ids : option (list Z)
}.

Record ForgetResult := {
  fg_success : bool;
  fg_deletedCount : Z;
  fg_deletedIds : list Z;
  fg_message : string
}.

(** [s.includes(sub)] *)
Definition includes (s sub : string) : bool :=
  match String.index 0 sub s with Some _ => true | None => false end.

(** [m.decodedCache || decode(m.encoded)] *)
Definition decoded_content (env : ToolHost) (m : Memory.t) : string :=
  match truthy (Memory.decoded_cache m) with
  | Some d => d
  | None => decode env (Memory.encoded m)
  end.

(** The two [for] loops of [forget], with the accumulator [deletedIds]. *)
Fixpoint forget_loop (ids : list Z) (deletedIds : list Z) : M (list Z) :=
  match ids with
  | [] => ret deletedIds
  | id :: rest =>
      success <- deleteMemory id ;;
      if success
      then deleteEmbedding id ;;; forget_loop rest (deletedIds ++ [id])
      else forget_loop rest deletedIds
  end.

Definition forget (host : Host) (env : ToolHost) (input : ForgetInput)
  (projectHash : option string) : M ForgetResult :=
  match fg_ids input with
  | Some (id :: ids) =>
      deletedIds <- forget_loop (id :: ids) [] ;;
      ret (Build_ForgetResult true (Z.of_nat (List.length deletedIds)) deletedIds
             ("Deleted " ++ show_Z (Z.of_nat (List.length deletedIds))
              ++ " memories by ID.")%string)
  | _ =>
      match truthy (fg_query input) with
      | Some query =>
          semantic <-
            (if hasApiKey env && isEmbeddingsAvailable host
             then
               try_catch
                 (results <- searchBySimilarity host query
                               (Build_SearchOptions (Some 50) (Some 0.6%R) (Some None)
                                  projectHash (config_embedding_model env)) ;;
                  ret (map (fun r => (Memory.id (fst r), decoded_content env (fst r)))
                           results))
                 (fun _ => ret [])
             else ret []) ;;
          memoriesToDelete <-
            (match semantic with
             | [] =>
                 db <- get ;;
                 let memories :=
                   queryMemories
                     (Build_QueryMemoriesInput (Some None) projectHash None None
                        (Some 50) None None)
                     db in
                 let queryLower := toLowerCase env query in
                 ret (map (fun m => (Memory.id m, decoded_content env m))
                        (filter (fun m => includes
                                            (toLowerCase env (decoded_content env m))
                                            queryLower)
                                memories))
             | _ => ret semantic
             end) ;;
          match memoriesToDelete with
          | [] =>
              ret (Build_ForgetResult true 0 []
                     ("No memories found matching " ++ quoted query ++ ".")%string)
          | _ =>
              deletedIds <- forget_loop (map fst memoriesToDelete) [] ;;
              ret (Build_ForgetResult true (Z.of_nat (List.length deletedIds))
                     deletedIds
                     ("Deleted " ++ show_Z (Z.of_nat (List.length deletedIds))
                      ++ " memories matching " ++ quoted query ++ ".")%string)
          end
      | None =>
          ret (Build_ForgetResult false 0 []
                 "No query or IDs provided. Please specify what to forget.")
      end
  end.

(** ** Co-accessed memories (db/operations.ts) *)

(** The rows SQLite visits for [(source_id = ? OR target_id = ?)]: it
    reads [idx_rel_source] and then [idx_rel_target], so the edges out of
    [memoryId] come first and the edges into it that it has not yet seen
    come after them, each part in the order of the table. *)
Definition coaccess_scan (memoryId : Z) (db : Db) : list MemoryRelationship.t :=
  filter (fun r => MemoryRelationship.source_id r =? memoryId)
         (memory_relationships db)
  ++ filter (fun r => (MemoryRelationship.target_id r =? memoryId)
                      && negb (MemoryRelationship.source_id r =? memoryId))
            (memory_relationships db).

(** The SELECT of [getFrequentlyCoAccessedMemories]:
    [(related_id, strength)] rows, strongest first; rows of equal strength
    keep the order in which they were visited. *)
Definition coaccess_rows (memoryId : Z) (minStrength : R) (limit : Z) (db : Db)
  : list (Z * R) :=
  sql_limit limit
    (order_by (fun a b => Rleb (snd b) (snd a))
       (map (fun r => (if MemoryRelationship.source_id r =? memoryId
                       then MemoryRelationship.target_id r
                       else MemoryRelationship.source_id r,
                       MemoryRelationship.strength r))
            (filter (fun r => is_similar (MemoryRelationship.relationship r)
                              && Rleb minStrength (MemoryRelationship.strength r))
                    (coaccess_scan memoryId db)))).

(** The loop of [getFrequentlyCoAccessedMemories] over the rows, with its
    accumulator [results]. *)
Fixpoint coaccess_loop (now : Z) (rows : list (Z * R))
  (results : list (Memory.t * R)) : M (list (Memory.t * R)) :=
  match rows with
  | [] => ret results
  | row :: rest =>
      memory <- getMemory (fst row) now ;;
      match memory with
      | Some m =>
          if is_active (Memory.status m)
          then coaccess_loop now rest (results ++ [(m, snd row)])
          else coaccess_loop now rest results
      | None => coaccess_loop now rest results
      end
  end.

(** [getFrequentlyCoAccessedMemories(db, memoryId, minStrength = 0.5,
    limit = 5)] *)
Definition getFrequentlyCoAccessedMemories
  (memoryId : Z) (minStrength : option R) (limit : option Z) (now : Z)
  : M (list (Memory.t * R)) :=
  db <- get ;;
  coaccess_loop now
    (coaccess_rows memoryId (orElse minStrength 0.5%R) (orElse limit 5) db) [].

(** ** Statistics (db/operations.ts) *)

Record MemoryStats := {
  ms_total : Z;
  ms_byType : list (string * Z);
  ms_byScope : list (string * Z);
  ms_avgImportance : R
}.

Definition MemoryScope_name (s : MemoryScope) : string :=
  match s with global => "global" | project => "project" end.

(** [SELECT key, COUNT( * ) ... GROUP BY key] over an enumerated column:
    one row for each value that occurs, in the order of the values. *)
Definition group_count {K} (values : list K) (name : K -> string)
  (has : K -> Memory.t -> bool) (rows : list Memory.t) : list (string * Z) :=
  filter (fun g => 0 <? snd g)
    (map (fun v => (name v, Z.of_nat (List.length (filter (has v) rows)))) values).

(** [getMemoryStats]: the four aggregates share one WHERE clause, which
    is empty without a project hash. *)
Definition getMemoryStats (projectHash : option string) (db : Db) : MemoryStats :=
  let selected :=
    match truthy projectHash with
    | Some h =>
        filter (fun m => option_string_eqb (Memory.project_hash m) h
                         || is_global (Memory.scope m))
               (memories db)
    | None => memories db
    end in
  let total := Z.of_nat (List.length selected) in
  let byType :=
    group_count [T_entity; T_error; T_lesson; T_relation] MemoryType_name
      (fun t m => MemoryType_eqb (Memory.type m) t) selected in
  let byScope :=
    group_count [global; project] MemoryScope_name
      (fun s m => MemoryScope_eqb (Memory.scope m) s) selected in
  let avg :=
    match selected with
    | [] => None
    | _ => Some (IZR (fold_right Z.add 0%Z (map Memory.importance selected))
                 / IZR total)%R
    end in
  Build_MemoryStats total byType byScope (orElse avg 0%R).

(** ** [deleteMemoriesByQuery] (db/operations.ts) *)

(** [parent_id ... ON DELETE SET NULL] and [memory_id ... ON DELETE SET
    NULL] when one statement deletes the memories [gone]. *)
Definition orphan_of (gone : list Z) (m : Memory.t) : Memory.t :=
  match Memory.parent_id m with
  | Some q => if mem_Z q gone then Memory.set_status (Memory.status m) None m else m
  | None => m
  end.

Definition log_orphan_of (gone : list Z) (a : AutoLearn.t) : AutoLearn.t :=
  match AutoLearn.memory_id a with
  | Some q =>
      if mem_Z q gone
      then AutoLearn.mk (AutoLearn.id a) (AutoLearn.trigger_type a)
             (AutoLearn.context a) None (AutoLearn.timestamp a)
      else a
  | None => a
  end.

(** [DELETE FROM memories WHERE id IN (?, ..., ?)]: one statement with one
    parameter for each id, which SQLite refuses to prepare when there are
    more than [maxVariables] of them (SQLITE_MAX_VARIABLE_NUMBER, a
    constant of the SQLite build); otherwise the rows go with the actions
    of the foreign keys on the rows that refer to them, and the result is
    the number of rows of [memories] deleted. *)
Definition deleteMemoriesByQuery (maxVariables : Z) (ids : list Z) : M Z :=
  match ids with
  | [] => ret 0
  | _ =>
      if maxVariables <? Z.of_nat (List.length ids)
      then throw (SqliteError "SQLITE_ERROR") else
      db <- get ;;
      let deleted := filter (fun m => mem_Z (Memory.id m) ids) (memories db) in
      let gone := map Memory.id deleted in
      let kept := filter (fun m => negb (mem_Z (Memory.id m) ids)) (memories db) in
      put (if foreign_keys db
           then mkDb (foreign_keys db)
                  (map (orphan_of gone) kept)
                  (memories_seq db)
                  (filter (fun e => negb (mem_Z (Embedding.memory_id e) gone))
                          (embeddings db))
                  (map (log_orphan_of gone) (auto_learn_log db))
                  (filter (fun f => negb (mem_Z (MemoryFeedback.memory_id f) gone))
                          (memory_feedback db))
                  (memory_feedback_seq db)
                  (filter (fun r => negb (mem_Z (MemoryRelationship.source_id r) gone
                                          || mem_Z (MemoryRelationship.target_id r) gone))
                          (memory_relationships db))
                  (memory_relationships_seq db)
           else with_memories kept (memories_seq db) db) ;;;
      ret (Z.of_nat (List.length deleted))
  end.

(** ** tools/refresh.ts *)

Inductive Depth := shallow | deep.

Record RefreshInput := {
  rf_topic : string;
  rf_depth : option Depth
}.

Record RefreshedMemory := {
  rm_id : Z;
  rm_type : MemoryType;
  rm_content : string;
  rm_importance : Z
}.

Record RefreshResult := {
  rr_success : bool;
  rr_topic : string;
  rr_memories : list RefreshedMemory;
  rr_summary : string;
  rr_total : Z
}.

(** The counters [byType] of [generateSummary]. *)
Record ByType := {
  bt_entity : Z;
  bt_lesson : Z;
  bt_error : Z;
  bt_relation : Z
}.

(** [byType[m.type]++] *)
Definition count_type_of (byType : ByType) (m : RefreshedMemory) : ByType :=
  match rm_type m with
  | T_entity =>
      Build_ByType (bt_entity byType + 1) (bt_lesson byType) (bt_error byType)
        (bt_relation byType)
  | T_lesson =>
      Build_ByType (bt_entity byType) (bt_lesson byType + 1) (bt_error byType)
        (bt_relation byType)
  | T_error =>
      Build_ByType (bt_entity byType) (bt_lesson byType) (bt_error byType + 1)
        (bt_relation byType)
  | T_relation =>
      Build_ByType (bt_entity byType) (bt_lesson byType) (bt_error byType)
        (bt_relation byType + 1)
  end.

Definition generateSummary (topic : string) (memories : list RefreshedMemory)
  : string :=
  match memories with
  | [] => ("No memories found about " ++ quoted topic ++ ".")%string
  | _ =>
      let byType := fold_left count_type_of memories (Build_ByType 0 0 0 0) in
      let highImportance := filter (fun m => 7 <=? rm_importance m) memories in
      let parts :=
        [("Found " ++ show_Z (Z.of_nat (List.length memories))
          ++ " memories about " ++ quoted topic ++ ":")%string]
        ++ (if 0 <? bt_entity byType
            then [("- " ++ show_Z (bt_entity byType) ++ " facts/entities")%string]
            else [])
        ++ (if 0 <? bt_lesson byType
            then [("- " ++ show_Z (bt_lesson byType) ++ " lessons learned")%string]
            else [])
        ++ (if 0 <? bt_error byType
            then [("- " ++ show_Z (bt_error byType) ++ " error solutions")%string]
            else [])
        ++ (if 0 <? bt_relation byType
            then [("- " ++ show_Z (bt_relation byType) ++ " patterns/relations")%string]
            else [])
        ++ (if 0 <? Z.of_nat (List.length highImportance)
            then [(LF ++ "High importance items: "
                   ++ show_Z (Z.of_nat (List.length highImportance)))%string]
            else []) in
      String.concat LF parts
  end.

Definition refresh (host : Host) (env : ToolHost) (input : RefreshInput)
  (projectHash : option string) : M RefreshResult :=
  let depth := orElse (rf_depth input) shallow in
  let limit := match depth with deep => 50 | shallow => 20 end in
  let minSimilarity := match depth with deep => 0.2%R | shallow => 0.4%R end in
  semantic <-
    (if hasApiKey env && isEmbeddingsAvailable host
     then
       try_catch
         (results <- searchBySimilarity host (rf_topic input)
                       (Build_SearchOptions (Some limit) (Some minSimilarity)
                          (Some None) projectHash (config_embedding_model env)) ;;
          ret (map fst results))
         (fun _ => ret [])
     else ret []) ;;
  memories <-
    (match semantic with
     | [] =>
         db <- get ;;
         ret (queryMemories
                (Build_QueryMemoriesInput (Some None) projectHash None None
                   (Some limit) None None)
                db)
     | _ => ret semantic
     end) ;;
  let formattedMemories :=
    map (fun m => Build_RefreshedMemory (Memory.id m) (Memory.type m)
                    (decoded_content env m) (Memory.importance m))
        memories in
  let summary := generateSummary (rf_topic input) formattedMemories in
  ret (Build_RefreshResult true (rf_topic input) formattedMemories summary
         (Z.of_nat (List.length formattedMemories))).

(** ** tools/remember.ts *)

Record RememberInput := {
  rem_content : string;
  rem_type : option string;
  rem_importance : option Z;
  rem_scope : option (option MemoryScope)   (* Some None is 'both' *)
}.

Record RememberResult := {
  rem_success : bool;
  rem_memoryId : Z;
  rem_encoded : string;
  rem_compressionRatio : option R;   (* None: not a finite number *)
  rem_warning : option string
}.

(** [mapType] *)
Definition mapType (type : option string) : MemoryType :=
  match type with
  | Some t =>
      if String.eqb t "lesson" then T_lesson
      else if String.eqb t "error" then T_error
      else if String.eqb t "pattern" then T_relation
      else T_entity
  | None => T_entity
  end.

(** [embedMemory(db, memoryId, text, model)] with the model of the
    configuration, [embedMemory]'s default when it has none. *)
Definition embedMemoryWith (host : Host) (memoryId : Z) (text : string)
  (model : option string) : M unit :=
  let model := orElse model embedding_model in
  match generateEmbedding host text model with
  | Throw e => throw e
  | Ok embedding => storeEmbedding memoryId (Float32Array_from embedding) model
  end.

Definition remember (host : Host) (env : ToolHost) (input : RememberInput)
  (projectHash : option string) (now : Z) : M RememberResult :=
  let memoryType := mapType (rem_type input) in
  let importance := orElse (rem_importance input) 5 in
  let encoded :=
    quickEncode host (rem_content input) (orElse (truthy (rem_type input)) "fact")
      importance in
  let decoded := decode env encoded in
  let compressionRatio :=
    if strlen encoded =? 0 then None
    else Some (IZR (strlen (rem_content input)) / IZR (strlen encoded))%R in
  let inputScope := orElse (rem_scope input) (config_default_scope env) in
  let scope := match inputScope with None => global | Some s => s end in
  memory <- createMemory
              (Build_CreateMemoryInput memoryType encoded (Some decoded) scope
                 (match scope with project => projectHash | global => None end)
                 (Some importance))
              now ;;
  warning <-
    (if hasApiKey env && isEmbeddingsAvailable host
     then
       try_catch
         (embedMemoryWith host (Memory.id memory) (rem_content input)
            (config_embedding_model env) ;;;
          ret None)
         (fun error =>
            ret (Some ("Memory stored but embedding failed: "
                       ++ show_error host error)%string))
     else
       ret (Some ("OpenAI API key not configured. Memory stored without embedding "
                  ++ "(semantic search disabled).")%string)) ;;
  ret (Build_RememberResult true (Memory.id memory) encoded compressionRatio warning).

(** ** [updateMemory] (db/operations.ts) *)

Record UpdateMemoryInput := {
  um_id : Z;
  um_encoded : option string;
  um_decodedCache : option string;
  um_importance : option Z
}.

(** The SET clause that [updateMemory] builds: the fields given, and
    [accessed_at]. *)
Definition set_fields (input : UpdateMemoryInput) (now : Z) (m : Memory.t)
  : Memory.t :=
  Memory.mk (Memory.id m) (Memory.type m)
    (orElse (um_encoded input) (Memory.encoded m))
    (match um_decodedCache input with
     | Some d => Some d
     | None => Memory.decoded_cache m
     end)
    (Memory.scope m) (Memory.project_hash m)
    (orElse (um_importance input) (Memory.importance m))
    (Memory.created_at m) now (Memory.access_count m)
    (Memory.usefulness_score m) (Memory.times_helpful m) (Memory.times_unhelpful m)
    (Memory.status m) (Memory.parent_id m) (Memory.level m) (Memory.last_decay m).

(** [updateMemory]: no statement runs when no field is given; [importance]
    is CHECKed to lie between 1 and 9. *)
Definition updateMemory (input : UpdateMemoryInput) (now : Z) : M bool :=
  match um_encoded input, um_decodedCache input, um_importance input with
  | None, None, None => ret false
  | _, _, _ =>
      db <- get ;;
      let changes := memory_exists (um_id input) db in
      let importance_ok :=
        match um_importance input with
        | Some i => (1 <=? i) && (i <=? 9)
        | None => true
        end in
      if changes && negb importance_ok
      then throw CHECK_FAILED
      else
        put (update_memory (um_id input) (set_fields input now) db) ;;;
        ret changes
  end.

(** * Definitions of the properties

    The relations and functions the statements below are written with,
    and the concrete stores they are evaluated on. *)

(** ** The batch pass *)

Definition rescore_in (ids : list Z) (now : Z) (m : Memory.t) : Memory.t :=
  if mem_Z (Memory.id m) ids
  then Memory.set_score (usefulness m now) now m
  else m.

(** What the batch pass does to a row: an active one gets its score and
    [last_decay]. *)
Definition decay_row (now : Z) (m : Memory.t) : Memory.t :=
  if is_active (Memory.status m)
  then Memory.set_score (Spec.score m now) now m
  else m.

Definition memory_C1 (accessed : Z) : Memory.t :=
  Memory.mk 1 T_lesson "a" None global None 5 0 accessed 0 5.0%R 0 0 active None 1 None.

Definition db_C1 (accessed : Z) : Db :=
  mkDb true [memory_C1 accessed] 1 [] [] [] 0 [] 0.

(** The columns [UPDATE memories SET usefulness_score = ?, last_decay = ?]
    leaves as they are. *)
Definition unscored_columns (m : Memory.t) :=
  (Memory.id m, Memory.type m, Memory.encoded m, Memory.decoded_cache m,
   Memory.scope m, Memory.project_hash m, Memory.importance m,
   Memory.created_at m, Memory.accessed_at m, Memory.access_count m,
   Memory.times_helpful m, Memory.times_unhelpful m, Memory.status m,
   Memory.parent_id m, Memory.level m).

(** The row of [id] in [db] holds the score [s], stamped [now], and is
    otherwise the row [m]. *)
Definition stores_score (db : Db) (m : Memory.t) (s : R) (now : Z) : Prop :=
  exists m', select_memory (Memory.id m) db = Some m'
             /\ Memory.usefulness_score m' = s
             /\ Memory.last_decay m' = Some now
             /\ unscored_columns m' = unscored_columns m.

(** ** Reading a memory and recording feedback *)

(** The counter a feedback type increments. *)
Definition bump (fb : FeedbackType) (m : Memory.t) : Memory.t :=
  match fb with
  | helpful => Memory.incr_helpful m
  | unhelpful | incorrect => Memory.incr_unhelpful m
  | outdated => m
  end.

Definition feedback_event (memoryId : Z) (fb : FeedbackType)
  (context : option string) (now : Z) (db : Db) : MemoryFeedback.t :=
  MemoryFeedback.mk
    (next_rowid (memory_feedback_seq db) (map MemoryFeedback.id (memory_feedback db)))
    memoryId fb context now.

(** The store after the feedback tool has handled the existing memory
    [memoryId], from the store [db0] of its connection. *)
Definition after_feedback (memoryId : Z) (fb : FeedbackType)
  (context : option string) (now : Z) (db0 : Db) : Db :=
  let db1 := update_memory memoryId (Memory.touch now) db0 in
  let ev := feedback_event memoryId fb context now db1 in
  let db2 :=
    snd (updateUsefulnessScore memoryId now
           (update_memory memoryId (bump fb)
              (with_feedback (memory_feedback db1 ++ [ev]) (MemoryFeedback.id ev) db1))) in
  update_memory memoryId (Memory.touch now) db2.

(** The columns [recordFeedback] leaves as they are: all but the two
    counters, the score and its time stamp. *)
Definition uncounted_columns (m : Memory.t) :=
  (Memory.id m, Memory.type m, Memory.encoded m, Memory.decoded_cache m,
   Memory.scope m, Memory.project_hash m, Memory.importance m,
   Memory.created_at m, Memory.accessed_at m, Memory.access_count m,
   Memory.status m, Memory.parent_id m, Memory.level m).

(** Every memory of [db] is in [db'], with counters that are not lower. *)
Definition counters_kept (db db' : Db) : Prop :=
  forall id m, select_memory id db = Some m ->
    exists m', select_memory id db' = Some m'
               /\ Memory.times_helpful m <= Memory.times_helpful m'
               /\ Memory.times_unhelpful m <= Memory.times_unhelpful m'.

(** The store after a sequence of calls of the feedback tool, each with
    its time. *)
Definition feedback_sequence (calls : list (FeedbackInput * Z)) (db : Db) : Db :=
  fold_left (fun d call => snd (feedback (fst call) (snd call) d)) calls db.

Definition db_C10 : Db :=
  mkDb true
    [Memory.mk 7 T_lesson "x" None global None 5 0 100 3 5.0%R 0 0 archived None 1 None]
    7 [] [] [] 0 [] 0.

(** ** Feedback for an id that does not resolve *)

Definition not_found_warning (memoryId : Z) : string :=
  ("Memory #" ++ show_Z memoryId ++ " not found")%string.

Definition memory_C4 : Memory.t :=
  Memory.mk 1 T_lesson "a" None global None 5 0 0 0 5.0%R 0 0 active None 1 None.

(** A store behind a connection set up by [initializeSchema], and the same
    store behind a connection with [foreign_keys] off. *)
Definition db_C4 : Db := mkDb true [memory_C4] 1 [] [] [] 0 [] 0.

Definition db_C4_unenforced : Db := mkDb false [memory_C4] 1 [] [] [] 0 [] 0.

(** ** Pruning *)

(** The candidates of a prune after the project filter ([filtered]). *)
Definition prune_candidates
  (input : PruneInput) (projectHash : option string) (now : Z) (db : Db)
  : list Memory.t :=
  let candidates :=
    getLowUsefulnessMemories (orElse (pi_minUsefulness input) 2.0%R)
      (orElse (pi_maxAge input) 90%R) 200 now db in
  match truthy projectHash with
  | Some h =>
      filter (fun m => is_global (Memory.scope m)
                       || option_string_eqb (Memory.project_hash m) h)
             candidates
  | None => candidates
  end.

(** The memories a prune selects ([safeMemories]). *)
Definition prune_selection
  (input : PruneInput) (projectHash : option string) (now : Z) (db : Db)
  : list Memory.t :=
  fst (safety_filter now (prune_candidates input projectHash now db) []).

Definition importance_warning (m : Memory.t) : string :=
  ("Skipping high-importance memory #" ++ show_Z (Memory.id m)
   ++ " (importance=" ++ show_Z (Memory.importance m) ++ ")")%string.

Definition recent_warning (now : Z) (m : Memory.t) : string :=
  ("Skipping recently accessed memory #" ++ show_Z (Memory.id m)
   ++ " (" ++ show_Z (daysSinceAccess (Memory.accessed_at m) now) ++ " days ago)")%string.

(** What the safety filter says about one memory. *)
Definition safety_warning (now : Z) (m : Memory.t) : list string :=
  if 8 <=? Memory.importance m then [importance_warning m]
  else if daysSinceAccess (Memory.accessed_at m) now <? recentCutoff
       then [recent_warning now m]
       else [].

Definition is_safe (now : Z) (m : Memory.t) : bool :=
  negb (8 <=? Memory.importance m)
  && negb (daysSinceAccess (Memory.accessed_at m) now <? recentCutoff).

(** The writes of a prune that is not a dry run. *)
Definition prune_action (permanent : bool) (memory : Memory.t) : M unit :=
  if permanent
  then deleteMemory (Memory.id memory) ;;; ret tt
  else updateMemoryStatus (Memory.id memory) archived None ;;; ret tt.

(** What a prune that archives does to a row of [memories], [ids] being
    the ids it selected. *)
Definition archive_in (ids : list Z) (m : Memory.t) : Memory.t :=
  if mem_Z (Memory.id m) ids then Memory.set_status archived None m else m.

(** A memory the safety rules protect: importance 8 or 9, or last accessed
    less than 7 days before [now]. *)
Definition protected (now : Z) (m : Memory.t) : Prop :=
  8 <= Memory.importance m \/ now - Memory.accessed_at m < 7 * DAY_MS.

(** A row that a prune has left as it was, up to the [parent_id] that the
    deletion of its parent sets to NULL. *)
Definition same_but_parent (m m' : Memory.t) : Prop :=
  m' = m \/ m' = Memory.set_status (Memory.status m) None m.

Definition memory_C2 (id importance accessed : Z) (score : R) : Memory.t :=
  Memory.mk id T_lesson "note" None global None importance 0 accessed 0
    score 0 0 active None 1 None.

(** A store at day 120: memory 1 is prunable, memory 2 has importance 8,
    memory 3 was read 3 days ago. *)
Definition now_C2 : Z := 120 * DAY_MS.

Definition db_C2 : Db :=
  mkDb true
    [memory_C2 1 5 0 1.5%R; memory_C2 2 8 0 1.5%R;
     memory_C2 3 5 (117 * DAY_MS) 1.5%R]
    3 [] [] [] 0 [] 0.

(** ** The warnings of a prune *)

Definition now_C5 : Z := 10368000000.

Definition memory_C5 (id importance : Z) : Memory.t :=
  Memory.mk id T_lesson "note" None global None importance 0 0 0
    1.5%R 0 0 active None 1 None.

(** Day 120 of a store: memory 1 (importance 8) and memory 2 (importance 5)
    both have score 1.5 and were last read on day 0. *)
Definition db_C5 : Db := mkDb true [memory_C5 1 8] 1 [] [] [] 0 [] 0.

Definition db_C5_two : Db :=
  mkDb true [memory_C5 1 8; memory_C5 2 5] 2 [] [] [] 0 [] 0.

Definition prune_defaults : PruneInput := Build_PruneInput None None None None.

(** Memory 3 (importance 5, score 1.5) was last read 5 days before
    [now_C5]. *)
Definition db_C5_recent : Db :=
  mkDb true
    [Memory.mk 3 T_lesson "note" None global None 5 0 9936000000 0 1.5%R 0 0
       active None 1 None] 3 [] [] [] 0 [] 0.

(** A prune of the memories not read for 3 days. *)
Definition prune_after_3_days : PruneInput :=
  Build_PruneInput None (Some 3%R) None None.

(** The same request with [dryRun] set. *)
Definition with_dryRun (b : bool) (input : PruneInput) : PruneInput :=
  Build_PruneInput (pi_minUsefulness input) (pi_maxAge input) (Some b)
    (pi_permanent input).

(** ** The feedback log *)

(** A computation keeps the relation [P] between the store before and
    after it. *)
Definition preserves (P : Db -> Db -> Prop) {A} (c : M A) : Prop :=
  forall db, P db (snd (c db)).

(** The log after is the log before. *)
Definition same_log (db db' : Db) : Prop :=
  memory_feedback db' = memory_feedback db.

(** The log after is the log before with entries appended. *)
Definition log_extended (db db' : Db) : Prop :=
  exists appended, memory_feedback db' = memory_feedback db ++ appended.

(** ** Permanent pruning and the cascade *)

(** The memories whose log entries a prune removes: what it deletes, on a
    connection that enforces foreign keys. *)
Definition deleted_by_prune
  (input : PruneInput) (projectHash : option string) (now : Z) (db : Db)
  : list Z :=
  if orElse (pi_permanent input) false
     && negb (orElse (pi_dryRun input) false)
     && foreign_keys db
  then map Memory.id (prune_selection input projectHash now db)
  else [].

Definition now_C6 : Z := 10368000000.

Definition memory_C6 : Memory.t :=
  Memory.mk 1 T_lesson "note" None global None 5 0 0 0 1.5%R 0 1 active None 1 None.

Definition event_C6 : MemoryFeedback.t := MemoryFeedback.mk 1 1 unhelpful None 0.

(** Day 120 of a store with one prunable memory and the one feedback event
    recorded on it. *)
Definition db_C6 : Db := mkDb true [memory_C6] 1 [] [] [event_C6] 1 [] 0.

(** Every embedding and every relationship refers to memories of the
    store: what a connection that enforces foreign keys maintains. *)
Definition references_ok (db : Db) : Prop :=
  (forall e, In e (embeddings db) ->
     memory_exists (Embedding.memory_id e) db = true)
  /\ (forall r, In r (memory_relationships db) ->
        memory_exists (MemoryRelationship.source_id r) db = true
        /\ memory_exists (MemoryRelationship.target_id r) db = true).

(** The prunable memory 1 with an embedding, a 'similar' edge to memory 2
    and a 'derived_from' edge from it. *)
Definition db_C6_linked : Db :=
  mkDb true [memory_C6; memory_C2 2 5 0 5.0%R] 2
    [Embedding.mk 1 [1%R] "text-embedding-3-small"] [] [] 0
    [MemoryRelationship.mk 1 1 2 similar 1 0;
     MemoryRelationship.mk 2 2 1 derived_from 1 0] 2.

(** ** Decay of relationship strengths *)

Definition decayed (decayFactor minStrength : R) (rs : list MemoryRelationship.t)
  : list MemoryRelationship.t :=
  filter (fun r => negb (Rltb (MemoryRelationship.strength r) minStrength))
    (map (fun r => if Rltb minStrength (MemoryRelationship.strength r)
                   then MemoryRelationship.set_strength
                          (fl (MemoryRelationship.strength r * decayFactor)) r
                   else r)
         rs).

(** The unit roundoff of the doubles, and the tolerance of a comparison of
    two results: eight roundoffs. *)
Definition unit_roundoff : R := pow2 (-53).
Definition tolerance : R := pow2 (-50).

(** A positive number well inside the normal range of the doubles, where a
    rounding changes a number by at most [unit_roundoff] of it. *)
Definition normal (x : R) : Prop := (pow2 (-1021) <= x <= pow2 1023)%R.

(** [x] is clear of the floor: it stays on its side of it when it changes
    by the tolerance. *)
Definition clear_of (floor x : R) : Prop :=
  (x * (1 + tolerance) < floor)%R \/ (floor < x * (1 - tolerance))%R.

Definition within_tolerance (a b : R) : Prop :=
  (Rabs (a - b) <= tolerance * Rabs b)%R.

(** The same edge, with strengths within the tolerance of each other. *)
Definition same_edge (r r' : MemoryRelationship.t) : Prop :=
  MemoryRelationship.id r = MemoryRelationship.id r'
  /\ MemoryRelationship.source_id r = MemoryRelationship.source_id r'
  /\ MemoryRelationship.target_id r = MemoryRelationship.target_id r'
  /\ MemoryRelationship.relationship r = MemoryRelationship.relationship r'
  /\ MemoryRelationship.created_at r = MemoryRelationship.created_at r'
  /\ within_tolerance (MemoryRelationship.strength r)
       (MemoryRelationship.strength r').

Definition edge_C7 (s : R) : MemoryRelationship.t :=
  MemoryRelationship.mk 1 1 2 similar s 0.

Definition db_C7 (s : R) : Db :=
  mkDb true
    [memory_C2 1 5 0 5.0%R; memory_C2 2 5 0 5.0%R] 2 [] [] [] 0 [edge_C7 s] 1.

(** ** Co-access learning *)

(** The pair of the spec: [(min(id), max(id))]. *)
Definition canonical (a b : Z) : Z * Z := (Z.min a b, Z.max a b).

(** The unordered pairs of a list of ids, canonicalized, in the order of
    the two loops. *)
Fixpoint unordered_pairs (ids : list Z) : list (Z * Z) :=
  match ids with
  | [] => []
  | a :: rest => map (canonical a) rest ++ unordered_pairs rest
  end.

Definition is_edge (p : Z * Z) (r : MemoryRelationship.t) : bool :=
  (MemoryRelationship.source_id r =? fst p)
  && (MemoryRelationship.target_id r =? snd p)
  && is_similar (MemoryRelationship.relationship r).

(** What the loop body does to the table [memory_relationships] and its
    sequence, for one canonical pair. *)
Definition touch_edge (inc : R) (now : Z)
  (st : list MemoryRelationship.t * Z) (p : Z * Z)
  : list MemoryRelationship.t * Z :=
  match find (is_edge p) (fst st) with
  | Some e =>
      (map (fun r => if MemoryRelationship.id r =? MemoryRelationship.id e
                     then MemoryRelationship.set_strength
                            (Math_min 10 (MemoryRelationship.strength e + inc)%R) r
                     else r)
           (fst st),
       snd st)
  | None =>
      let id := next_rowid (snd st) (map MemoryRelationship.id (fst st)) in
      (fst st ++ [MemoryRelationship.mk id (fst p) (snd p) similar inc now], id)
  end.

Definition relationship_table (db : Db) : list MemoryRelationship.t * Z :=
  (memory_relationships db, memory_relationships_seq db).

Definition set_relationship_table (st : list MemoryRelationship.t * Z) (db : Db) : Db :=
  with_relationships (fst st) (snd st) db.

(** The ids can be linked: the connection does not enforce foreign keys, or
    every id is a memory. *)
Definition linkable (ids : list Z) (db : Db) : Prop :=
  foreign_keys db = false \/ forall id, In id ids -> memory_exists id db = true.

(** The edge of a pair once the pair has been processed. *)
Definition touched (inc : R) (now : Z) (p : Z * Z)
  (before after : list MemoryRelationship.t) : Prop :=
  match find (is_edge p) before with
  | Some e =>
      find (is_edge p) after
      = Some (MemoryRelationship.set_strength
                (Math_min 10 (MemoryRelationship.strength e + inc)%R) e)
  | None =>
      exists e', find (is_edge p) after = Some e'
                 /\ MemoryRelationship.source_id e' = fst p
                 /\ MemoryRelationship.target_id e' = snd p
                 /\ MemoryRelationship.relationship e' = similar
                 /\ MemoryRelationship.strength e' = inc
                 /\ MemoryRelationship.created_at e' = now
                 /\ ~ In (MemoryRelationship.id e') (map MemoryRelationship.id before)
  end.

(** The range of a strength: positive, at most 10. *)
Definition strength_ok (r : MemoryRelationship.t) : Prop :=
  (0 < MemoryRelationship.strength r <= 10)%R.

Definition edge_C9 (id source target : Z) (s : R) : MemoryRelationship.t :=
  MemoryRelationship.mk id source target similar s 0.

(** Memories 1, 2 and 3, and one edge between 1 and 2 close to the cap. *)
Definition db_C9 : Db :=
  mkDb true
    [memory_C2 1 5 0 5.0%R; memory_C2 2 5 0 5.0%R; memory_C2 3 5 0 5.0%R] 3
    [] [] [] 0 [edge_C9 1 1 2 9.95%R] 1.

(** ** Suggested memories *)









Definition memory_C8 (id : Z) (score : R) : Memory.t :=
  Memory.mk id T_lesson "note" None global None 5 0 0 0 score 0 0 active None 1 None.


(** Three memories of a project that tie on score, importance and time of
    access: a lesson of project [z], an entity of project [a], a lesson of
    no project. *)
Definition memory_tie (id : Z) (type : MemoryType) (hash : option string)
  : Memory.t :=
  Memory.mk id type "note" None project hash 5 0 0 0 5.0%R 0 0 active None 1 None.

Definition db_query_ties : Db :=
  mkDb true [memory_tie 1 T_lesson (Some "z"); memory_tie 2 T_entity (Some "a");
             memory_tie 3 T_lesson None] 3 [] [] [] 0 [] 0.

(** ** The ranges of the data model *)

(** The ranges of a memory's fields. *)
Definition row_valid (m : Memory.t) : Prop :=
  1 <= Memory.importance m <= 9
  /\ 1 <= Memory.level m <= 3
  /\ (1 <= Memory.usefulness_score m <= 9)%R
  /\ 0 <= Memory.times_helpful m
  /\ 0 <= Memory.times_unhelpful m
  /\ 0 <= Memory.access_count m.

Definition store_valid (db : Db) : Prop :=
  NoDup (map Memory.id (memories db))
  /\ forall m, In m (memories db) -> row_valid m.

Definition keeps_valid (db db' : Db) : Prop := store_valid db -> store_valid db'.

(** The store after a sequence of operations, each with its time. *)
Definition run_operations (ops : list (EngineOp * Z)) (db : Db) : Db :=
  fold_left (fun d op => exec (fst op) (snd op) d) ops db.

(** ** Suggested memories, continued *)

(** What the reads of [getSuggestedMemories] do to a row of [memories],
    [ids] being the ids read. *)
Definition touch_in (ids : list Z) (now : Z) (m : Memory.t) : Memory.t :=
  if mem_Z (Memory.id m) ids then Memory.touch now m else m.



(** ** Consolidation *)

(** The constraints of the table [memories]: the primary key and the two
    CHECKs on [importance] and [level]. *)
Definition row_ok (m : Memory.t) : Prop :=
  1 <= Memory.importance m <= 9 /\ 1 <= Memory.level m <= 3.

Definition schema_ok (db : Db) : Prop :=
  NoDup (map Memory.id (memories db))
  /\ forall m, In m (memories db) -> row_ok m.

(** What consolidation does to a row of [memories]: the sources get
    [status = consolidated] and the abstraction as parent. *)
Definition mark_consolidated (sources : list Z) (parent : Z) (m : Memory.t)
  : Memory.t :=
  if mem_Z (Memory.id m) sources
  then Memory.set_status consolidated (Some parent) m
  else m.

(** The memory [consolidate] creates for a cluster. *)
Definition abstraction_row
  (host : Host) (projectHash : option string) (now : Z)
  (cluster : ConsolidationCluster) (id : Z) : Memory.t :=
  let hasGlobal :=
    existsb (fun m => is_global (Memory.scope m)) (cc_memories cluster) in
  Memory.mk id T_lesson
    (quickEncode host (cc_suggestedAbstraction cluster) "pattern"
       (cc_combinedImportance cluster))
    (Some (cc_suggestedAbstraction cluster))
    (if hasGlobal then global else project)
    (if hasGlobal then None else projectHash)
    (cc_combinedImportance cluster) now now 0 5.0%R 0 0 active None
    (newLevel_of cluster) None.

Definition host_C3 : Host :=
  Build_Host true (fun _ _ => Throw (Error "offline")) (fun text _ _ => text)
    (fun _ => "0.85") (fun _ => "Error: offline").

Definition memory_C3 (id importance : Z) : Memory.t :=
  Memory.mk id T_lesson "enc" (Some "use strict mode") project (Some "abc")
    importance 0 0 0 5.0%R 0 0 active None 1 None.

(** The scenario of the spec: two level-1 memories of importance 6 and 4. *)
Definition db_C3 : Db :=
  mkDb true [memory_C3 1 6; memory_C3 2 4] 2 [] [] [] 0 [] 0.

(** The same store once both memories have an embedding. *)
Definition db_C3_embedded : Db :=
  with_embeddings
    [Embedding.mk 1 [1%R] embedding_model; Embedding.mk 2 [1%R] embedding_model]
    db_C3.

(** ** The clusters of [findSimilarClusters] *)

Definition cluster_ids (c : ConsolidationCluster) : list Z :=
  map Memory.id (cc_memories c).

Definition all_cluster_ids (clusters : list ConsolidationCluster) : list Z :=
  flat_map cluster_ids clusters.

(** A memory whose embedding is similar enough to [embedding]. *)
Definition similar_to (db : Db) (embedding : list R) (threshold : R)
  (s : Memory.t) : Prop :=
  exists e sim,
    getEmbedding (Memory.id s) db = Some e
    /\ cosineSimilarity embedding e = Ok sim
    /\ (threshold <= sim)%R.

(** A cluster built around its first member: every other member is similar
    enough to it. *)
Definition anchored (db : Db) (threshold : R) (c : ConsolidationCluster) : Prop :=
  exists anchor others embedding,
    cc_memories c = anchor :: others
    /\ getEmbedding (Memory.id anchor) db = Some embedding
    /\ forall s, In s others -> similar_to db embedding threshold s.

(** The columns [UPDATE memories SET status = ?, parent_id = ?] leaves as
    they are. *)
Definition unlinked_columns (m : Memory.t) :=
  (Memory.id m, Memory.type m, Memory.encoded m, Memory.decoded_cache m,
   Memory.scope m, Memory.project_hash m, Memory.importance m,
   Memory.created_at m, Memory.accessed_at m, Memory.access_count m,
   Memory.usefulness_score m, Memory.times_helpful m, Memory.times_unhelpful m,
   Memory.level m, Memory.last_decay m).

(** In the store [db'] the memory [s] has [status = consolidated] and the
    memory [parent] as its parent, and is otherwise as it was. *)
Definition consolidated_under (db' : Db) (parent : Z) (s : Memory.t) : Prop :=
  exists s', In s' (memories db')
             /\ Memory.id s' = Memory.id s
             /\ Memory.status s' = consolidated
             /\ Memory.parent_id s' = Some parent
             /\ unlinked_columns s' = unlinked_columns s.

(** What a run of [consolidate] has done for the cluster [c], reported as
    the abstraction [a], in the store [db']. *)
Definition consolidated_by
  (c : ConsolidationCluster) (a : Abstraction) (db' : Db) : Prop :=
  ab_level a = newLevel_of c
  /\ ab_sourceCount a = Z.of_nat (List.length (cc_memories c))
  /\ ab_combinedImportance a = cc_combinedImportance c
  /\ (exists row, In row (memories db')
                  /\ Memory.id row = ab_id a
                  /\ Memory.level row = newLevel_of c
                  /\ Memory.status row = active
                  /\ Memory.parent_id row = None)
  /\ (forall s, In s (cc_memories c) ->
        In (Memory.set_status consolidated (Some (ab_id a)) s) (memories db'))
  /\ (forall s, In s (cc_memories c) -> consolidated_under db' (ab_id a) s).

(** What a dry run reports for the cluster [c]: a placeholder id, level 2,
    the cluster's size and importance. *)
Definition dry_reports (c : ConsolidationCluster) (a : Abstraction) : Prop :=
  ab_id a < 0
  /\ ab_level a = 2
  /\ ab_sourceCount a = Z.of_nat (List.length (cc_memories c))
  /\ ab_combinedImportance a = cc_combinedImportance c
  /\ ab_content a = cc_suggestedAbstraction c.

(** The same request with [dryRun] set. *)
Definition consolidate_request (dryRun : bool) (input : ConsolidateInput)
  : ConsolidateInput :=
  Build_ConsolidateInput (ci_topic input) (ci_threshold input) (Some dryRun).

(** The memories [consolidate] clusters: active, within the project's
    scope, level 1. *)
Definition consolidation_candidates (projectHash : option string) (db : Db)
  : list Memory.t :=
  filter (fun m => Memory.level m =? 1)
    (queryMemories
       (Build_QueryMemoriesInput None projectHash None None (Some 500) None
          (Some false))
       db).

(** ** Semantic search *)

(** The memories [searchBySimilarity] compares the query with. *)
Definition search_candidates (options : SearchOptions) (db : Db) : list Memory.t :=
  queryMemories
    (Build_QueryMemoriesInput (Some (orElse (so_scope options) None))
       (so_projectHash options) None None (Some 1000) None None)
    db.

(** The pair the loop keeps for a memory, if any. *)
Definition similar_pair (db : Db) (q : list R) (minSimilarity : R)
  (memory : Memory.t) : list (Memory.t * R) :=
  match getEmbedding (Memory.id memory) db with
  | None => []
  | Some e =>
      match cosineSimilarity q e with
      | Ok s => if Rleb minSimilarity s then [(memory, s)] else []
      | Throw _ => []
      end
  end.

(** Every embedding of the memories has the dimension of the query. *)
Definition same_dimension (db : Db) (q : list R) (memories : list Memory.t) : Prop :=
  forall m e, In m memories -> getEmbedding (Memory.id m) db = Some e ->
    List.length e = List.length q.

(** A host whose embedding service answers every text with the vector
    [[1]]. *)
Definition host_unit : Host :=
  Build_Host true (fun _ _ => Ok [1%R]) (fun text _ _ => text)
    (fun _ => "0.85") (fun _ => "Error").

(** ** The counters and the log *)

Definition counts_helpful (fb : FeedbackType) : bool :=
  match fb with helpful => true | _ => false end.

Definition counts_unhelpful (fb : FeedbackType) : bool :=
  match fb with unhelpful | incorrect => true | _ => false end.

(** The number of events of the log recorded on [id] whose type [p]
    accepts. *)
Definition count_events (p : FeedbackType -> bool) (id : Z)
  (log : list MemoryFeedback.t) : Z :=
  Z.of_nat
    (List.length
       (filter (fun f => (MemoryFeedback.memory_id f =? id)
                         && p (MemoryFeedback.feedback_type f))
               log)).

(** The counters of every memory are the numbers of events of the log, on
    a connection that enforces foreign keys. *)
Definition log_agrees (db : Db) : Prop :=
  foreign_keys db = true
  /\ NoDup (map Memory.id (memories db))
  /\ (forall f, In f (memory_feedback db) ->
        memory_exists (MemoryFeedback.memory_id f) db = true)
  /\ (forall m, In m (memories db) ->
        Memory.times_helpful m
        = count_events counts_helpful (Memory.id m) (memory_feedback db)
        /\ Memory.times_unhelpful m
           = count_events counts_unhelpful (Memory.id m) (memory_feedback db)).

Definition keeps_agreement (db db' : Db) : Prop := log_agrees db -> log_agrees db'.

(** ** The feedback history *)

(** The events of the log recorded on [id]. *)
Definition events_of (id : Z) (db : Db) : list MemoryFeedback.t :=
  filter (fun f => MemoryFeedback.memory_id f =? id) (memory_feedback db).

(** The page holds the whole history of the memory. *)
Definition whole_history (id limit : Z) (db : Db) : Prop :=
  limit < 0 \/ Z.of_nat (List.length (events_of id db)) <= limit.

Definition newest_first (a b : FeedbackEntry) : Prop :=
  fe_timestamp b <= fe_timestamp a.

Definition count_type (p : FeedbackType -> bool) (l : list MemoryFeedback.t) : Z :=
  Z.of_nat (List.length (filter (fun f => p (MemoryFeedback.feedback_type f)) l)).

(** ** The children of an abstraction *)

(** Every [parent_id] refers to a memory of the store, as the foreign key
    of the column requires. *)
Definition parents_exist (db : Db) : Prop :=
  forall m p, In m (memories db) -> Memory.parent_id m = Some p ->
    memory_exists p db = true.

(** ** Pages of [queryMemories] *)

(** The query [input] with [LIMIT limit OFFSET offset]. *)
Definition page_of (input : QueryMemoriesInput) (limit offset : Z)
  : QueryMemoriesInput :=
  Build_QueryMemoriesInput (qm_scope input) (qm_projectHash input)
    (qm_types input) (qm_minImportance input) (Some limit) (Some offset)
    (qm_includeArchived input).

(** [a] is not ranked after [b]: a higher usefulness score first, then a
    higher importance, then the more recent access. *)
Definition ranked_before (a b : Memory.t) : Prop :=
  (Memory.usefulness_score b < Memory.usefulness_score a)%R
  \/ (Memory.usefulness_score a = Memory.usefulness_score b
      /\ (Memory.importance b < Memory.importance a
          \/ (Memory.importance a = Memory.importance b
              /\ Memory.accessed_at b <= Memory.accessed_at a))).

(** The [WHERE] clause of [queryMemories], in words. *)
Definition matches (input : QueryMemoriesInput) (m : Memory.t) : Prop :=
  (qm_includeArchived input = Some true \/ Memory.status m = active)
  /\ (forall s, qm_scope input = Some (Some s) -> Memory.scope m = s)
  /\ (forall h, truthy (qm_projectHash input) = Some h ->
        Memory.project_hash m = Some h \/ Memory.scope m = global)
  /\ (forall t ts, qm_types input = Some (t :: ts) ->
        In (Memory.type m) (t :: ts))
  /\ (forall i, qm_minImportance input = Some i -> i <= Memory.importance m).

(** ** Access patterns *)

(** The memories read within the window, the most recent first. *)
Definition recent_rows (windowMs now : Z) (db : Db) : list Memory.t :=
  order_by (fun a b => Memory.accessed_at b <=? Memory.accessed_at a)
    (filter (fun m => now - windowMs <? Memory.accessed_at m) (memories db)).

(** The ids of the rows of the five-second bucket that starts at [key]. *)
Definition bucket_ids (key : Z) (rows : list Memory.t) : list Z :=
  map Memory.id (filter (fun r => bucketKey 5000 r =? key) rows).

(** All the pairs of all the patterns, in the order of the loops. *)
Definition pattern_pairs (patterns : list (Z * list Z)) : list (Z * Z) :=
  List.concat (map (fun b => unordered_pairs (snd b)) patterns).

(** What the grouping loop keeps: the keys are distinct, every bucket
    holds the ids of the rows of its key read so far, in their order, and
    every row read so far has its bucket. *)
Definition grouped (rows : list Memory.t) (buckets : list (Z * list Z)) : Prop :=
  NoDup (map fst buckets)
  /\ (forall b, In b buckets -> snd b = bucket_ids (fst b) rows)
  /\ (forall r, In r rows -> In (bucketKey 5000 r) (map fst buckets)).

(** ** Forgetting *)

(** A store with two memories, the first with an embedding, on a
    connection that does not enforce foreign keys. *)
Definition db_forget : Db :=
  mkDb false [memory_C3 1 6; memory_C3 2 4] 2
    [Embedding.mk 1 [1%R] "text-embedding-3-small"] [] [] 0 [] 0.

Definition env_forget : ToolHost :=
  Build_ToolHost false None None (fun s => s) (fun s => s).

(** A row a query of [forget] may delete: an active memory of the project
    or of the global scope. *)
Definition forgettable (projectHash : option string) (db : Db) (k : Z) : Prop :=
  exists m, In m (memories db) /\ Memory.id m = k
            /\ Memory.status m = active
            /\ forall h, truthy projectHash = Some h ->
                 Memory.project_hash m = Some h \/ Memory.scope m = global.

(** ** Co-accessed memories *)

(** The result of the loop for one row, read in the store [db]. *)
Definition coaccess_of (db : Db) (row : Z * R) : list (Memory.t * R) :=
  match select_memory (fst row) db with
  | Some m => if is_active (Memory.status m) then [(m, snd row)] else []
  | None => []
  end.

(** A 'similar' edge between [memoryId] and [k], of strength [s]. *)
Definition similar_edge (memoryId k : Z) (s : R) (r : MemoryRelationship.t) : Prop :=
  MemoryRelationship.relationship r = similar
  /\ MemoryRelationship.strength r = s
  /\ ((MemoryRelationship.source_id r = memoryId
       /\ MemoryRelationship.target_id r = k)
      \/ (MemoryRelationship.target_id r = memoryId
          /\ MemoryRelationship.source_id r = k)).

(** Memory 1 with a strong link to the active memory 2 and a stronger one
    to the archived memory 3. *)
Definition db_coaccess : Db :=
  mkDb true
    [memory_C8 1 5.0%R; memory_C8 2 5.0%R;
     Memory.mk 3 T_lesson "note" None global None 5 0 0 0 5.0%R 0 0 archived None 1
       None] 3 [] [] [] 0
    [MemoryRelationship.mk 1 1 2 similar 1 0;
     MemoryRelationship.mk 2 1 3 similar 2 0] 2.

(** Memory 2 between two active neighbours: an older edge into it from
    memory 1 and a newer edge out of it to memory 3, of the same strength. *)
Definition db_coaccess_tie : Db :=
  mkDb true [memory_C8 1 5.0%R; memory_C8 2 5.0%R; memory_C8 3 5.0%R] 3 [] [] [] 0
    [MemoryRelationship.mk 1 1 2 similar 1 0;
     MemoryRelationship.mk 2 2 3 similar 1 0] 2.

(** ** Statistics *)

(** The rows the aggregates of [getMemoryStats] range over. *)
Definition stats_rows (projectHash : option string) (db : Db) : list Memory.t :=
  match truthy projectHash with
  | Some h =>
      filter (fun m => option_string_eqb (Memory.project_hash m) h
                       || is_global (Memory.scope m))
             (memories db)
  | None => memories db
  end.

Definition sum_Z (l : list Z) : Z := fold_right Z.add 0 l.

(** [record[key]] *)
Definition lookup (key : string) (record : list (string * Z)) : option Z :=
  option_map snd (find (fun g => String.eqb (fst g) key) record).

(** ** Deleting many memories *)

(** [deleteMemory] on each id in turn, counting the successes. *)
Fixpoint delete_each (ids : list Z) : M Z :=
  match ids with
  | [] => ret 0
  | id :: rest =>
      success <- deleteMemory id ;;
      n <- delete_each rest ;;
      ret ((if success then 1 else 0) + n)
  end.

(** The ids of the memories that a statement on [ids] deletes. *)
Definition gone_ids (ids : list Z) (db : Db) : list Z :=
  map Memory.id (filter (fun m => mem_Z (Memory.id m) ids) (memories db)).

(** The store after [DELETE FROM memories WHERE id IN ids]. *)
Definition batch_store (ids : list Z) (db : Db) : Db :=
  let gone := gone_ids ids db in
  let kept := filter (fun m => negb (mem_Z (Memory.id m) ids)) (memories db) in
  if foreign_keys db
  then mkDb (foreign_keys db)
         (map (orphan_of gone) kept)
         (memories_seq db)
         (filter (fun e => negb (mem_Z (Embedding.memory_id e) gone)) (embeddings db))
         (map (log_orphan_of gone) (auto_learn_log db))
         (filter (fun f => negb (mem_Z (MemoryFeedback.memory_id f) gone))
                 (memory_feedback db))
         (memory_feedback_seq db)
         (filter (fun r => negb (mem_Z (MemoryRelationship.source_id r) gone
                                 || mem_Z (MemoryRelationship.target_id r) gone))
                 (memory_relationships db))
         (memory_relationships_seq db)
  else with_memories kept (memories_seq db) db.

Definition batch_count (ids : list Z) (db : Db) : Z :=
  Z.of_nat (List.length (filter (fun m => mem_Z (Memory.id m) ids) (memories db))).

(** ** Refreshing a topic *)

(** The entry of [refresh] for a memory. *)
Definition refreshed (env : ToolHost) (m : Memory.t) : RefreshedMemory :=
  Build_RefreshedMemory (Memory.id m) (Memory.type m) (decoded_content env m)
    (Memory.importance m).

Definition depth_limit (depth : option Depth) : Z :=
  match depth with Some deep => 50 | _ => 20 end.

(** The best-ranked memories of the project and of the global scope. *)
Definition top_ranked (projectHash : option string) (limit : Z) (db : Db)
  : list Memory.t :=
  queryMemories
    (Build_QueryMemoriesInput (Some None) projectHash None None (Some limit) None None)
    db.

(** ** Remembering *)

(** The row [remember] stores. *)
Definition remembered_row (host : Host) (env : ToolHost) (input : RememberInput)
  (projectHash : option string) (now : Z) (id : Z) : Memory.t :=
  let importance := orElse (rem_importance input) 5 in
  let encoded :=
    quickEncode host (rem_content input) (orElse (truthy (rem_type input)) "fact")
      importance in
  let scope :=
    match orElse (rem_scope input) (config_default_scope env) with
    | None => global
    | Some s => s
    end in
  Memory.mk id (mapType (rem_type input)) encoded (Some (decode env encoded)) scope
    (match scope with project => projectHash | global => None end)
    importance now now 0 5.0%R 0 0 active None 1 None.

(** ** Updating a memory *)

(** The input names a field to set. *)
Definition names_a_field (input : UpdateMemoryInput) : Prop :=
  um_encoded input <> None \/ um_decodedCache input <> None
  \/ um_importance input <> None.

Definition importance_in_range (input : UpdateMemoryInput) : Prop :=
  forall i, um_importance input = Some i -> 1 <= i <= 9.

(** The columns [updateMemory] never sets. *)
Definition unset_columns (m : Memory.t) :=
  (Memory.id m, Memory.type m, Memory.scope m, Memory.project_hash m,
   Memory.created_at m, Memory.access_count m, Memory.usefulness_score m,
   Memory.times_helpful m, Memory.times_unhelpful m, Memory.status m,
   Memory.parent_id m, Memory.level m, Memory.last_decay m).

(** The row [m'] is the row [m] with the fields [input] gives, and
    [accessed_at = now]. *)
Definition has_the_given_fields (input : UpdateMemoryInput) (now : Z)
  (m m' : Memory.t) : Prop :=
  Memory.encoded m'
  = match um_encoded input with Some e => e | None => Memory.encoded m end
  /\ Memory.decoded_cache m'
     = match um_decodedCache input with
       | Some d => Some d
       | None => Memory.decoded_cache m
       end
  /\ Memory.importance m'
     = match um_importance input with Some i => i | None => Memory.importance m end
  /\ Memory.accessed_at m' = now
  /\ unset_columns m' = unset_columns m.

(** ** The tools and the invariants *)

(** A call of one of the tools and readers around the engine. *)
Inductive ToolOp :=
| ToolRemember (input : RememberInput) (projectHash : option string)
| ToolForget (input : ForgetInput) (projectHash : option string)
| ToolRefresh (input : RefreshInput) (projectHash : option string)
| ToolUpdateMemory (input : UpdateMemoryInput)
| ToolDeleteMemoriesByQuery (maxVariables : Z) (ids : list Z)
| ToolLearnFromAccessPatterns (windowMs : option Z)
| ToolCoAccessed (memoryId : Z) (minStrength : option R) (limit : option Z)
| ToolFeedbackHistory (memoryId : Z) (limit : option Z).

(** The store after the call, whether it returns or throws. *)
Definition run_tool (host : Host) (env : ToolHost) (op : ToolOp) (now : Z) (db : Db)
  : Db :=
  match op with
  | ToolRemember input projectHash => snd (remember host env input projectHash now db)
  | ToolForget input projectHash => snd (forget host env input projectHash db)
  | ToolRefresh input projectHash => snd (refresh host env input projectHash db)
  | ToolUpdateMemory input => snd (updateMemory input now db)
  | ToolDeleteMemoriesByQuery maxVariables ids =>
      snd (deleteMemoriesByQuery maxVariables ids db)
  | ToolLearnFromAccessPatterns windowMs =>
      snd (learnFromAccessPatterns windowMs now db)
  | ToolCoAccessed memoryId minStrength limit =>
      snd (getFrequentlyCoAccessedMemories memoryId minStrength limit now db)
  | ToolFeedbackHistory memoryId limit => snd (getFeedbackHistory memoryId limit db)
  end.

Definition run_tools (host : Host) (env : ToolHost) (ops : list (ToolOp * Z)) (db : Db)
  : Db :=
  fold_left (fun d op => run_tool host env (fst op) (snd op) d) ops db.

(** * Properties *)

(** ** Doubles *)

Lemma pow2_pos (e : Z) : (0 < pow2 e)%R.
Proof. unfold pow2. apply powerRZ_lt. lra. Qed.

Lemma pow2_add (a b : Z) : pow2 (a + b) = (pow2 a * pow2 b)%R.
Proof. unfold pow2. apply powerRZ_add. lra. Qed.

Lemma pow2_0 : pow2 0 = 1%R.
Proof. reflexivity. Qed.

Lemma pow2_1 : pow2 1 = 2%R.
Proof. unfold pow2, powerRZ. simpl. lra. Qed.

Lemma pow2_succ (a : Z) : pow2 (a + 1) = (2 * pow2 a)%R.
Proof. rewrite pow2_add, pow2_1. lra. Qed.

Lemma pow2_le (a b : Z) : a <= b -> (pow2 a <= pow2 b)%R.
Proof.
  intro H. replace b with (a + Z.of_nat (Z.to_nat (b - a))) by lia.
  induction (Z.to_nat (b - a)) as [|n IH].
  - rewrite Z.add_0_r. lra.
  - replace (a + Z.of_nat (S n)) with ((a + Z.of_nat n) + 1) by lia.
    rewrite pow2_succ. pose proof (pow2_pos (a + Z.of_nat n)). lra.
Qed.

Lemma pow2_lt (a b : Z) : a < b -> (pow2 a < pow2 b)%R.
Proof.
  intro H. assert (Hle : (pow2 (a + 1) <= pow2 b)%R) by (apply pow2_le; lia).
  rewrite pow2_succ in Hle. pose proof (pow2_pos a). lra.
Qed.

Lemma pow2_lt_inv (a b : Z) : (pow2 a < pow2 b)%R -> a < b.
Proof.
  intro H. destruct (Z_lt_le_dec a b) as [Hlt|Hge]; [exact Hlt|].
  apply pow2_le in Hge. lra.
Qed.

Lemma pow2_IZR (k : Z) : 0 <= k -> pow2 k = IZR (2 ^ k).
Proof.
  intro H. rewrite <- (Z2Nat.id k H). induction (Z.to_nat k) as [|n IH].
  - reflexivity.
  - rewrite Nat2Z.inj_succ, <- Z.add_1_r, pow2_succ, IH.
    rewrite Z.pow_add_r by lia. rewrite mult_IZR. cbn. lra.
Qed.

Lemma exponent_from_spec (x : R) (e0 : Z) (n : nat) : forall e,
  e <= e0 ->
  (e < e0 -> (x < pow2 (e + 1))%R) ->
  let r := exponent_from n e x in
  e - Z.of_nat n <= r <= e
  /\ (e - Z.of_nat n < r -> (pow2 r <= x)%R)
  /\ (r < e0 -> (x < pow2 (r + 1))%R).
Proof.
  induction n as [|n IH]; intros e He Hlt; cbn [exponent_from].
  - cbv zeta. split; [lia|]. split; [lia | exact Hlt].
  - destruct (Rle_dec (pow2 e) x) as [Hle|Hnle].
    + cbv zeta. split; [lia|]. split; [intros _; exact Hle | exact Hlt].
    + assert (Hx : (x < pow2 (e - 1 + 1))%R).
      { replace (e - 1 + 1) with e by lia. lra. }
      destruct (IH (e - 1) ltac:(lia) (fun _ => Hx)) as (H1 & H2 & H3).
      cbv zeta. split; [lia|]. split; [|exact H3].
      intro H. apply H2. lia.
Qed.

Lemma exponent_spec (x : R) :
  -1022 <= exponent x <= 1023
  /\ (-1022 < exponent x -> (pow2 (exponent x) <= x)%R)
  /\ (exponent x < 1023 -> (x < pow2 (exponent x + 1))%R).
Proof.
  unfold exponent.
  destruct (exponent_from_spec x 1023 2045 1023 ltac:(lia) ltac:(lia))
    as (H1 & H2 & H3).
  cbv zeta in *. split; [lia|]. split; [|exact H3]. intro H. apply H2. lia.
Qed.

Lemma exponent_le (x y : R) : (x <= y)%R -> exponent x <= exponent y.
Proof.
  intro Hxy.
  destruct (exponent_spec x) as (Hx1 & Hx2 & Hx3).
  destruct (exponent_spec y) as (Hy1 & Hy2 & Hy3).
  revert Hx1 Hx2 Hx3 Hy1 Hy2 Hy3. generalize (exponent x), (exponent y).
  intros ex ey Hx1 Hx2 Hx3 Hy1 Hy2 Hy3.
  destruct (Z_le_gt_dec ex ey) as [H|H]; [exact H|].
  exfalso.
  assert (H1 : (pow2 ex <= x)%R) by (apply Hx2; lia).
  assert (H2 : (y < pow2 (ey + 1))%R) by (apply Hy3; lia).
  assert (H3 : (pow2 (ey + 1) <= pow2 ex)%R) by (apply pow2_le; lia).
  lra.
Qed.

Lemma exponent_unique (x : R) (e : Z) :
  -1022 <= e <= 1023 -> (pow2 e <= x < pow2 (e + 1))%R -> exponent x = e.
Proof.
  intros He [Hlo Hhi].
  destruct (exponent_spec x) as (H1 & H2 & H3).
  revert H1 H2 H3. generalize (exponent x). intros ex H1 H2 H3.
  destruct (Z.lt_trichotomy ex e) as [H|[H|H]]; [|exact H|]; exfalso.
  - assert ((x < pow2 (ex + 1))%R) by (apply H3; lia).
    assert ((pow2 (ex + 1) <= pow2 e)%R) by (apply pow2_le; lia). lra.
  - assert ((pow2 ex <= x)%R) by (apply H2; lia).
    assert ((pow2 (e + 1) <= pow2 ex)%R) by (apply pow2_le; lia). lra.
Qed.

Lemma exponent_small (x : R) : (x < pow2 (-1021))%R -> exponent x = -1022.
Proof.
  intro Hx. destruct (exponent_spec x) as (H1 & H2 & H3).
  revert H1 H2 H3. generalize (exponent x). intros ex H1 H2 H3.
  destruct (Z.eq_dec ex (-1022)) as [E|E]; [exact E|]. exfalso.
  assert ((pow2 ex <= x)%R) by (apply H2; lia).
  assert ((pow2 (-1021) <= pow2 ex)%R) by (apply pow2_le; lia). lra.
Qed.

Lemma ulp_pos (x : R) : (0 < ulp x)%R.
Proof. apply pow2_pos. Qed.

(** Rounding to the nearest integer *)

Lemma Int_part_spec (q : R) : (IZR (Int_part q) <= q < IZR (Int_part q) + 1)%R.
Proof. destruct (base_Int_part q). lra. Qed.

Lemma Int_part_unique (q : R) (n : Z) : (IZR n <= q < IZR n + 1)%R -> Int_part q = n.
Proof.
  intros [H1 H2]. destruct (Int_part_spec q) as [H3 H4].
  destruct (Z.lt_trichotomy (Int_part q) n) as [H|[H|H]]; [|exact H|]; exfalso.
  - assert (Int_part q + 1 <= n) by lia. apply IZR_le in H0.
    rewrite plus_IZR in H0. lra.
  - assert (n + 1 <= Int_part q) by lia. apply IZR_le in H0.
    rewrite plus_IZR in H0. lra.
Qed.

Lemma rne_error (q : R) : (Rabs (IZR (rne q) - q) <= 1 / 2)%R.
Proof.
  unfold rne. cbv zeta. destruct (Int_part_spec q) as [H1 H2].
  destruct (Rlt_dec _ _) as [Ha|Ha].
  - apply Rabs_le. lra.
  - destruct (Rlt_dec _ _) as [Hb|Hb].
    + rewrite plus_IZR. apply Rabs_le. lra.
    + destruct (Z.even _); [|rewrite plus_IZR]; apply Rabs_le; lra.
Qed.

Lemma rne_IZR (k : Z) : rne (IZR k) = k.
Proof.
  unfold rne. cbv zeta.
  rewrite (Int_part_unique (IZR k) k) by lra.
  destruct (Rlt_dec _ _) as [Ha|Ha]; [reflexivity|]. exfalso. lra.
Qed.

Lemma rne_bounds (q : R) : Int_part q <= rne q <= Int_part q + 1.
Proof.
  unfold rne. cbv zeta.
  destruct (Rlt_dec _ _); [lia|]. destruct (Rlt_dec _ _); [lia|].
  destruct (Z.even _); lia.
Qed.

Lemma Int_part_le (q q' : R) : (q <= q')%R -> Int_part q <= Int_part q'.
Proof.
  intro H. destruct (Int_part_spec q) as [H1 H2].
  destruct (Int_part_spec q') as [H3 H4].
  destruct (Z_le_gt_dec (Int_part q) (Int_part q')) as [Hle|Hgt]; [exact Hle|].
  exfalso. assert (Int_part q' + 1 <= Int_part q) by lia.
  apply IZR_le in H0. rewrite plus_IZR in H0. lra.
Qed.

Lemma rne_le (q q' : R) : (q <= q')%R -> rne q <= rne q'.
Proof.
  intro H. pose proof (Int_part_le q q' H) as Hi.
  pose proof (rne_bounds q) as Hb. pose proof (rne_bounds q') as Hb'.
  destruct (Z.eq_dec (Int_part q) (Int_part q')) as [E|E]; [|lia].
  revert Hb Hb'. unfold rne. cbv zeta. rewrite <- E.
  set (n := Int_part q).
  destruct (Rlt_dec (q - IZR n) (1 / 2)) as [Ha|Ha]; [intros; lia|].
  destruct (Rlt_dec (q' - IZR n) (1 / 2)) as [Ha'|Ha']; [exfalso; lra|].
  destruct (Rlt_dec (1 / 2) (q - IZR n)) as [Hb|Hb].
  - destruct (Rlt_dec (1 / 2) (q' - IZR n)) as [Hb'|Hb']; [intros; lia|].
    exfalso. lra.
  - destruct (Rlt_dec (1 / 2) (q' - IZR n)) as [Hb'|Hb'];
      destruct (Z.even n); intros; lia.
Qed.

Lemma rne_nonneg (q : R) : (0 <= q)%R -> 0 <= rne q.
Proof. intro H. rewrite <- (rne_IZR 0). now apply rne_le. Qed.

(** Rounding to a double *)

Lemma div_le (a b u : R) : (0 < u)%R -> (a <= b)%R -> (a / u <= b / u)%R.
Proof.
  intros Hu H. unfold Rdiv. apply Rmult_le_compat_r; [|exact H].
  left. now apply Rinv_0_lt_compat.
Qed.

Lemma fl_pos_nonneg (x : R) : (0 <= x)%R -> (0 <= fl_pos x)%R.
Proof.
  intro H. unfold fl_pos. pose proof (ulp_pos x) as Hu.
  apply Rmult_le_pos; [|lra]. apply IZR_le. apply rne_nonneg.
  unfold Rdiv. apply Rmult_le_pos; [exact H|]. left. now apply Rinv_0_lt_compat.
Qed.

Lemma fl_of_nonneg (x : R) : (0 <= x)%R -> fl x = fl_pos x.
Proof. intro H. unfold fl. destruct (Rle_dec 0 x); [reflexivity | contradiction]. Qed.

Lemma fl_nonneg (x : R) : (0 <= x)%R -> (0 <= fl x)%R.
Proof. intro H. rewrite fl_of_nonneg by exact H. now apply fl_pos_nonneg. Qed.

Lemma fl_0 : fl 0 = 0%R.
Proof.
  rewrite fl_of_nonneg by lra. unfold fl_pos.
  generalize (ulp 0). intro U.
  replace (0 / U)%R with (IZR 0) by (unfold Rdiv; apply eq_sym, Rmult_0_l).
  rewrite rne_IZR. apply Rmult_0_l.
Qed.

Lemma fl_pos_error (x : R) : (Rabs (fl_pos x - x) <= ulp x / 2)%R.
Proof.
  unfold fl_pos. pose proof (ulp_pos x) as Hu.
  revert Hu. generalize (ulp x). intros U Hu.
  pose proof (rne_error (x / U)) as He.
  revert He. generalize (IZR (rne (x / U))). intros N He.
  replace (N * U - x)%R with ((N - x / U) * U)%R by (field; lra).
  rewrite Rabs_mult, (Rabs_pos_eq U) by lra.
  apply Rle_trans with (1 / 2 * U)%R; [|lra].
  apply Rmult_le_compat_r; lra.
Qed.

(** The relative error of a rounding in the normal range. *)
Lemma fl_error (x : R) :
  (pow2 (-1022) <= x)%R -> (Rabs (fl x - x) <= pow2 (-53) * x)%R.
Proof.
  intro Hx. pose proof (pow2_pos (-1022)) as Hp.
  rewrite fl_of_nonneg by lra.
  apply Rle_trans with (ulp x / 2)%R; [apply fl_pos_error|].
  unfold ulp. destruct (exponent_spec x) as (H1 & H2 & _).
  revert H1 H2. generalize (exponent x). intros ex H1 H2.
  assert (He : (pow2 ex <= x)%R).
  { destruct (Z.eq_dec ex (-1022)) as [E|E]; [now rewrite E|].
    apply H2. lia. }
  replace (ex - 52) with (ex + (-53) + 1) by lia.
  rewrite pow2_succ, pow2_add. pose proof (pow2_pos (-53)) as Hu.
  revert He Hu. generalize (pow2 ex), (pow2 (-53)). intros E U He Hu.
  replace (2 * (E * U) / 2)%R with (U * E)%R by field.
  apply Rmult_le_compat_l; lra.
Qed.

Lemma fl_error_bounds (x : R) :
  (pow2 (-1022) <= x)%R ->
  (x * (1 - pow2 (-53)) <= fl x <= x * (1 + pow2 (-53)))%R.
Proof.
  intro Hx. pose proof (fl_error x Hx) as H.
  unfold Rabs in H. destruct (Rcase_abs (fl x - x)); lra.
Qed.

Lemma rne_pow2 (k : Z) : 0 <= k -> IZR (rne (pow2 k)) = pow2 k.
Proof. intro H. now rewrite (pow2_IZR k H), rne_IZR. Qed.

Lemma fl_pos_upper (x : R) :
  (0 <= x)%R -> exponent x < 1023 -> (fl_pos x <= pow2 (exponent x + 1))%R.
Proof.
  intros H0 He. destruct (exponent_spec x) as (_ & _ & H3). specialize (H3 He).
  unfold fl_pos, ulp. clear He. revert H3. generalize (exponent x). intros ex H3.
  pose proof (pow2_pos (ex - 52)) as Hu.
  assert (E : pow2 (ex + 1) = (pow2 53 * pow2 (ex - 52))%R).
  { rewrite <- pow2_add. f_equal. lia. }
  assert (Hq : (x / pow2 (ex - 52) <= pow2 53)%R).
  { replace (pow2 53) with (pow2 (ex + 1) / pow2 (ex - 52))%R.
    - apply div_le; lra.
    - rewrite E. revert Hu. generalize (pow2 (ex - 52)), (pow2 53).
      intros U V Hu. field. lra. }
  apply rne_le, IZR_le in Hq. rewrite rne_pow2 in Hq by lia.
  rewrite E. apply Rmult_le_compat_r; lra.
Qed.

Lemma fl_pos_lower (x : R) :
  (pow2 (exponent x) <= x)%R -> (pow2 (exponent x) <= fl_pos x)%R.
Proof.
  unfold fl_pos, ulp. generalize (exponent x). intros ex Hx.
  pose proof (pow2_pos (ex - 52)) as Hu.
  assert (E : pow2 ex = (pow2 52 * pow2 (ex - 52))%R).
  { rewrite <- pow2_add. f_equal. lia. }
  assert (Hq : (pow2 52 <= x / pow2 (ex - 52))%R).
  { replace (pow2 52) with (pow2 ex / pow2 (ex - 52))%R.
    - apply div_le; lra.
    - rewrite E. revert Hu. generalize (pow2 (ex - 52)), (pow2 52).
      intros U V Hu. field. lra. }
  apply rne_le, IZR_le in Hq. rewrite rne_pow2 in Hq by lia.
  rewrite E at 1. apply Rmult_le_compat_r; lra.
Qed.

(** Rounding is monotone. *)
Lemma fl_le (x y : R) : (0 <= x <= y)%R -> (fl x <= fl y)%R.
Proof.
  intros [H0 Hxy]. rewrite !fl_of_nonneg by lra.
  pose proof (exponent_le x y Hxy) as He.
  destruct (Z.eq_dec (exponent x) (exponent y)) as [E|E].
  - unfold fl_pos, ulp. rewrite E.
    pose proof (pow2_pos (exponent y - 52)) as Hu.
    apply Rmult_le_compat_r; [lra|]. apply IZR_le, rne_le. apply div_le; lra.
  - destruct (exponent_spec x) as (Hx1 & _ & _).
    destruct (exponent_spec y) as (Hy1 & Hy2 & _).
    pose proof (fl_pos_upper x H0) as Hup.
    pose proof (fl_pos_lower y) as Hlow.
    revert He E Hx1 Hy1 Hy2 Hup Hlow.
    generalize (exponent x), (exponent y), (fl_pos x), (fl_pos y).
    intros ex ey fx fy He E Hx1 Hy1 Hy2 Hup Hlow.
    apply Rle_trans with (pow2 (ex + 1)); [apply Hup; lia|].
    apply Rle_trans with (pow2 ey); [apply pow2_le; lia|].
    apply Hlow. apply Hy2. lia.
Qed.

(** A number with at most 53 significant bits is a double. *)
Lemma fl_dyadic (m e : Z) :
  0 <= m < 2 ^ 53 -> -1074 <= e ->
  fl (IZR m * pow2 e) = (IZR m * pow2 e)%R.
Proof.
  intros Hm He. pose proof (pow2_pos e) as Hpe.
  destruct (Z.eq_dec m 0) as [->|Hm0].
  - rewrite Rmult_0_l. apply fl_0.
  - assert (Hm53 : (IZR m < pow2 53)%R).
    { rewrite (pow2_IZR 53) by lia. apply IZR_lt. apply Hm. }
    assert (Hm1 : (0 < IZR m)%R) by (apply IZR_lt; lia).
    clear Hm Hm0.
    set (x := (IZR m * pow2 e)%R).
    assert (Hx : (0 < x)%R) by (unfold x; now apply Rmult_lt_0_compat).
    rewrite fl_of_nonneg by lra. unfold fl_pos, ulp.
    destruct (exponent_spec x) as (H1 & H2 & _).
    revert H1 H2. generalize (exponent x). intros r H1 H2.
    assert (Hk : 0 <= e - (r - 52)).
    { destruct (Z.eq_dec r (-1022)) as [E|E]; [lia|].
      assert (Hr : (pow2 r <= x)%R) by (apply H2; lia).
      assert (Hlt : (x < pow2 (53 + e))%R).
      { unfold x. rewrite pow2_add. now apply Rmult_lt_compat_r. }
      assert (r < 53 + e) by (apply pow2_lt_inv; lra). lia. }
    pose proof (pow2_pos (r - 52)) as Hu.
    assert (Hq : (x / pow2 (r - 52) = IZR (m * 2 ^ (e - (r - 52))))%R).
    { rewrite mult_IZR, <- pow2_IZR by exact Hk. unfold x.
      replace e with ((e - (r - 52)) + (r - 52)) at 1 by lia.
      rewrite pow2_add. revert Hu.
      generalize (pow2 (r - 52)), (pow2 (e - (r - 52))), (IZR m).
      intros U V W Hu. field. lra. }
    rewrite Hq, rne_IZR, <- Hq. revert Hu. generalize (pow2 (r - 52)), x.
    intros U X Hu. field. lra.
Qed.

Lemma fl_IZR (n : Z) : 0 <= n < 2 ^ 53 -> fl (IZR n) = IZR n.
Proof.
  intro H. pose proof (fl_dyadic n 0 H ltac:(lia)) as E.
  rewrite pow2_0, Rmult_1_r in E. exact E.
Qed.

Lemma fl_1 : fl 1 = 1%R.
Proof. apply (fl_IZR 1). lia. Qed.

Lemma rne_unique (q : R) (n : Z) :
  (IZR n - 1 / 2 < q < IZR n + 1 / 2)%R -> rne q = n.
Proof.
  intros [H1 H2]. unfold rne. cbv zeta.
  destruct (Rlt_le_dec q (IZR n)) as [Hlt|Hge].
  - rewrite (Int_part_unique q (n - 1)) by (rewrite minus_IZR; lra).
    rewrite minus_IZR.
    destruct (Rlt_dec _ _) as [Ha|Ha]; [exfalso; lra|].
    destruct (Rlt_dec _ _) as [Hb|Hb]; [lia | exfalso; lra].
  - rewrite (Int_part_unique q n) by lra.
    destruct (Rlt_dec _ _) as [Ha|Ha]; [reflexivity | exfalso; lra].
Qed.

(** The double nearest to a number of a known binade. *)
Lemma fl_nearest (x : R) (e n : Z) :
  -1022 <= e <= 1023 ->
  (pow2 e <= x < pow2 (e + 1))%R ->
  (IZR n - 1 / 2 < x / pow2 (e - 52) < IZR n + 1 / 2)%R ->
  fl x = (IZR n * pow2 (e - 52))%R.
Proof.
  intros He Hx Hq. pose proof (pow2_pos e) as Hp.
  rewrite fl_of_nonneg by lra. unfold fl_pos, ulp.
  rewrite (exponent_unique x e He Hx). now rewrite (rne_unique _ n Hq).
Qed.

Lemma fl_nonpos (x : R) : (x <= 0)%R -> (fl x <= 0)%R.
Proof.
  intro H. unfold fl. destruct (Rle_dec 0 x) as [H0|H0].
  - replace x with 0%R by lra. fold (fl 0). rewrite <- fl_of_nonneg by lra.
    rewrite fl_0. lra.
  - pose proof (fl_pos_nonneg (- x) ltac:(lra)). lra.
Qed.

(** ** Running the monad *)

Lemma run_bind {A B} (c : M A) (k : A -> M B) (db : Db) :
  bind c k db =
  match c db with
  | (Ok a, db') => k a db'
  | (Throw e, db') => (Throw e, db')
  end.
Proof. reflexivity. Qed.

Lemma Rltb_true (x y : R) : (x < y)%R -> Rltb x y = true.
Proof. intro H. unfold Rltb. destruct (Rlt_dec x y); [reflexivity | contradiction]. Qed.

Lemma Rltb_false (x y : R) : (y <= x)%R -> Rltb x y = false.
Proof. intro H. unfold Rltb. destruct (Rlt_dec x y); [lra | reflexivity]. Qed.

Lemma Rltb_iff (x y : R) : Rltb x y = true <-> (x < y)%R.
Proof.
  unfold Rltb. destruct (Rlt_dec x y); split; intro H; try reflexivity;
    try assumption; try discriminate; contradiction.
Qed.

Lemma Rleb_true (x y : R) : (x <= y)%R -> Rleb x y = true.
Proof. intro H. unfold Rleb. destruct (Rle_dec x y); [reflexivity | contradiction]. Qed.

Lemma Rleb_false (x y : R) : (y < x)%R -> Rleb x y = false.
Proof. intro H. unfold Rleb. destruct (Rle_dec x y); [lra | reflexivity]. Qed.

Lemma Rleb_iff (x y : R) : Rleb x y = true <-> (x <= y)%R.
Proof.
  unfold Rleb. destruct (Rle_dec x y); split; intro H; try reflexivity;
    try assumption; try discriminate; contradiction.
Qed.

(** Decide the comparisons of real constants that a goal contains. *)
Ltac rcompare :=
  repeat match goal with
    | |- context [Rltb ?x ?y] =>
        first [ rewrite (Rltb_true x y) by lra | rewrite (Rltb_false x y) by lra ]
    | |- context [Rleb ?x ?y] =>
        first [ rewrite (Rleb_true x y) by lra | rewrite (Rleb_false x y) by lra ]
    end.

(** ** The scorer *)

Lemma usefulness_is_spec_score (m : Memory.t) (now : Z) :
  usefulness m now = Spec.score m now.
Proof.
  unfold usefulness, Spec.score, Spec.clamp, Spec.rawScore, Spec.helpfulRatio,
    Spec.recencyBoost, Spec.accessBoost, Spec.daysSinceLastAccess,
    Math_min, Math_max.
  match goal with
  | |- Rmin _ (Rmax _ ?a) = (if Rlt_dec ?b _ then _ else _) =>
      replace b with a by ring; generalize a; intro x
  end.
  unfold Rmin, Rmax.
  destruct (Rlt_dec x 1.0); destruct (Rle_dec 1.0 x); try lra;
    destruct (Rlt_dec 9.0 x); try lra.
  - destruct (Rle_dec 9.0 1.0); lra.
  - destruct (Rle_dec 9.0 x); lra.
  - destruct (Rle_dec 9.0 x); lra.
Qed.

Lemma spec_score_bounds (m : Memory.t) (now : Z) :
  (1 <= Spec.score m now <= 9)%R.
Proof.
  unfold Spec.score, Spec.clamp.
  destruct (Rlt_dec (Spec.rawScore m now) 1.0); [lra|].
  destruct (Rlt_dec 9.0 (Spec.rawScore m now)); lra.
Qed.

Lemma usefulness_set_score (s : R) (t : Z) (m : Memory.t) (now : Z) :
  usefulness (Memory.set_score s t m) now = usefulness m now.
Proof. reflexivity. Qed.

(** *** Rows and primary keys *)

Lemma find_id_unique (ms : list Memory.t) (m : Memory.t) :
  NoDup (map Memory.id ms) -> In m ms ->
  find (fun x => Memory.id x =? Memory.id m) ms = Some m.
Proof.
  induction ms as [|x ms IH]; intros Hnd Hin; [contradiction|].
  simpl in *. inversion Hnd as [|? ? Hnotin Hnd']; subst.
  destruct Hin as [->|Hin].
  - now rewrite Z.eqb_refl.
  - destruct (Z.eqb_spec (Memory.id x) (Memory.id m)) as [E|E].
    + exfalso. apply Hnotin. rewrite E. now apply in_map.
    + now apply IH.
Qed.

Lemma select_memory_In (db : Db) (m : Memory.t) :
  NoDup (map Memory.id (memories db)) -> In m (memories db) ->
  select_memory (Memory.id m) db = Some m.
Proof. intros. unfold select_memory. now apply find_id_unique. Qed.

Lemma find_none_map_id (ms : list Memory.t) (id : Z) (f : Memory.t -> Memory.t) :
  find (fun x => Memory.id x =? id) ms = None ->
  map (fun x => if Memory.id x =? id then f x else x) ms = ms.
Proof.
  induction ms as [|x ms IH]; simpl; intro H; [reflexivity|].
  destruct (Memory.id x =? id); [discriminate|]. now rewrite IH.
Qed.

Lemma find_map_preserving
  (ms : list Memory.t) (id : Z) (f : Memory.t -> Memory.t) :
  (forall x, Memory.id (f x) = Memory.id x) ->
  find (fun x => Memory.id x =? id) (map (fun x => if Memory.id x =? id then f x else x) ms)
  = option_map f (find (fun x => Memory.id x =? id) ms).
Proof.
  intro Hid. induction ms as [|x ms IH]; simpl; [reflexivity|].
  destruct (Memory.id x =? id) eqn:E.
  - now rewrite Hid, E.
  - now rewrite E.
Qed.

Lemma find_map_other
  (ms : list Memory.t) (id id' : Z) (f : Memory.t -> Memory.t) :
  (forall x, Memory.id (f x) = Memory.id x) -> id' <> id ->
  find (fun x => Memory.id x =? id') (map (fun x => if Memory.id x =? id then f x else x) ms)
  = find (fun x => Memory.id x =? id') ms.
Proof.
  intros Hid Hne. induction ms as [|x ms IH]; simpl; [reflexivity|].
  destruct (Z.eqb_spec (Memory.id x) id) as [E|E].
  - rewrite Hid. destruct (Z.eqb_spec (Memory.id x) id'); [congruence | exact IH].
  - destruct (Memory.id x =? id'); [reflexivity | exact IH].
Qed.

Lemma map_id_update (ms : list Memory.t) (id : Z) (f : Memory.t -> Memory.t) :
  (forall x, Memory.id (f x) = Memory.id x) ->
  map Memory.id (map (fun x => if Memory.id x =? id then f x else x) ms)
  = map Memory.id ms.
Proof.
  intro Hid. rewrite map_map. apply map_ext. intro x.
  destruct (Memory.id x =? id); [apply Hid | reflexivity].
Qed.

(** *** One invocation *)

Lemma updateUsefulnessScore_run (memoryId now : Z) (db : Db) :
  updateUsefulnessScore memoryId now db =
  match select_memory memoryId db with
  | None => (Ok 5.0%R, db)
  | Some row =>
      (Ok (usefulness row now),
       update_memory memoryId (Memory.set_score (usefulness row now) now) db)
  end.
Proof.
  unfold updateUsefulnessScore, bind, get.
  destruct (select_memory memoryId db); reflexivity.
Qed.

(** *** The batch pass *)

Lemma with_memories_memories (ms : list Memory.t) (seq : Z) (db : Db) :
  memories (with_memories ms seq db) = ms.
Proof. reflexivity. Qed.

Lemma mem_Z_In (x : Z) (l : list Z) : mem_Z x l = true <-> In x l.
Proof.
  unfold mem_Z. rewrite existsb_exists. split.
  - intros (y & Hy & E). apply Z.eqb_eq in E. now subst.
  - intro H. exists x. split; [exact H | apply Z.eqb_refl].
Qed.

Lemma mem_Z_not_In (x : Z) (l : list Z) : ~ In x l -> mem_Z x l = false.
Proof.
  intro H. destruct (mem_Z x l) eqn:E; [|reflexivity].
  apply mem_Z_In in E. contradiction.
Qed.

Lemma rescore_in_cons (id : Z) (ids : list Z) (now : Z) (x : Memory.t) :
  ~ In id ids ->
  rescore_in ids now (rescore_in [id] now x) = rescore_in (id :: ids) now x.
Proof.
  intro Hnotin. unfold rescore_in at 2 3. unfold mem_Z. cbn [existsb].
  rewrite orb_false_r. rewrite (Z.eqb_sym (Memory.id x) id).
  destruct (Z.eqb_spec id (Memory.id x)) as [E|E]; cbn [orb].
  - unfold rescore_in. cbn [Memory.id Memory.set_score].
    rewrite <- E, (mem_Z_not_In id ids Hnotin). reflexivity.
  - unfold rescore_in, mem_Z. reflexivity.
Qed.

Lemma decay_step (now : Z) (id : Z) (ids : list Z) (db : Db) :
  forM_ (id :: ids) (fun id => updateUsefulnessScore id now ;;; ret tt) db
  = forM_ ids (fun id => updateUsefulnessScore id now ;;; ret tt)
      (snd (updateUsefulnessScore id now db)).
Proof.
  cbn [forM_]. rewrite !run_bind, updateUsefulnessScore_run.
  destruct (select_memory id db); reflexivity.
Qed.

Lemma rescored_memories (now : Z) (id : Z) (db : Db) :
  NoDup (map Memory.id (memories db)) ->
  memories (snd (updateUsefulnessScore id now db))
  = map (rescore_in [id] now) (memories db).
Proof.
  intro Hnd. rewrite updateUsefulnessScore_run.
  destruct (select_memory id db) as [row|] eqn:Hsel; cbn [snd].
  - unfold update_memory. rewrite with_memories_memories.
    apply map_ext_in. intros x Hx. unfold rescore_in. cbn [mem_Z existsb].
    rewrite orb_false_r.
    destruct (Z.eqb_spec (Memory.id x) id) as [E|E].
    + assert (Hx' : select_memory id db = Some x).
      { rewrite <- E. now apply select_memory_In. }
      assert (row = x) by congruence. now subst row.
    + reflexivity.
  - unfold select_memory in Hsel.
    rewrite <- (find_none_map_id (memories db) id
                  (fun m => Memory.set_score (usefulness m now) now m) Hsel) at 1.
    apply map_ext. intro x. unfold rescore_in. cbn [mem_Z existsb].
    now rewrite orb_false_r.
Qed.

Lemma rescored_frame (now : Z) (id : Z) (db : Db) :
  memory_feedback (snd (updateUsefulnessScore id now db)) = memory_feedback db
  /\ memory_relationships (snd (updateUsefulnessScore id now db))
     = memory_relationships db.
Proof.
  rewrite updateUsefulnessScore_run.
  destruct (select_memory id db); split; reflexivity.
Qed.

Lemma decay_loop_memories (now : Z) (ids : list Z) : forall db : Db,
  NoDup ids -> NoDup (map Memory.id (memories db)) ->
  fst (forM_ ids (fun id => updateUsefulnessScore id now ;;; ret tt) db) = Ok tt
  /\ memories (snd (forM_ ids (fun id => updateUsefulnessScore id now ;;; ret tt) db))
     = map (rescore_in ids now) (memories db)
  /\ memory_feedback (snd (forM_ ids (fun id => updateUsefulnessScore id now ;;; ret tt) db))
     = memory_feedback db
  /\ memory_relationships (snd (forM_ ids (fun id => updateUsefulnessScore id now ;;; ret tt) db))
     = memory_relationships db.
Proof.
  induction ids as [|id ids IH]; intros db Hids Hdb.
  - simpl. repeat split; try reflexivity.
    unfold rescore_in. simpl. now rewrite map_id.
  - inversion Hids as [|? ? Hnotin Hids']; subst.
    rewrite decay_step.
    set (db1 := snd (updateUsefulnessScore id now db)).
    assert (Hm1 : memories db1 = map (rescore_in [id] now) (memories db))
      by now apply rescored_memories.
    assert (Hnd1 : NoDup (map Memory.id (memories db1))).
    { rewrite Hm1, map_map.
      replace (map (fun x => Memory.id (rescore_in [id] now x)) (memories db))
        with (map Memory.id (memories db)); [exact Hdb|].
      apply map_ext. intro x. unfold rescore_in.
      now destruct (mem_Z (Memory.id x) [id]). }
    destruct (IH db1 Hids' Hnd1) as (Hok & Hms & Hfs & Hrs).
    destruct (rescored_frame now id db) as [Hf1 Hr1]. fold db1 in Hf1, Hr1.
    repeat split.
    + exact Hok.
    + rewrite Hms, Hm1, map_map. apply map_ext. intro x.
      now apply rescore_in_cons.
    + now rewrite Hfs.
    + now rewrite Hrs.
Qed.

Lemma NoDup_map_filter {K V : Type} (key : V -> K) (keep : V -> bool) (rows : list V) :
  NoDup (map key rows) -> NoDup (map key (filter keep rows)).
Proof.
  induction rows as [|row rows IH]; simpl; intro Hkeys; [constructor|].
  inversion Hkeys as [|? ? Hfresh Hrest]; subst.
  destruct (keep row); [|now apply IH].
  simpl. constructor; [|now apply IH].
  intro Hin. apply Hfresh. apply in_map_iff in Hin.
  destruct Hin as (other & Hkey & Hin). apply filter_In in Hin.
  apply in_map_iff. exists other. tauto.
Qed.

Lemma mem_Z_active_ids (ms : list Memory.t) (m : Memory.t) :
  NoDup (map Memory.id ms) -> In m ms ->
  mem_Z (Memory.id m)
    (map Memory.id (filter (fun x => is_active (Memory.status x)) ms))
  = is_active (Memory.status m).
Proof.
  intros Hnd Hin. unfold mem_Z.
  destruct (is_active (Memory.status m)) eqn:Ha.
  - apply existsb_exists. exists (Memory.id m). split; [|apply Z.eqb_refl].
    apply in_map. apply filter_In. tauto.
  - destruct (existsb _ _) eqn:Ex; [|reflexivity].
    apply existsb_exists in Ex. destruct Ex as (y & Hy & Hxy).
    apply Z.eqb_eq in Hxy. subst y.
    apply in_map_iff in Hy. destruct Hy as (x & Hid & Hx).
    apply filter_In in Hx. destruct Hx as [Hx Hact].
    assert (x = m).
    { pose proof (find_id_unique ms m Hnd Hin) as F1.
      pose proof (find_id_unique ms x Hnd Hx) as F2.
      rewrite Hid in F2. congruence. }
    subst x. congruence.
Qed.

Lemma applyDecayToAll_memories (now : Z) (db : Db) :
  NoDup (map Memory.id (memories db)) ->
  memories (snd (applyDecayToAll now db)) =
  map (fun m => if is_active (Memory.status m)
                then Memory.set_score (Spec.score m now) now m
                else m)
      (memories db).
Proof.
  intro Hnd. unfold applyDecayToAll. rewrite run_bind. unfold get at 1.
  cbn iota beta. rewrite run_bind.
  set (ids := map Memory.id (filter (fun m => is_active (Memory.status m)) (memories db))).
  assert (Hids : NoDup ids) by (apply NoDup_map_filter; exact Hnd).
  destruct (decay_loop_memories now ids db Hids Hnd) as (Hok & Hms & _).
  destruct (forM_ ids _ db) as [r db'] eqn:Hrun. cbn [fst snd] in Hok, Hms. subst r.
  cbn [ret snd]. rewrite Hms. apply map_ext_in. intros m Hm.
  unfold rescore_in, ids. rewrite mem_Z_active_ids by assumption.
  now rewrite usefulness_is_spec_score.
Qed.

Lemma find_map_id (ms : list Memory.t) (id : Z) (g : Memory.t -> Memory.t) :
  (forall x, Memory.id (g x) = Memory.id x) ->
  find (fun x => Memory.id x =? id) (map g ms)
  = option_map g (find (fun x => Memory.id x =? id) ms).
Proof.
  intro Hid. induction ms as [|x ms IH]; simpl; [reflexivity|].
  rewrite Hid. destruct (Memory.id x =? id); [reflexivity | exact IH].
Qed.

(** C1. A Scorer invocation on a memory [m] of the store
    ([updateUsefulnessScore], or the batch pass [applyDecayToAll] for an
    active [m]) returns and stores clamp(importance * (0.5 + 0.3 *
    helpfulRatio + 0.15 * recencyBoost + 0.05 * accessBoost), 1.0, 9.0),
    with helpfulRatio = (timesHelpful+1)/(timesHelpful+timesUnhelpful+2),
    recencyBoost = 0.98^min(daysSinceLastAccess, 365) and accessBoost =
    ln(accessCount+1)/10, that is [Spec.score m now]: afterwards the
    memory's row has [usefulness_score] equal to that number and
    [last_decay] equal to the time of the invocation, its other columns
    being as before; the score lies in [1.0, 9.0]; and for importance 5,
    no feedback, accessed just now and never retrieved it is 4.0.  Numbers
    are read as reals. *)
Theorem scorer_sets_clamped_score (db : Db) (now : Z) (m : Memory.t) :
  NoDup (map Memory.id (memories db)) ->
  In m (memories db) ->
  updateUsefulnessScore (Memory.id m) now db
  = (Ok (Spec.score m now),
     update_memory (Memory.id m) (Memory.set_score (Spec.score m now) now) db)
  /\ select_memory (Memory.id m)
       (snd (updateUsefulnessScore (Memory.id m) now db))
     = Some (Memory.set_score (Spec.score m now) now m)
  /\ stores_score (snd (updateUsefulnessScore (Memory.id m) now db))
       m (Spec.score m now) now
  /\ (Memory.status m = active ->
      In (Memory.set_score (Spec.score m now) now m)
         (memories (snd (applyDecayToAll now db))))
  /\ (Memory.status m = active ->
      stores_score (snd (applyDecayToAll now db)) m (Spec.score m now) now)
  /\ (Memory.status m <> active ->
      select_memory (Memory.id m) (snd (applyDecayToAll now db)) = Some m)
  /\ (1.0 <= Spec.score m now <= 9.0)%R
  /\ (Memory.importance m = 5 -> Memory.times_helpful m = 0 ->
      Memory.times_unhelpful m = 0 -> Memory.accessed_at m = now ->
      Memory.access_count m = 0 -> Spec.score m now = 4.0%R).
Proof.
  intros Hnd Hin.
  assert (Hrun : updateUsefulnessScore (Memory.id m) now db
                 = (Ok (Spec.score m now),
                    update_memory (Memory.id m)
                      (Memory.set_score (Spec.score m now) now) db)).
  { rewrite updateUsefulnessScore_run, (select_memory_In db m Hnd Hin).
    now rewrite usefulness_is_spec_score. }
  assert (Hsel : select_memory (Memory.id m)
                   (snd (updateUsefulnessScore (Memory.id m) now db))
                 = Some (Memory.set_score (Spec.score m now) now m)).
  { rewrite Hrun. cbn [snd]. unfold select_memory, update_memory.
    rewrite with_memories_memories, find_map_preserving by reflexivity.
    fold (select_memory (Memory.id m) db).
    now rewrite (select_memory_In db m Hnd Hin). }
  assert (Hall : select_memory (Memory.id m) (snd (applyDecayToAll now db))
                 = Some (if is_active (Memory.status m)
                         then Memory.set_score (Spec.score m now) now m
                         else m)).
  { unfold select_memory. rewrite applyDecayToAll_memories by exact Hnd.
    rewrite find_map_id by (intro x; now destruct (is_active (Memory.status x))).
    fold (select_memory (Memory.id m) db).
    now rewrite (select_memory_In db m Hnd Hin). }
  split; [exact Hrun|]. split; [exact Hsel|].
  split; [|split; [|split; [|split; [|split]]]].
  - exists (Memory.set_score (Spec.score m now) now m).
    split; [exact Hsel|]. repeat split.
  - intro Hact. rewrite applyDecayToAll_memories by exact Hnd.
    apply in_map_iff. exists m. split; [|exact Hin].
    now rewrite Hact.
  - intro Hact. rewrite Hact in Hall.
    exists (Memory.set_score (Spec.score m now) now m).
    split; [exact Hall|]. repeat split.
  - intro Hact. rewrite Hall.
    destruct (Memory.status m); try reflexivity. now contradiction Hact.
  - pose proof (spec_score_bounds m now). lra.
  - intros Hi Hh Hu Ha Hc.
    unfold Spec.score, Spec.rawScore, Spec.helpfulRatio, Spec.recencyBoost,
      Spec.accessBoost, Spec.daysSinceLastAccess.
    rewrite Hi, Hh, Hu, Ha, Hc, Z.sub_diag. cbn [Z.add Pos.add].
    replace (0 / IZR DAY_MS)%R with 0%R by (unfold Rdiv; ring).
    rewrite Rmin_left by lra.
    rewrite Rpower_O by lra. rewrite ln_1.
    unfold Spec.clamp.
    destruct (Rlt_dec _ 1.0) as [H|H]; [exfalso; lra|].
    destruct (Rlt_dec 9.0 _) as [H'|H']; [exfalso; lra|]. lra.
Qed.

Lemma scorer_sets_clamped_score_witness :
  fst (updateUsefulnessScore 1 1000 (db_C1 1000)) = Ok 4.0%R
  /\ option_map Memory.usefulness_score
       (select_memory 1 (snd (updateUsefulnessScore 1 1000 (db_C1 1000))))
     = Some 4.0%R
  /\ option_map Memory.last_decay
       (select_memory 1 (snd (updateUsefulnessScore 1 1000 (db_C1 1000))))
     = Some (Some 1000)
  /\ option_map Memory.usefulness_score
       (select_memory 1 (snd (applyDecayToAll 1000 (db_C1 1000))))
     = Some 4.0%R
  /\ option_map Memory.usefulness_score (select_memory 1 (db_C1 1000))
     = Some 5.0%R
  /\ (1.0 <= Spec.score (memory_C1 1000) 1000 <= 9.0)%R.
Proof.
  assert (Hnd : NoDup (map Memory.id (memories (db_C1 1000)))).
  { simpl. constructor; [intros []| constructor]. }
  assert (Hin : In (memory_C1 1000) (memories (db_C1 1000))) by (left; reflexivity).
  destruct (scorer_sets_clamped_score (db_C1 1000) 1000 (memory_C1 1000) Hnd Hin)
    as (Hrun & _ & (m1 & Hs1 & Hu1 & Hd1 & _) & _ & Hall & _ & Hb & Hex).
  destruct (Hall eq_refl) as (m2 & Hs2 & Hu2 & _).
  assert (H4 : Spec.score (memory_C1 1000) 1000 = 4.0%R) by (apply Hex; reflexivity).
  change (Memory.id (memory_C1 1000)) with 1 in Hrun, Hs1, Hs2.
  rewrite Hs1, Hs2, Hrun. cbn [fst option_map].
  rewrite Hu1, Hd1, Hu2.
  split; [now rewrite H4|]. split; [now rewrite H4|].
  split; [reflexivity|]. split; [now rewrite H4|].
  split; [reflexivity | exact Hb].
Defined.

(** ** Reading a memory and recording feedback *)

Lemma select_memory_update_same (id : Z) (f : Memory.t -> Memory.t) (db : Db) :
  (forall x, Memory.id (f x) = Memory.id x) ->
  select_memory id (update_memory id f db) = option_map f (select_memory id db).
Proof.
  intro Hid. unfold select_memory, update_memory.
  rewrite with_memories_memories. now apply find_map_preserving.
Qed.

Lemma memory_exists_select (id : Z) (db : Db) :
  memory_exists id db = match select_memory id db with Some _ => true | None => false end.
Proof.
  unfold memory_exists, select_memory.
  induction (memories db) as [|x ms IH]; simpl; [reflexivity|].
  destruct (Memory.id x =? id); [reflexivity | exact IH].
Qed.

Lemma getMemory_run (id now : Z) (db : Db) :
  getMemory id now db =
  match select_memory id db with
  | None => (Ok None, db)
  | Some row => (Ok (Some row), update_memory id (Memory.touch now) db)
  end.
Proof.
  unfold getMemory, bind, get. destruct (select_memory id db); reflexivity.
Qed.

Lemma update_memory_identity (id : Z) (db : Db) :
  update_memory id (fun m => m) db = db.
Proof.
  unfold update_memory, with_memories. destruct db as [fk ms sq es al fs fq rs rq].
  cbn. f_equal. rewrite <- (map_id ms) at 2. apply map_ext.
  intro x. now destruct (Memory.id x =? id).
Qed.

Lemma recordFeedback_run
  (memoryId : Z) (fb : FeedbackType) (context : option string) (now : Z) (db : Db) :
  recordFeedback memoryId fb context now db =
  if foreign_keys db && negb (memory_exists memoryId db)
  then (Throw FOREIGN_KEY_FAILED, db)
  else
    let ev := feedback_event memoryId fb context now db in
    (Ok ev,
     snd (updateUsefulnessScore memoryId now
            (update_memory memoryId (bump fb)
               (with_feedback (memory_feedback db ++ [ev]) (MemoryFeedback.id ev) db)))).
Proof.
  unfold recordFeedback, insert_memory_feedback.
  rewrite !run_bind. unfold get at 1. cbn iota beta.
  destruct (foreign_keys db && negb (memory_exists memoryId db)); [reflexivity|].
  rewrite !run_bind. unfold put at 1, ret at 1. cbn iota beta.
  set (db1 := with_feedback _ _ db).
  assert (Hb : forall k : M MemoryFeedback.t,
    ((match fb with
      | helpful => db0 <- get;; put (update_memory memoryId Memory.incr_helpful db0)
      | outdated => ret tt
      | _ => db0 <- get;; put (update_memory memoryId Memory.incr_unhelpful db0)
      end);;; k) db1 = k (update_memory memoryId (bump fb) db1)).
  { intro k. rewrite run_bind.
    destruct fb; cbn; try reflexivity. now rewrite update_memory_identity. }
  rewrite Hb, run_bind, updateUsefulnessScore_run.
  cbv zeta. unfold feedback_event. fold db1.
  destruct (select_memory memoryId (update_memory memoryId (bump fb) db1));
    reflexivity.
Qed.

Lemma bump_id (fb : FeedbackType) (m : Memory.t) :
  Memory.id (bump fb m) = Memory.id m.
Proof. now destruct fb. Qed.

Lemma select_memory_with_feedback (id : Z) fs seq (db : Db) :
  select_memory id (with_feedback fs seq db) = select_memory id db.
Proof. reflexivity. Qed.

Lemma select_memory_initializeSchema (id : Z) (db : Db) :
  select_memory id (initializeSchema db) = select_memory id db.
Proof. reflexivity. Qed.

Lemma select_after_rescore (memoryId now : Z) (db : Db) :
  select_memory memoryId (snd (updateUsefulnessScore memoryId now db))
  = option_map (fun r => Memory.set_score (usefulness r now) now r)
      (select_memory memoryId db).
Proof.
  rewrite updateUsefulnessScore_run.
  destruct (select_memory memoryId db) as [row|] eqn:Hsel; cbn [snd option_map].
  - rewrite select_memory_update_same by reflexivity. now rewrite Hsel.
  - exact Hsel.
Qed.

Lemma select_after_feedback
  (memoryId : Z) (fb : FeedbackType) (context : option string) (now : Z)
  (db0 : Db) (m : Memory.t) :
  select_memory memoryId db0 = Some m ->
  select_memory memoryId (after_feedback memoryId fb context now db0)
  = Some (Memory.touch now
            (Memory.set_score (usefulness (bump fb (Memory.touch now m)) now) now
               (bump fb (Memory.touch now m)))).
Proof.
  intro Hsel. unfold after_feedback. cbv zeta.
  rewrite select_memory_update_same by reflexivity.
  rewrite select_after_rescore.
  rewrite select_memory_update_same by apply bump_id.
  rewrite select_memory_with_feedback.
  rewrite select_memory_update_same by reflexivity.
  now rewrite Hsel.
Qed.

Lemma feedback_loop_existing
  (memoryId : Z) (rest : list Z) (fb : FeedbackType) (context : option string)
  (now : Z) (warnings : list string) (updated : list MemoryUpdated)
  (db0 : Db) (m : Memory.t) :
  foreign_keys db0 = true ->
  select_memory memoryId db0 = Some m ->
  feedback_loop (memoryId :: rest) fb context now warnings updated db0
  = let u := Memory.set_score (usefulness (bump fb (Memory.touch now m)) now) now
               (bump fb (Memory.touch now m)) in
    feedback_loop rest fb context now warnings
      (updated ++ [Build_MemoryUpdated memoryId (Memory.usefulness_score u)
                     (Memory.times_helpful u) (Memory.times_unhelpful u)])
      (after_feedback memoryId fb context now db0).
Proof.
  intros Hfk Hsel. cbn [feedback_loop].
  rewrite run_bind, getMemory_run, Hsel. cbn iota beta.
  set (db1 := update_memory memoryId (Memory.touch now) db0).
  rewrite run_bind, recordFeedback_run.
  assert (Hsel1 : select_memory memoryId db1 = Some (Memory.touch now m)).
  { unfold db1. rewrite select_memory_update_same by reflexivity. now rewrite Hsel. }
  assert (Hex : memory_exists memoryId db1 = true).
  { now rewrite memory_exists_select, Hsel1. }
  rewrite Hex, andb_false_r. cbv zeta. cbn iota beta.
  set (db2 := snd (updateUsefulnessScore memoryId now _)).
  rewrite run_bind, getMemory_run.
  assert (Hsel2 : select_memory memoryId db2
                  = Some (Memory.set_score (usefulness (bump fb (Memory.touch now m)) now) now
                            (bump fb (Memory.touch now m)))).
  { unfold db2. rewrite select_after_rescore.
    rewrite select_memory_update_same by apply bump_id.
    rewrite select_memory_with_feedback, Hsel1. reflexivity. }
  rewrite Hsel2. cbn iota beta. reflexivity.
Qed.

Lemma feedback_loop_missing
  (memoryId : Z) (rest : list Z) (fb : FeedbackType) (context : option string)
  (now : Z) (warnings : list string) (updated : list MemoryUpdated) (db0 : Db) :
  select_memory memoryId db0 = None ->
  feedback_loop (memoryId :: rest) fb context now warnings updated db0
  = feedback_loop rest fb context now
      (warnings ++ [("Memory #" ++ show_Z memoryId ++ " not found")%string])
      updated db0.
Proof.
  intro Hsel. cbn [feedback_loop].
  rewrite run_bind, getMemory_run, Hsel. reflexivity.
Qed.

Lemma feedback_run_ids
  (memoryId : Z) (rest : list Z) (fb : FeedbackType) (context : option string)
  (now : Z) (db : Db) :
  feedback (Build_FeedbackInput (Some (memoryId :: rest)) (Some fb) context) now db
  = match feedback_loop (memoryId :: rest) fb context now [] [] (initializeSchema db) with
    | (Ok (warnings, memoriesUpdated), db') =>
        (Ok (Build_FeedbackResult true (Z.of_nat (List.length memoriesUpdated))
               memoriesUpdated (some_if_nonempty warnings)), db')
    | (Throw e, db') => (Throw e, db')
    end.
Proof.
  unfold feedback. cbn [fi_memoryIds fi_feedback fi_context].
  rewrite run_bind. unfold get at 1. cbn iota beta.
  rewrite run_bind. unfold put at 1. cbn iota beta.
  rewrite run_bind.
  destruct (feedback_loop (memoryId :: rest) fb context now [] [] (initializeSchema db))
    as [[[ws mu]|e] db']; reflexivity.
Qed.

(** C10. A [getMemory] lookup of a memory [m] of the store, whatever its
    status, returns the row as it was and leaves it with [accessedAt = now]
    and [accessCount] one higher; the feedback tool reads the memory before
    and after recording, so one feedback event leaves [accessCount] two
    higher, and the score it stores is computed from the row as the first
    read left it (accessed now, one more access). *)
Theorem getMemory_counts_every_lookup
  (db : Db) (now : Z) (m : Memory.t) (fb : FeedbackType) (context : option string) :
  NoDup (map Memory.id (memories db)) ->
  In m (memories db) ->
  getMemory (Memory.id m) now db
  = (Ok (Some m), update_memory (Memory.id m) (Memory.touch now) db)
  /\ select_memory (Memory.id m) (snd (getMemory (Memory.id m) now db))
     = Some (Memory.touch now m)
  /\ Memory.accessed_at (Memory.touch now m) = now
  /\ Memory.access_count (Memory.touch now m) = Memory.access_count m + 1
  /\ Memory.status (Memory.touch now m) = Memory.status m
  /\ (let read := bump fb (Memory.touch now m) in
      let stored :=
        Memory.touch now (Memory.set_score (Spec.score read now) now read) in
      select_memory (Memory.id m)
        (snd (feedback
                (Build_FeedbackInput (Some [Memory.id m]) (Some fb) context)
                now db))
      = Some stored
      /\ Memory.access_count stored = Memory.access_count m + 2
      /\ Memory.accessed_at stored = now
      /\ Memory.access_count read = Memory.access_count m + 1
      /\ Memory.accessed_at read = now).
Proof.
  intros Hnd Hin.
  pose proof (select_memory_In db m Hnd Hin) as Hsel.
  assert (Hget : getMemory (Memory.id m) now db
                 = (Ok (Some m), update_memory (Memory.id m) (Memory.touch now) db)).
  { now rewrite getMemory_run, Hsel. }
  split; [exact Hget|]. split; [|split; [|split; [|split]]]; try reflexivity.
  - rewrite Hget. cbn [snd]. rewrite select_memory_update_same by reflexivity.
    now rewrite Hsel.
  - cbv zeta. split; [|split; [|split; [|split]]].
    + rewrite feedback_run_ids.
      rewrite (feedback_loop_existing (Memory.id m) [] fb context now [] []
                 (initializeSchema db) m eq_refl Hsel).
      cbv zeta. cbn [feedback_loop ret snd].
      rewrite (select_after_feedback _ _ _ _ _ m) by exact Hsel.
      now rewrite usefulness_is_spec_score.
    + destruct fb; cbn; lia.
    + destruct fb; reflexivity.
    + destruct fb; reflexivity.
    + destruct fb; reflexivity.
Qed.

Lemma getMemory_counts_every_lookup_witness :
  exists stored,
    select_memory 7
      (snd (feedback (Build_FeedbackInput (Some [7]) (Some helpful) None) 5000 db_C10))
    = Some stored
    /\ Memory.access_count stored = 5 /\ Memory.accessed_at stored = 5000.
Proof.
  assert (Hnd : NoDup (map Memory.id (memories db_C10))).
  { simpl. constructor; [intros []| constructor]. }
  destruct (getMemory_counts_every_lookup db_C10 5000
              (Memory.mk 7 T_lesson "x" None global None 5 0 100 3 5.0%R 0 0
                 archived None 1 None)
              helpful None Hnd (or_introl eq_refl))
    as (_ & _ & _ & _ & _ & Hsel & Hc & Ha & _).
  eexists. split; [exact Hsel|]. split; [exact Hc | exact Ha].
Defined.

(** *** Feedback for an id that does not resolve *)

Lemma feedback_loop_all_missing
  (fb : FeedbackType) (context : option string) (now : Z) (db0 : Db)
  (memoryIds : list Z) : forall (warnings : list string) (updated : list MemoryUpdated),
  (forall id, In id memoryIds -> select_memory id db0 = None) ->
  feedback_loop memoryIds fb context now warnings updated db0
  = (Ok (warnings ++ map not_found_warning memoryIds, updated), db0).
Proof.
  induction memoryIds as [|id rest IH]; intros warnings updated Hmiss.
  - cbn. now rewrite app_nil_r.
  - rewrite feedback_loop_missing by (apply Hmiss; now left).
    rewrite IH by (intros id' Hin; apply Hmiss; now right).
    cbn [map]. now rewrite <- app_assoc.
Qed.

(** C4, as stated, fails: for the unknown id 99 the only exception
    [recordFeedback] can raise is SQLite's foreign-key failure (the code
    has no not-found error), it is raised only on a connection that
    enforces foreign keys (with [foreign_keys] off the event is appended), and
    the feedback tool does not fail at all: it returns success with a
    warning. *)
Lemma recordFeedback_unknown_id_counterexample :
  select_memory 99 db_C4 = None
  /\ recordFeedback 99 helpful None 1000 db_C4
     = (Throw (SqliteError "SQLITE_CONSTRAINT_FOREIGNKEY"), db_C4)
  /\ fst (recordFeedback 99 helpful None 1000 db_C4_unenforced)
     = Ok (MemoryFeedback.mk 1 99 helpful None 1000)
  /\ memory_feedback (snd (recordFeedback 99 helpful None 1000 db_C4_unenforced))
     = [MemoryFeedback.mk 1 99 helpful None 1000]
  /\ fst (feedback (Build_FeedbackInput (Some [99]) (Some helpful) None) 1000 db_C4)
     = Ok (Build_FeedbackResult true 0 [] (Some ["Memory #99 not found"])).
Proof.
  split; [reflexivity|]. split; [|split; [|split]].
  - rewrite recordFeedback_run. reflexivity.
  - rewrite recordFeedback_run. reflexivity.
  - rewrite recordFeedback_run. reflexivity.
  - rewrite feedback_run_ids.
    rewrite feedback_loop_all_missing.
    + reflexivity.
    + intros id [<-|[]]. reflexivity.
Qed.

(** C4, amended.  For ids that do not resolve, the feedback tool does not
    fail: it skips each of them with the warning "Memory #id not found",
    records nothing and leaves every table as it was; [recordFeedback]
    itself checks nothing, and on a connection that enforces foreign keys
    (every connection [openGlobalDb] returns) its INSERT is rejected with
    SQLite's foreign-key error before anything is written. *)
Theorem feedback_unknown_id_changes_nothing
  (db : Db) (memoryId : Z) (rest : list Z) (fb : FeedbackType)
  (context : option string) (now : Z) :
  (forall id, In id (memoryId :: rest) -> select_memory id db = None) ->
  feedback (Build_FeedbackInput (Some (memoryId :: rest)) (Some fb) context) now db
  = (Ok (Build_FeedbackResult true 0 []
           (Some (map not_found_warning (memoryId :: rest)))),
     initializeSchema db)
  /\ memories (initializeSchema db) = memories db
  /\ memory_feedback (initializeSchema db) = memory_feedback db
  /\ memory_relationships (initializeSchema db) = memory_relationships db
  /\ recordFeedback memoryId fb context now (initializeSchema db)
     = (Throw FOREIGN_KEY_FAILED, initializeSchema db).
Proof.
  intro Hmiss.
  split; [|split; [|split; [|split]]]; try reflexivity.
  - rewrite feedback_run_ids.
    rewrite feedback_loop_all_missing by exact Hmiss.
    reflexivity.
  - rewrite recordFeedback_run.
    rewrite memory_exists_select, select_memory_initializeSchema.
    rewrite (Hmiss memoryId) by now left.
    reflexivity.
Qed.

Lemma feedback_unknown_id_changes_nothing_witness :
  feedback (Build_FeedbackInput (Some [99; 100]) (Some unhelpful) None) 1000 db_C4
  = (Ok (Build_FeedbackResult true 0 []
           (Some ["Memory #99 not found"; "Memory #100 not found"])),
     db_C4).
Proof.
  refine (proj1 (feedback_unknown_id_changes_nothing db_C4 99 [100] unhelpful None 1000 _)).
  intros id [<-|[<-|[]]]; reflexivity.
Defined.

(** ** Sorting and limits *)

Lemma insert_by_perm {A} (leb : A -> A -> bool) (x : A) (l : list A) :
  Permutation (insert_by leb x l) (x :: l).
Proof.
  induction l as [|y l IH]; simpl; [reflexivity|].
  destruct (leb x y); [reflexivity|].
  rewrite IH. apply perm_swap.
Qed.

Lemma order_by_perm {A} (leb : A -> A -> bool) (l : list A) :
  Permutation (order_by leb l) l.
Proof.
  induction l as [|x l IH]; simpl; [reflexivity|].
  rewrite insert_by_perm. now constructor.
Qed.

Lemma order_by_In {A} (leb : A -> A -> bool) (l : list A) (x : A) :
  In x (order_by leb l) <-> In x l.
Proof.
  split; apply Permutation_in; [|symmetry]; apply order_by_perm.
Qed.

Lemma In_firstn {A} (n : nat) (l : list A) (x : A) :
  In x (firstn n l) -> In x l.
Proof.
  revert l. induction n as [|n IH]; intros [|y l] H; simpl in *; try contradiction.
  destruct H as [->|H]; [now left | right; now apply IH].
Qed.

Lemma sql_limit_In {A} (limit : Z) (l : list A) (x : A) :
  In x (sql_limit limit l) -> In x l.
Proof.
  unfold sql_limit. destruct (limit <? 0); [trivial|].
  apply In_firstn.
Qed.

Lemma sql_limit_length {A} (limit : Z) (l : list A) :
  0 <= limit -> (Z.of_nat (List.length (sql_limit limit l)) <= limit)%Z.
Proof.
  intro H. unfold sql_limit.
  destruct (Z.ltb_spec limit 0); [lia|].
  rewrite length_firstn. lia.
Qed.

(** ** Pruning *)

Lemma safety_filter_spec (now : Z) (l : list Memory.t) : forall ws,
  safety_filter now l ws
  = (filter (is_safe now) l, ws ++ flat_map (safety_warning now) l).
Proof.
  induction l as [|m l IH]; intro ws; cbn [safety_filter filter flat_map].
  - now rewrite app_nil_r.
  - unfold is_safe, safety_warning.
    destruct (8 <=? Memory.importance m); cbn [negb andb].
    + rewrite IH. now rewrite <- app_assoc.
    + destruct (daysSinceAccess (Memory.accessed_at m) now <? recentCutoff);
        cbn [negb].
      * rewrite IH. now rewrite <- app_assoc.
      * rewrite IH. reflexivity.
Qed.

Lemma low_usefulness_In (maxU maxDays : R) (limit now : Z) (db : Db) (m : Memory.t) :
  In m (getLowUsefulnessMemories maxU maxDays limit now db) ->
  In m (memories db)
  /\ Memory.status m = active
  /\ (Memory.usefulness_score m < maxU)%R
  /\ (IZR (Memory.accessed_at m) < IZR now - maxDays * 24 * 60 * 60 * 1000)%R
  /\ Memory.importance m < 8.
Proof.
  unfold getLowUsefulnessMemories. intro H.
  apply sql_limit_In in H. apply order_by_In in H. apply filter_In in H.
  destruct H as [Hin Hc].
  repeat (apply andb_prop in Hc; destruct Hc as [Hc ?]).
  repeat split; try assumption.
  - destruct (Memory.status m); try discriminate; reflexivity.
  - now apply Rltb_iff.
  - now apply Rltb_iff.
  - now apply Z.ltb_lt.
Qed.

Lemma prune_candidates_In
  (input : PruneInput) (projectHash : option string) (now : Z) (db : Db)
  (m : Memory.t) :
  In m (prune_candidates input projectHash now db) ->
  In m (memories db)
  /\ Memory.status m = active
  /\ (Memory.usefulness_score m < orElse (pi_minUsefulness input) 2.0)%R
  /\ (IZR (Memory.accessed_at m)
      < IZR now - orElse (pi_maxAge input) 90 * 24 * 60 * 60 * 1000)%R
  /\ Memory.importance m < 8.
Proof.
  unfold prune_candidates. cbv zeta. intro H.
  destruct (truthy projectHash).
  - apply filter_In in H. destruct H as [H _]. now apply low_usefulness_In in H.
  - now apply low_usefulness_In in H.
Qed.

Lemma prune_selection_eq
  (input : PruneInput) (projectHash : option string) (now : Z) (db : Db) :
  prune_selection input projectHash now db
  = filter (fun m => negb (daysSinceAccess (Memory.accessed_at m) now <? recentCutoff))
      (prune_candidates input projectHash now db).
Proof.
  unfold prune_selection. rewrite safety_filter_spec. cbn [fst].
  apply filter_ext_in. intros m Hm. unfold is_safe.
  apply prune_candidates_In in Hm. destruct Hm as (_ & _ & _ & _ & Hi).
  destruct (Z.leb_spec 8 (Memory.importance m)); [lia | reflexivity].
Qed.

(** The warnings the safety filter pushes: the query has already removed
    every memory of importance 8 or 9, so only recent accesses are named. *)
Lemma prune_warnings_eq
  (input : PruneInput) (projectHash : option string) (now : Z) (db : Db) :
  snd (safety_filter now (prune_candidates input projectHash now db) [])
  = map (recent_warning now)
      (filter (fun m => daysSinceAccess (Memory.accessed_at m) now <? recentCutoff)
         (prune_candidates input projectHash now db)).
Proof.
  rewrite safety_filter_spec. cbn [snd app].
  assert (H : forall m, In m (prune_candidates input projectHash now db) ->
                        Memory.importance m < 8).
  { intros m Hm. now apply prune_candidates_In in Hm. }
  induction (prune_candidates input projectHash now db) as [|m l IH];
    [reflexivity|].
  cbn [flat_map filter]. unfold safety_warning at 1.
  assert (Hm : Memory.importance m < 8) by (apply H; now left).
  destruct (Z.leb_spec 8 (Memory.importance m)); [lia|].
  rewrite IH by (intros x Hx; apply H; now right).
  destruct (daysSinceAccess (Memory.accessed_at m) now <? recentCutoff); reflexivity.
Qed.

Lemma deleteMemory_ok (id : Z) (db : Db) : fst (deleteMemory id db) = Ok (memory_exists id db).
Proof.
  unfold deleteMemory, bind, get, put, ret.
  destruct (foreign_keys db && memory_exists id db); reflexivity.
Qed.

Lemma archive_ok (id : Z) (db : Db) :
  updateMemoryStatus id archived None db
  = (Ok (memory_exists id db), update_memory id (Memory.set_status archived None) db).
Proof.
  unfold updateMemoryStatus, bind, get, put, ret.
  now rewrite andb_false_r.
Qed.

Lemma prune_action_ok (permanent : bool) (memory : Memory.t) (db : Db) :
  fst (prune_action permanent memory db) = Ok tt.
Proof.
  unfold prune_action. destruct permanent; rewrite run_bind.
  - pose proof (deleteMemory_ok (Memory.id memory) db) as H.
    destruct (deleteMemory (Memory.id memory) db) as [[b|e] db']; cbn in *;
      [reflexivity | discriminate].
  - now rewrite archive_ok.
Qed.

Lemma forM_ok {A} (body : A -> M unit) (xs : list A) :
  (forall x db, fst (body x db) = Ok tt) ->
  forall db, fst (forM_ xs body db) = Ok tt.
Proof.
  intro Hok. induction xs as [|x xs IH]; intro db; [reflexivity|].
  cbn [forM_]. rewrite run_bind. specialize (Hok x db).
  destruct (body x db) as [[[]|e] db']; cbn in Hok; [apply IH | discriminate].
Qed.

Lemma forM_cons_ok {A} (body : A -> M unit) (x : A) (xs : list A) (db : Db) :
  fst (body x db) = Ok tt ->
  forM_ (x :: xs) body db = forM_ xs body (snd (body x db)).
Proof.
  intro Hok. cbn [forM_]. rewrite run_bind.
  destruct (body x db) as [[[]|e] db']; cbn in Hok; [reflexivity | discriminate].
Qed.

Lemma prune_run
  (input : PruneInput) (projectHash : option string) (now : Z) (db : Db) :
  let dryRun := orElse (pi_dryRun input) false in
  let permanent := orElse (pi_permanent input) false in
  let safeMemories := prune_selection input projectHash now db in
  let warnings := snd (safety_filter now (prune_candidates input projectHash now db) []) in
  let n := Z.of_nat (List.length safeMemories) in
  let totalBytes := fold_left (fun acc m => acc + estimateMemorySize m) safeMemories 0 in
  prune input projectHash now db =
  match safeMemories with
  | [] =>
      (Ok (Build_PruneResult true dryRun 0 0 0 None
             (Some (match warnings with
                    | [] => ["No memories eligible for pruning."]
                    | _ => warnings
                    end))), db)
  | _ =>
      (Ok (Build_PruneResult true dryRun n n totalBytes
             (Some (map (prunedDetail now) safeMemories))
             (some_if_nonempty warnings)),
       if dryRun then db
       else snd (forM_ safeMemories (prune_action permanent) db))
  end.
Proof.
  cbv zeta. unfold prune, prune_selection. rewrite run_bind. unfold get at 1.
  cbn iota beta. fold (prune_candidates input projectHash now db).
  destruct (safety_filter now (prune_candidates input projectHash now db) [])
    as [safe ws] eqn:Hsf. cbn [fst snd].
  destruct safe as [|s safe]; [reflexivity|].
  destruct (orElse (pi_dryRun input) false); [reflexivity|].
  rewrite run_bind. fold (prune_action (orElse (pi_permanent input) false)).
  pose proof (forM_ok (prune_action (orElse (pi_permanent input) false)) (s :: safe)
                (prune_action_ok _) db) as Hok.
  change (fun memory : Memory.t =>
            if orElse (pi_permanent input) false
            then deleteMemory (Memory.id memory);;; ret tt
            else updateMemoryStatus (Memory.id memory) archived None;;; ret tt)
    with (prune_action (orElse (pi_permanent input) false)).
  destruct (forM_ (s :: safe) _ db) as [[[]|e] db'];
    cbn in Hok; [reflexivity | discriminate].
Qed.

Lemma same_but_parent_id (m m' : Memory.t) :
  same_but_parent m m' -> Memory.id m' = Memory.id m.
Proof. intros [->| ->]; reflexivity. Qed.

Lemma same_but_parent_orphan (p : Z) (m m' : Memory.t) :
  same_but_parent m m' -> same_but_parent m (Memory.orphan p m').
Proof.
  intros [->| ->]; unfold Memory.orphan.
  - destruct (Memory.parent_id m) as [q|]; [|now left].
    destruct (q =? p); [now right | now left].
  - cbn. now right.
Qed.

Lemma days_at_least_7 (accessedAt now : Z) :
  (daysSinceAccess accessedAt now <? recentCutoff) = false ->
  7 * DAY_MS <= now - accessedAt.
Proof.
  unfold daysSinceAccess, recentCutoff. intro H. apply Z.ltb_ge in H.
  assert (Hd : DAY_MS = 86400000) by reflexivity. rewrite Hd in *.
  pose proof (Z.mul_div_le (now - accessedAt) 86400000 ltac:(lia)). lia.
Qed.

Lemma prune_selection_In
  (input : PruneInput) (projectHash : option string) (now : Z) (db : Db)
  (m : Memory.t) :
  In m (prune_selection input projectHash now db) ->
  In m (memories db)
  /\ Memory.importance m < 8
  /\ 7 * DAY_MS <= now - Memory.accessed_at m.
Proof.
  rewrite prune_selection_eq. intro H. apply filter_In in H.
  destruct H as [Hc Hd]. apply prune_candidates_In in Hc.
  destruct Hc as (Hin & _ & _ & _ & Hi).
  repeat split; try assumption.
  apply days_at_least_7. now destruct (daysSinceAccess _ _ <? recentCutoff).
Qed.

Lemma prune_action_keeps (permanent : bool) (s m : Memory.t) (db : Db) :
  Memory.id m <> Memory.id s ->
  (exists m', In m' (memories db) /\ same_but_parent m m') ->
  exists m', In m' (memories (snd (prune_action permanent s db)))
             /\ same_but_parent m m'.
Proof.
  intros Hne (m' & Hin & Hsame).
  pose proof (same_but_parent_id m m' Hsame) as Hid.
  assert (Hkeep : (Memory.id m' =? Memory.id s) = false).
  { apply Z.eqb_neq. congruence. }
  unfold prune_action. destruct permanent; rewrite run_bind.
  - unfold deleteMemory. rewrite run_bind. unfold get at 1. cbn iota beta.
    assert (Hk : In m' (filter (fun x => negb (Memory.id x =? Memory.id s)) (memories db))).
    { apply filter_In. split; [exact Hin | now rewrite Hkeep]. }
    destruct (foreign_keys db && memory_exists (Memory.id s) db).
    + exists (Memory.orphan (Memory.id s) m'). split.
      * cbn. now apply in_map.
      * now apply same_but_parent_orphan.
    + exists m'. split; [exact Hk | exact Hsame].
  - rewrite archive_ok. cbn [snd ret]. exists m'. split; [|exact Hsame].
    unfold update_memory. rewrite with_memories_memories.
    apply in_map_iff. exists m'. now rewrite Hkeep.
Qed.

Lemma prune_loop_keeps (permanent : bool) (m : Memory.t) (safe : list Memory.t) :
  forall db,
  ~ In (Memory.id m) (map Memory.id safe) ->
  (exists m', In m' (memories db) /\ same_but_parent m m') ->
  exists m', In m' (memories (snd (forM_ safe (prune_action permanent) db)))
             /\ same_but_parent m m'.
Proof.
  induction safe as [|s safe IH]; intros db Hnot Hex; [exact Hex|].
  rewrite forM_cons_ok by apply prune_action_ok.
  apply IH.
  - intro H. apply Hnot. now right.
  - apply prune_action_keeps; [|exact Hex].
    intro E. apply Hnot. left. now symmetry.
Qed.

Lemma same_id_same_row (ms : list Memory.t) (a b : Memory.t) :
  NoDup (map Memory.id ms) -> In a ms -> In b ms ->
  Memory.id a = Memory.id b -> a = b.
Proof.
  intros Hnd Ha Hb E.
  pose proof (find_id_unique ms a Hnd Ha) as F1.
  pose proof (find_id_unique ms b Hnd Hb) as F2.
  rewrite E in F1. congruence.
Qed.

(** C2. Whatever the thresholds, [permanent] and [dryRun]: every memory a
    prune selects (and reports, archives or deletes) is a memory of the
    store with importance below 8 whose last access is at least 7 days
    old; and every memory of importance 8 or 9, or accessed less than 7 days
    ago, is still in the store afterwards with its status (at most its
    [parent_id] was set to NULL by the deletion of its parent). *)
Theorem prune_never_selects_protected
  (input : PruneInput) (projectHash : option string) (now : Z) (db : Db) :
  NoDup (map Memory.id (memories db)) ->
  (forall m, In m (prune_selection input projectHash now db) ->
     In m (memories db) /\ Memory.importance m < 8
     /\ 7 * DAY_MS <= now - Memory.accessed_at m)
  /\ (exists r, fst (prune input projectHash now db) = Ok r
      /\ forall ps p, pr_prunedMemories r = Some ps -> In p ps ->
           exists m, In m (prune_selection input projectHash now db)
                     /\ p = prunedDetail now m
                     /\ pm_importance p < 8 /\ 7 <= pm_daysSinceAccess p)
  /\ (forall m, In m (memories db) -> protected now m ->
      exists m', In m' (memories (snd (prune input projectHash now db)))
                 /\ same_but_parent m m'
                 /\ Memory.status m' = Memory.status m).
Proof.
  intro Hnd. split; [|split].
  - intros m Hm. exact (prune_selection_In input projectHash now db m Hm).
  - pose proof (prune_run input projectHash now db) as Hrun. cbv zeta in Hrun.
    assert (Hdet : forall p, In p (map (prunedDetail now)
                                    (prune_selection input projectHash now db)) ->
              exists m, In m (prune_selection input projectHash now db)
                        /\ p = prunedDetail now m
                        /\ pm_importance p < 8 /\ 7 <= pm_daysSinceAccess p).
    { intros p Hp. apply in_map_iff in Hp. destruct Hp as (m & <- & Hm).
      exists m. split; [exact Hm|]. split; [reflexivity|].
      destruct (prune_selection_In _ _ _ _ _ Hm) as (_ & Hi & Hd).
      split; [exact Hi|]. cbn [pm_daysSinceAccess prunedDetail].
      unfold daysSinceAccess. apply Z.div_le_lower_bound; [reflexivity | lia]. }
    destruct (prune_selection input projectHash now db) as [|s safe] eqn:Hsel;
      rewrite Hrun; eexists; (split; [reflexivity|]).
    + intros ps p Hps. discriminate Hps.
    + intros ps p Hps Hp. cbn [pr_prunedMemories] in Hps.
      injection Hps as <-. now apply Hdet.
  - intros m Hin Hprot.
    assert (Hnot : ~ In (Memory.id m)
                     (map Memory.id (prune_selection input projectHash now db))).
    { intro H. apply in_map_iff in H. destruct H as (s & Hid & Hs).
      destruct (prune_selection_In _ _ _ _ _ Hs) as (Hs_in & Hi & Hd).
      assert (s = m) by (eapply same_id_same_row; eauto). subst s.
      destruct Hprot; lia. }
    assert (Hgoal : forall db',
              (exists m', In m' (memories db') /\ same_but_parent m m') ->
              exists m', In m' (memories db') /\ same_but_parent m m'
                         /\ Memory.status m' = Memory.status m).
    { intros db' (m' & H1 & H2). exists m'. repeat split; try assumption.
      destruct H2 as [->| ->]; reflexivity. }
    apply Hgoal.
    pose proof (prune_run input projectHash now db) as Hrun. cbv zeta in Hrun.
    rewrite Hrun.
    destruct (prune_selection input projectHash now db) as [|s safe] eqn:Hsel.
    + exists m. split; [exact Hin | now left].
    + cbn [snd]. destruct (orElse (pi_dryRun input) false).
      * exists m. split; [exact Hin | now left].
      * apply prune_loop_keeps; [exact Hnot|].
        exists m. split; [exact Hin | now left].
Qed.

Lemma prune_never_selects_protected_witness :
  exists m',
    In m' (memories (snd (prune (Build_PruneInput None None None (Some true))
                            None now_C2 db_C2)))
    /\ same_but_parent (memory_C2 2 8 0 1.5%R) m'
    /\ Memory.status m' = active.
Proof.
  assert (Hnd : NoDup (map Memory.id (memories db_C2))).
  { cbn. repeat constructor; cbn; intuition discriminate. }
  refine (proj2 (proj2 (prune_never_selects_protected
            (Build_PruneInput None None None (Some true)) None now_C2 db_C2 Hnd))
            (memory_C2 2 8 0 1.5%R) _ _).
  - right. left. reflexivity.
  - left. cbn. lia.
Defined.

(** *** The warnings of a prune *)

(** Evaluate a concrete store: compute, and decide the comparisons of real
    constants on the way. *)
Ltac rstep := cbn -[IZR Rltb Rleb Reqb]; rcompare.
Ltac reval := repeat (progress rstep).

Lemma filter_none {A} (p : A -> bool) (l : list A) :
  (forall x, In x l -> p x = false) -> filter p l = [].
Proof.
  induction l as [|x l IH]; intro H; [reflexivity|].
  cbn [filter]. rewrite (H x) by now left.
  apply IH. intros y Hy. apply H. now right.
Qed.

Lemma old_enough_not_recent (maxAge : R) (accessedAt now : Z) :
  (7 <= maxAge)%R ->
  (IZR accessedAt < IZR now - maxAge * 24 * 60 * 60 * 1000)%R ->
  (daysSinceAccess accessedAt now <? recentCutoff) = false.
Proof.
  intros Hage Hlt.
  assert (H : (IZR accessedAt < IZR (now - 604800000))%R).
  { rewrite minus_IZR. lra. }
  apply lt_IZR in H.
  apply Z.ltb_ge. unfold daysSinceAccess, recentCutoff.
  apply Z.div_le_lower_bound; [reflexivity|].
  change DAY_MS with 86400000. lia.
Qed.

Lemma prune_candidates_C5 :
  prune_candidates prune_defaults None now_C5 db_C5 = []
  /\ prune_candidates prune_defaults None now_C5 db_C5_two = [memory_C5 2 5].
Proof.
  split; unfold prune_candidates, getLowUsefulnessMemories, now_C5; reval;
    reflexivity.
Qed.

(** C5: the code does not do what the claim says.  Memory 1 meets the
    score and age criteria (score 1.5 below 2.0, last access 120 days ago)
    and has importance 8; the prune excludes it and no returned warning
    names it: alone in the store the only warning is the generic one, next
    to a prunable memory there is no warning at all.  The warning that
    [prune] has for it, "Skipping high-importance memory #1 (importance=8)",
    is never pushed, because the query of [getLowUsefulnessMemories] has
    dropped the memory before the filter that warns sees it; the warning
    of the same filter for a recent access is pushed, as for memory 3, read
    5 days ago, in a prune of what was not read for 3 days. *)
Lemma prune_excludes_importance_8_silently :
  prune prune_defaults None now_C5 db_C5
  = (Ok (Build_PruneResult true false 0 0 0 None
           (Some ["No memories eligible for pruning."])), db_C5)
  /\ (exists r,
        prune prune_defaults None now_C5 db_C5_two
        = (Ok r, update_memory 2 (Memory.set_status archived None) db_C5_two)
        /\ pr_memoriesPruned r = 1
        /\ pr_warnings r = None)
  /\ importance_warning (memory_C5 1 8)
     = "Skipping high-importance memory #1 (importance=8)"
  /\ safety_filter now_C5 [memory_C5 1 8] []
     = ([], ["Skipping high-importance memory #1 (importance=8)"])
  /\ getLowUsefulnessMemories 2.0 90 200 now_C5 db_C5 = []
  /\ prune prune_after_3_days None now_C5 db_C5_recent
     = (Ok (Build_PruneResult true false 0 0 0 None
              (Some ["Skipping recently accessed memory #3 (5 days ago)"])),
        db_C5_recent).
Proof.
  destruct prune_candidates_C5 as [H1 H2].
  split; [|split; [|split; [|split; [|split]]]].
  - pose proof (prune_run prune_defaults None now_C5 db_C5) as H. cbv zeta in H.
    rewrite H. unfold prune_selection. rewrite H1. reflexivity.
  - pose proof (prune_run prune_defaults None now_C5 db_C5_two) as H. cbv zeta in H.
    rewrite H. unfold prune_selection. rewrite H2.
    eexists. split; [reflexivity|]. split; reflexivity.
  - reflexivity.
  - reflexivity.
  - unfold getLowUsefulnessMemories, now_C5. reval. reflexivity.
  - assert (Hc : prune_candidates prune_after_3_days None now_C5 db_C5_recent
                 = memories db_C5_recent).
    { unfold prune_candidates, getLowUsefulnessMemories, now_C5. reval.
      reflexivity. }
    pose proof (prune_run prune_after_3_days None now_C5 db_C5_recent) as H.
    cbv zeta in H. rewrite H, prune_warnings_eq. unfold prune_selection.
    rewrite Hc. reflexivity.
Qed.

(** The warnings of a prune, as the code stands.  The query of
    [getLowUsefulnessMemories] already leaves out every memory of
    importance 8 or 9 (and, for [maxAge] of 7 days or more, every memory
    read in the last 7 days), and says nothing about them.  The warnings a
    prune returns name exactly the candidates that query returned (within
    the project's scope) which the second filter rejects for a last access
    less than 7 whole days old, each with its id and the number of days;
    when nothing is selected and nothing rejected, the one warning is
    "No memories eligible for pruning.". *)
Theorem prune_warns_only_recent_candidates
  (input : PruneInput) (projectHash : option string) (now : Z) (db : Db) :
  let candidates := prune_candidates input projectHash now db in
  let recent :=
    filter (fun m => daysSinceAccess (Memory.accessed_at m) now <? recentCutoff)
           candidates in
  (forall m, In m (memories db) -> 8 <= Memory.importance m -> ~ In m candidates)
  /\ ((7 <= orElse (pi_maxAge input) 90)%R -> recent = [])
  /\ exists r,
       fst (prune input projectHash now db) = Ok r
       /\ pr_warnings r
          = match recent with
            | [] =>
                match prune_selection input projectHash now db with
                | [] => Some ["No memories eligible for pruning."]
                | _ => None
                end
            | _ => Some (map (recent_warning now) recent)
            end.
Proof.
  cbv zeta. split; [|split].
  - intros m _ Hi Hc. apply prune_candidates_In in Hc.
    destruct Hc as (_ & _ & _ & _ & Hlt). lia.
  - intro Hage. apply filter_none. intros m Hm.
    apply prune_candidates_In in Hm. destruct Hm as (_ & _ & _ & Hacc & _).
    now apply (old_enough_not_recent (orElse (pi_maxAge input) 90%R)).
  - pose proof (prune_run input projectHash now db) as Hrun. cbv zeta in Hrun.
    rewrite Hrun, prune_warnings_eq.
    set (recent := filter _ (prune_candidates input projectHash now db)).
    destruct (prune_selection input projectHash now db) as [|s safe];
      eexists; (split; [reflexivity|]); cbn [pr_warnings];
      destruct recent as [|x recent]; reflexivity.
Qed.

Lemma prune_warns_only_recent_candidates_witness :
  filter (fun m => daysSinceAccess (Memory.accessed_at m) now_C5 <? recentCutoff)
         (prune_candidates prune_defaults None now_C5 db_C5_two) = [].
Proof.
  refine (proj1 (proj2 (prune_warns_only_recent_candidates
                          prune_defaults None now_C5 db_C5_two)) _).
  cbn. lra.
Defined.

(** ** The feedback log *)

(** Relations between the store before and after a computation that every
    step of the computation keeps. *)
Section Preserved.
Variable P : Db -> Db -> Prop.
Hypothesis P_refl : forall db, P db db.
Hypothesis P_trans : forall a b c, P a b -> P b c -> P a c.

Lemma preserves_ret {A} (a : A) : preserves P (ret a).
Proof. intro db. apply P_refl. Qed.

Lemma preserves_throw {A} (e : Exn) : preserves P (@throw A e).
Proof. intro db. apply P_refl. Qed.

Lemma preserves_bind {A B} (c : M A) (k : A -> M B) :
  preserves P c -> (forall a, preserves P (k a)) -> preserves P (bind c k).
Proof.
  intros Hc Hk db. rewrite run_bind. specialize (Hc db).
  destruct (c db) as [[a|e] db']; cbn [snd] in *.
  - eapply P_trans; [exact Hc | apply Hk].
  - exact Hc.
Qed.

Lemma preserves_forM {A} (body : A -> M unit) (xs : list A) :
  (forall x, preserves P (body x)) -> preserves P (forM_ xs body).
Proof.
  intro Hb. induction xs as [|x xs IH]; cbn [forM_].
  - apply preserves_ret.
  - apply preserves_bind; [apply Hb | intros _; exact IH].
Qed.

Lemma preserves_try_catch {A} (c : M A) (handler : Exn -> M A) :
  preserves P c -> (forall e, preserves P (handler e)) -> preserves P (try_catch c handler).
Proof.
  intros Hc Hh db. unfold try_catch. specialize (Hc db).
  destruct (c db) as [[a|e] db']; cbn [snd] in *.
  - exact Hc.
  - eapply P_trans; [exact Hc | apply Hh].
Qed.

(** A statement: read the store, then write one computed from it. *)
Lemma preserves_get {A} (k : Db -> M A) :
  (forall db, P db (snd (k db db))) -> preserves P (bind get k).
Proof. intros H db. apply H. Qed.
End Preserved.

Lemma same_log_refl (db : Db) : same_log db db.
Proof. reflexivity. Qed.

Lemma same_log_trans (a b c : Db) : same_log a b -> same_log b c -> same_log a c.
Proof. unfold same_log. congruence. Qed.

Lemma log_extended_refl (db : Db) : log_extended db db.
Proof. exists []. now rewrite app_nil_r. Qed.

Lemma log_extended_trans (a b c : Db) :
  log_extended a b -> log_extended b c -> log_extended a c.
Proof.
  intros [x Hx] [y Hy]. exists (x ++ y). now rewrite Hy, Hx, app_assoc.
Qed.

Lemma same_log_extended (a b : Db) : same_log a b -> log_extended a b.
Proof. intro H. exists []. now rewrite app_nil_r. Qed.

Lemma sl_ret {A} (a : A) : preserves same_log (ret a).
Proof. apply preserves_ret, same_log_refl. Qed.

Lemma sl_throw {A} (e : Exn) : preserves same_log (@throw A e).
Proof. apply preserves_throw, same_log_refl. Qed.

Lemma sl_bind {A B} (c : M A) (k : A -> M B) :
  preserves same_log c -> (forall a, preserves same_log (k a)) ->
  preserves same_log (bind c k).
Proof. apply preserves_bind, same_log_trans. Qed.

Lemma sl_forM {A} (body : A -> M unit) (xs : list A) :
  (forall x, preserves same_log (body x)) -> preserves same_log (forM_ xs body).
Proof. apply preserves_forM; [apply same_log_refl | apply same_log_trans]. Qed.

Lemma sl_try {A} (c : M A) (handler : Exn -> M A) :
  preserves same_log c -> (forall e, preserves same_log (handler e)) ->
  preserves same_log (try_catch c handler).
Proof. apply preserves_try_catch, same_log_trans. Qed.

Lemma le_ret {A} (a : A) : preserves log_extended (ret a).
Proof. apply preserves_ret, log_extended_refl. Qed.

Lemma le_bind {A B} (c : M A) (k : A -> M B) :
  preserves log_extended c -> (forall a, preserves log_extended (k a)) ->
  preserves log_extended (bind c k).
Proof. apply preserves_bind, log_extended_trans. Qed.

Lemma le_same {A} (c : M A) : preserves same_log c -> preserves log_extended c.
Proof. intros H db. apply same_log_extended, H. Qed.

(** Statements that do not write to [memory_feedback]. *)
Ltac same_log_statement :=
  intro db;
  repeat first
    [ reflexivity
    | progress (unfold bind, get, put, ret, throw; cbn [snd fst])
    | match goal with
      | |- context [match ?x with _ => _ end] => destruct x
      | |- context [if ?b then _ else _] => destruct b
      end ].

Lemma getMemory_same_log id now : preserves same_log (getMemory id now).
Proof. unfold getMemory. same_log_statement. Qed.

Lemma updateUsefulnessScore_same_log id now :
  preserves same_log (updateUsefulnessScore id now).
Proof. unfold updateUsefulnessScore. same_log_statement. Qed.

Lemma updateMemoryStatus_same_log id st p :
  preserves same_log (updateMemoryStatus id st p).
Proof. unfold updateMemoryStatus. same_log_statement. Qed.

Lemma createMemory_same_log input now : preserves same_log (createMemory input now).
Proof. unfold createMemory. same_log_statement. Qed.

Lemma update_level_same_log id l : preserves same_log (update_level id l).
Proof. unfold update_level. same_log_statement. Qed.

Lemma storeEmbedding_same_log id v m : preserves same_log (storeEmbedding id v m).
Proof. unfold storeEmbedding. same_log_statement. Qed.

Lemma embedMemory_same_log host id text : preserves same_log (embedMemory host id text).
Proof.
  unfold embedMemory. destruct (generateEmbedding host text embedding_model).
  - apply storeEmbedding_same_log.
  - apply sl_throw.
Qed.

Lemma insert_memory_relationship_same_log s t r x now :
  preserves same_log (insert_memory_relationship s t r x now).
Proof. unfold insert_memory_relationship. same_log_statement. Qed.

Lemma createRelationship_same_log s t r x now :
  preserves same_log (createRelationship s t r x now).
Proof.
  unfold createRelationship.
  apply sl_bind.
  - apply insert_memory_relationship_same_log.
  - intro a. apply sl_ret.
Qed.

Lemma coAccessPair_same_log x now a b : preserves same_log (coAccessPair x now a b).
Proof.
  unfold coAccessPair. destruct (a <? b).
  - intro db. unfold bind, get. destruct (select_similar a b db); [reflexivity|].
    fold (bind (insert_memory_relationship a b similar x now) (fun _ => ret tt) db).
    apply sl_bind.
    + apply insert_memory_relationship_same_log.
    + intro. apply sl_ret.
  - intro db. unfold bind, get. destruct (select_similar b a db); [reflexivity|].
    fold (bind (insert_memory_relationship b a similar x now) (fun _ => ret tt) db).
    apply sl_bind.
    + apply insert_memory_relationship_same_log.
    + intro. apply sl_ret.
Qed.

Lemma recordCoAccess_same_log ids x now : preserves same_log (recordCoAccess ids x now).
Proof.
  unfold recordCoAccess. destruct (_ <? 2).
  - apply sl_ret.
  - induction ids as [|a rest IH]; cbn [coAccessLoop].
    + apply sl_ret.
    + apply sl_bind.
      * apply sl_forM. intro b. apply coAccessPair_same_log.
      * intros _. exact IH.
Qed.

Lemma decayRelationshipStrengths_same_log f m :
  preserves same_log (decayRelationshipStrengths f m).
Proof. unfold decayRelationshipStrengths. same_log_statement. Qed.

Lemma applyDecayToAll_same_log now : preserves same_log (applyDecayToAll now).
Proof.
  unfold applyDecayToAll. apply preserves_get. intro db.
  apply sl_bind.
  - apply sl_forM. intro id.
    apply sl_bind.
    + apply updateUsefulnessScore_same_log.
    + intro. apply sl_ret.
  - intro. apply sl_ret.
Qed.

Lemma suggested_loop_same_log rows now : preserves same_log (suggested_loop rows now).
Proof.
  induction rows as [|row rows IH]; cbn [suggested_loop].
  - apply sl_ret.
  - apply sl_bind; [apply getMemory_same_log|].
    intro memory. apply sl_bind; [exact IH|].
    intro more.
    destruct memory as [m|]; [destruct (is_active (Memory.status m))|];
      apply sl_ret.
Qed.

Lemma getSuggestedMemories_same_log ids limit now :
  preserves same_log (getSuggestedMemories ids limit now).
Proof.
  unfold getSuggestedMemories. destruct ids.
  - apply sl_ret.
  - apply preserves_get. intro db. apply suggested_loop_same_log.
Qed.

Lemma consolidateCluster_same_log host ph now cluster :
  preserves same_log (consolidateCluster host ph now cluster).
Proof.
  unfold consolidateCluster. cbv zeta.
  apply sl_bind; [apply createMemory_same_log|].
  intro newMemory.
  apply sl_bind; [apply update_level_same_log|].
  intros _.
  apply sl_bind.
  - apply sl_try.
    + apply sl_bind; [apply embedMemory_same_log|].
      intro. apply sl_ret.
    + intro. apply sl_ret.
  - intro warnings. apply sl_bind.
    + apply sl_forM. intro source.
      apply sl_bind; [apply updateMemoryStatus_same_log|].
      intros _.
      apply sl_bind; [apply createRelationship_same_log|].
      intro. apply sl_ret.
    + intro. apply sl_ret.
Qed.

Lemma consolidate_loop_same_log host ph now clusters : forall abs total ws,
  preserves same_log (consolidate_loop host ph now clusters abs total ws).
Proof.
  induction clusters as [|c clusters IH]; intros abs total ws;
    cbn [consolidate_loop].
  - apply sl_ret.
  - apply sl_bind; [apply consolidateCluster_same_log|].
    intro r. apply IH.
Qed.

Lemma consolidate_same_log host input ph now :
  preserves same_log (consolidate host input ph now).
Proof.
  unfold consolidate. cbv zeta.
  destruct (negb (isEmbeddingsAvailable host)); [apply sl_ret|].
  apply preserves_get. intro db.
  destruct (_ <? 2); [apply sl_ret|].
  destruct (findSimilarClusters _ _ _) as [[|c cs]|e].
  - apply sl_ret.
  - destruct (orElse (ci_dryRun input) false); [apply sl_ret|].
    apply sl_bind; [apply consolidate_loop_same_log|].
    intros [[abs total] ws]. apply sl_ret.
  - apply sl_throw.
Qed.

Lemma recordFeedback_log_extended id fb ctx now :
  preserves log_extended (recordFeedback id fb ctx now).
Proof.
  intro db. rewrite recordFeedback_run.
  destruct (foreign_keys db && negb (memory_exists id db)).
  - apply log_extended_refl.
  - cbv zeta. cbn [snd]. eexists.
    rewrite (proj1 (rescored_frame _ _ _)). reflexivity.
Qed.

Lemma feedback_loop_log_extended ids fb ctx now : forall ws mu,
  preserves log_extended (feedback_loop ids fb ctx now ws mu).
Proof.
  induction ids as [|id ids IH]; intros ws mu; cbn [feedback_loop].
  - apply le_ret.
  - apply le_bind; [apply le_same, getMemory_same_log|].
    intros [m|]; [|apply IH].
    apply le_bind; [apply recordFeedback_log_extended|].
    intros _. apply le_bind; [apply le_same, getMemory_same_log|].
    intros [u|]; apply IH.
Qed.

Lemma feedback_log_extended input now : preserves log_extended (feedback input now).
Proof.
  destruct input as [[[|id ids]|] [fb|] ctx];
    try (unfold feedback; cbn [fi_memoryIds fi_feedback]; apply le_ret).
  intro db. rewrite feedback_run_ids.
  pose proof (feedback_loop_log_extended (id :: ids) fb ctx now [] []
                (initializeSchema db)) as H.
  destruct (feedback_loop _ _ _ _ _ _ _) as [[[ws mu]|e] db']; exact H.
Qed.

(** *** Permanent pruning and the cascade *)

Lemma memory_exists_iff (id : Z) (db : Db) :
  memory_exists id db = true <-> exists m, In m (memories db) /\ Memory.id m = id.
Proof.
  unfold memory_exists. rewrite existsb_exists.
  split; intros (m & Hin & H); exists m; (split; [exact Hin|]);
    now apply Z.eqb_eq.
Qed.

Lemma orphan_id (p : Z) (m : Memory.t) :
  Memory.id (Memory.orphan p m) = Memory.id m.
Proof.
  unfold Memory.orphan. destruct (Memory.parent_id m) as [q|]; [|reflexivity].
  now destruct (q =? p).
Qed.

Lemma deleteMemory_run (id : Z) (db : Db) :
  deleteMemory id db =
  (Ok (memory_exists id db),
   let kept := filter (fun m => negb (Memory.id m =? id)) (memories db) in
   if foreign_keys db && memory_exists id db
   then mkDb (foreign_keys db) (map (Memory.orphan id) kept) (memories_seq db)
          (filter (fun e => negb (Embedding.memory_id e =? id)) (embeddings db))
          (map (AutoLearn.orphan id) (auto_learn_log db))
          (filter (fun f => negb (MemoryFeedback.memory_id f =? id))
                  (memory_feedback db))
          (memory_feedback_seq db)
          (filter (fun r => negb ((MemoryRelationship.source_id r =? id)
                                  || (MemoryRelationship.target_id r =? id)))
                  (memory_relationships db))
          (memory_relationships_seq db)
   else with_memories kept (memories_seq db) db).
Proof.
  unfold deleteMemory, bind, get, put, ret. cbv zeta.
  destruct (foreign_keys db && memory_exists id db); reflexivity.
Qed.

Lemma delete_keeps_others (id id' : Z) (db : Db) :
  id' <> id -> memory_exists id' db = true ->
  memory_exists id' (snd (deleteMemory id db)) = true.
Proof.
  intros Hne Hex. apply memory_exists_iff in Hex. destruct Hex as (m & Hin & Hid).
  apply memory_exists_iff. rewrite deleteMemory_run. cbn [snd]. cbv zeta.
  assert (Hk : In m (filter (fun x => negb (Memory.id x =? id)) (memories db))).
  { apply filter_In. split; [exact Hin|].
    apply negb_true_iff, Z.eqb_neq. congruence. }
  destruct (foreign_keys db && memory_exists id db).
  - exists (Memory.orphan id m). split; [cbn; now apply in_map | now rewrite orphan_id].
  - exists m. split; [exact Hk | exact Hid].
Qed.

Lemma filter_filter {A} (p q : A -> bool) (l : list A) :
  filter p (filter q l) = filter (fun x => q x && p x) l.
Proof.
  induction l as [|x l IH]; [reflexivity|]. cbn [filter].
  destruct (q x); cbn [filter andb]; now rewrite IH.
Qed.

Lemma filter_all {A} (p : A -> bool) (l : list A) :
  (forall x, In x l -> p x = true) -> filter p l = l.
Proof.
  induction l as [|x l IH]; intro H; [reflexivity|].
  cbn [filter]. rewrite (H x) by now left.
  f_equal. apply IH. intros y Hy. apply H. now right.
Qed.

Lemma delete_loop_log (safe : list Memory.t) : forall db,
  foreign_keys db = true ->
  (forall s, In s safe ->
     memory_exists (Memory.id s) db = true
     \/ forall f, In f (memory_feedback db) ->
                  MemoryFeedback.memory_id f <> Memory.id s) ->
  memory_feedback (snd (forM_ safe (prune_action true) db))
  = filter (fun f => negb (mem_Z (MemoryFeedback.memory_id f) (map Memory.id safe)))
      (memory_feedback db).
Proof.
  induction safe as [|s safe IH]; intros db Hfk Hinv.
  - cbn. symmetry. now apply filter_all.
  - rewrite forM_cons_ok by apply prune_action_ok.
    unfold prune_action at 2. rewrite run_bind, deleteMemory_run. cbn [snd ret].
    cbv zeta. rewrite Hfk. cbn [andb].
    destruct (memory_exists (Memory.id s) db) eqn:Hex.
    + rewrite IH.
      * cbn [memory_feedback]. rewrite filter_filter. apply filter_ext.
        intro f. unfold mem_Z. cbn [map existsb].
        rewrite negb_orb. reflexivity.
      * reflexivity.
      * intros s' Hs'. cbn [memory_feedback].
        destruct (Z.eq_dec (Memory.id s') (Memory.id s)) as [E|E].
        -- right. intros f Hf. apply filter_In in Hf. destruct Hf as [_ Hf].
           apply negb_true_iff, Z.eqb_neq in Hf. congruence.
        -- destruct (Hinv s' (or_intror Hs')) as [Hex'|Hno].
           ++ left. pose proof (delete_keeps_others _ _ db E Hex') as H.
              rewrite deleteMemory_run in H. cbn [snd] in H. cbv zeta in H.
              now rewrite Hfk, Hex in H.
           ++ right. intros f Hf. apply filter_In in Hf. now apply Hno.
    + destruct (Hinv s (or_introl eq_refl)) as [Hex'|Hno]; [congruence|].
      rewrite IH.
      * cbn [memory_feedback with_memories].
        apply filter_ext_in. intros f Hf. unfold mem_Z. cbn [map existsb].
        destruct (Z.eqb_spec (MemoryFeedback.memory_id f) (Memory.id s)) as [E|E];
          [exfalso; now apply (Hno f Hf) | reflexivity].
      * exact Hfk.
      * intros s' Hs'. cbn [memory_feedback with_memories].
        destruct (Hinv s' (or_intror Hs')) as [Hex'|Hno']; [|now right].
        left. destruct (Z.eq_dec (Memory.id s') (Memory.id s)) as [E|E];
          [congruence|].
        pose proof (delete_keeps_others _ _ db E Hex') as H.
        rewrite deleteMemory_run in H. cbn [snd] in H. cbv zeta in H.
        now rewrite Hfk, Hex in H.
Qed.

Lemma delete_loop_unenforced (safe : list Memory.t) : forall db,
  foreign_keys db = false ->
  memory_feedback (snd (forM_ safe (prune_action true) db)) = memory_feedback db.
Proof.
  induction safe as [|s safe IH]; intros db Hfk; [reflexivity|].
  rewrite forM_cons_ok by apply prune_action_ok.
  unfold prune_action at 2. rewrite run_bind, deleteMemory_run. cbn [snd ret].
  cbv zeta. rewrite Hfk. cbn [andb]. now rewrite IH.
Qed.

Lemma archive_loop_same_log (safe : list Memory.t) :
  preserves same_log (forM_ safe (prune_action false)).
Proof.
  apply sl_forM. intro s. unfold prune_action.
  apply sl_bind; [apply updateMemoryStatus_same_log | intro; apply sl_ret].
Qed.

Lemma prune_log
  (input : PruneInput) (projectHash : option string) (now : Z) (db : Db) :
  memory_feedback (snd (prune input projectHash now db))
  = filter (fun f => negb (mem_Z (MemoryFeedback.memory_id f)
                             (deleted_by_prune input projectHash now db)))
      (memory_feedback db).
Proof.
  pose proof (prune_run input projectHash now db) as Hrun. cbv zeta in Hrun.
  rewrite Hrun. unfold deleted_by_prune.
  assert (Hnil : memory_feedback db
                 = filter (fun f => negb (mem_Z (MemoryFeedback.memory_id f) []))
                     (memory_feedback db)).
  { symmetry. now apply filter_all. }
  pose proof (prune_selection_In input projectHash now db) as Hsel.
  destruct (prune_selection input projectHash now db) as [|s safe].
  - cbn [snd map]. destruct (_ && _ && _); exact Hnil.
  - cbn [snd]. destruct (orElse (pi_dryRun input) false).
    + rewrite andb_false_r. exact Hnil.
    + destruct (orElse (pi_permanent input) false); cbn [andb negb].
      * destruct (foreign_keys db) eqn:Hfk.
        -- apply delete_loop_log; [exact Hfk|].
           intros s' Hs'. left. apply memory_exists_iff.
           exists s'. split; [|reflexivity]. now apply Hsel.
        -- rewrite delete_loop_unenforced by exact Hfk. exact Hnil.
      * rewrite (archive_loop_same_log (s :: safe) db). exact Hnil.
Qed.

(** C6, as stated, fails: a permanent prune deletes the memory, and the
    schema's ON DELETE CASCADE deletes the feedback event recorded on it. *)
Lemma permanent_prune_deletes_feedback :
  memory_feedback db_C6 = [event_C6]
  /\ memory_feedback
       (snd (prune (Build_PruneInput None None None (Some true)) None now_C6 db_C6))
     = []
  /\ memories
       (snd (prune (Build_PruneInput None None None (Some true)) None now_C6 db_C6))
     = [].
Proof.
  assert (Hsel : prune_selection (Build_PruneInput None None None (Some true))
                   None now_C6 db_C6 = [memory_C6]).
  { unfold prune_selection, prune_candidates, getLowUsefulnessMemories, now_C6.
    reval. reflexivity. }
  pose proof (prune_run (Build_PruneInput None None None (Some true)) None
                now_C6 db_C6) as Hrun.
  cbv zeta in Hrun. rewrite Hrun, Hsel.
  split; [reflexivity|]. split; reflexivity.
Qed.

(** C6, amended.  No operation of the engine changes a recorded feedback
    event, and every operation but the prune only appends to the log (the
    feedback operations) or leaves it as it is (all the others).  A prune
    removes from the log exactly the events of the memories it deletes: those
    it selected, when it is permanent, not a dry run, and runs on a
    connection that enforces foreign keys; every other event stays, in
    order and unchanged. *)
Theorem feedback_log_append_only_up_to_cascade (op : EngineOp) (now : Z) (db : Db) :
  match op with
  | OpPrune input projectHash =>
      memory_feedback (exec op now db)
      = filter (fun f => negb (mem_Z (MemoryFeedback.memory_id f)
                                 (deleted_by_prune input projectHash now db)))
          (memory_feedback db)
  | OpFeedback _ | OpRecordFeedback _ _ _ =>
      exists appended, memory_feedback (exec op now db) = memory_feedback db ++ appended
  | _ => memory_feedback (exec op now db) = memory_feedback db
  end.
Proof.
  destruct op; cbn [exec].
  - apply getMemory_same_log.
  - apply feedback_log_extended.
  - apply recordFeedback_log_extended.
  - apply updateUsefulnessScore_same_log.
  - apply applyDecayToAll_same_log.
  - apply recordCoAccess_same_log.
  - apply decayRelationshipStrengths_same_log.
  - apply getSuggestedMemories_same_log.
  - apply consolidate_same_log.
  - apply prune_log.
  - apply updateMemoryStatus_same_log.
Qed.

(** ** Decay of relationship strengths *)

Lemma decayRelationshipStrengths_run (decayFactor minStrength : R) (db : Db) :
  memory_relationships (snd (decayRelationshipStrengths decayFactor minStrength db))
  = decayed decayFactor minStrength (memory_relationships db).
Proof. reflexivity. Qed.

Lemma decayed_cons (f m : R) (r : MemoryRelationship.t) (rs : list MemoryRelationship.t) :
  decayed f m (r :: rs)
  = (if Rltb m (MemoryRelationship.strength r)
     then if Rltb (fl (MemoryRelationship.strength r * f)) m then []
          else [MemoryRelationship.set_strength
                  (fl (MemoryRelationship.strength r * f)) r]
     else if Rltb (MemoryRelationship.strength r) m then [] else [r])
    ++ decayed f m rs.
Proof.
  unfold decayed. cbn [map filter].
  destruct (Rltb m (MemoryRelationship.strength r)); cbn [MemoryRelationship.strength
    MemoryRelationship.set_strength].
  - destruct (Rltb (fl (MemoryRelationship.strength r * f)) m); reflexivity.
  - destruct (Rltb (MemoryRelationship.strength r) m); reflexivity.
Qed.

Lemma decayed_app (f m : R) (a b : list MemoryRelationship.t) :
  decayed f m (a ++ b) = decayed f m a ++ decayed f m b.
Proof. unfold decayed. now rewrite map_app, filter_app. Qed.

(** What stays after a decay is at or above the floor. *)
Lemma decayed_at_least_floor
  (decayFactor minStrength : R) (rs : list MemoryRelationship.t)
  (r : MemoryRelationship.t) :
  In r (decayed decayFactor minStrength rs) ->
  (minStrength <= MemoryRelationship.strength r)%R.
Proof.
  unfold decayed. intro H. apply filter_In in H. destruct H as [_ H].
  apply negb_true_iff in H. unfold Rltb in H.
  destruct (Rlt_dec (MemoryRelationship.strength r) minStrength);
    [discriminate | lra].
Qed.

Lemma decayed_above_floor (f m : R) (rs : list MemoryRelationship.t)
  (r : MemoryRelationship.t) :
  In r rs -> (m < MemoryRelationship.strength r)%R ->
  (m <= fl (MemoryRelationship.strength r * f))%R ->
  In (MemoryRelationship.set_strength (fl (MemoryRelationship.strength r * f)) r)
     (decayed f m rs).
Proof.
  intros Hin Hs Hsf. unfold decayed. apply filter_In. split.
  - apply in_map_iff. exists r. split; [|exact Hin]. now rewrite Rltb_true.
  - cbn. now rewrite Rltb_false.
Qed.

Lemma decayed_below_floor (f m : R) (rs : list MemoryRelationship.t)
  (r' : MemoryRelationship.t) :
  In r' (decayed f m rs) ->
  exists r, In r rs
            /\ MemoryRelationship.id r' = MemoryRelationship.id r
            /\ (m <= MemoryRelationship.strength r)%R
            /\ MemoryRelationship.strength r'
               = (if Rltb m (MemoryRelationship.strength r)
                  then fl (MemoryRelationship.strength r * f)
                  else MemoryRelationship.strength r).
Proof.
  unfold decayed. intro H. apply filter_In in H. destruct H as [H Hk].
  apply in_map_iff in H. destruct H as (r & Hr & Hin).
  exists r. split; [exact Hin|].
  destruct (Rlt_dec m (MemoryRelationship.strength r)) as [Hs|Hs].
  - rewrite (Rltb_true _ _ Hs) in *. subst r'.
    split; [reflexivity|]. split; [lra | reflexivity].
  - rewrite (Rltb_false m _) in * by lra. subst r'. split; [reflexivity|].
    split; [|reflexivity].
    apply negb_true_iff in Hk. unfold Rltb in Hk.
    destruct (Rlt_dec (MemoryRelationship.strength r) m); [discriminate | lra].
Qed.

(** *** Two roundings against one *)

Lemma roundoff_facts :
  (0 < unit_roundoff <= 1 / 1024)%R /\ tolerance = (8 * unit_roundoff)%R.
Proof.
  unfold unit_roundoff, tolerance. split; [split|].
  - apply pow2_pos.
  - apply Rle_trans with (pow2 (-10)); [apply pow2_le; lia|].
    unfold pow2, powerRZ. simpl. lra.
  - replace (-50) with (-53 + 3) by lia. rewrite pow2_add.
    replace (pow2 3) with 8%R by (unfold pow2, powerRZ; simpl; lra). ring.
Qed.

Lemma normal_rounds (x y : R) :
  normal x -> (x * (1 - unit_roundoff) <= y)%R -> (pow2 (-1022) <= y)%R.
Proof.
  intros [Hx _] Hy. destruct roundoff_facts as [[Hu0 Hu1] _].
  pose proof (pow2_pos (-1022)) as Hp.
  assert (E : pow2 (-1021) = (2 * pow2 (-1022))%R).
  { replace (-1021) with (-1022 + 1) by lia. apply pow2_succ. }
  nra.
Qed.

Lemma fl_within (x : R) :
  (pow2 (-1022) <= x)%R ->
  (x * (1 - unit_roundoff) <= fl x <= x * (1 + unit_roundoff))%R.
Proof. apply fl_error_bounds. Qed.

(** Two factors within a roundoff of 1 are within three roundoffs of 1. *)
Lemma two_roundings (P a b : R) :
  (0 < P)%R ->
  (P * (1 - unit_roundoff) <= a <= P * (1 + unit_roundoff))%R ->
  (a * (1 - unit_roundoff) <= b <= a * (1 + unit_roundoff))%R ->
  (P * (1 - 3 * unit_roundoff) <= b <= P * (1 + 3 * unit_roundoff))%R.
Proof.
  intros HP [Ha1 Ha2] [Hb1 Hb2]. destruct roundoff_facts as [[Hu0 Hu1] _].
  set (u := unit_roundoff) in *.
  assert (Huu : (0 <= P * u * u <= P * u)%R).
  { split; [|]; nra. }
  assert (H1 : (P * (1 - u) * (1 - u) <= a * (1 - u))%R)
    by (apply Rmult_le_compat_r; lra).
  assert (H2 : (a * (1 + u) <= P * (1 + u) * (1 + u))%R)
    by (apply Rmult_le_compat_r; lra).
  split; nra.
Qed.

(** One edge: two passes with [f] against one pass with [f2], a double
    within a roundoff of [f * f]. *)
Lemma decay_edge_twice (f f2 floor : R) (r : MemoryRelationship.t) :
  (0 < f)%R ->
  (Rabs (f2 - f * f) <= unit_roundoff * (f * f))%R ->
  ((floor < MemoryRelationship.strength r)%R ->
   normal (MemoryRelationship.strength r * f)
   /\ normal (MemoryRelationship.strength r * f * f)
   /\ clear_of floor (MemoryRelationship.strength r * f)
   /\ clear_of floor (MemoryRelationship.strength r * f * f)) ->
  Forall2 same_edge (decayed f floor (decayed f floor [r])) (decayed f2 floor [r]).
Proof.
  intros Hf Hf2 Hclear. destruct roundoff_facts as [[Hu0 Hu1] Ht].
  rewrite !(decayed_cons _ _ r []).
  change (decayed f floor []) with (@nil MemoryRelationship.t).
  change (decayed f2 floor []) with (@nil MemoryRelationship.t).
  rewrite !app_nil_r.
  set (s := MemoryRelationship.strength r) in *.
  assert (Hsame : forall x, same_edge r (MemoryRelationship.set_strength x r) ->
            same_edge r (MemoryRelationship.set_strength x r)) by auto.
  destruct (Rlt_dec floor s) as [Hs|Hs].
  - rewrite (Rltb_true floor s Hs).
    destruct (Hclear Hs) as (Hn1 & Hn2 & Hc1 & Hc2). clear Hclear.
    pose proof (pow2_pos (-1021)) as Hp.
    assert (HP1 : (0 < s * f)%R) by (destruct Hn1; lra).
    assert (HP2 : (0 < s * f * f)%R) by (destruct Hn2; lra).
    assert (Hs0 : (0 < s)%R) by nra.
    assert (Hb1 : (s * f * (1 - unit_roundoff) <= fl (s * f)
                   <= s * f * (1 + unit_roundoff))%R).
    { apply fl_within. apply (normal_rounds (s * f)); [exact Hn1 | nra]. }
    assert (Hf2' : (f * f * (1 - unit_roundoff) <= f2
                    <= f * f * (1 + unit_roundoff))%R).
    { unfold Rabs in Hf2. destruct (Rcase_abs (f2 - f * f)); lra. }
    assert (Ha : (s * f * f * (1 - unit_roundoff) <= s * f2
                  <= s * f * f * (1 + unit_roundoff))%R).
    { replace (s * f * f * (1 - unit_roundoff))%R
        with (s * (f * f * (1 - unit_roundoff)))%R by ring.
      replace (s * f * f * (1 + unit_roundoff))%R
        with (s * (f * f * (1 + unit_roundoff)))%R by ring.
      split; apply Rmult_le_compat_l; lra. }
    assert (Hbo : (s * f2 * (1 - unit_roundoff) <= fl (s * f2)
                   <= s * f2 * (1 + unit_roundoff))%R).
    { apply fl_within. apply (normal_rounds (s * f * f)); [exact Hn2 | lra]. }
    pose proof (two_roundings (s * f * f) (s * f2) (fl (s * f2)) HP2 Ha Hbo) as Ho.
    assert (Honce_below : (s * f * f * (1 + tolerance) < floor)%R ->
              Rltb (fl (s * f2)) floor = true).
    { intro H. apply Rltb_true. rewrite Ht in H. nra. }
    assert (Honce_above : (floor < s * f * f * (1 - tolerance))%R ->
              Rltb (fl (s * f2)) floor = false).
    { intro H. apply Rltb_false. rewrite Ht in H. nra. }
    destruct Hc1 as [Hbelow1|Habove1].
    + (* the first pass deletes the edge *)
      rewrite (Rltb_true (fl (s * f)) floor) by (rewrite Ht in Hbelow1; nra).
      change (decayed f floor []) with (@nil MemoryRelationship.t).
      destruct Hc2 as [Hbelow2|Habove2].
      * rewrite (Honce_below Hbelow2). constructor.
      * exfalso. rewrite Ht in Hbelow1, Habove2.
        assert (s * f < floor)%R by nra.
        assert (s * f < s * f * f)%R by nra.
        assert (1 < f)%R by nra.
        nra.
    + (* the first pass keeps it above the floor *)
      assert (Hs1 : (floor < fl (s * f))%R) by (rewrite Ht in Habove1; nra).
      rewrite (Rltb_false (fl (s * f)) floor) by lra.
      rewrite (decayed_cons _ _ _ []).
      change (decayed f floor []) with (@nil MemoryRelationship.t).
      rewrite app_nil_r.
      cbn [MemoryRelationship.strength MemoryRelationship.set_strength].
      rewrite (Rltb_true floor (fl (s * f)) Hs1).
      assert (Ha2 : (s * f * f * (1 - unit_roundoff) <= fl (s * f) * f
                     <= s * f * f * (1 + unit_roundoff))%R).
      { replace (s * f * f * (1 - unit_roundoff))%R
          with (s * f * (1 - unit_roundoff) * f)%R by ring.
        replace (s * f * f * (1 + unit_roundoff))%R
          with (s * f * (1 + unit_roundoff) * f)%R by ring.
        split; apply Rmult_le_compat_r; lra. }
      assert (Hb2 : (fl (s * f) * f * (1 - unit_roundoff) <= fl (fl (s * f) * f)
                     <= fl (s * f) * f * (1 + unit_roundoff))%R).
      { apply fl_within. apply (normal_rounds (s * f * f)); [exact Hn2 | lra]. }
      pose proof (two_roundings (s * f * f) (fl (s * f) * f)
                    (fl (fl (s * f) * f)) HP2 Ha2 Hb2) as Htw.
      destruct Hc2 as [Hbelow2|Habove2].
      * rewrite (Honce_below Hbelow2).
        rewrite (Rltb_true (fl (fl (s * f) * f)) floor)
          by (rewrite Ht in Hbelow2; nra).
        constructor.
      * rewrite (Honce_above Habove2).
        rewrite (Rltb_false (fl (fl (s * f) * f)) floor)
          by (rewrite Ht in Habove2; nra).
        constructor; [|constructor].
        unfold same_edge, within_tolerance.
        cbn [MemoryRelationship.id MemoryRelationship.source_id
             MemoryRelationship.target_id MemoryRelationship.relationship
             MemoryRelationship.created_at MemoryRelationship.strength
             MemoryRelationship.set_strength].
        repeat (split; [reflexivity|]).
        assert (Hpos : (0 < fl (s * f2))%R) by nra.
        rewrite (Rabs_pos_eq (fl (s * f2))) by lra. rewrite Ht.
        apply Rabs_le. split; nra.
  - rewrite (Rltb_false floor s) by lra.
    destruct (Rlt_dec s floor) as [Hlow|Hlow].
    + rewrite (Rltb_true s floor Hlow).
      change (decayed f floor []) with (@nil MemoryRelationship.t). constructor.
    + rewrite (Rltb_false s floor) by lra.
      rewrite (decayed_cons _ _ _ []).
      change (decayed f floor []) with (@nil MemoryRelationship.t).
      rewrite app_nil_r. fold s.
      rewrite (Rltb_false floor s) by lra. rewrite (Rltb_false s floor) by lra.
      constructor; [|constructor].
      unfold same_edge, within_tolerance. repeat (split; [reflexivity|]).
      fold s. replace (s - s)%R with 0%R by ring. rewrite Rabs_R0.
      apply Rmult_le_pos; [rewrite Ht; lra | apply Rabs_pos].
Qed.

Lemma decayed_twice (f f2 m : R) (rs : list MemoryRelationship.t) :
  (0 < f)%R ->
  (Rabs (f2 - f * f) <= unit_roundoff * (f * f))%R ->
  (forall r, In r rs -> (m < MemoryRelationship.strength r)%R ->
     normal (MemoryRelationship.strength r * f)
     /\ normal (MemoryRelationship.strength r * f * f)
     /\ clear_of m (MemoryRelationship.strength r * f)
     /\ clear_of m (MemoryRelationship.strength r * f * f)) ->
  Forall2 same_edge (decayed f m (decayed f m rs)) (decayed f2 m rs).
Proof.
  intros Hf Hf2. induction rs as [|r rs IH]; intro Hclear; [constructor|].
  change (r :: rs) with ([r] ++ rs). rewrite !decayed_app.
  apply Forall2_app.
  - apply decay_edge_twice; try assumption. intro Hs. apply Hclear; [now left | exact Hs].
  - apply IH. intros x Hx. apply Hclear. now right.
Qed.

(** Numbers with a short binary expansion are doubles. *)
Ltac fl_exact m e :=
  match goal with
  | |- fl ?x = _ =>
      replace x with (IZR m * pow2 e)%R by (unfold pow2, powerRZ; simpl; lra);
      rewrite fl_dyadic by lia; unfold pow2, powerRZ; simpl; lra
  end.

Lemma fl_eighth : fl (0.25 * 0.5) = 0.125%R.
Proof. fl_exact 1 (-3). Qed.

Lemma fl_sixteenth : fl (0.25 * 0.25) = 0.0625%R.
Proof. fl_exact 1 (-4). Qed.

Lemma fl_half : fl (1 * 0.5) = 0.5%R.
Proof. fl_exact 1 (-1). Qed.

Lemma fl_quarter : fl (0.5 * 0.5) = 0.25%R.
Proof. fl_exact 1 (-2). Qed.

Lemma fl_quarter' : fl (1 * 0.25) = 0.25%R.
Proof. fl_exact 1 (-2). Qed.

Ltac edge_simpl :=
  cbn [app MemoryRelationship.strength MemoryRelationship.set_strength
       MemoryRelationship.id MemoryRelationship.source_id
       MemoryRelationship.target_id MemoryRelationship.relationship
       MemoryRelationship.created_at].

(** C7, as stated, fails.  An edge below the floor is deleted without being
    multiplied: 0.0625 with factor 4 and floor 0.125 is deleted, not kept at
    0.25.  An edge of strength 0.25, decayed twice by 0.5 with floor 0.125,
    is at the floor after the first pass and stays there (the UPDATE takes
    [strength > floor], the DELETE [strength < floor]), whereas one pass by
    0.25 deletes it.  All these numbers and products are doubles. *)
Lemma decay_counterexample :
  memory_relationships (snd (decayRelationshipStrengths 4 0.125 (db_C7 0.0625)))
  = []
  /\ memory_relationships
       (snd (decayRelationshipStrengths 0.5 0.125
               (snd (decayRelationshipStrengths 0.5 0.125 (db_C7 0.25)))))
     = [edge_C7 0.125]
  /\ memory_relationships
       (snd (decayRelationshipStrengths 0.25 0.125 (db_C7 0.25)))
     = [].
Proof.
  rewrite !decayRelationshipStrengths_run.
  unfold db_C7, edge_C7. cbn [memory_relationships].
  split; [|split].
  - rewrite decayed_cons. edge_simpl. rcompare. reflexivity.
  - rewrite decayed_cons. edge_simpl. rcompare.
    rewrite fl_eighth. rcompare.
    change (decayed 0.5 0.125 []) with (@nil MemoryRelationship.t).
    cbn [app]. rewrite decayed_cons. edge_simpl. rcompare. reflexivity.
  - rewrite decayed_cons. edge_simpl. rcompare.
    rewrite fl_sixteenth. rcompare. reflexivity.
Qed.

(** C7, amended.  [decayRelationshipStrengths(factor, floor)] multiplies by
    [factor] the strength of every edge whose strength is above [floor],
    rounding the product to a double, then deletes every edge whose
    strength is below [floor]; it creates no edge, and an edge at or below
    the floor is not multiplied.  When the floor is not negative, or the
    factor and every strength before are not negative, no edge is left with
    a negative strength.  For every factor [f > 0] and every number [f2]
    within one rounding of [f * f] (the double [f * f] is one, for [f * f]
    in the normal range), two passes with [f] leave the same
    edges as one pass with [f2], with strengths within a relative tolerance
    of [2 ^ -50], provided that for every edge above the floor the products
    [strength * f] and [strength * f * f] are in the normal range of the
    doubles and clear of the floor by that tolerance. *)
Theorem decay_twice_is_decay_squared_off_the_floor (f floor : R) (db : Db) :
  (forall r, In r (memory_relationships db) ->
     (floor < MemoryRelationship.strength r)%R ->
     (floor <= fl (MemoryRelationship.strength r * f))%R ->
     In (MemoryRelationship.set_strength (fl (MemoryRelationship.strength r * f)) r)
        (memory_relationships (snd (decayRelationshipStrengths f floor db))))
  /\ (forall r', In r' (memory_relationships
                          (snd (decayRelationshipStrengths f floor db))) ->
        (floor <= MemoryRelationship.strength r')%R
        /\ exists r, In r (memory_relationships db)
                     /\ MemoryRelationship.id r' = MemoryRelationship.id r
                     /\ (floor <= MemoryRelationship.strength r)%R
                     /\ MemoryRelationship.strength r'
                        = (if Rltb floor (MemoryRelationship.strength r)
                           then fl (MemoryRelationship.strength r * f)
                           else MemoryRelationship.strength r))
  /\ ((0 <= floor)%R
      \/ ((0 <= f)%R
          /\ forall r, In r (memory_relationships db) ->
                       (0 <= MemoryRelationship.strength r)%R) ->
      forall r', In r' (memory_relationships
                          (snd (decayRelationshipStrengths f floor db))) ->
                 (0 <= MemoryRelationship.strength r')%R)
  /\ (forall f2,
        (0 < f)%R ->
        (Rabs (f2 - f * f) <= unit_roundoff * (f * f))%R ->
        (forall r, In r (memory_relationships db) ->
           (floor < MemoryRelationship.strength r)%R ->
           normal (MemoryRelationship.strength r * f)
           /\ normal (MemoryRelationship.strength r * f * f)
           /\ clear_of floor (MemoryRelationship.strength r * f)
           /\ clear_of floor (MemoryRelationship.strength r * f * f)) ->
        Forall2 same_edge
          (memory_relationships
             (snd (decayRelationshipStrengths f floor
                     (snd (decayRelationshipStrengths f floor db)))))
          (memory_relationships (snd (decayRelationshipStrengths f2 floor db))))
  /\ (normal (f * f) ->
      (Rabs (fl (f * f) - f * f) <= unit_roundoff * (f * f))%R).
Proof.
  rewrite !decayRelationshipStrengths_run.
  split; [|split; [|split; [|split]]].
  - intros r Hin Hs Hsf. now apply decayed_above_floor.
  - intros r' Hin. split.
    + eapply decayed_at_least_floor; eassumption.
    + eapply decayed_below_floor; eassumption.
  - intros [Hfloor|[Hf Hpos]] r' Hin.
    + pose proof (decayed_at_least_floor f floor _ r' Hin). lra.
    + destruct (decayed_below_floor f floor _ r' Hin) as (r & Hr & _ & _ & ->).
      specialize (Hpos r Hr).
      destruct (Rltb floor (MemoryRelationship.strength r)); [|exact Hpos].
      apply fl_nonneg. now apply Rmult_le_pos.
  - intros f2 Hf Hf2 Hclear. rewrite !decayRelationshipStrengths_run.
    now apply decayed_twice.
  - intros [Hlo _]. apply fl_error.
    assert (pow2 (-1022) <= pow2 (-1021))%R by (apply pow2_le; lia). lra.
Qed.

Lemma half_is_normal : normal (1 * 0.5) /\ normal (1 * 0.5 * 0.5).
Proof.
  assert (Hlo : (pow2 (-1021) <= pow2 (-2))%R) by (apply pow2_le; lia).
  assert (Hhi : (pow2 0 <= pow2 1023)%R) by (apply pow2_le; lia).
  assert (E2 : pow2 (-2) = 0.25%R) by (unfold pow2, powerRZ; simpl; lra).
  rewrite pow2_0 in Hhi. rewrite E2 in Hlo.
  unfold normal. split; lra.
Qed.

(** An edge of strength 1 and the floor 0.125: two passes by 0.5 and one
    pass by 0.25 both leave it at 0.25. *)
Lemma decay_twice_is_decay_squared_off_the_floor_witness :
  Forall2 same_edge
    (memory_relationships
       (snd (decayRelationshipStrengths 0.5 0.125
               (snd (decayRelationshipStrengths 0.5 0.125 (db_C7 1))))))
    (memory_relationships (snd (decayRelationshipStrengths 0.25 0.125 (db_C7 1))))
  /\ memory_relationships
       (snd (decayRelationshipStrengths 0.5 0.125
               (snd (decayRelationshipStrengths 0.5 0.125 (db_C7 1)))))
     = [edge_C7 0.25]
  /\ memory_relationships (snd (decayRelationshipStrengths 0.25 0.125 (db_C7 1)))
     = [edge_C7 0.25].
Proof.
  split; [|split].
  - apply (proj1 (proj2 (proj2 (proj2
             (decay_twice_is_decay_squared_off_the_floor 0.5 0.125 (db_C7 1)))))).
    + lra.
    + replace (0.25 - 0.5 * 0.5)%R with 0%R by lra. rewrite Rabs_R0.
      destruct roundoff_facts as [[Hu _] _]. nra.
    + intros r [<-|[]] _. cbn [edge_C7 MemoryRelationship.strength].
      destruct half_is_normal as [H1 H2].
      destruct roundoff_facts as [[Hu0 Hu1] Ht].
      split; [exact H1|]. split; [exact H2|].
      unfold clear_of. rewrite Ht. split; right; lra.
  - rewrite !decayRelationshipStrengths_run.
    unfold db_C7, edge_C7. cbn [memory_relationships].
    rewrite decayed_cons. edge_simpl. rcompare.
    rewrite fl_half. rcompare.
    change (decayed 0.5 0.125 []) with (@nil MemoryRelationship.t).
    cbn [app]. rewrite decayed_cons. edge_simpl. rcompare.
    rewrite fl_quarter. rcompare. reflexivity.
  - rewrite !decayRelationshipStrengths_run.
    unfold db_C7, edge_C7. cbn [memory_relationships].
    rewrite decayed_cons. edge_simpl. rcompare.
    rewrite fl_quarter'. rcompare. reflexivity.
Defined.

(** ** Co-access learning *)

Lemma set_relationship_table_same (db : Db) :
  set_relationship_table (relationship_table db) db = db.
Proof. now destruct db. Qed.

Lemma set_relationship_table_twice st st' (db : Db) :
  set_relationship_table st' (set_relationship_table st db)
  = set_relationship_table st' db.
Proof. reflexivity. Qed.

Lemma relationship_table_set st (db : Db) :
  relationship_table (set_relationship_table st db) = st.
Proof. now destruct st. Qed.

Lemma canonical_code (a b : Z) :
  (if a <? b then (a, b) else (b, a)) = canonical a b.
Proof.
  unfold canonical. destruct (Z.ltb_spec a b).
  - now rewrite Z.min_l, Z.max_r by lia.
  - now rewrite Z.min_r, Z.max_l by lia.
Qed.

Lemma coAccessPair_run (inc : R) (now : Z) (a b : Z) (db : Db) :
  linkable [a; b] db ->
  coAccessPair inc now a b db
  = (Ok tt,
     set_relationship_table
       (touch_edge inc now (relationship_table db) (canonical a b)) db).
Proof.
  intro Hlink. unfold coAccessPair. rewrite canonical_code.
  unfold touch_edge, relationship_table, set_relationship_table.
  cbn [fst snd]. unfold canonical.
  rewrite run_bind. unfold get at 1. cbn iota beta.
  change (select_similar (Z.min a b) (Z.max a b) db)
    with (find (is_edge (Z.min a b, Z.max a b)) (memory_relationships db)).
  destruct (find _ (memory_relationships db)) as [e|]; [reflexivity|].
  unfold insert_memory_relationship. rewrite !run_bind. unfold get at 1.
  cbn iota beta.
  assert (Hfk : foreign_keys db
                && negb (memory_exists (Z.min a b) db && memory_exists (Z.max a b) db)
                = false).
  { destruct Hlink as [->|Hex]; [reflexivity|].
    assert (Ha : memory_exists a db = true) by (apply Hex; now left).
    assert (Hb : memory_exists b db = true) by (apply Hex; right; now left).
    destruct (Z.min_spec a b) as [[_ ->]|[_ ->]];
      destruct (Z.max_spec a b) as [[_ ->]|[_ ->]];
      rewrite ?Ha, ?Hb; cbn; apply andb_false_r. }
  rewrite Hfk. reflexivity.
Qed.

Lemma linkable_set_table (ids : list Z) st (db : Db) :
  linkable ids db -> linkable ids (set_relationship_table st db).
Proof. intros [H|H]; [left | right]; exact H. Qed.

Lemma linkable_incl (ids ids' : list Z) (db : Db) :
  incl ids' ids -> linkable ids db -> linkable ids' db.
Proof. intros Hi [H|H]; [now left | right; intros id Hid; apply H, Hi, Hid]. Qed.

Lemma coAccess_inner_run (inc : R) (now : Z) (a : Z) (rest : list Z) : forall db,
  linkable (a :: rest) db ->
  forM_ rest (coAccessPair inc now a) db
  = (Ok tt,
     set_relationship_table
       (fold_left (touch_edge inc now) (map (canonical a) rest)
          (relationship_table db)) db).
Proof.
  induction rest as [|b rest IH]; intros db Hlink.
  - cbn. now rewrite set_relationship_table_same.
  - cbn [forM_ map fold_left]. rewrite run_bind.
    rewrite coAccessPair_run
      by (eapply linkable_incl; [|exact Hlink]; intros x [<-|[<-|[]]]; cbn; tauto).
    cbn iota beta. rewrite IH.
    + now rewrite set_relationship_table_twice, relationship_table_set.
    + apply linkable_set_table. eapply linkable_incl; [|exact Hlink].
      intros x [<-|Hx]; cbn; tauto.
Qed.

Lemma coAccessLoop_run (inc : R) (now : Z) (ids : list Z) : forall db,
  linkable ids db ->
  coAccessLoop inc now ids db
  = (Ok tt,
     set_relationship_table
       (fold_left (touch_edge inc now) (unordered_pairs ids) (relationship_table db))
       db).
Proof.
  induction ids as [|a rest IH]; intros db Hlink.
  - cbn. now rewrite set_relationship_table_same.
  - cbn [coAccessLoop unordered_pairs]. rewrite run_bind.
    rewrite coAccess_inner_run by exact Hlink. cbn iota beta.
    rewrite IH.
    + now rewrite set_relationship_table_twice, relationship_table_set,
        fold_left_app.
    + apply linkable_set_table. eapply linkable_incl; [|exact Hlink].
      intros x Hx. now right.
Qed.

Lemma fold_max_ge (seq : Z) (ids : list Z) :
  seq <= fold_right Z.max seq ids /\ forall x, In x ids -> x <= fold_right Z.max seq ids.
Proof.
  induction ids as [|y ids [IH1 IH2]]; cbn [fold_right].
  - split; [lia | intros x []].
  - split; [lia|]. intros x [->|Hx]; [lia|]. specialize (IH2 x Hx). lia.
Qed.

Lemma next_rowid_fresh (seq : Z) (ids : list Z) : ~ In (next_rowid seq ids) ids.
Proof.
  unfold next_rowid. intro H.
  apply (proj2 (fold_max_ge seq ids)) in H. lia.
Qed.

Lemma is_edge_unique (p q : Z * Z) (r : MemoryRelationship.t) :
  is_edge p r = true -> is_edge q r = true -> p = q.
Proof.
  unfold is_edge. intros Hp Hq.
  apply andb_prop in Hp. destruct Hp as [Hp _]. apply andb_prop in Hp.
  apply andb_prop in Hq. destruct Hq as [Hq _]. apply andb_prop in Hq.
  destruct Hp as [Hp1 Hp2], Hq as [Hq1 Hq2].
  apply Z.eqb_eq in Hp1, Hp2, Hq1, Hq2.
  destruct p, q. cbn in *. congruence.
Qed.

Lemma edge_same_id (rs : list MemoryRelationship.t) (a b : MemoryRelationship.t) :
  NoDup (map MemoryRelationship.id rs) -> In a rs -> In b rs ->
  MemoryRelationship.id a = MemoryRelationship.id b -> a = b.
Proof.
  induction rs as [|x rs IH]; intros Hnd Ha Hb E; [contradiction|].
  cbn [map] in Hnd. inversion Hnd as [|? ? Hnotin Hnd']; subst.
  destruct Ha as [->|Ha], Hb as [->|Hb].
  - reflexivity.
  - exfalso. apply Hnotin. rewrite E. now apply in_map.
  - exfalso. apply Hnotin. rewrite <- E. now apply in_map.
  - now apply IH.
Qed.

Lemma pair_eq_dec (p q : Z * Z) : {p = q} + {p <> q}.
Proof. decide equality; apply Z.eq_dec. Qed.

Lemma find_app_split {A} (f : A -> bool) (l l' : list A) :
  find f (l ++ l') = match find f l with Some x => Some x | None => find f l' end.
Proof.
  induction l as [|y l IH]; [reflexivity|]. cbn [app find].
  destruct (f y); [reflexivity | exact IH].
Qed.

Section TouchEdges.
Variables (inc : R) (now : Z).

Let strengthen (e : MemoryRelationship.t) (r : MemoryRelationship.t) :=
  if MemoryRelationship.id r =? MemoryRelationship.id e
  then MemoryRelationship.set_strength
         (Math_min 10 (MemoryRelationship.strength e + inc)%R) r
  else r.

Lemma find_strengthen (q : Z * Z) (e : MemoryRelationship.t)
  (rs : list MemoryRelationship.t) :
  find (is_edge q) (map (strengthen e) rs)
  = option_map (strengthen e) (find (is_edge q) rs).
Proof.
  induction rs as [|r rs IH]; [reflexivity|]. cbn [map find].
  assert (E : is_edge q (strengthen e r) = is_edge q r).
  { unfold strengthen. now destruct (_ =? _). }
  rewrite E. destruct (is_edge q r); [reflexivity | exact IH].
Qed.

Lemma touch_edge_ids (st : list MemoryRelationship.t * Z) (p : Z * Z) :
  NoDup (map MemoryRelationship.id (fst st)) ->
  NoDup (map MemoryRelationship.id (fst (touch_edge inc now st p)))
  /\ incl (map MemoryRelationship.id (fst st))
          (map MemoryRelationship.id (fst (touch_edge inc now st p))).
Proof.
  intro Hnd. unfold touch_edge.
  destruct (find (is_edge p) (fst st)) as [e|]; cbn [fst].
  - assert (E : map MemoryRelationship.id (map (strengthen e) (fst st))
                = map MemoryRelationship.id (fst st)).
    { rewrite map_map. apply map_ext. intro r. unfold strengthen.
      now destruct (_ =? _). }
    unfold strengthen in E. rewrite E. split; [exact Hnd | apply incl_refl].
  - rewrite map_app. cbn [map MemoryRelationship.id]. split.
    + apply NoDup_app; [exact Hnd | repeat constructor; intros [] |].
      intros x Hx [<-|[]]. now apply next_rowid_fresh in Hx.
    + apply incl_appl, incl_refl.
Qed.

Lemma touch_edge_other (st : list MemoryRelationship.t * Z) (p q : Z * Z) :
  NoDup (map MemoryRelationship.id (fst st)) -> q <> p ->
  find (is_edge q) (fst (touch_edge inc now st p)) = find (is_edge q) (fst st).
Proof.
  intros Hnd Hne. unfold touch_edge.
  destruct (find (is_edge p) (fst st)) as [e|] eqn:Hfind; cbn [fst].
  - fold (strengthen e). rewrite find_strengthen.
    destruct (find (is_edge q) (fst st)) as [r|] eqn:Hq; [|reflexivity].
    cbn [option_map]. f_equal. unfold strengthen.
    destruct (Z.eqb_spec (MemoryRelationship.id r) (MemoryRelationship.id e)) as [E|E];
      [|reflexivity].
    apply find_some in Hfind, Hq. destruct Hfind as [He Hpe], Hq as [Hr Hqr].
    assert (r = e) by (eapply edge_same_id; eauto). subst r.
    exfalso. apply Hne. eapply is_edge_unique; eauto.
  - rewrite find_app_split.
    destruct (find (is_edge q) (fst st)); [reflexivity|].
    cbn [find]. replace (is_edge q _) with false; [reflexivity|].
    symmetry. unfold is_edge. cbn.
    destruct (Z.eqb_spec (fst p) (fst q)) as [E1|E1]; [|reflexivity].
    destruct (Z.eqb_spec (snd p) (snd q)) as [E2|E2]; [|reflexivity].
    exfalso. apply Hne. destruct p, q. cbn in *. congruence.
Qed.

Lemma touch_edges_ids (ps : list (Z * Z)) : forall st,
  NoDup (map MemoryRelationship.id (fst st)) ->
  NoDup (map MemoryRelationship.id (fst (fold_left (touch_edge inc now) ps st)))
  /\ incl (map MemoryRelationship.id (fst st))
          (map MemoryRelationship.id (fst (fold_left (touch_edge inc now) ps st))).
Proof.
  induction ps as [|p ps IH]; intros st Hnd; cbn [fold_left].
  - split; [exact Hnd | apply incl_refl].
  - destruct (touch_edge_ids st p Hnd) as [H1 H2].
    destruct (IH _ H1) as [H3 H4]. split; [exact H3|].
    eapply incl_tran; eassumption.
Qed.

(** Pairs that are not processed keep the edge that is found for them. *)
Lemma touch_edges_frame (ps : list (Z * Z)) (q : Z * Z) : forall st,
  NoDup (map MemoryRelationship.id (fst st)) -> ~ In q ps ->
  find (is_edge q) (fst (fold_left (touch_edge inc now) ps st))
  = find (is_edge q) (fst st).
Proof.
  induction ps as [|p ps IH]; intros st Hnd Hq; [reflexivity|].
  cbn [fold_left]. rewrite IH.
  - apply touch_edge_other; [exact Hnd|]. intro E. apply Hq. now left.
  - apply touch_edge_ids, Hnd.
  - intro H. apply Hq. now right.
Qed.

Lemma find_app_none {A} (f : A -> bool) (l : list A) (x : A) :
  find f l = None -> find f (l ++ [x]) = if f x then Some x else None.
Proof.
  induction l as [|y l IH]; cbn [app find]; intro H; [reflexivity|].
  destruct (f y); [discriminate | now apply IH].
Qed.

Lemma is_edge_new (p : Z * Z) (id : Z) :
  is_edge p (MemoryRelationship.mk id (fst p) (snd p) similar inc now) = true.
Proof. unfold is_edge. cbn. now rewrite !Z.eqb_refl. Qed.

Lemma touch_edge_touched (st : list MemoryRelationship.t * Z) (p : Z * Z) :
  NoDup (map MemoryRelationship.id (fst st)) ->
  touched inc now p (fst st) (fst (touch_edge inc now st p)).
Proof.
  intro Hnd. unfold touched, touch_edge.
  destruct (find (is_edge p) (fst st)) as [e|] eqn:Hfind; cbn [fst].
  - fold (strengthen e). rewrite find_strengthen, Hfind. cbn [option_map].
    unfold strengthen. now rewrite Z.eqb_refl.
  - eexists. rewrite (find_app_none _ _ _ Hfind), is_edge_new.
    split; [reflexivity|]. cbn. repeat split. apply next_rowid_fresh.
Qed.

Lemma touch_edges_touched (ps : list (Z * Z)) : forall st p,
  NoDup (map MemoryRelationship.id (fst st)) -> NoDup ps -> In p ps ->
  touched inc now p (fst st) (fst (fold_left (touch_edge inc now) ps st)).
Proof.
  induction ps as [|q ps IH]; intros st p Hnd Hps Hp; [contradiction|].
  inversion Hps as [|? ? Hnotin Hps']; subst. cbn [fold_left].
  destruct (touch_edge_ids st q Hnd) as [Hnd1 Hincl].
  destruct Hp as [->|Hp].
  - pose proof (touch_edge_touched st p Hnd) as H.
    unfold touched in *. rewrite touch_edges_frame by assumption.
    exact H.
  - assert (Hne : p <> q) by (intro E; subst; contradiction).
    pose proof (IH (touch_edge inc now st q) p Hnd1 Hps' Hp) as H.
    unfold touched in *. rewrite (touch_edge_other st q p Hnd Hne) in H.
    destruct (find (is_edge p) (fst st)) as [e|]; [exact H|].
    destruct H as (e' & H1 & H2 & H3 & H4 & H5 & H6 & H7).
    exists e'. repeat split; try assumption.
    intro Hin. apply H7. now apply Hincl.
Qed.

(** An edge that no processed pair finds stays as it is. *)
Lemma touch_edges_untouched (ps : list (Z * Z)) : forall st r,
  NoDup (map MemoryRelationship.id (fst st)) ->
  In r (fst st) ->
  (forall p, In p ps -> find (is_edge p) (fst st) <> Some r) ->
  In r (fst (fold_left (touch_edge inc now) ps st)).
Proof.
  induction ps as [|q ps IH]; intros st r Hnd Hr Hno; [exact Hr|].
  cbn [fold_left].
  destruct (touch_edge_ids st q Hnd) as [Hnd1 _].
  assert (Hr1 : In r (fst (touch_edge inc now st q))).
  { unfold touch_edge.
    destruct (find (is_edge q) (fst st)) as [e|] eqn:Hfind; cbn [fst].
    - apply in_map_iff. exists r. split; [|exact Hr].
      destruct (Z.eqb_spec (MemoryRelationship.id r) (MemoryRelationship.id e)) as [E|E];
        [|reflexivity].
      exfalso. apply (Hno q (or_introl eq_refl)). rewrite Hfind. f_equal.
      apply find_some in Hfind. destruct Hfind as [He _]. symmetry.
      exact (edge_same_id (fst st) r e Hnd Hr He E).
    - apply in_or_app. now left. }
  apply IH; [exact Hnd1 | exact Hr1 |].
  intros p Hp Hfind.
  destruct (pair_eq_dec p q) as [->|Hne].
  - (* q occurs again among the rest: it now finds an edge that q touched *)
    apply (Hno q (or_introl eq_refl)).
    unfold touch_edge in Hfind.
    destruct (find (is_edge q) (fst st)) as [e|] eqn:Hq; cbn [fst] in Hfind.
    + fold (strengthen e) in Hfind. rewrite find_strengthen, Hq in Hfind.
      cbn [option_map] in Hfind. injection Hfind as Hfind.
      unfold strengthen in Hfind. rewrite Z.eqb_refl in Hfind.
      f_equal. apply find_some in Hq. destruct Hq as [He _].
      apply (edge_same_id (fst st) e r Hnd He Hr).
      now rewrite <- Hfind.
    + rewrite (find_app_none _ _ _ Hq), is_edge_new in Hfind.
      injection Hfind as <-. exfalso.
      apply (next_rowid_fresh (snd st) (map MemoryRelationship.id (fst st))).
      now apply (in_map MemoryRelationship.id) in Hr.
  - rewrite (touch_edge_other st q p Hnd Hne) in Hfind. now apply (Hno p (or_intror Hp)).
Qed.

(** Only the pairs without an edge add one. *)
Lemma touch_edges_length (ps : list (Z * Z)) : forall st,
  NoDup (map MemoryRelationship.id (fst st)) -> NoDup ps ->
  List.length (fst (fold_left (touch_edge inc now) ps st))
  = (List.length (fst st)
     + List.length (filter (fun p => match find (is_edge p) (fst st) with
                                     | Some _ => false
                                     | None => true
                                     end) ps))%nat.
Proof.
  induction ps as [|q ps IH]; intros st Hnd Hps; cbn [fold_left filter].
  - cbn. lia.
  - inversion Hps as [|? ? Hnotin Hps']; subst.
    destruct (touch_edge_ids st q Hnd) as [Hnd1 _].
    rewrite IH by assumption.
    assert (Hf : filter (fun p => match find (is_edge p) (fst (touch_edge inc now st q)) with
                                  | Some _ => false | None => true end) ps
                 = filter (fun p => match find (is_edge p) (fst st) with
                                    | Some _ => false | None => true end) ps).
    { apply filter_ext_in. intros p Hp.
      rewrite touch_edge_other; [reflexivity | exact Hnd |].
      intro E. subst. contradiction. }
    rewrite Hf. unfold touch_edge.
    destruct (find (is_edge q) (fst st)) as [e|]; cbn [fst List.length].
    + rewrite length_map. reflexivity.
    + rewrite length_app. cbn. lia.
Qed.
End TouchEdges.

Lemma canonical_In (a b : Z) (rest : list Z) (p : Z * Z) :
  In p (map (canonical a) rest) ->
  exists b, In b rest /\ p = (Z.min a b, Z.max a b).
Proof.
  intro H. apply in_map_iff in H. destruct H as (x & <- & Hx). now exists x.
Qed.

Lemma unordered_pairs_members (ids : list Z) (a b : Z) :
  In (a, b) (unordered_pairs ids) -> In a ids /\ In b ids /\ a <= b.
Proof.
  induction ids as [|x rest IH]; [intros []|].
  cbn [unordered_pairs]. intro H. apply in_app_or in H. destruct H as [H|H].
  - apply (canonical_In x x) in H. destruct H as (y & Hy & E).
    injection E as -> ->.
    destruct (Z.lt_ge_cases x y).
    + rewrite Z.min_l, Z.max_r by lia. cbn. repeat split; auto. lia.
    + rewrite Z.min_r, Z.max_l by lia. cbn. repeat split; auto.
  - destruct (IH H) as (Ha & Hb & Hab). cbn. tauto.
Qed.

Lemma unordered_pairs_iff (ids : list Z) (a b : Z) :
  NoDup ids ->
  (In (a, b) (unordered_pairs ids) <-> In a ids /\ In b ids /\ a < b).
Proof.
  induction ids as [|x rest IH]; intro Hnd.
  - cbn. tauto.
  - inversion Hnd as [|? ? Hnotin Hnd']; subst. cbn [unordered_pairs]. split.
    + intro H. apply in_app_or in H. destruct H as [H|H].
      * apply (canonical_In x x) in H. destruct H as (y & Hy & E).
        injection E as -> ->.
        assert (x <> y) by (intro; subst; contradiction).
        destruct (Z.lt_ge_cases x y).
        -- rewrite Z.min_l, Z.max_r by lia. cbn. repeat split; auto.
        -- rewrite Z.min_r, Z.max_l by lia. cbn. repeat split; auto. lia.
      * apply IH in H; [|exact Hnd']. cbn. tauto.
    + intros (Ha & Hb & Hab). apply in_or_app.
      destruct Ha as [->|Ha], Hb as [->|Hb].
      * lia.
      * left. apply in_map_iff. exists b. split; [|exact Hb].
        unfold canonical. now rewrite Z.min_l, Z.max_r by lia.
      * left. apply in_map_iff. exists a. split; [|exact Ha].
        unfold canonical. now rewrite Z.min_r, Z.max_l by lia.
      * right. apply IH; tauto.
Qed.

Lemma unordered_pairs_NoDup (ids : list Z) :
  NoDup ids -> NoDup (unordered_pairs ids).
Proof.
  induction ids as [|x rest IH]; intro Hnd; [constructor|].
  inversion Hnd as [|? ? Hnotin Hnd']; subst. cbn [unordered_pairs].
  apply NoDup_app.
  - clear IH Hnd. induction rest as [|y rest IH]; [constructor|].
    inversion Hnd' as [|? ? Hy Hrest]; subst. cbn [map]. constructor.
    + intro H. apply (canonical_In x x) in H. destruct H as (z & Hz & E).
      unfold canonical in E. injection E as E1 E2.
      assert (y = z) by lia. subst z. contradiction.
    + apply IH; [|exact Hrest]. intro H. apply Hnotin. now right.
  - now apply IH.
  - intros [a b] H1 H2.
    apply (canonical_In x x) in H1. destruct H1 as (y & Hy & E).
    injection E as -> ->.
    apply unordered_pairs_members in H2. destruct H2 as (Ha & Hb & _).
    destruct (Z.min_spec x y) as [[_ Hm]|[_ Hm]]; rewrite Hm in Ha.
    + contradiction.
    + destruct (Z.max_spec x y) as [[? Hx]|[? Hx]]; rewrite Hx in Hb;
        [|contradiction].
      assert (x = y) by lia. subst. contradiction.
Qed.

Lemma recordCoAccess_run (ids : list Z) (inc : R) (now : Z) (db : Db) :
  linkable ids db ->
  recordCoAccess ids inc now db
  = (Ok tt,
     set_relationship_table
       (fold_left (touch_edge inc now) (unordered_pairs ids) (relationship_table db))
       db).
Proof.
  intro Hlink. unfold recordCoAccess.
  destruct (Z.ltb_spec (Z.of_nat (List.length ids)) 2) as [Hlt|Hge].
  - destruct ids as [|a [|b rest]]; cbn [List.length] in Hlt; try lia;
      cbn; now rewrite set_relationship_table_same.
  - now apply coAccessLoop_run.
Qed.

(** C9. For a list of at least two distinct ids that can be linked (they
    are memories, or the connection does not enforce foreign keys),
    [recordCoAccess] returns and touches the table [memory_relationships]
    only, and there exactly the edges of the unordered pairs [(a, b)],
    [a < b], of the list: for a pair that has a 'similar' edge [(a, b)], the
    edge the query finds gets [min(10, strength + incrementStrength)]; for a
    pair without one, an edge [(a, b, 'similar', incrementStrength)] is
    created; every other edge stays as it is and no other edge is created.
    For [1, 2, 3] the pairs are (1,2), (1,3), (2,3). *)
Theorem recordCoAccess_touches_each_pair
  (ids : list Z) (inc : R) (now : Z) (db : Db) :
  (2 <= List.length ids)%nat ->
  NoDup ids ->
  NoDup (map MemoryRelationship.id (memory_relationships db)) ->
  linkable ids db ->
  let db' := snd (recordCoAccess ids inc now db) in
  fst (recordCoAccess ids inc now db) = Ok tt
  /\ memories db' = memories db
  /\ memory_feedback db' = memory_feedback db
  /\ (forall a b, In (a, b) (unordered_pairs ids) <-> In a ids /\ In b ids /\ a < b)
  /\ (forall a b, In (a, b) (unordered_pairs ids) ->
        match select_similar a b db with
        | Some e =>
            select_similar a b db'
            = Some (MemoryRelationship.set_strength
                      (Math_min 10 (MemoryRelationship.strength e + inc)%R) e)
        | None =>
            exists e', select_similar a b db' = Some e'
                       /\ MemoryRelationship.source_id e' = a
                       /\ MemoryRelationship.target_id e' = b
                       /\ MemoryRelationship.relationship e' = similar
                       /\ MemoryRelationship.strength e' = inc
                       /\ MemoryRelationship.created_at e' = now
                       /\ ~ In (MemoryRelationship.id e')
                               (map MemoryRelationship.id (memory_relationships db))
        end)
  /\ (forall r, In r (memory_relationships db) ->
        (forall a b, In (a, b) (unordered_pairs ids) -> select_similar a b db <> Some r) ->
        In r (memory_relationships db'))
  /\ List.length (memory_relationships db')
     = (List.length (memory_relationships db)
        + List.length (filter (fun p => match select_similar (fst p) (snd p) db with
                                        | Some _ => false
                                        | None => true
                                        end)
                         (unordered_pairs ids)))%nat
  /\ unordered_pairs [1; 2; 3] = [(1, 2); (1, 3); (2, 3)].
Proof.
  intros Hlen Hids Hnd Hlink. cbv zeta.
  rewrite (recordCoAccess_run ids inc now db Hlink). cbn [fst snd].
  pose proof (unordered_pairs_NoDup ids Hids) as Hps.
  split; [reflexivity|]. split; [reflexivity|]. split; [reflexivity|].
  split; [intros a b; now apply unordered_pairs_iff|].
  split; [|split; [|split]].
  - intros a b Hab.
    pose proof (touch_edges_touched inc now (unordered_pairs ids)
                  (relationship_table db) (a, b) Hnd Hps Hab) as H.
    exact H.
  - intros r Hr Hno.
    apply (touch_edges_untouched inc now (unordered_pairs ids)
             (relationship_table db) r Hnd Hr).
    intros [a b] Hp. now apply Hno.
  - exact (touch_edges_length inc now (unordered_pairs ids)
             (relationship_table db) Hnd Hps).
  - reflexivity.
Qed.

Lemma recordCoAccess_touches_each_pair_witness :
  memory_relationships (snd (recordCoAccess [1; 2; 3] 0.1 50 db_C9))
  = [edge_C9 1 1 2 (Math_min 10 (9.95 + 0.1));
     MemoryRelationship.mk 2 1 3 similar 0.1 50;
     MemoryRelationship.mk 3 2 3 similar 0.1 50]
  /\ Math_min 10 (9.95 + 0.1) = 10%R
  /\ select_similar 1 2 (snd (recordCoAccess [1; 2; 3] 0.1 50 db_C9))
     = Some (edge_C9 1 1 2 (Math_min 10 (9.95 + 0.1))).
Proof.
  assert (Hids : NoDup [1; 2; 3]).
  { repeat constructor; cbn; intuition discriminate. }
  assert (Hnd : NoDup (map MemoryRelationship.id (memory_relationships db_C9))).
  { repeat constructor; intros []. }
  assert (Hlink : linkable [1; 2; 3] db_C9).
  { right. intros id [<-|[<-|[<-|[]]]]; reflexivity. }
  pose proof (recordCoAccess_touches_each_pair [1; 2; 3] 0.1 50 db_C9
                (le_S _ _ (le_n 2)) Hids Hnd Hlink) as H.
  cbv zeta in H. destruct H as (_ & _ & _ & _ & Hpairs & _).
  split; [|split].
  - rewrite (recordCoAccess_run _ _ _ _ Hlink). reflexivity.
  - unfold Math_min. rewrite Rmin_left; lra.
  - exact (Hpairs 1 2 (or_introl eq_refl)).
Defined.

(** ** Suggested memories *)

Section Sorted.
Context {A : Type} (leb : A -> A -> bool).
Hypothesis leb_total : forall a b, leb a b = true \/ leb b a = true.
Hypothesis leb_trans : forall a b c, leb a b = true -> leb b c = true -> leb a c = true.

Let le (a b : A) : Prop := leb a b = true.

Lemma insert_by_sorted (x : A) (l : list A) :
  StronglySorted le l -> StronglySorted le (insert_by leb x l).
Proof.
  induction l as [|y l IH]; intro Hs; cbn [insert_by].
  - repeat constructor.
  - apply StronglySorted_inv in Hs. destruct Hs as [Hs Hy].
    destruct (leb x y) eqn:Hxy.
    + constructor; [constructor; assumption|].
      constructor; [exact Hxy|].
      eapply Forall_impl; [|exact Hy]. intros z Hz. eapply leb_trans; eassumption.
    + constructor; [now apply IH|].
      assert (Hyx : le y x).
      { destruct (leb_total x y) as [H|H]; [congruence | exact H]. }
      apply Forall_forall. intros z Hz.
      apply (Permutation_in _ (insert_by_perm leb x l)) in Hz.
      destruct Hz as [<-|Hz]; [exact Hyx|].
      rewrite Forall_forall in Hy. now apply Hy.
Qed.

Lemma order_by_sorted (l : list A) : StronglySorted le (order_by leb l).
Proof.
  induction l as [|x l IH]; cbn [order_by fold_right]; [constructor|].
  now apply insert_by_sorted.
Qed.
End Sorted.

Lemma firstn_sorted {A} (le : A -> A -> Prop) (n : nat) (l : list A) :
  StronglySorted le l -> StronglySorted le (firstn n l).
Proof.
  revert l. induction n as [|n IH]; intros [|x l] Hs; cbn [firstn];
    try constructor.
  - apply IH. now apply StronglySorted_inv in Hs.
  - apply StronglySorted_inv in Hs. destruct Hs as [_ Hx].
    apply Forall_forall. intros y Hy. apply In_firstn in Hy.
    rewrite Forall_forall in Hx. now apply Hx.
Qed.

Lemma sql_limit_sorted {A} (le : A -> A -> Prop) (limit : Z) (l : list A) :
  StronglySorted le l -> StronglySorted le (sql_limit limit l).
Proof.
  intro Hs. unfold sql_limit. destruct (limit <? 0); [exact Hs|].
  now apply firstn_sorted.
Qed.


Lemma map_sorted {A B} (f : A -> B) (le : B -> B -> Prop) (l : list A) :
  StronglySorted (fun a b => le (f a) (f b)) l -> StronglySorted le (map f l).
Proof.
  induction 1 as [|x l _ IH Hx]; cbn [map]; constructor; [exact IH|].
  apply Forall_forall. intros y Hy. apply in_map_iff in Hy.
  destruct Hy as (z & <- & Hz). rewrite Forall_forall in Hx. now apply Hx.
Qed.

Lemma sorted_impl {A} (le le' : A -> A -> Prop) (l : list A) :
  (forall a b, le a b -> le' a b) -> StronglySorted le l -> StronglySorted le' l.
Proof.
  intro Himp. induction 1 as [|x l _ IH Hx]; constructor; [exact IH|].
  eapply Forall_impl; [|exact Hx]. intros y. apply Himp.
Qed.












Lemma select_memory_update_other (id id' : Z) (f : Memory.t -> Memory.t) (db : Db) :
  (forall x, Memory.id (f x) = Memory.id x) -> id' <> id ->
  select_memory id' (update_memory id f db) = select_memory id' db.
Proof.
  intros Hid Hne. unfold select_memory, update_memory.
  rewrite with_memories_memories. now apply find_map_other.
Qed.

Lemma flat_map_ext_in {A B} (f g : A -> list B) (l : list A) :
  (forall x, In x l -> f x = g x) -> flat_map f l = flat_map g l.
Proof.
  induction l as [|x l IH]; intro H; [reflexivity|]. cbn [flat_map].
  rewrite (H x) by now left. f_equal. apply IH. intros y Hy. apply H. now right.
Qed.


Lemma select_memory_some (id : Z) (db : Db) (m : Memory.t) :
  select_memory id db = Some m -> In m (memories db) /\ Memory.id m = id.
Proof.
  unfold select_memory. intro H. apply find_some in H.
  destruct H as [Hin E]. split; [exact Hin | now apply Z.eqb_eq].
Qed.











(** ** Consolidation *)

Lemma max_list_bounds (lo hi : Z) (l : list Z) :
  l <> [] -> (forall x, In x l -> lo <= x <= hi) -> lo <= max_list l <= hi.
Proof.
  destruct l as [|x l]; [congruence|]. intros _ H. cbn [max_list].
  assert (Hx : lo <= x <= hi) by (apply H; now left).
  assert (Hl : forall y, In y l -> lo <= y <= hi) by (intros y Hy; apply H; now right).
  clear H. induction l as [|y l IH]; cbn [fold_right]; [exact Hx|].
  assert (lo <= y <= hi) by (apply Hl; now left).
  assert (lo <= fold_right Z.max x l <= hi)
    by (apply IH; intros z Hz; apply Hl; now right).
  lia.
Qed.

Lemma memory_exists_update (k i : Z) (f : Memory.t -> Memory.t) (db : Db) :
  (forall x, Memory.id (f x) = Memory.id x) ->
  memory_exists k (update_memory i f db) = memory_exists k db.
Proof.
  intro Hid. unfold memory_exists, update_memory. rewrite with_memories_memories.
  induction (memories db) as [|x ms IH]; [reflexivity|]. cbn [map existsb].
  rewrite IH. f_equal. destruct (Memory.id x =? i); [now rewrite Hid | reflexivity].
Qed.

Lemma mark_consolidated_cons (s : Z) (rest : list Z) (parent : Z) (m : Memory.t) :
  mark_consolidated rest parent
    (if Memory.id m =? s then Memory.set_status consolidated (Some parent) m else m)
  = mark_consolidated (s :: rest) parent m.
Proof.
  unfold mark_consolidated, mem_Z. cbn [existsb].
  destruct (Z.eqb_spec (Memory.id m) s) as [E|E]; cbn [orb Memory.id Memory.set_status].
  - destruct (existsb (Z.eqb (Memory.id m)) rest); reflexivity.
  - reflexivity.
Qed.

(** The loop of [consolidate] over the sources of one cluster. *)
Lemma consolidate_sources_run
  (parent : Z) (avg : R) (now : Z) (sources : list Memory.t) : forall db,
  memory_exists parent db = true ->
  (forall s, In s sources -> memory_exists (Memory.id s) db = true) ->
  exists db',
    forM_ sources
      (fun source =>
         updateMemoryStatus (Memory.id source) consolidated (Some parent) ;;;
         createRelationship (Memory.id source) parent derived_from avg now ;;;
         ret tt) db
    = (Ok tt, db')
    /\ memories db'
       = map (mark_consolidated (map Memory.id sources) parent) (memories db)
    /\ memories_seq db' = memories_seq db
    /\ foreign_keys db' = foreign_keys db
    /\ memory_feedback db' = memory_feedback db.
Proof.
  induction sources as [|s sources IH]; intros db Hparent Hex.
  - exists db. repeat split. unfold mark_consolidated. cbn. now rewrite map_id.
  - cbn [forM_]. rewrite !run_bind.
    unfold updateMemoryStatus at 1. rewrite run_bind. unfold get at 1.
    cbn iota beta. rewrite Hparent. cbn [negb]. rewrite andb_false_r.
    rewrite !run_bind. unfold put at 1. cbn iota beta.
    unfold ret at 1. cbn iota beta.
    set (db1 := update_memory (Memory.id s)
                  (Memory.set_status consolidated (Some parent)) db).
    assert (Hex1 : forall k, memory_exists k db1 = memory_exists k db).
    { intro k. apply memory_exists_update. reflexivity. }
    rewrite !run_bind.
    unfold createRelationship. rewrite run_bind.
    unfold insert_memory_relationship. rewrite run_bind. unfold get at 1.
    cbn iota beta. rewrite !Hex1, Hparent, (Hex s (or_introl eq_refl)).
    cbn [andb negb]. rewrite andb_false_r.
    rewrite !run_bind. unfold put at 1. cbn iota beta.
    unfold ret at 1 2 3. cbn iota beta.
    set (db2 := with_relationships _ _ db1).
    destruct (IH db2) as (db' & Hrun & Hms & Hseq & Hfk & Hfb).
    + change (memory_exists parent db2) with (memory_exists parent db1).
      now rewrite Hex1.
    + intros x Hx. change (memory_exists (Memory.id x) db2)
        with (memory_exists (Memory.id x) db1).
      rewrite Hex1. apply Hex. now right.
    + exists db'. split; [exact Hrun|].
      split; [|split; [exact Hseq|split; [exact Hfk | exact Hfb]]].
      rewrite Hms. unfold db2, db1, update_memory.
      cbn [memories with_relationships with_memories].
      rewrite map_map. apply map_ext. intro m. cbn [map].
      apply mark_consolidated_cons.
Qed.

(** The embedding of the new memory changes no row of [memories]. *)
Lemma embed_step_run (host : Host) (id : Z) (text : string) (db : Db) :
  exists warnings db',
    try_catch (embedMemory host id text ;;; ret [])
      (fun e => ret [("Failed to embed consolidated memory #"
                      ++ show_Z id ++ ": " ++ show_error host e)%string]) db
    = (Ok warnings, db')
    /\ memories db' = memories db
    /\ memories_seq db' = memories_seq db
    /\ foreign_keys db' = foreign_keys db
    /\ memory_feedback db' = memory_feedback db.
Proof.
  unfold try_catch, embedMemory. rewrite run_bind.
  destruct (generateEmbedding host text embedding_model) as [v|e].
  - unfold storeEmbedding. rewrite run_bind. unfold get at 1. cbn iota beta.
    destruct (foreign_keys db && negb (memory_exists id db)).
    + do 2 eexists. split; [reflexivity|]. repeat split.
    + do 2 eexists. split; [reflexivity|]. repeat split.
  - do 2 eexists. split; [reflexivity|]. repeat split.
Qed.

Lemma memory_exists_In (m : Memory.t) (db : Db) :
  In m (memories db) -> memory_exists (Memory.id m) db = true.
Proof.
  intro H. apply memory_exists_iff. now exists m.
Qed.

Lemma memory_exists_same_rows (k : Z) (db db' : Db) :
  memories db' = memories db -> memory_exists k db' = memory_exists k db.
Proof. intro H. unfold memory_exists. now rewrite H. Qed.

Lemma map_mark_fresh (sources : list Z) (parent : Z) (ms : list Memory.t)
  (f : Memory.t -> Memory.t) :
  ~ In parent (map Memory.id ms) ->
  map (fun m => if Memory.id m =? parent then f m else m) ms = ms.
Proof.
  intro H. rewrite <- (map_id ms) at 2. apply map_ext_in. intros m Hm.
  destruct (Z.eqb_spec (Memory.id m) parent) as [E|E]; [|reflexivity].
  exfalso. apply H. rewrite <- E. now apply in_map.
Qed.

Lemma consolidateCluster_run
  (host : Host) (projectHash : option string) (now : Z)
  (cluster : ConsolidationCluster) (db : Db) :
  NoDup (map Memory.id (memories db)) ->
  (forall s, In s (cc_memories cluster) -> In s (memories db)) ->
  1 <= cc_combinedImportance cluster <= 9 ->
  1 <= newLevel_of cluster <= 3 ->
  let newId := next_rowid (memories_seq db) (map Memory.id (memories db)) in
  exists warnings db',
    consolidateCluster host projectHash now cluster db
    = (Ok (Build_Abstraction newId (newLevel_of cluster)
             (substring 0 200 (cc_suggestedAbstraction cluster) ++ "...")%string
             (Z.of_nat (List.length (cc_memories cluster)))
             (cc_combinedImportance cluster),
           warnings),
       db')
    /\ memories db'
       = map (mark_consolidated (map Memory.id (cc_memories cluster)) newId)
           (memories db)
         ++ [abstraction_row host projectHash now cluster newId]
    /\ memories_seq db' = newId
    /\ foreign_keys db' = foreign_keys db
    /\ memory_feedback db' = memory_feedback db.
Proof.
  intros Hnd Hsrc Himp Hlvl newId.
  assert (Hfresh : ~ In newId (map Memory.id (memories db)))
    by apply next_rowid_fresh.
  unfold consolidateCluster. cbv zeta.
  rewrite run_bind. unfold createMemory at 1. rewrite run_bind. unfold get at 1.
  cbn iota beta. cbn [cm_importance cm_type cm_encoded cm_decodedCache cm_scope
                      cm_projectHash].
  assert (Hc : negb ((1 <=? cc_combinedImportance cluster)
                     && (cc_combinedImportance cluster <=? 9)) = false).
  { apply negb_false_iff, andb_true_iff. split; apply Z.leb_le; lia. }
  rewrite Hc. rewrite run_bind. unfold put at 1. cbn iota beta.
  unfold ret at 1. cbn iota beta. fold newId.
  set (row := Memory.mk newId _ _ _ _ _ _ _ _ _ _ _ _ _ _ _ _).
  set (db1 := with_memories (memories db ++ [row]) newId db).
  cbn [Memory.id row].
  (* the level *)
  rewrite run_bind. unfold update_level at 1. rewrite run_bind. unfold get at 1.
  cbn iota beta.
  assert (Hl : negb ((1 <=? newLevel_of cluster) && (newLevel_of cluster <=? 3)) = false).
  { apply negb_false_iff, andb_true_iff. split; apply Z.leb_le; lia. }
  rewrite Hl, andb_false_r. unfold put at 1. cbn iota beta.
  set (db2 := update_memory newId (Memory.set_level (newLevel_of cluster)) db1).
  assert (Hms2 : memories db2
                 = memories db ++ [abstraction_row host projectHash now cluster newId]).
  { unfold db2, db1, update_memory. rewrite !with_memories_memories, map_app.
    rewrite (map_mark_fresh [] newId (memories db)) by exact Hfresh.
    cbn [map]. unfold row. cbn [Memory.id]. rewrite Z.eqb_refl. reflexivity. }
  (* the embedding *)
  rewrite run_bind.
  destruct (embed_step_run host newId (cc_suggestedAbstraction cluster) db2)
    as (warnings & db3 & Hrun3 & Hms3 & Hseq3 & Hfk3 & Hfb3).
  rewrite Hrun3. cbn iota beta.
  (* the sources *)
  rewrite run_bind.
  destruct (consolidate_sources_run newId (cc_averageSimilarity cluster) now
              (cc_memories cluster) db3)
    as (db4 & Hrun4 & Hms4 & Hseq4 & Hfk4 & Hfb4).
  { apply memory_exists_iff. exists (abstraction_row host projectHash now cluster newId).
    rewrite Hms3, Hms2. split; [apply in_or_app; right; now left | reflexivity]. }
  { intros s Hs. apply memory_exists_iff. exists s. split; [|reflexivity].
    rewrite Hms3, Hms2. apply in_or_app. left. now apply Hsrc. }
  rewrite Hrun4. cbn iota beta.
  exists warnings, db4. split; [reflexivity|].
  split; [|split; [|split]].
  - rewrite Hms4, Hms3, Hms2, map_app. f_equal. cbn [map]. f_equal.
    unfold mark_consolidated. cbn [Memory.id abstraction_row].
    rewrite mem_Z_not_In; [reflexivity|].
    intro H. apply Hfresh. apply in_map_iff in H. destruct H as (s & E & Hs).
    apply in_map_iff. exists s. split; [exact E | now apply Hsrc].
  - now rewrite Hseq4, Hseq3.
  - now rewrite Hfk4, Hfk3.
  - now rewrite Hfb4, Hfb3.
Qed.

Lemma make_cluster_fields (db : Db) (members : list Memory.t)
  (c : ConsolidationCluster) :
  make_cluster db members = Ok c ->
  cc_memories c = members
  /\ cc_combinedImportance c
     = Z.min 9 (max_list (map Memory.importance members)
                + Z.log2 (Z.of_nat (List.length members)))
  /\ cc_suggestedAbstraction c = generateAbstraction members.
Proof.
  unfold make_cluster. destruct (pairwise_sims db members) as [[t n]|e];
    [|discriminate].
  intro H. injection H as <-. repeat split.
Qed.


Lemma consolidated_under_intro (db' : Db) (parent : Z) (s : Memory.t) :
  In (Memory.set_status consolidated (Some parent) s) (memories db') ->
  consolidated_under db' parent s.
Proof.
  intro H. exists (Memory.set_status consolidated (Some parent) s).
  split; [exact H|]. repeat split.
Qed.



(** *** The clusters of [findSimilarClusters] *)

Lemma scan_similar_spec (db : Db) (embedding : list R) (threshold : R)
  (others : list Memory.t) : forall assigned cluster cluster' assigned',
  scan_similar db embedding threshold others assigned cluster
  = Ok (cluster', assigned') ->
  exists added,
    cluster' = cluster ++ added
    /\ assigned' = assigned ++ map Memory.id added
    /\ (forall s, In s added -> In s others)
    /\ (NoDup assigned -> NoDup assigned').
Proof.
  induction others as [|other rest IH]; intros assigned cluster cluster' assigned' H;
    cbn [scan_similar] in H.
  - injection H as <- <-. exists []. cbn [map]. rewrite !app_nil_r.
    split; [reflexivity|]. split; [reflexivity|]. split; [intros s []|auto].
  - assert (Hskip : scan_similar db embedding threshold rest assigned cluster
                    = Ok (cluster', assigned') ->
                    exists added,
                      cluster' = cluster ++ added
                      /\ assigned' = assigned ++ map Memory.id added
                      /\ (forall s, In s added -> In s (other :: rest))
                      /\ (NoDup assigned -> NoDup assigned')).
    { intro H'. destruct (IH _ _ _ _ H') as (added & H1 & H2 & H3 & H4).
      exists added. repeat split; auto. intros s Hs. right. now apply H3. }
    destruct (mem_Z (Memory.id other) assigned) eqn:Hmem; [now apply Hskip|].
    destruct (getEmbedding (Memory.id other) db) as [oe|]; [|now apply Hskip].
    destruct (cosineSimilarity embedding oe) as [sim|e]; [|discriminate].
    destruct (Rleb threshold sim); [|now apply Hskip].
    destruct (IH _ _ _ _ H) as (added & H1 & H2 & H3 & H4).
    subst cluster' assigned'. exists (other :: added). cbn [map].
    split; [now rewrite <- app_assoc|]. split; [now rewrite <- app_assoc|]. split.
    + intros s [<-|Hs]; [now left | right; now apply H3].
    + intro Hnd. apply H4.
      apply NoDup_app; [exact Hnd | repeat constructor; intros [] |].
      intros x Hx [<-|[]]. apply mem_Z_In in Hx. congruence.
Qed.

Lemma NoDup_app_inv {A} (l1 l2 : list A) :
  NoDup (l1 ++ l2) ->
  NoDup l1 /\ NoDup l2 /\ forall x, In x l1 -> ~ In x l2.
Proof.
  induction l1 as [|x l1 IH]; cbn [app]; intro H.
  - repeat split; [constructor | exact H | intros x []].
  - inversion H as [|? ? Hx Hrest]; subst.
    destruct (IH Hrest) as (H1 & H2 & H3). repeat split.
    + constructor; [|exact H1]. intro Hin. apply Hx. apply in_or_app. now left.
    + exact H2.
    + intros y [<-|Hy] Hy2; [apply Hx; apply in_or_app; now right|].
      now apply (H3 y).
Qed.

Lemma cluster_loop_spec (db : Db) (memories : list Memory.t) (threshold : R)
  (todo : list Memory.t) : forall assigned clusters result,
  cluster_loop db memories threshold todo assigned clusters = Ok result ->
  (forall s, In s todo -> In s memories) ->
  NoDup assigned ->
  NoDup (all_cluster_ids clusters) ->
  incl (all_cluster_ids clusters) assigned ->
  exists more,
    result = clusters ++ more
    /\ NoDup (all_cluster_ids result)
    /\ forall c, In c more ->
         (2 <= List.length (cc_memories c))%nat
         /\ (forall s, In s (cc_memories c) -> In s memories)
         /\ make_cluster db (cc_memories c) = Ok c.
Proof.
  induction todo as [|memory rest IH];
    intros assigned clusters result H Htodo Hassigned Hnd Hincl;
    cbn [cluster_loop] in H.
  - injection H as <-. exists []. rewrite app_nil_r.
    split; [reflexivity|]. split; [exact Hnd|]. intros c0 [].
  - assert (Hrest : forall s, In s rest -> In s memories)
      by (intros s Hs; apply Htodo; now right).
    destruct (mem_Z (Memory.id memory) assigned) eqn:Hmem;
      [now apply (IH _ _ _ H)|].
    destruct (getEmbedding (Memory.id memory) db) as [embedding|];
      [|now apply (IH _ _ _ H)].
    destruct (scan_similar db embedding threshold memories
                (assigned ++ [Memory.id memory]) [memory])
      as [[cluster assigned']|e] eqn:Hscan; [|discriminate].
    destruct (scan_similar_spec _ _ _ _ _ _ _ _ Hscan)
      as (added & Hc & Ha & Hadded & Hnd').
    assert (Hnd1 : NoDup (assigned ++ [Memory.id memory])).
    { apply NoDup_app; [exact Hassigned | repeat constructor; intros [] |].
      intros x Hx [<-|[]]. apply mem_Z_In in Hx. congruence. }
    specialize (Hnd' Hnd1).
    assert (Hids : map Memory.id cluster = Memory.id memory :: map Memory.id added).
    { rewrite Hc. reflexivity. }
    assert (Hsplit : assigned' = assigned ++ map Memory.id cluster).
    { rewrite Ha, Hids, <- app_assoc. reflexivity. }
    assert (Hincl' : incl (all_cluster_ids clusters) assigned').
    { rewrite Hsplit. now apply incl_appl. }
    destruct (2 <=? Z.of_nat (List.length cluster)) eqn:Hlen.
    + destruct (make_cluster db cluster) as [c|e] eqn:Hmk; [|discriminate].
      destruct (make_cluster_fields db cluster c Hmk) as (Hmem_c & _).
      assert (Hcids : cluster_ids c = map Memory.id cluster)
        by (unfold cluster_ids; now rewrite Hmem_c).
      rewrite Hsplit in Hnd'. rewrite Hsplit in H.
      destruct (NoDup_app_inv _ _ Hnd') as (_ & Hndc & Hdisj).
      destruct (IH _ _ _ H Hrest Hnd') as (more & Hres & Hndres & Hmore).
      * unfold all_cluster_ids. rewrite flat_map_app. cbn [flat_map].
        rewrite app_nil_r, Hcids. apply NoDup_app; [exact Hnd | exact Hndc |].
        intros x Hx Hx'. apply (Hdisj x); [now apply Hincl | exact Hx'].
      * unfold all_cluster_ids. rewrite flat_map_app. cbn [flat_map].
        rewrite app_nil_r, Hcids. apply incl_app.
        -- apply incl_appl. exact Hincl.
        -- apply incl_appr, incl_refl.
      * subst result. exists (c :: more). rewrite <- app_assoc in Hndres.
        rewrite <- app_assoc. cbn [app] in *.
        split; [reflexivity|]. split; [exact Hndres|].
        intros c' [<-|Hc'].
        -- rewrite Hmem_c. repeat split.
           ++ apply Z.leb_le in Hlen. lia.
           ++ rewrite Hc. intros s [<-|Hs]; [apply Htodo; now left | now apply Hadded].
           ++ exact Hmk.
        -- now apply Hmore.
    + now apply (IH _ _ _ H).
Qed.

Lemma findSimilarClusters_spec (db : Db) (memories : list Memory.t) (threshold : R)
  (clusters : list ConsolidationCluster) :
  findSimilarClusters db memories threshold = Ok clusters ->
  NoDup (all_cluster_ids clusters)
  /\ forall c, In c clusters ->
       (2 <= List.length (cc_memories c))%nat
       /\ (forall s, In s (cc_memories c) -> In s memories)
       /\ make_cluster db (cc_memories c) = Ok c.
Proof.
  intro H. unfold findSimilarClusters in H.
  destruct (cluster_loop_spec db memories threshold memories [] [] clusters H)
    as (more & Hres & Hnd & Hmore).
  - auto.
  - constructor.
  - constructor.
  - intros x [].
  - cbn [app] in Hres. subst more. split; assumption.
Qed.

Lemma mark_consolidated_id (sources : list Z) (parent : Z) (m : Memory.t) :
  Memory.id (mark_consolidated sources parent m) = Memory.id m.
Proof. unfold mark_consolidated. now destruct (mem_Z _ _). Qed.

Lemma consolidate_loop_run
  (host : Host) (projectHash : option string) (now : Z)
  (clusters : list ConsolidationCluster) : forall db abstractions total warnings,
  NoDup (map Memory.id (memories db)) ->
  NoDup (all_cluster_ids clusters) ->
  (forall c, In c clusters ->
     (forall s, In s (cc_memories c) -> In s (memories db))
     /\ 1 <= cc_combinedImportance c <= 9
     /\ 1 <= newLevel_of c <= 3) ->
  exists created total' warnings' db',
    consolidate_loop host projectHash now clusters abstractions total warnings db
    = (Ok (abstractions ++ created, total', warnings'), db')
    /\ Forall2 (fun c a => consolidated_by c a db') clusters created
    /\ List.length (memories db')
       = (List.length (memories db) + List.length clusters)%nat
    /\ (forall m, In m (memories db) ->
          ~ In (Memory.id m) (all_cluster_ids clusters) -> In m (memories db'))
    /\ memory_feedback db' = memory_feedback db
    /\ total' = total + Z.of_nat (List.length (all_cluster_ids clusters))
    /\ NoDup (map Memory.id (memories db')).
Proof.
  induction clusters as [|c rest IH];
    intros db abstractions total warnings Hnd Hids Hcs.
  - exists [], total, warnings, db. cbn [consolidate_loop]. rewrite app_nil_r.
    split; [reflexivity|]. split; [constructor|]. split; [cbn; lia|].
    split; [auto|]. split; [reflexivity|]. split; [cbn; lia | exact Hnd].
  - cbn [all_cluster_ids flat_map] in Hids.
    destruct (NoDup_app_inv _ _ Hids) as (Hc_nd & Hrest_nd & Hdisj).
    destruct (Hcs c (or_introl eq_refl)) as (Hsrc & Himp & Hlvl).
    destruct (consolidateCluster_run host projectHash now c db Hnd Hsrc Himp Hlvl)
      as (ws & db1 & Hrun & Hms & Hseq & Hfk & Hfb).
    set (newId := next_rowid (memories_seq db) (map Memory.id (memories db))) in *.
    assert (Hfresh : ~ In newId (map Memory.id (memories db)))
      by apply next_rowid_fresh.
    assert (Hids1 : map Memory.id (memories db1)
                    = map Memory.id (memories db) ++ [newId]).
    { rewrite Hms, map_app, map_map. cbn [map abstraction_row Memory.id]. f_equal.
      apply map_ext. intro m. apply mark_consolidated_id. }
    assert (Hnd1 : NoDup (map Memory.id (memories db1))).
    { rewrite Hids1. apply NoDup_app; [exact Hnd | repeat constructor; intros [] |].
      intros x Hx [<-|[]]. contradiction. }
    assert (Hkeep : forall m, In m (memories db) ->
                      ~ In (Memory.id m) (cluster_ids c) -> In m (memories db1)).
    { intros m Hm Hnot. rewrite Hms. apply in_or_app. left.
      apply in_map_iff. exists m. split; [|exact Hm].
      unfold mark_consolidated. now rewrite mem_Z_not_In. }
    assert (Hother : forall c', In c' rest -> forall s, In s (cc_memories c') ->
                       In (Memory.id s) (all_cluster_ids rest)).
    { intros c' Hc' s Hs. unfold all_cluster_ids. apply in_flat_map.
      exists c'. split; [exact Hc' | unfold cluster_ids; now apply in_map]. }
    cbn [consolidate_loop]. rewrite run_bind, Hrun. cbn iota beta. cbn [fst snd].
    destruct (IH db1
                (abstractions
                 ++ [Build_Abstraction newId (newLevel_of c)
                       (substring 0 200 (cc_suggestedAbstraction c) ++ "...")%string
                       (Z.of_nat (List.length (cc_memories c)))
                       (cc_combinedImportance c)])
                (total + Z.of_nat (List.length (cc_memories c)))
                (warnings ++ ws) Hnd1 Hrest_nd)
      as (created & total' & warnings' & db' & Hloop & Hall & Hlen & Hpres & Hfb'
          & Htotal & Hnd').
    { intros c' Hc'. destruct (Hcs c' (or_intror Hc')) as (Hsrc' & Hi' & Hl').
      split; [|split; assumption].
      intros s Hs. apply Hkeep; [now apply Hsrc'|].
      intro Hin. apply (Hdisj _ Hin). now apply (Hother c'). }
    eexists (_ :: created), total', warnings', db'.
    split; [rewrite Hloop, <- app_assoc; reflexivity|].
    split; [|split; [|split; [|split; [|split; [|exact Hnd']]]]].
    + constructor; [|exact Hall].
      unfold consolidated_by.
      cbn [ab_level ab_sourceCount ab_id ab_combinedImportance].
      split; [reflexivity|]. split; [reflexivity|]. split; [reflexivity|]. split.
      * exists (abstraction_row host projectHash now c newId). split.
        -- apply Hpres.
           ++ rewrite Hms. apply in_or_app. right. now left.
           ++ cbn [abstraction_row Memory.id]. intro Hin.
              apply Hfresh. unfold all_cluster_ids in Hin.
              apply in_flat_map in Hin. destruct Hin as (c' & Hc' & Hin).
              unfold cluster_ids in Hin. apply in_map_iff in Hin.
              destruct Hin as (s & <- & Hs). apply in_map.
              now apply (Hcs c' (or_intror Hc')).
        -- repeat split.
      * assert (Hmarked : forall s, In s (cc_memories c) ->
                  In (Memory.set_status consolidated (Some newId) s)
                     (memories db')).
        { intros s Hs. apply Hpres.
          - rewrite Hms. apply in_or_app. left. apply in_map_iff.
            exists s. split; [|now apply Hsrc].
            unfold mark_consolidated.
            rewrite (proj2 (mem_Z_In _ _)); [reflexivity|].
            now apply in_map.
          - cbn [Memory.id Memory.set_status]. apply Hdisj.
            unfold cluster_ids. now apply in_map. }
        split; [exact Hmarked|].
        intros s Hs. apply consolidated_under_intro. now apply Hmarked.
    + rewrite Hlen, Hms, length_app, length_map. cbn [List.length]. lia.
    + intros m Hm Hnot. apply Hpres.
      * apply Hkeep; [exact Hm|]. intro Hin. apply Hnot.
        cbn [all_cluster_ids flat_map]. apply in_or_app. now left.
      * intro Hin. apply Hnot. cbn [all_cluster_ids flat_map].
        apply in_or_app. now right.
    + now rewrite Hfb', Hfb.
    + rewrite Htotal. cbn [all_cluster_ids flat_map].
      fold (all_cluster_ids rest). unfold cluster_ids.
      rewrite length_app, length_map. lia.
Qed.

Lemma In_skipn {A} (n : nat) (l : list A) (x : A) : In x (skipn n l) -> In x l.
Proof.
  revert l. induction n as [|n IH]; intros [|y l] H; cbn [skipn] in H;
    try assumption. right. now apply IH.
Qed.

Lemma consolidation_candidates_In (projectHash : option string) (db : Db)
  (m : Memory.t) :
  In m (consolidation_candidates projectHash db) ->
  In m (memories db) /\ Memory.level m = 1 /\ Memory.status m = active.
Proof.
  unfold consolidation_candidates, queryMemories. cbv zeta. intro H.
  apply filter_In in H. destruct H as [H Hlevel].
  apply sql_limit_In, In_skipn, order_by_In, filter_In in H.
  destruct H as [Hin Hc]. split; [exact Hin|]. split; [now apply Z.eqb_eq|].
  repeat (apply andb_prop in Hc; destruct Hc as [Hc ?]).
  cbn [qm_includeArchived orElse] in Hc.
  destruct (Memory.status m); [reflexivity | discriminate | discriminate].
Qed.

Lemma max_list_constant (v : Z) (l : list Z) :
  l <> [] -> (forall x, In x l -> x = v) -> max_list l = v.
Proof.
  intros Hne H.
  assert (v <= max_list l <= v); [|lia].
  apply max_list_bounds; [exact Hne|].
  intros x Hx. rewrite (H x Hx). lia.
Qed.

Lemma Forall2_and_left {A B} (P : A -> B -> Prop) (Q : A -> Prop)
  (l : list A) (l' : list B) :
  Forall2 P l l' -> (forall x, In x l -> Q x) ->
  Forall2 (fun x y => P x y /\ Q x) l l'.
Proof.
  induction 1 as [|x y l l' Hxy Hrest IH]; intro HQ; constructor.
  - split; [exact Hxy | apply HQ; now left].
  - apply IH. intros z Hz. apply HQ. now right.
Qed.

Lemma found_clusters
  (projectHash : option string) (db : Db) (threshold : R)
  (clusters : list ConsolidationCluster) :
  schema_ok db ->
  findSimilarClusters db (consolidation_candidates projectHash db) threshold
  = Ok clusters ->
  NoDup (all_cluster_ids clusters)
  /\ (forall c, In c clusters ->
        (2 <= List.length (cc_memories c))%nat /\ newLevel_of c = 2)
  /\ (forall c, In c clusters ->
        (forall s, In s (cc_memories c) -> In s (memories db))
        /\ 1 <= cc_combinedImportance c <= 9
        /\ 1 <= newLevel_of c <= 3)
  /\ (clusters <> [] ->
      (Z.of_nat (List.length (consolidation_candidates projectHash db)) <? 2)
      = false).
Proof.
  intros [Hnd Hrows] Hfind.
  destruct (findSimilarClusters_spec _ _ _ _ Hfind) as (Hids & Hcs).
  assert (Hfacts : forall c, In c clusters ->
            (2 <= List.length (cc_memories c))%nat /\ newLevel_of c = 2).
  { intros c Hc. destruct (Hcs c Hc) as (Hlen & Hsrc & _).
    split; [exact Hlen|]. unfold newLevel_of.
    rewrite (max_list_constant 1); [reflexivity | |].
    - destruct (cc_memories c); [cbn in Hlen; lia | discriminate].
    - intros x Hx. apply in_map_iff in Hx. destruct Hx as (s & <- & Hs).
      now apply (consolidation_candidates_In projectHash db s (Hsrc s Hs)). }
  split; [exact Hids|]. split; [exact Hfacts|]. split.
  - intros c Hc. destruct (Hcs c Hc) as (Hlen & Hsrc & Hmk).
    assert (Hin : forall s, In s (cc_memories c) -> In s (memories db)).
    { intros s Hs.
      now apply (consolidation_candidates_In projectHash db s (Hsrc s Hs)). }
    split; [exact Hin|]. split.
    + destruct (make_cluster_fields _ _ _ Hmk) as (_ & -> & _).
      assert (1 <= max_list (map Memory.importance (cc_memories c)) <= 9).
      { apply max_list_bounds.
        - destruct (cc_memories c); [cbn in Hlen; lia | discriminate].
        - intros x Hx. apply in_map_iff in Hx. destruct Hx as (s & <- & Hs).
          apply (Hrows s (Hin s Hs)). }
      pose proof (Z.log2_nonneg (Z.of_nat (List.length (cc_memories c)))). lia.
    + rewrite (proj2 (Hfacts c Hc)). lia.
  - intro Hne. destruct clusters as [|c cs]; [congruence|].
    destruct (Hcs c (or_introl eq_refl)) as (Hlen & Hsrc & _).
    cbn [all_cluster_ids flat_map] in Hids.
    apply NoDup_app_inv in Hids. destruct Hids as (Hc_nd & _).
    unfold cluster_ids in Hc_nd. apply NoDup_map_inv in Hc_nd.
    pose proof (NoDup_incl_length Hc_nd Hsrc). apply Z.ltb_ge. lia.
Qed.

Lemma consolidated_by_sources
  (c : ConsolidationCluster) (a : Abstraction) (db' : Db) :
  consolidated_by c a db' ->
  forall s, In s (cc_memories c) -> consolidated_under db' (ab_id a) s.
Proof. intros (_ & _ & _ & _ & _ & H). exact H. Qed.

Lemma consolidated_under_select (db' : Db) (parent : Z) (s : Memory.t) :
  NoDup (map Memory.id (memories db')) ->
  consolidated_under db' parent s ->
  option_map Memory.status (select_memory (Memory.id s) db') = Some consolidated
  /\ option_map Memory.parent_id (select_memory (Memory.id s) db')
     = Some (Some parent).
Proof.
  intros Hnd (s' & Hin & Hid & Hst & Hp & _).
  rewrite <- Hid, (select_memory_In db' s' Hnd Hin). cbn [option_map].
  now rewrite Hst, Hp.
Qed.

(** X1. A run of [consolidate] that is not a dry run, on a store that
    satisfies the schema's constraints and with embeddings available,
    returns whenever [findSimilarClusters] found clusters among the
    candidates (active level-1 memories in scope), and it handles every
    cluster found: [clustersFound] is their number, [memoriesConsolidated]
    the number of their members, the abstractions it reports correspond
    one to one and in order to the clusters, each at level 2 with its
    memory in the store, active and without a parent, and every source of
    its cluster (two or more) is then a row with [status = consolidated]
    and [parent_id] the abstraction's id, its other columns as before; the
    store gains one memory per cluster and still has one row per id,
    memories outside every cluster are as before, and the feedback log is
    untouched. *)
Theorem consolidate_handles_every_cluster
  (host : Host) (input : ConsolidateInput) (projectHash : option string)
  (now : Z) (db : Db) (clusters : list ConsolidationCluster) :
  schema_ok db ->
  isEmbeddingsAvailable host = true ->
  orElse (ci_dryRun input) false = false ->
  findSimilarClusters db (consolidation_candidates projectHash db)
    (orElse (ci_threshold input) 0.85%R) = Ok clusters ->
  clusters <> [] ->
  exists r db',
    consolidate host input projectHash now db = (Ok r, db')
    /\ cr_success r = true
    /\ cr_dryRun r = false
    /\ cr_clustersFound r = Z.of_nat (List.length clusters)
    /\ cr_memoriesConsolidated r
       = Z.of_nat (List.length (all_cluster_ids clusters))
    /\ Forall2
         (fun c a => consolidated_by c a db'
                     /\ (2 <= List.length (cc_memories c))%nat
                     /\ newLevel_of c = 2)
         clusters (cr_abstractionsCreated r)
    /\ Forall2
         (fun c a => forall s, In s (cc_memories c) ->
            exists s', select_memory (Memory.id s) db' = Some s'
                       /\ Memory.status s' = consolidated
                       /\ Memory.parent_id s' = Some (ab_id a)
                       /\ unlinked_columns s' = unlinked_columns s)
         clusters (cr_abstractionsCreated r)
    /\ NoDup (map Memory.id (memories db'))
    /\ List.length (memories db')
       = (List.length (memories db) + List.length clusters)%nat
    /\ (forall m, In m (memories db) ->
          ~ In (Memory.id m) (all_cluster_ids clusters) -> In m (memories db'))
    /\ memory_feedback db' = memory_feedback db.
Proof.
  intros Hok Havail Hdry Hfind Hne.
  destruct (found_clusters projectHash db _ clusters Hok Hfind)
    as (Hids & Hfacts & Hpre & Hmany).
  specialize (Hmany Hne). destruct Hok as [Hnd _].
  unfold consolidate. cbv zeta. rewrite Havail. cbn [negb].
  rewrite run_bind. unfold get at 1. cbn iota beta.
  fold (consolidation_candidates projectHash db).
  rewrite Hmany, Hfind, Hdry.
  destruct clusters as [|c cs] eqn:Hclusters; [congruence|].
  rewrite <- Hclusters in *.
  destruct (consolidate_loop_run host projectHash now clusters db [] 0
              (match truthy (ci_topic input) with
               | Some _ =>
                   [("Topic filtering not yet implemented. Processing all "
                     ++ show_Z (Z.of_nat (List.length
                                            (consolidation_candidates projectHash db)))
                     ++ " memories.")%string]
               | None => []
               end) Hnd Hids Hpre)
    as (created & total' & warnings' & db' & Hloop & Hall & Hlen & Hpres & Hfb
        & Htotal & Hnd').
  rewrite run_bind, Hloop. cbn iota beta. cbn [app].
  eexists _, db'. split; [reflexivity|].
  cbn [cr_success cr_dryRun cr_clustersFound cr_abstractionsCreated
       cr_memoriesConsolidated].
  split; [reflexivity|]. split; [reflexivity|]. split; [reflexivity|].
  split; [exact Htotal|].
  split; [apply Forall2_and_left; assumption|].
  split; [|repeat split; assumption].
  clear - Hall Hnd'. induction Hall as [|c a cs l Hca Hrest IH]; constructor;
    [|exact IH].
  intros s0 Hs0.
  destruct (consolidated_by_sources c a db' Hca s0 Hs0)
    as (s' & Hin & Hid & Hst & Hp & Hcols).
  exists s'. rewrite <- Hid, (select_memory_In db' s' Hnd' Hin).
  repeat split; assumption.
Qed.

Lemma cosineSimilarity_unit : cosineSimilarity [1%R] [1%R] = Ok 1%R.
Proof.
  unfold cosineSimilarity, dot. cbn [List.length Nat.eqb negb dot_from].
  rewrite Rmult_1_l, fl_1, Rplus_0_l, fl_1, sqrt_1, fl_1, Rmult_1_l, fl_1.
  unfold Reqb. destruct (Req_dec_T 1 0) as [E|_]; [lra|].
  f_equal. replace (1 / 1)%R with 1%R by lra. apply fl_1.
Qed.

Lemma consolidate_handles_every_cluster_witness :
  exists r db' a,
    consolidate host_C3 (Build_ConsolidateInput None None None) (Some "abc") 77
      db_C3_embedded
    = (Ok r, db')
    /\ cr_clustersFound r = 1
    /\ cr_abstractionsCreated r = [a]
    /\ List.length (memories db') = 3%nat
    /\ option_map Memory.status (select_memory 1 db') = Some consolidated
    /\ option_map Memory.status (select_memory 2 db') = Some consolidated
    /\ option_map Memory.parent_id (select_memory 1 db') = Some (Some (ab_id a))
    /\ option_map Memory.parent_id (select_memory 2 db') = Some (Some (ab_id a))
    /\ map Memory.status (memories db_C3_embedded) = [active; active]
    /\ map Memory.parent_id (memories db_C3_embedded) = [None; None].
Proof.
  assert (Hok : schema_ok db_C3_embedded).
  { split.
    - repeat constructor; cbn; intuition discriminate.
    - intros m [<-|[<-|[]]]; unfold row_ok; cbn; lia. }
  assert (Hc : consolidation_candidates (Some "abc") db_C3_embedded
               = [memory_C3 1 6; memory_C3 2 4]).
  { unfold consolidation_candidates, queryMemories, db_C3_embedded. reval.
    unfold query_order. reval. reflexivity. }
  assert (Hf : exists c,
             findSimilarClusters db_C3_embedded
               (consolidation_candidates (Some "abc") db_C3_embedded)
               (orElse (ci_threshold (Build_ConsolidateInput None None None)) 0.85%R)
             = Ok [c]
             /\ cc_memories c = [memory_C3 1 6; memory_C3 2 4]).
  { rewrite Hc. unfold findSimilarClusters, db_C3_embedded.
    repeat (progress (cbn -[IZR Rltb Rleb Reqb cosineSimilarity];
                      rewrite ?cosineSimilarity_unit; rcompare)).
    unfold make_cluster.
    repeat (progress (cbn -[IZR Rltb Rleb Reqb cosineSimilarity];
                      rewrite ?cosineSimilarity_unit; rcompare)).
    eexists. split; reflexivity. }
  destruct Hf as (c & Hf & Hmem).
  destruct (consolidate_handles_every_cluster host_C3 (Build_ConsolidateInput None None None)
              (Some "abc") 77 db_C3_embedded [c] Hok eq_refl eq_refl Hf
              ltac:(discriminate))
    as (r & db' & Hrun & _ & _ & Hfound & _ & _ & Hsrc & _ & Hlen & _).
  inversion Hsrc as [|c0 a cs0 l Hca Hnil Ec El]; subst c0 cs0.
  inversion Hnil; subst l.
  rewrite Hmem in Hca.
  destruct (Hca (memory_C3 1 6) (or_introl eq_refl)) as (s1 & Hs1 & Hst1 & Hp1 & _).
  destruct (Hca (memory_C3 2 4) (or_intror (or_introl eq_refl)))
    as (s2 & Hs2 & Hst2 & Hp2 & _).
  change (Memory.id (memory_C3 1 6)) with 1 in Hs1.
  change (Memory.id (memory_C3 2 4)) with 2 in Hs2.
  exists r, db', a. rewrite Hs1, Hs2. cbn [option_map].
  rewrite Hst1, Hst2, Hp1, Hp2.
  split; [exact Hrun|]. split; [exact Hfound|]. split; [now symmetry|].
  split; [exact Hlen|]. repeat split.
Defined.

(** ** The reads inside [getSuggestedMemories] *)

Lemma touch_in_nil (now : Z) (ms : list Memory.t) :
  map (touch_in [] now) ms = ms.
Proof. rewrite <- (map_id ms) at 2. now apply map_ext. Qed.

Lemma with_memories_same (db : Db) :
  with_memories (memories db) (memories_seq db) db = db.
Proof. now destruct db. Qed.

Lemma getMemory_store (id now : Z) (db : Db) :
  snd (getMemory id now db)
  = with_memories (map (touch_in [id] now) (memories db)) (memories_seq db) db.
Proof.
  assert (E : map (touch_in [id] now) (memories db)
              = map (fun m => if Memory.id m =? id then Memory.touch now m else m)
                  (memories db)).
  { apply map_ext. intro m. unfold touch_in. cbn [mem_Z existsb].
    now rewrite orb_false_r. }
  rewrite E, getMemory_run.
  destruct (select_memory id db) eqn:Hsel; cbn [snd]; [reflexivity|].
  unfold select_memory in Hsel. rewrite (find_none_map_id _ _ _ Hsel).
  symmetry. apply with_memories_same.
Qed.

Lemma touch_in_cons (k : Z) (rest : list Z) (now : Z) (m : Memory.t) :
  ~ In k rest ->
  touch_in rest now (touch_in [k] now m) = touch_in (k :: rest) now m.
Proof.
  intro Hk. unfold touch_in at 2 3. cbn [mem_Z existsb]. rewrite orb_false_r.
  destruct (Z.eqb_spec (Memory.id m) k) as [E|E]; cbn [orb].
  - unfold touch_in. cbn [Memory.touch Memory.id].
    rewrite mem_Z_not_In; [reflexivity|]. now rewrite E.
  - reflexivity.
Qed.






(** ** The batch pass over the active memories *)

(** X3. The batch pass [applyDecayToAll] returns the number of active
    memories; it stores the clamped score and [last_decay = now] on each
    active memory, once, and changes nothing else: status, level, id,
    importance, the feedback counters, the access bookkeeping and the
    parent of every row are as before, rows that are not active are
    untouched, and so are the feedback log and the relationships. *)
Theorem applyDecayToAll_keeps_status_and_level (now : Z) (db : Db) :
  NoDup (map Memory.id (memories db)) ->
  let db' := snd (applyDecayToAll now db) in
  fst (applyDecayToAll now db)
  = Ok (Z.of_nat (List.length
                    (filter (fun m => is_active (Memory.status m)) (memories db))))
  /\ memories db' = map (decay_row now) (memories db)
  /\ (forall m,
        Memory.status (decay_row now m) = Memory.status m
        /\ Memory.level (decay_row now m) = Memory.level m
        /\ Memory.id (decay_row now m) = Memory.id m
        /\ Memory.importance (decay_row now m) = Memory.importance m
        /\ Memory.times_helpful (decay_row now m) = Memory.times_helpful m
        /\ Memory.times_unhelpful (decay_row now m) = Memory.times_unhelpful m
        /\ Memory.accessed_at (decay_row now m) = Memory.accessed_at m
        /\ Memory.access_count (decay_row now m) = Memory.access_count m
        /\ Memory.parent_id (decay_row now m) = Memory.parent_id m)
  /\ (forall m, Memory.status m = active ->
        Memory.usefulness_score (decay_row now m) = Spec.score m now
        /\ Memory.last_decay (decay_row now m) = Some now)
  /\ (forall m, Memory.status m <> active -> decay_row now m = m)
  /\ memory_feedback db' = memory_feedback db
  /\ memory_relationships db' = memory_relationships db.
Proof.
  intro Hnd. cbv zeta.
  set (ids := map Memory.id
                (filter (fun m => is_active (Memory.status m)) (memories db))).
  assert (Hids : NoDup ids) by (apply NoDup_map_filter; exact Hnd).
  assert (Hrun : applyDecayToAll now db
                 = (Ok (Z.of_nat (List.length ids)),
                    snd (forM_ ids (fun id => updateUsefulnessScore id now ;;; ret tt)
                           db))).
  { unfold applyDecayToAll. rewrite run_bind. unfold get at 1.
    cbn iota beta. rewrite run_bind. fold ids.
    destruct (decay_loop_memories now ids db Hids Hnd) as (Hok & _).
    destruct (forM_ ids _ db) as [[[]|e] db1]; cbn [fst] in Hok; [|discriminate].
    reflexivity. }
  destruct (decay_loop_memories now ids db Hids Hnd) as (_ & _ & Hfb & Hrel).
  split; [|split; [|split; [|split; [|split; [|split]]]]].
  - rewrite Hrun. unfold ids. cbn [fst]. now rewrite length_map.
  - now apply applyDecayToAll_memories.
  - intro m. unfold decay_row. destruct (is_active (Memory.status m));
      repeat split; reflexivity.
  - intros m Hm. unfold decay_row. rewrite Hm. split; reflexivity.
  - intros m Hm. unfold decay_row.
    destruct (Memory.status m); [congruence | reflexivity | reflexivity].
  - rewrite Hrun. exact Hfb.
  - rewrite Hrun. exact Hrel.
Qed.

Lemma applyDecayToAll_keeps_status_and_level_witness :
  fst (applyDecayToAll now_C2 db_C2) = Ok 3
  /\ map Memory.status (memories (snd (applyDecayToAll now_C2 db_C2)))
     = [active; active; active]
  /\ map Memory.level (memories (snd (applyDecayToAll now_C2 db_C2))) = [1; 1; 1].
Proof.
  assert (Hnd : NoDup (map Memory.id (memories db_C2))).
  { repeat constructor; cbn; intuition discriminate. }
  destruct (applyDecayToAll_keeps_status_and_level now_C2 db_C2 Hnd)
    as (Hn & Hms & _).
  split; [exact Hn|]. rewrite Hms. split; reflexivity.
Defined.

(** ** Dry runs of a prune *)

Lemma prune_selection_with_dryRun
  (b : bool) (input : PruneInput) (projectHash : option string) (now : Z) (db : Db) :
  prune_selection (with_dryRun b input) projectHash now db
  = prune_selection input projectHash now db
  /\ prune_candidates (with_dryRun b input) projectHash now db
     = prune_candidates input projectHash now db.
Proof. split; reflexivity. Qed.

(** X4. A dry run of [prune] selects and reports exactly what the live run
    on the same store selects: the same memories in the same order, with
    the same details, counts, size estimate and warnings; the dry run leaves
    the store as it is, so the live run that follows it finds the store the
    dry run saw.  The two results differ in their [dryRun] flag only. *)
Theorem prune_dry_run_reports_live_selection
  (input : PruneInput) (projectHash : option string) (now : Z) (db : Db) :
  exists dry live,
    prune (with_dryRun true input) projectHash now db = (Ok dry, db)
    /\ fst (prune (with_dryRun false input) projectHash now db) = Ok live
    /\ pr_dryRun dry = true
    /\ live = Build_PruneResult (pr_success dry) false (pr_memoriesPruned dry)
                (pr_spaceSaved_memories dry) (pr_spaceSaved_estimatedBytes dry)
                (pr_prunedMemories dry) (pr_warnings dry)
    /\ pr_memoriesPruned dry
       = Z.of_nat (List.length (prune_selection input projectHash now db))
    /\ orElse (pr_prunedMemories dry) []
       = map (prunedDetail now) (prune_selection input projectHash now db).
Proof.
  rewrite !prune_run. cbv zeta.
  rewrite !(proj1 (prune_selection_with_dryRun _ _ _ _ _)).
  rewrite !(proj2 (prune_selection_with_dryRun _ _ _ _ _)).
  cbn [with_dryRun pi_dryRun pi_permanent orElse].
  destruct (prune_selection input projectHash now db) as [|s safe].
  - eexists _, _. split; [reflexivity|]. cbn [fst]. split; [reflexivity|].
    repeat split.
  - eexists _, _. split; [reflexivity|]. cbn [fst]. split; [reflexivity|].
    repeat split.
Qed.

Lemma prune_dry_run_reports_live_selection_witness :
  exists dry,
    prune (with_dryRun true prune_defaults) None now_C2 db_C2 = (Ok dry, db_C2)
    /\ pr_memoriesPruned dry = 1
    /\ map pm_id (orElse (pr_prunedMemories dry) []) = [1]
    /\ select_memory 1
         (snd (prune (with_dryRun false prune_defaults) None now_C2 db_C2))
       = Some (Memory.set_status archived None (memory_C2 1 5 0 1.5%R)).
Proof.
  assert (Hsel : prune_selection prune_defaults None now_C2 db_C2
                 = [memory_C2 1 5 0 1.5%R]).
  { unfold prune_selection, prune_candidates, getLowUsefulnessMemories,
      prune_defaults, db_C2, now_C2. reval. reflexivity. }
  destruct (prune_dry_run_reports_live_selection prune_defaults None now_C2 db_C2)
    as (dry & live & Hdry & _ & _ & _ & Hn & Hdetails).
  exists dry. split; [exact Hdry|]. rewrite Hsel in Hn, Hdetails.
  split; [exact Hn|]. split; [now rewrite Hdetails|].
  rewrite prune_run. cbv zeta.
  rewrite (proj1 (prune_selection_with_dryRun _ _ _ _ _)), Hsel.
  reflexivity.
Defined.

(** ** Runs of [consolidate] that write nothing *)

Lemma dry_abstractions_report (clusters : list ConsolidationCluster) : forall i,
  0 <= i -> Forall2 dry_reports clusters (dry_abstractions i clusters).
Proof.
  induction clusters as [|c rest IH]; intros i Hi; cbn [dry_abstractions];
    constructor.
  - unfold dry_reports.
    cbn [ab_id ab_level ab_sourceCount ab_combinedImportance ab_content].
    repeat split; try reflexivity. lia.
  - apply IH. lia.
Qed.

Lemma sum_of_cluster_sizes (clusters : list ConsolidationCluster) : forall acc,
  fold_left (fun sum c => sum + Z.of_nat (List.length (cc_memories c))) clusters acc
  = acc + Z.of_nat (List.length (all_cluster_ids clusters)).
Proof.
  induction clusters as [|c rest IH]; intro acc; cbn [fold_left].
  - cbn. lia.
  - rewrite IH. cbn [all_cluster_ids flat_map]. fold (all_cluster_ids rest).
    unfold cluster_ids. rewrite length_app, length_map. lia.
Qed.

(** X5. A dry run of [consolidate] that finds clusters returns them and
    leaves the store as it is; the live run on the same store handles
    exactly these clusters, in the same order: both report the same number
    of clusters and of consolidated memories, and their i-th abstractions
    describe the i-th cluster (same source count and combined importance,
    level 2), the dry run under a negative placeholder id, the live run
    under the id of the memory it created; each source of the cluster, a
    memory of the store before, is after the live run a row with
    [status = consolidated] and [parent_id] that id, its other columns as
    before. *)
Theorem consolidate_dry_run_reports_live_clusters
  (host : Host) (input : ConsolidateInput) (projectHash : option string)
  (now : Z) (db : Db) (clusters : list ConsolidationCluster) :
  schema_ok db ->
  isEmbeddingsAvailable host = true ->
  findSimilarClusters db (consolidation_candidates projectHash db)
    (orElse (ci_threshold input) 0.85%R) = Ok clusters ->
  clusters <> [] ->
  exists dry live db',
    consolidate host (consolidate_request true input) projectHash now db
    = (Ok dry, db)
    /\ consolidate host (consolidate_request false input) projectHash now db
       = (Ok live, db')
    /\ cr_clusters dry = Some clusters
    /\ cr_clustersFound dry = cr_clustersFound live
    /\ cr_memoriesConsolidated dry = cr_memoriesConsolidated live
    /\ Forall2 dry_reports clusters (cr_abstractionsCreated dry)
    /\ Forall2 (fun c a => consolidated_by c a db' /\ ab_level a = 2)
         clusters (cr_abstractionsCreated live)
    /\ Forall2
         (fun c a => forall s, In s (cc_memories c) ->
            In s (memories db)
            /\ exists s', select_memory (Memory.id s) db' = Some s'
                          /\ Memory.status s' = consolidated
                          /\ Memory.parent_id s' = Some (ab_id a)
                          /\ unlinked_columns s' = unlinked_columns s)
         clusters (cr_abstractionsCreated live).
Proof.
  intros Hok Havail Hfind Hne.
  destruct (found_clusters projectHash db _ clusters Hok Hfind)
    as (Hids & Hfacts & Hpre & Hmany).
  specialize (Hmany Hne). destruct Hok as [Hnd _].
  unfold consolidate. cbv zeta. rewrite Havail. cbn [negb].
  rewrite !run_bind. unfold get. cbn iota beta.
  fold (consolidation_candidates projectHash db).
  cbn [consolidate_request ci_threshold ci_dryRun ci_topic orElse].
  rewrite Hmany, Hfind.
  destruct clusters as [|c cs] eqn:Hclusters; [congruence|].
  rewrite <- Hclusters in *.
  destruct (consolidate_loop_run host projectHash now clusters db [] 0
              (match truthy (ci_topic input) with
               | Some _ =>
                   [("Topic filtering not yet implemented. Processing all "
                     ++ show_Z (Z.of_nat (List.length
                                            (consolidation_candidates projectHash db)))
                     ++ " memories.")%string]
               | None => []
               end) Hnd Hids Hpre)
    as (created & total' & warnings' & db' & Hloop & Hall & _ & _ & _ & Htotal
        & Hnd').
  rewrite run_bind, Hloop. cbn iota beta. cbn [app].
  eexists _, _, db'. split; [reflexivity|]. split; [reflexivity|].
  cbn [cr_clusters cr_clustersFound cr_memoriesConsolidated
       cr_abstractionsCreated].
  split; [reflexivity|]. split; [reflexivity|]. split; [|split; [|split]].
  - rewrite sum_of_cluster_sizes, Htotal. reflexivity.
  - apply dry_abstractions_report. lia.
  - clear - Hall Hfacts. induction Hall as [|x y l l' Hxy Hrest IH]; constructor.
    + split; [exact Hxy|]. destruct Hxy as (-> & _).
      apply Hfacts. now left.
    + apply IH. intros z Hz. apply Hfacts. now right.
  - clear - Hall Hnd' Hpre. induction Hall as [|x y l l' Hxy Hrest IH]; constructor.
    + intros s0 Hs0. split; [now apply (Hpre x (or_introl eq_refl))|].
      destruct (consolidated_by_sources x y db' Hxy s0 Hs0)
        as (s' & Hin & Hid & Hst & Hp & Hcols).
      exists s'. rewrite <- Hid, (select_memory_In db' s' Hnd' Hin).
      repeat split; assumption.
    + apply IH. intros z Hz. apply Hpre. now right.
Qed.

Lemma consolidate_dry_run_reports_live_clusters_witness :
  exists dry live db' a,
    consolidate host_C3 (Build_ConsolidateInput None None (Some true)) (Some "abc")
      77 db_C3_embedded
    = (Ok dry, db_C3_embedded)
    /\ consolidate host_C3 (Build_ConsolidateInput None None (Some false))
         (Some "abc") 77 db_C3_embedded
       = (Ok live, db')
    /\ cr_clustersFound dry = cr_clustersFound live
    /\ cr_memoriesConsolidated dry = cr_memoriesConsolidated live
    /\ cr_abstractionsCreated live = [a]
    /\ option_map Memory.status (select_memory 1 db') = Some consolidated
    /\ option_map Memory.status (select_memory 2 db') = Some consolidated
    /\ option_map Memory.parent_id (select_memory 1 db') = Some (Some (ab_id a))
    /\ option_map Memory.parent_id (select_memory 2 db') = Some (Some (ab_id a))
    /\ map Memory.status (memories db_C3_embedded) = [active; active].
Proof.
  assert (Hok : schema_ok db_C3_embedded).
  { split.
    - repeat constructor; cbn; intuition discriminate.
    - intros m [<-|[<-|[]]]; unfold row_ok; cbn; lia. }
  assert (Hc : consolidation_candidates (Some "abc") db_C3_embedded
               = [memory_C3 1 6; memory_C3 2 4]).
  { unfold consolidation_candidates, queryMemories, db_C3_embedded. reval.
    unfold query_order. reval. reflexivity. }
  assert (Hf : exists c,
             findSimilarClusters db_C3_embedded
               (consolidation_candidates (Some "abc") db_C3_embedded)
               (orElse (ci_threshold (Build_ConsolidateInput None None None)) 0.85%R)
             = Ok [c]
             /\ cc_memories c = [memory_C3 1 6; memory_C3 2 4]).
  { rewrite Hc. unfold findSimilarClusters, db_C3_embedded.
    repeat (progress (cbn -[IZR Rltb Rleb Reqb cosineSimilarity];
                      rewrite ?cosineSimilarity_unit; rcompare)).
    unfold make_cluster.
    repeat (progress (cbn -[IZR Rltb Rleb Reqb cosineSimilarity];
                      rewrite ?cosineSimilarity_unit; rcompare)).
    eexists. split; reflexivity. }
  destruct Hf as (c & Hf & Hmem).
  destruct (consolidate_dry_run_reports_live_clusters host_C3
              (Build_ConsolidateInput None None None) (Some "abc") 77
              db_C3_embedded [c] Hok eq_refl Hf ltac:(discriminate))
    as (dry & live & db' & Hdry & Hlive & _ & Hfound & Hn & _ & _ & Hsrc).
  inversion Hsrc as [|c0 a cs0 l Hca Hnil Ec El]; subst c0 cs0.
  inversion Hnil; subst l.
  rewrite Hmem in Hca.
  destruct (Hca (memory_C3 1 6) (or_introl eq_refl))
    as (_ & s1 & Hs1 & Hst1 & Hp1 & _).
  destruct (Hca (memory_C3 2 4) (or_intror (or_introl eq_refl)))
    as (_ & s2 & Hs2 & Hst2 & Hp2 & _).
  change (Memory.id (memory_C3 1 6)) with 1 in Hs1.
  change (Memory.id (memory_C3 2 4)) with 2 in Hs2.
  exists dry, live, db', a. rewrite Hs1, Hs2. cbn [option_map].
  rewrite Hst1, Hst2, Hp1, Hp2.
  split; [exact Hdry|]. split; [exact Hlive|]. split; [exact Hfound|].
  split; [exact Hn|]. split; [now symmetry|]. repeat split.
Defined.

(** X6. Without embeddings [consolidate] does not fail and does nothing:
    it returns [success = false], no cluster, no abstraction and one
    warning, and the store is as before.  And a dry run never changes the
    store, whatever it finds. *)
Theorem consolidate_degrades_without_embeddings
  (host : Host) (input : ConsolidateInput) (projectHash : option string)
  (now : Z) (db : Db) :
  (isEmbeddingsAvailable host = false ->
   exists r warning,
     consolidate host input projectHash now db = (Ok r, db)
     /\ cr_success r = false
     /\ cr_clustersFound r = 0
     /\ cr_memoriesConsolidated r = 0
     /\ cr_abstractionsCreated r = []
     /\ cr_warnings r = Some [warning])
  /\ (orElse (ci_dryRun input) false = true ->
      snd (consolidate host input projectHash now db) = db).
Proof.
  split.
  - intro Havail. unfold consolidate. cbv zeta. rewrite Havail. cbn [negb].
    eexists _, _. split; [reflexivity|]. repeat split.
  - intro Hdry. unfold consolidate. cbv zeta. rewrite Hdry.
    destruct (isEmbeddingsAvailable host); cbn [negb]; [|reflexivity].
    rewrite run_bind. unfold get at 1. cbn iota beta.
    destruct (Z.of_nat _ <? 2); [reflexivity|].
    destruct (findSimilarClusters _ _ _) as [[|c cs]|e]; reflexivity.
Qed.

Lemma consolidate_degrades_without_embeddings_witness :
  snd (consolidate host_C3 (Build_ConsolidateInput None None (Some true))
         (Some "abc") 77 db_C3_embedded)
  = db_C3_embedded.
Proof.
  apply (consolidate_degrades_without_embeddings host_C3
           (Build_ConsolidateInput None None (Some true)) (Some "abc") 77
           db_C3_embedded).
  reflexivity.
Defined.

(** ** The effects of recording feedback *)

(** X7. [recordFeedback] on a memory [m] of the store returns the event it
    appends to the log -- a fresh id, the memory's id, the type, the context
    and the time -- and leaves the memory's row with [timesHelpful] one
    higher for 'helpful', [timesUnhelpful] one higher for 'unhelpful' and
    'incorrect', and neither for 'outdated' (which is logged all the same),
    with [usefulness_score] the score computed from the updated counters
    and [last_decay = now], its other columns as before; no other memory
    and no relationship changes. *)
Theorem recordFeedback_side_effects
  (db : Db) (now : Z) (m : Memory.t) (fb : FeedbackType) (context : option string) :
  NoDup (map Memory.id (memories db)) ->
  In m (memories db) ->
  let ev := feedback_event (Memory.id m) fb context now db in
  let counted := bump fb m in
  exists db',
    recordFeedback (Memory.id m) fb context now db = (Ok ev, db')
    /\ memory_feedback db' = memory_feedback db ++ [ev]
    /\ ev = MemoryFeedback.mk (MemoryFeedback.id ev) (Memory.id m) fb context now
    /\ ~ In (MemoryFeedback.id ev) (map MemoryFeedback.id (memory_feedback db))
    /\ select_memory (Memory.id m) db'
       = Some (Memory.set_score (Spec.score counted now) now counted)
    /\ Memory.times_helpful counted
       = Memory.times_helpful m + (match fb with helpful => 1 | _ => 0 end)
    /\ Memory.times_unhelpful counted
       = Memory.times_unhelpful m
         + (match fb with unhelpful | incorrect => 1 | _ => 0 end)
    /\ (exists m',
          select_memory (Memory.id m) db' = Some m'
          /\ Memory.times_helpful m'
             = Memory.times_helpful m + (match fb with helpful => 1 | _ => 0 end)
          /\ Memory.times_unhelpful m'
             = Memory.times_unhelpful m
               + (match fb with unhelpful | incorrect => 1 | _ => 0 end)
          /\ Memory.usefulness_score m' = Spec.score counted now
          /\ Memory.last_decay m' = Some now
          /\ uncounted_columns m' = uncounted_columns m)
    /\ (forall k, k <> Memory.id m -> select_memory k db' = select_memory k db)
    /\ memory_relationships db' = memory_relationships db.
Proof.
  intros Hnd Hin. cbv zeta.
  pose proof (select_memory_In db m Hnd Hin) as Hsel.
  rewrite recordFeedback_run, (memory_exists_In m db Hin), andb_false_r.
  cbv zeta. eexists. split; [reflexivity|].
  assert (Hrow : select_memory (Memory.id m)
                   (snd (updateUsefulnessScore (Memory.id m) now
                           (update_memory (Memory.id m) (bump fb)
                              (with_feedback
                                 (memory_feedback db
                                  ++ [feedback_event (Memory.id m) fb context now db])
                                 (MemoryFeedback.id
                                    (feedback_event (Memory.id m) fb context now db))
                                 db))))
                 = Some (Memory.set_score (Spec.score (bump fb m) now) now
                           (bump fb m))).
  { rewrite select_after_rescore.
    rewrite select_memory_update_same by apply bump_id.
    rewrite select_memory_with_feedback, Hsel. cbn [option_map].
    now rewrite usefulness_is_spec_score. }
  split; [|split; [|split; [|split; [|split; [|split; [|split; [|split]]]]]]].
  - rewrite (proj1 (rescored_frame _ _ _)). reflexivity.
  - reflexivity.
  - apply next_rowid_fresh.
  - exact Hrow.
  - destruct fb; cbn; lia.
  - destruct fb; cbn; lia.
  - exists (Memory.set_score (Spec.score (bump fb m) now) now (bump fb m)).
    split; [exact Hrow|].
    destruct fb; repeat split; cbn; lia.
  - intros k Hk. rewrite updateUsefulnessScore_run.
    destruct (select_memory (Memory.id m) (update_memory _ _ _)); cbn [snd].
    + rewrite (select_memory_update_other (Memory.id m) k
                 (Memory.set_score _ now) _ (fun x => eq_refl) Hk).
      rewrite (select_memory_update_other _ _ _ _ (bump_id fb) Hk).
      reflexivity.
    + rewrite (select_memory_update_other _ _ _ _ (bump_id fb) Hk).
      reflexivity.
  - rewrite (proj2 (rescored_frame _ _ _)). reflexivity.
Qed.

Lemma score_after_first_helpful :
  Spec.score (bump helpful (memory_C1 1000)) 1000 = 4.25%R.
Proof.
  unfold Spec.score, Spec.rawScore, Spec.helpfulRatio, Spec.recencyBoost,
    Spec.accessBoost, Spec.daysSinceLastAccess.
  cbn [bump memory_C1 Memory.incr_helpful Memory.importance Memory.times_helpful
       Memory.times_unhelpful Memory.accessed_at Memory.access_count].
  rewrite Z.sub_diag. cbn [Z.add Pos.add].
  replace (0 / IZR DAY_MS)%R with 0%R by (unfold Rdiv; ring).
  rewrite Rmin_left by lra.
  rewrite Rpower_O by lra. rewrite ln_1.
  unfold Spec.clamp.
  destruct (Rlt_dec _ 1.0) as [H|H]; [exfalso; lra|].
  destruct (Rlt_dec 9.0 _) as [H'|H']; [exfalso; lra|]. lra.
Qed.

Lemma recordFeedback_side_effects_witness :
  exists ev db',
    recordFeedback 1 helpful None 1000 (db_C1 1000) = (Ok ev, db')
    /\ memory_feedback db' = [ev]
    /\ option_map Memory.times_helpful (select_memory 1 db') = Some 1
    /\ option_map Memory.times_unhelpful (select_memory 1 db') = Some 0
    /\ option_map Memory.usefulness_score (select_memory 1 db') = Some 4.25%R
    /\ option_map Memory.last_decay (select_memory 1 db') = Some (Some 1000)
    /\ option_map Memory.usefulness_score (select_memory 1 (db_C1 1000))
       = Some 5.0%R.
Proof.
  assert (Hnd : NoDup (map Memory.id (memories (db_C1 1000)))).
  { simpl. constructor; [intros []| constructor]. }
  destruct (recordFeedback_side_effects (db_C1 1000) 1000 (memory_C1 1000)
              helpful None Hnd (or_introl eq_refl))
    as (db' & Hrun & Hlog & _ & _ & _ & _ & _ & (m' & Hsel & Hh & Hu & Hs & Hd & _)
        & _).
  change (Memory.id (memory_C1 1000)) with 1 in Hrun, Hsel.
  eexists _, db'. split; [exact Hrun|]. split; [exact Hlog|].
  rewrite Hsel. cbn [option_map]. rewrite Hh, Hu, Hs, Hd.
  rewrite score_after_first_helpful. repeat split.
Defined.

(** ** The counters over a sequence of feedback *)

Lemma counters_kept_refl (db : Db) : counters_kept db db.
Proof. intros id m H. exists m. split; [exact H | lia]. Qed.

Lemma counters_kept_trans (a b c : Db) :
  counters_kept a b -> counters_kept b c -> counters_kept a c.
Proof.
  intros Hab Hbc id m H.
  destruct (Hab id m H) as (m1 & Hm1 & ? & ?).
  destruct (Hbc id m1 Hm1) as (m2 & Hm2 & ? & ?).
  exists m2. split; [exact Hm2 | lia].
Qed.

Lemma update_counters_kept (id : Z) (f : Memory.t -> Memory.t) (db : Db) :
  (forall x, Memory.id (f x) = Memory.id x) ->
  (forall x, Memory.times_helpful x <= Memory.times_helpful (f x)
             /\ Memory.times_unhelpful x <= Memory.times_unhelpful (f x)) ->
  counters_kept db (update_memory id f db).
Proof.
  intros Hid Hf k m Hk. destruct (Z.eq_dec k id) as [->|Hne].
  - exists (f m). rewrite select_memory_update_same, Hk by exact Hid.
    split; [reflexivity | apply Hf].
  - exists m. rewrite select_memory_update_other by assumption.
    split; [exact Hk | lia].
Qed.

Lemma getMemory_counters_kept (id now : Z) :
  preserves counters_kept (getMemory id now).
Proof.
  intro db. rewrite getMemory_run. destruct (select_memory id db); cbn [snd].
  - apply update_counters_kept; [reflexivity|]. intro x. cbn. lia.
  - apply counters_kept_refl.
Qed.

Lemma updateUsefulnessScore_counters_kept (id now : Z) :
  preserves counters_kept (updateUsefulnessScore id now).
Proof.
  intro db. rewrite updateUsefulnessScore_run.
  destruct (select_memory id db); cbn [snd].
  - apply update_counters_kept; [reflexivity|]. intro x. cbn. lia.
  - apply counters_kept_refl.
Qed.

Lemma recordFeedback_counters_kept id fb ctx now :
  preserves counters_kept (recordFeedback id fb ctx now).
Proof.
  intro db. rewrite recordFeedback_run.
  destruct (foreign_keys db && negb (memory_exists id db)); cbn [snd].
  - apply counters_kept_refl.
  - cbv zeta. cbn [snd].
    eapply counters_kept_trans; [|apply updateUsefulnessScore_counters_kept].
    eapply counters_kept_trans; [|apply update_counters_kept].
    + intros k m Hk. exists m. split; [exact Hk | lia].
    + apply bump_id.
    + intro x. destruct fb; cbn; lia.
Qed.

Lemma feedback_loop_counters_kept ids fb ctx now : forall ws mu,
  preserves counters_kept (feedback_loop ids fb ctx now ws mu).
Proof.
  induction ids as [|id ids IH]; intros ws mu; cbn [feedback_loop].
  - apply preserves_ret, counters_kept_refl.
  - apply (preserves_bind _ counters_kept_trans);
      [apply getMemory_counters_kept|].
    intros [m|]; [|apply IH].
    apply (preserves_bind _ counters_kept_trans);
      [apply recordFeedback_counters_kept|].
    intros _. apply (preserves_bind _ counters_kept_trans);
      [apply getMemory_counters_kept|].
    intros [u|]; apply IH.
Qed.

Lemma feedback_counters_kept input now : preserves counters_kept (feedback input now).
Proof.
  destruct input as [[[|id ids]|] [fb|] ctx];
    try (unfold feedback; cbn [fi_memoryIds fi_feedback];
         apply preserves_ret, counters_kept_refl).
  intro db. rewrite feedback_run_ids.
  pose proof (feedback_loop_counters_kept (id :: ids) fb ctx now [] []
                (initializeSchema db)) as H.
  destruct (feedback_loop _ _ _ _ _ _ _) as [[[ws mu]|e] db']; exact H.
Qed.

(** X8. Over any sequence of calls of the feedback tool, at any times and
    with any ids and types, a memory of the store stays in the store and
    its [timesHelpful] and [timesUnhelpful] never decrease. *)
Theorem feedback_counters_never_decrease
  (calls : list (FeedbackInput * Z)) (db : Db) (id : Z) (m : Memory.t) :
  select_memory id db = Some m ->
  exists m',
    select_memory id (feedback_sequence calls db) = Some m'
    /\ Memory.times_helpful m <= Memory.times_helpful m'
    /\ Memory.times_unhelpful m <= Memory.times_unhelpful m'.
Proof.
  revert db m. induction calls as [|[input now] calls IH]; intros db m Hsel.
  - exists m. split; [exact Hsel | lia].
  - cbn [feedback_sequence fold_left fst snd].
    destruct (feedback_counters_kept input now db id m Hsel) as (m1 & Hm1 & ? & ?).
    destruct (IH _ m1 Hm1) as (m2 & Hm2 & ? & ?).
    exists m2. split; [exact Hm2 | lia].
Qed.

Lemma feedback_counters_never_decrease_witness :
  exists m',
    select_memory 7
      (feedback_sequence
         [(Build_FeedbackInput (Some [7; 7]) (Some helpful) None, 5000);
          (Build_FeedbackInput (Some [7]) (Some incorrect) None, 6000)]
         db_C10)
    = Some m'
    /\ 0 <= Memory.times_helpful m' /\ 0 <= Memory.times_unhelpful m'.
Proof.
  apply (feedback_counters_never_decrease _ db_C10 7
           (Memory.mk 7 T_lesson "x" None global None 5 0 100 3 5.0%R 0 0
              archived None 1 None)).
  reflexivity.
Defined.

(** ** What a prune does to the memories it selects *)

Lemma archive_in_nil (ms : list Memory.t) : map (archive_in []) ms = ms.
Proof. rewrite <- (map_id ms) at 2. now apply map_ext. Qed.

Lemma archive_in_cons (k : Z) (rest : list Z) (m : Memory.t) :
  archive_in rest
    (if Memory.id m =? k then Memory.set_status archived None m else m)
  = archive_in (k :: rest) m.
Proof.
  unfold archive_in. cbn [mem_Z existsb].
  destruct (Memory.id m =? k); cbn [orb Memory.id Memory.set_status];
    [|reflexivity].
  now destruct (mem_Z (Memory.id m) rest).
Qed.

Lemma archive_loop_run (safe : list Memory.t) : forall db,
  forM_ safe (prune_action false) db
  = (Ok tt,
     with_memories (map (archive_in (map Memory.id safe)) (memories db))
       (memories_seq db) db).
Proof.
  induction safe as [|s safe IH]; intro db.
  - cbn [forM_ map ret]. now rewrite archive_in_nil, with_memories_same.
  - rewrite forM_cons_ok by apply prune_action_ok.
    unfold prune_action at 2. rewrite run_bind, archive_ok. cbn [snd ret].
    rewrite IH. unfold update_memory, with_memories. cbn. f_equal. f_equal.
    rewrite map_map. apply map_ext. intro m. apply archive_in_cons.
Qed.

(** X9. A prune that is neither a dry run nor permanent archives exactly
    the memories it selected: each of them (active, importance below 8) is
    in the store afterwards with [status = archived] and the rest of its
    row as it was, every other memory and every other table is unchanged,
    and [restoreArchivedMemory] makes an archived memory active again. *)
Theorem prune_archives_its_selection
  (input : PruneInput) (projectHash : option string) (now : Z) (db : Db) :
  orElse (pi_permanent input) false = false ->
  orElse (pi_dryRun input) false = false ->
  let selection := prune_selection input projectHash now db in
  let db' := snd (prune input projectHash now db) in
  db' = with_memories (map (archive_in (map Memory.id selection)) (memories db))
          (memories_seq db) db
  /\ (forall m, In m selection ->
        Memory.status m = active
        /\ In (Memory.set_status archived None m) (memories db'))
  /\ (forall m, In m (memories db) -> ~ In (Memory.id m) (map Memory.id selection) ->
        In m (memories db'))
  /\ (forall m, select_memory (Memory.id m) db'
                = Some (Memory.set_status archived None m) ->
        select_memory (Memory.id m) (snd (restoreArchivedMemory (Memory.id m) db'))
        = Some (Memory.set_status active None m)).
Proof.
  intros Hperm Hdry. cbv zeta.
  assert (Hstore : snd (prune input projectHash now db)
                   = with_memories
                       (map (archive_in
                               (map Memory.id (prune_selection input projectHash now db)))
                          (memories db))
                       (memories_seq db) db).
  { pose proof (prune_run input projectHash now db) as Hrun. cbv zeta in Hrun.
    rewrite Hrun, Hdry, Hperm.
    destruct (prune_selection input projectHash now db) as [|s safe]; cbn [snd].
    - cbn [map]. now rewrite archive_in_nil, with_memories_same.
    - now rewrite archive_loop_run. }
  split; [exact Hstore|]. rewrite Hstore. split; [|split].
  - intros m Hm. split.
    + unfold prune_selection in Hm. rewrite safety_filter_spec in Hm.
      cbn [fst] in Hm. apply filter_In in Hm. destruct Hm as [Hm _].
      now apply prune_candidates_In in Hm.
    + rewrite with_memories_memories. apply in_map_iff. exists m. split.
      * unfold archive_in. rewrite (proj2 (mem_Z_In _ _)); [reflexivity|].
        now apply in_map.
      * now apply (prune_selection_In input projectHash now db m Hm).
  - intros m Hm Hnot. rewrite with_memories_memories. apply in_map_iff.
    exists m. split; [|exact Hm]. unfold archive_in. now rewrite mem_Z_not_In.
  - intros m Hsel. unfold restoreArchivedMemory, updateMemoryStatus.
    rewrite run_bind. unfold get at 1. cbn iota beta.
    rewrite !andb_false_r. rewrite run_bind. unfold put at 1. cbn iota beta.
    cbn [ret snd]. rewrite select_memory_update_same by reflexivity.
    rewrite Hsel. reflexivity.
Qed.

Lemma prune_archives_its_selection_witness :
  map Memory.status
    (memories (snd (prune (with_dryRun false prune_defaults) None now_C2 db_C2)))
  = [archived; active; active].
Proof.
  assert (Hsel : prune_selection (with_dryRun false prune_defaults) None now_C2 db_C2
                 = [memory_C2 1 5 0 1.5%R]).
  { unfold prune_selection, prune_candidates, getLowUsefulnessMemories,
      prune_defaults, db_C2, now_C2. reval. reflexivity. }
  rewrite (proj1 (prune_archives_its_selection (with_dryRun false prune_defaults)
                    None now_C2 db_C2 eq_refl eq_refl)).
  rewrite Hsel. reflexivity.
Defined.

(** *** Permanent pruning *)

Lemma map_id_filter (p : Z -> bool) (ms : list Memory.t) :
  map Memory.id (filter (fun m => p (Memory.id m)) ms)
  = filter p (map Memory.id ms).
Proof.
  induction ms as [|m ms IH]; [reflexivity|]. cbn [filter map].
  destruct (p (Memory.id m)); cbn [map]; now rewrite IH.
Qed.

Lemma deleteMemory_ids (id : Z) (db : Db) :
  map Memory.id (memories (snd (deleteMemory id db)))
  = filter (fun k => negb (k =? id)) (map Memory.id (memories db)).
Proof.
  rewrite deleteMemory_run. cbn [snd]. cbv zeta.
  rewrite <- (map_id_filter (fun k => negb (k =? id))).
  destruct (foreign_keys db && memory_exists id db); cbn [memories with_memories];
    [|reflexivity].
  rewrite map_map. apply map_ext. intro m. apply orphan_id.
Qed.

Lemma memory_exists_ids (k : Z) (db : Db) :
  memory_exists k db = true <-> In k (map Memory.id (memories db)).
Proof.
  rewrite memory_exists_iff, in_map_iff.
  split; intros (m & H1 & H2); exists m; tauto.
Qed.

Lemma deleteMemory_references (id : Z) (db : Db) :
  foreign_keys db = true ->
  references_ok db ->
  let db' := snd (deleteMemory id db) in
  foreign_keys db' = true
  /\ references_ok db'
  /\ embeddings db'
     = filter (fun e => negb (Embedding.memory_id e =? id)) (embeddings db)
  /\ memory_relationships db'
     = filter (fun r => negb ((MemoryRelationship.source_id r =? id)
                              || (MemoryRelationship.target_id r =? id)))
         (memory_relationships db).
Proof.
  intros Hfk [Hemb Hrel]. cbv zeta.
  assert (Hkeep : forall k, k <> id -> memory_exists k db = true ->
            memory_exists k (snd (deleteMemory id db)) = true).
  { intros k Hk Hex. now apply delete_keeps_others. }
  assert (Hgone : memory_exists id db = false ->
            (forall e, In e (embeddings db) -> Embedding.memory_id e <> id)
            /\ (forall r, In r (memory_relationships db) ->
                  MemoryRelationship.source_id r <> id
                  /\ MemoryRelationship.target_id r <> id)).
  { intro Hno. split.
    - intros e He E. specialize (Hemb e He). congruence.
    - intros r Hr. destruct (Hrel r Hr) as [Hs Ht].
      split; intro E; congruence. }
  assert (Hemb' : embeddings (snd (deleteMemory id db))
                  = filter (fun e => negb (Embedding.memory_id e =? id))
                      (embeddings db)).
  { rewrite deleteMemory_run. cbn [snd]. cbv zeta. rewrite Hfk. cbn [andb].
    destruct (memory_exists id db) eqn:Hex; [reflexivity|].
    cbn [embeddings with_memories]. symmetry. apply filter_all.
    intros e He. apply negb_true_iff, Z.eqb_neq.
    now apply (proj1 (Hgone eq_refl)). }
  assert (Hrel' : memory_relationships (snd (deleteMemory id db))
                  = filter (fun r => negb ((MemoryRelationship.source_id r =? id)
                                           || (MemoryRelationship.target_id r =? id)))
                      (memory_relationships db)).
  { rewrite deleteMemory_run. cbn [snd]. cbv zeta. rewrite Hfk. cbn [andb].
    destruct (memory_exists id db) eqn:Hex; [reflexivity|].
    cbn [memory_relationships with_memories]. symmetry. apply filter_all.
    intros r Hr. destruct (proj2 (Hgone eq_refl) r Hr) as [Hs Ht].
    apply negb_true_iff, orb_false_iff. split; now apply Z.eqb_neq. }
  split; [|split; [|split; assumption]].
  - rewrite deleteMemory_run. cbn [snd]. cbv zeta.
    destruct (foreign_keys db && memory_exists id db); exact Hfk.
  - split.
    + intros e He. rewrite Hemb' in He. apply filter_In in He.
      destruct He as [He Hne]. apply negb_true_iff, Z.eqb_neq in Hne.
      apply Hkeep; [exact Hne | now apply Hemb].
    + intros r Hr. rewrite Hrel' in Hr. apply filter_In in Hr.
      destruct Hr as [Hr Hne]. apply negb_true_iff, orb_false_iff in Hne.
      destruct Hne as [Hs Ht]. apply Z.eqb_neq in Hs, Ht.
      destruct (Hrel r Hr) as [Hs' Ht'].
      split; apply Hkeep; assumption.
Qed.

Lemma delete_loop_run (safe : list Memory.t) : forall db,
  foreign_keys db = true ->
  references_ok db ->
  let ids := map Memory.id safe in
  let db' := snd (forM_ safe (prune_action true) db) in
  map Memory.id (memories db')
  = filter (fun k => negb (mem_Z k ids)) (map Memory.id (memories db))
  /\ embeddings db'
     = filter (fun e => negb (mem_Z (Embedding.memory_id e) ids)) (embeddings db)
  /\ memory_relationships db'
     = filter (fun r => negb (mem_Z (MemoryRelationship.source_id r) ids
                              || mem_Z (MemoryRelationship.target_id r) ids))
         (memory_relationships db)
  /\ references_ok db'.
Proof.
  induction safe as [|s safe IH]; intros db Hfk Hok; cbv zeta.
  - cbn [forM_ ret snd map].
    split; [|split; [|split; [|exact Hok]]]; symmetry; now apply filter_all.
  - rewrite forM_cons_ok by apply prune_action_ok.
    assert (Hstep : snd (prune_action true s db) = snd (deleteMemory (Memory.id s) db)).
    { unfold prune_action. rewrite run_bind.
      destruct (deleteMemory (Memory.id s) db) as [[b|e] db1]; reflexivity. }
    rewrite Hstep.
    destruct (deleteMemory_references (Memory.id s) db Hfk Hok)
      as (Hfk1 & Hok1 & Hemb1 & Hrel1).
    destruct (IH _ Hfk1 Hok1) as (Hids & Hemb & Hrel & Hok').
    split; [|split; [|split; [|exact Hok']]].
    + rewrite Hids, deleteMemory_ids, filter_filter. apply filter_ext.
      intro k. cbn [map mem_Z existsb]. unfold mem_Z.
      now rewrite negb_orb.
    + rewrite Hemb, Hemb1, filter_filter. apply filter_ext.
      intro e. cbn [map mem_Z existsb]. unfold mem_Z.
      now rewrite negb_orb.
    + rewrite Hrel, Hrel1, filter_filter. apply filter_ext.
      intro r. cbn [map mem_Z existsb]. unfold mem_Z.
      destruct (MemoryRelationship.source_id r =? Memory.id s);
        destruct (MemoryRelationship.target_id r =? Memory.id s);
        cbn [orb negb andb]; try reflexivity;
        rewrite ?orb_true_r; reflexivity.
Qed.

(** X10. A permanent prune that is not a dry run, on a connection that
    enforces foreign keys and whose embeddings and relationships reference
    memories of the store, removes exactly the memories it selected, and
    with each of them its embedding and every relationship it is an end of
    (source or target, whatever the type); all other memories, embeddings
    and relationships stay, in order, and no reference is left dangling. *)
Theorem permanent_prune_removes_references
  (input : PruneInput) (projectHash : option string) (now : Z) (db : Db) :
  foreign_keys db = true ->
  references_ok db ->
  orElse (pi_permanent input) false = true ->
  orElse (pi_dryRun input) false = false ->
  let ids := map Memory.id (prune_selection input projectHash now db) in
  let db' := snd (prune input projectHash now db) in
  map Memory.id (memories db')
  = filter (fun k => negb (mem_Z k ids)) (map Memory.id (memories db))
  /\ (forall k, In k ids -> memory_exists k db' = false)
  /\ embeddings db'
     = filter (fun e => negb (mem_Z (Embedding.memory_id e) ids)) (embeddings db)
  /\ memory_relationships db'
     = filter (fun r => negb (mem_Z (MemoryRelationship.source_id r) ids
                              || mem_Z (MemoryRelationship.target_id r) ids))
         (memory_relationships db)
  /\ references_ok db'.
Proof.
  intros Hfk Hok Hperm Hdry. cbv zeta.
  pose proof (prune_run input projectHash now db) as Hrun. cbv zeta in Hrun.
  assert (Hstore : snd (prune input projectHash now db)
                   = snd (forM_ (prune_selection input projectHash now db)
                            (prune_action true) db)).
  { rewrite Hrun, Hdry, Hperm.
    destruct (prune_selection input projectHash now db); reflexivity. }
  rewrite Hstore.
  destruct (delete_loop_run (prune_selection input projectHash now db) db Hfk Hok)
    as (Hids & Hemb & Hrel & Hok').
  split; [exact Hids|]. split; [|split; [exact Hemb|split; [exact Hrel|exact Hok']]].
  intros k Hk. destruct (memory_exists k _) eqn:Hex; [|reflexivity].
  apply memory_exists_ids in Hex. rewrite Hids in Hex.
  apply filter_In in Hex. destruct Hex as [_ Hex].
  rewrite (proj2 (mem_Z_In _ _) Hk) in Hex. discriminate.
Qed.

Lemma permanent_prune_removes_references_witness :
  memories (snd (prune (Build_PruneInput None None None (Some true)) None
                   now_C6 db_C6_linked))
  = [memory_C2 2 5 0 5.0%R]
  /\ embeddings (snd (prune (Build_PruneInput None None None (Some true)) None
                        now_C6 db_C6_linked))
     = []
  /\ memory_relationships
       (snd (prune (Build_PruneInput None None None (Some true)) None
               now_C6 db_C6_linked))
     = [].
Proof.
  assert (Hsel : prune_selection (Build_PruneInput None None None (Some true)) None
                   now_C6 db_C6_linked
                 = [memory_C6]).
  { unfold prune_selection, prune_candidates, getLowUsefulnessMemories,
      db_C6_linked, now_C6. reval. reflexivity. }
  assert (Hok : references_ok db_C6_linked).
  { split.
    - intros e [<-|[]]. reflexivity.
    - intros r [<-|[<-|[]]]; split; reflexivity. }
  destruct (permanent_prune_removes_references
              (Build_PruneInput None None None (Some true)) None now_C6
              db_C6_linked eq_refl Hok eq_refl eq_refl)
    as (Hids & _ & Hemb & Hrel & _).
  rewrite Hsel in Hids, Hemb, Hrel. rewrite Hemb, Hrel.
  split; [|split; reflexivity].
  pose proof (prune_run (Build_PruneInput None None None (Some true)) None now_C6
                db_C6_linked) as Hrun.
  cbv zeta in Hrun. rewrite Hrun, Hsel. reflexivity.
Defined.

(** ** The clusters are built around their first member *)

Lemma scan_similar_anchor (db : Db) (embedding : list R) (threshold : R)
  (others : list Memory.t) : forall assigned cluster cluster' assigned',
  scan_similar db embedding threshold others assigned cluster
  = Ok (cluster', assigned') ->
  exists added,
    cluster' = cluster ++ added
    /\ forall s, In s added -> similar_to db embedding threshold s.
Proof.
  induction others as [|other rest IH]; intros assigned cluster cluster' assigned' H;
    cbn [scan_similar] in H.
  - injection H as <- <-. exists []. rewrite app_nil_r.
    split; [reflexivity | intros s []].
  - destruct (mem_Z (Memory.id other) assigned); [now apply (IH _ _ _ _ H)|].
    destruct (getEmbedding (Memory.id other) db) as [oe|] eqn:Hoe;
      [|now apply (IH _ _ _ _ H)].
    destruct (cosineSimilarity embedding oe) as [sim|e] eqn:Hsim; [|discriminate].
    destruct (Rleb threshold sim) eqn:Hle; [|now apply (IH _ _ _ _ H)].
    destruct (IH _ _ _ _ H) as (added & Hc & Hall).
    exists (other :: added). split; [now rewrite Hc, <- app_assoc|].
    intros s [<-|Hs]; [|now apply Hall].
    exists oe, sim. split; [exact Hoe|]. split; [exact Hsim|].
    now apply Rleb_iff.
Qed.

Lemma cluster_loop_anchored (db : Db) (memories : list Memory.t) (threshold : R)
  (todo : list Memory.t) : forall assigned clusters result,
  cluster_loop db memories threshold todo assigned clusters = Ok result ->
  forall c, In c result -> In c clusters \/ anchored db threshold c.
Proof.
  induction todo as [|memory rest IH]; intros assigned clusters result H c Hc;
    cbn [cluster_loop] in H.
  - injection H as <-. now left.
  - destruct (mem_Z (Memory.id memory) assigned); [now apply (IH _ _ _ H)|].
    destruct (getEmbedding (Memory.id memory) db) as [embedding|] eqn:Hemb;
      [|now apply (IH _ _ _ H)].
    destruct (scan_similar db embedding threshold memories
                (assigned ++ [Memory.id memory]) [memory])
      as [[cluster assigned']|e] eqn:Hscan; [|discriminate].
    destruct (2 <=? Z.of_nat (List.length cluster)); [|now apply (IH _ _ _ H)].
    destruct (make_cluster db cluster) as [c0|e] eqn:Hmk; [|discriminate].
    destruct (IH _ _ _ H c Hc) as [Hin|Hanch]; [|now right].
    apply in_app_or in Hin. destruct Hin as [Hin|[<-|[]]]; [now left|].
    right. destruct (scan_similar_anchor _ _ _ _ _ _ _ _ Hscan) as (added & Hcl & Hall).
    destruct (make_cluster_fields db cluster c0 Hmk) as (Hmem & _).
    exists memory, added, embedding.
    split; [now rewrite Hmem, Hcl|]. split; [exact Hemb | exact Hall].
Qed.

(** X11. The clusters [findSimilarClusters] returns are pairwise disjoint,
    have two members or more, all taken from the candidates, and are built
    around their first member, the anchor: every other member has an
    embedding whose cosine similarity with the anchor's is at least the
    threshold (the members need not be similar to each other).  A cluster's
    [combinedImportance] is min(9, max importance + floor(log2(size))). *)
Theorem clusters_are_anchored
  (db : Db) (memories : list Memory.t) (threshold : R)
  (clusters : list ConsolidationCluster) :
  findSimilarClusters db memories threshold = Ok clusters ->
  NoDup (all_cluster_ids clusters)
  /\ forall c, In c clusters ->
       (2 <= List.length (cc_memories c))%nat
       /\ (forall s, In s (cc_memories c) -> In s memories)
       /\ anchored db threshold c
       /\ cc_combinedImportance c
          = Z.min 9 (max_list (map Memory.importance (cc_memories c))
                     + Z.log2 (Z.of_nat (List.length (cc_memories c)))).
Proof.
  intro H. destruct (findSimilarClusters_spec _ _ _ _ H) as (Hnd & Hcs).
  split; [exact Hnd|]. intros c Hc.
  destruct (Hcs c Hc) as (Hlen & Hsrc & Hmk).
  split; [exact Hlen|]. split; [exact Hsrc|]. split.
  - destruct (cluster_loop_anchored _ _ _ _ _ _ _ H c Hc) as [[]|Ha]. exact Ha.
  - now destruct (make_cluster_fields _ _ _ Hmk) as (_ & -> & _).
Qed.

Lemma clusters_are_anchored_witness :
  exists c,
    findSimilarClusters db_C3_embedded [memory_C3 1 6; memory_C3 2 4] 0.85%R
    = Ok [c]
    /\ cc_memories c = [memory_C3 1 6; memory_C3 2 4]
    /\ cc_combinedImportance c = 7.
Proof.
  assert (Hf : exists c,
             findSimilarClusters db_C3_embedded [memory_C3 1 6; memory_C3 2 4]
               0.85%R
             = Ok [c]
             /\ cc_memories c = [memory_C3 1 6; memory_C3 2 4]).
  { unfold findSimilarClusters, db_C3_embedded.
    repeat (progress (cbn -[IZR Rltb Rleb Reqb cosineSimilarity];
                      rewrite ?cosineSimilarity_unit; rcompare)).
    unfold make_cluster.
    repeat (progress (cbn -[IZR Rltb Rleb Reqb cosineSimilarity];
                      rewrite ?cosineSimilarity_unit; rcompare)).
    eexists. split; reflexivity. }
  destruct Hf as (c & Hf & Hmem). exists c.
  split; [exact Hf|]. split; [exact Hmem|].
  destruct (clusters_are_anchored _ _ _ _ Hf) as (_ & Hc).
  destruct (Hc c (or_introl eq_refl)) as (_ & _ & _ & ->).
  rewrite Hmem. reflexivity.
Defined.

(** ** Relations that every operation keeps *)

(** A relation between the store before and after that the statements of
    the engine keep is kept by every operation built from them. *)
Section EveryOperation.
Variable P : Db -> Db -> Prop.
Hypothesis P_refl : forall db, P db db.
Hypothesis P_trans : forall a b c, P a b -> P b c -> P a c.
Hypothesis P_initializeSchema : forall db, P db (initializeSchema db).
Hypothesis P_getMemory : forall id now, preserves P (getMemory id now).
Hypothesis P_recordFeedback :
  forall id fb ctx now, preserves P (recordFeedback id fb ctx now).
Hypothesis P_updateUsefulnessScore :
  forall id now, preserves P (updateUsefulnessScore id now).
Hypothesis P_coAccessPair :
  forall x now a b, preserves P (coAccessPair x now a b).
Hypothesis P_decayRelationshipStrengths :
  forall f m, preserves P (decayRelationshipStrengths f m).
Hypothesis P_createMemory : forall input now, preserves P (createMemory input now).
Hypothesis P_update_level : forall id l, preserves P (update_level id l).
Hypothesis P_embedMemory :
  forall host id text, preserves P (embedMemory host id text).
Hypothesis P_updateMemoryStatus :
  forall id st p, preserves P (updateMemoryStatus id st p).
Hypothesis P_createRelationship :
  forall s t r x now, preserves P (createRelationship s t r x now).
Hypothesis P_deleteMemory : forall id, preserves P (deleteMemory id).

Lemma kept_ret {A} (a : A) : preserves P (ret a).
Proof. apply preserves_ret, P_refl. Qed.

Lemma kept_throw {A} (e : Exn) : preserves P (@throw A e).
Proof. apply preserves_throw, P_refl. Qed.

Lemma kept_bind {A B} (c : M A) (k : A -> M B) :
  preserves P c -> (forall a, preserves P (k a)) -> preserves P (bind c k).
Proof. apply preserves_bind, P_trans. Qed.

Lemma kept_forM {A} (body : A -> M unit) (xs : list A) :
  (forall x, preserves P (body x)) -> preserves P (forM_ xs body).
Proof. apply preserves_forM; [apply P_refl | apply P_trans]. Qed.

Lemma kept_try {A} (c : M A) (handler : Exn -> M A) :
  preserves P c -> (forall e, preserves P (handler e)) ->
  preserves P (try_catch c handler).
Proof. apply preserves_try_catch, P_trans. Qed.

Lemma kept_feedback_loop ids fb ctx now : forall ws mu,
  preserves P (feedback_loop ids fb ctx now ws mu).
Proof.
  induction ids as [|id ids IH]; intros ws mu; cbn [feedback_loop].
  - apply kept_ret.
  - apply kept_bind; [apply P_getMemory|].
    intros [m|]; [|apply IH].
    apply kept_bind; [apply P_recordFeedback|].
    intros _. apply kept_bind; [apply P_getMemory|].
    intros [u|]; apply IH.
Qed.

Lemma kept_feedback input now : preserves P (feedback input now).
Proof.
  destruct input as [[[|id ids]|] [fb|] ctx];
    try (unfold feedback; cbn [fi_memoryIds fi_feedback]; apply kept_ret).
  intro db. rewrite feedback_run_ids.
  pose proof (kept_feedback_loop (id :: ids) fb ctx now [] []
                (initializeSchema db)) as H.
  apply (P_trans _ _ _ (P_initializeSchema db)).
  destruct (feedback_loop _ _ _ _ _ _ _) as [[[ws mu]|e] db']; exact H.
Qed.

Lemma kept_applyDecayToAll now : preserves P (applyDecayToAll now).
Proof.
  unfold applyDecayToAll. apply preserves_get. intro db.
  apply kept_bind.
  - apply kept_forM. intro id.
    apply kept_bind; [apply P_updateUsefulnessScore | intro; apply kept_ret].
  - intro. apply kept_ret.
Qed.

Lemma kept_recordCoAccess ids x now : preserves P (recordCoAccess ids x now).
Proof.
  unfold recordCoAccess. destruct (_ <? 2); [apply kept_ret|].
  induction ids as [|a rest IH]; cbn [coAccessLoop]; [apply kept_ret|].
  apply kept_bind; [|intros _; exact IH].
  apply kept_forM. intro b. apply P_coAccessPair.
Qed.

Lemma kept_suggested_loop rows now : preserves P (suggested_loop rows now).
Proof.
  induction rows as [|row rows IH]; cbn [suggested_loop]; [apply kept_ret|].
  apply kept_bind; [apply P_getMemory|].
  intro memory. apply kept_bind; [exact IH|].
  intro more.
  destruct memory as [m|]; [destruct (is_active (Memory.status m))|];
    apply kept_ret.
Qed.

Lemma kept_getSuggestedMemories ids limit now :
  preserves P (getSuggestedMemories ids limit now).
Proof.
  unfold getSuggestedMemories. destruct ids; [apply kept_ret|].
  apply preserves_get. intro db. apply kept_suggested_loop.
Qed.

Lemma kept_consolidateCluster host ph now cluster :
  preserves P (consolidateCluster host ph now cluster).
Proof.
  unfold consolidateCluster. cbv zeta.
  apply kept_bind; [apply P_createMemory|].
  intro newMemory. apply kept_bind; [apply P_update_level|].
  intros _. apply kept_bind.
  - apply kept_try; [|intro; apply kept_ret].
    apply kept_bind; [apply P_embedMemory | intro; apply kept_ret].
  - intro warnings. apply kept_bind; [|intro; apply kept_ret].
    apply kept_forM. intro source.
    apply kept_bind; [apply P_updateMemoryStatus|].
    intros _. apply kept_bind; [apply P_createRelationship|].
    intro. apply kept_ret.
Qed.

Lemma kept_consolidate_loop host ph now clusters : forall abs total ws,
  preserves P (consolidate_loop host ph now clusters abs total ws).
Proof.
  induction clusters as [|c clusters IH]; intros abs total ws;
    cbn [consolidate_loop]; [apply kept_ret|].
  apply kept_bind; [apply kept_consolidateCluster|].
  intro r. apply IH.
Qed.

Lemma kept_consolidate host input ph now :
  preserves P (consolidate host input ph now).
Proof.
  unfold consolidate. cbv zeta.
  destruct (negb (isEmbeddingsAvailable host)); [apply kept_ret|].
  apply preserves_get. intro db.
  destruct (_ <? 2); [apply kept_ret|].
  destruct (findSimilarClusters _ _ _) as [[|c cs]|e].
  - apply kept_ret.
  - destruct (orElse (ci_dryRun input) false); [apply kept_ret|].
    apply kept_bind; [apply kept_consolidate_loop|].
    intros [[abs total] ws]. apply kept_ret.
  - apply kept_throw.
Qed.

Lemma kept_prune input ph now : preserves P (prune input ph now).
Proof.
  intro db. pose proof (prune_run input ph now db) as Hrun. cbv zeta in Hrun.
  rewrite Hrun.
  destruct (prune_selection input ph now db) as [|s safe]; cbn [snd];
    [apply P_refl|].
  destruct (orElse (pi_dryRun input) false); [apply P_refl|].
  apply kept_forM. intro memory. unfold prune_action.
  destruct (orElse (pi_permanent input) false).
  - apply kept_bind; [apply P_deleteMemory | intro; apply kept_ret].
  - apply kept_bind; [apply P_updateMemoryStatus | intro; apply kept_ret].
Qed.

Lemma kept_exec (op : EngineOp) (now : Z) (db : Db) : P db (exec op now db).
Proof.
  destruct op; cbn [exec].
  - apply P_getMemory.
  - apply kept_feedback.
  - apply P_recordFeedback.
  - apply P_updateUsefulnessScore.
  - apply kept_applyDecayToAll.
  - apply kept_recordCoAccess.
  - apply P_decayRelationshipStrengths.
  - apply kept_getSuggestedMemories.
  - apply kept_consolidate.
  - apply kept_prune.
  - apply P_updateMemoryStatus.
Qed.
End EveryOperation.

(** ** The ranges of the data model *)

Lemma keeps_valid_refl (db : Db) : keeps_valid db db.
Proof. intro H. exact H. Qed.

Lemma keeps_valid_trans (a b c : Db) :
  keeps_valid a b -> keeps_valid b c -> keeps_valid a c.
Proof. unfold keeps_valid. auto. Qed.

Lemma same_memories_valid (db db' : Db) :
  memories db' = memories db -> keeps_valid db db'.
Proof. intros E H. unfold store_valid in *. now rewrite E. Qed.

Lemma update_memory_valid (id : Z) (f : Memory.t -> Memory.t) (db : Db) :
  (forall x, Memory.id (f x) = Memory.id x) ->
  (forall x, In x (memories db) -> Memory.id x = id -> row_valid x ->
     row_valid (f x)) ->
  keeps_valid db (update_memory id f db).
Proof.
  intros Hid Hf [Hnd Hrows]. split.
  - unfold update_memory. rewrite with_memories_memories.
    now rewrite map_id_update.
  - intros m Hm. unfold update_memory in Hm.
    rewrite with_memories_memories in Hm. apply in_map_iff in Hm.
    destruct Hm as (x & <- & Hx).
    destruct (Z.eqb_spec (Memory.id x) id) as [E|E]; [|now apply Hrows].
    apply Hf; [exact Hx | exact E | now apply Hrows].
Qed.

(** Statements that do not write to [memories]. *)
Ltac other_tables :=
  intro db; apply same_memories_valid;
  repeat first
    [ reflexivity
    | progress (unfold bind, get, put, ret, throw; cbn [snd fst])
    | match goal with
      | |- context [match ?x with _ => _ end] => destruct x
      | |- context [if ?b then _ else _] => destruct b
      end ].

Lemma getMemory_valid id now : preserves keeps_valid (getMemory id now).
Proof.
  intro db. rewrite getMemory_run. destruct (select_memory id db); cbn [snd].
  - apply update_memory_valid; [reflexivity|].
    intros x _ _ H. unfold row_valid in *. cbn. intuition lia.
  - apply keeps_valid_refl.
Qed.

Lemma updateUsefulnessScore_valid id now :
  preserves keeps_valid (updateUsefulnessScore id now).
Proof.
  intro db. rewrite updateUsefulnessScore_run.
  destruct (select_memory id db) as [row|]; cbn [snd].
  - apply update_memory_valid; [reflexivity|].
    intros x _ _ H. unfold row_valid in *. cbn.
    rewrite usefulness_is_spec_score.
    pose proof (spec_score_bounds row now). intuition lia.
  - apply keeps_valid_refl.
Qed.

Lemma recordFeedback_valid id fb ctx now :
  preserves keeps_valid (recordFeedback id fb ctx now).
Proof.
  intro db. rewrite recordFeedback_run.
  destruct (foreign_keys db && negb (memory_exists id db)); cbn [snd].
  - apply keeps_valid_refl.
  - cbv zeta. cbn [snd].
    eapply keeps_valid_trans; [|apply updateUsefulnessScore_valid].
    eapply keeps_valid_trans; [|apply update_memory_valid].
    + apply same_memories_valid. reflexivity.
    + apply bump_id.
    + intros x _ _ H. unfold row_valid in *. destruct fb; cbn; intuition lia.
Qed.

Lemma insert_memory_relationship_valid s t r x now :
  preserves keeps_valid (insert_memory_relationship s t r x now).
Proof. unfold insert_memory_relationship. other_tables. Qed.

Lemma coAccessPair_valid x now a b : preserves keeps_valid (coAccessPair x now a b).
Proof.
  unfold coAccessPair. destruct (a <? b).
  - intro db. unfold bind, get.
    destruct (select_similar a b db); [now apply same_memories_valid|].
    fold (bind (insert_memory_relationship a b similar x now) (fun _ => ret tt) db).
    apply (preserves_bind _ keeps_valid_trans);
      [apply insert_memory_relationship_valid|].
    intro. apply preserves_ret, keeps_valid_refl.
  - intro db. unfold bind, get.
    destruct (select_similar b a db); [now apply same_memories_valid|].
    fold (bind (insert_memory_relationship b a similar x now) (fun _ => ret tt) db).
    apply (preserves_bind _ keeps_valid_trans);
      [apply insert_memory_relationship_valid|].
    intro. apply preserves_ret, keeps_valid_refl.
Qed.

Lemma decayRelationshipStrengths_valid f m :
  preserves keeps_valid (decayRelationshipStrengths f m).
Proof. unfold decayRelationshipStrengths. other_tables. Qed.

Lemma createMemory_valid input now : preserves keeps_valid (createMemory input now).
Proof.
  intro db. unfold createMemory. rewrite run_bind. unfold get at 1.
  cbn iota beta. cbv zeta.
  destruct (negb _) eqn:Hcheck; [apply keeps_valid_refl|].
  rewrite run_bind. unfold put at 1, ret. cbn iota beta. cbn [snd].
  apply negb_false_iff, andb_prop in Hcheck. destruct Hcheck as [Hlo Hhi].
  apply Z.leb_le in Hlo, Hhi.
  intros [Hnd Hrows]. split; rewrite with_memories_memories.
  - rewrite map_app. cbn [map Memory.id].
    apply NoDup_app; [exact Hnd | repeat constructor; intros [] |].
    intros k Hk [<-|[]]. now apply next_rowid_fresh in Hk.
  - intros m Hm. apply in_app_or in Hm. destruct Hm as [Hm|[<-|[]]];
      [now apply Hrows|].
    unfold row_valid. cbn. repeat split; try lia; lra.
Qed.

Lemma update_level_valid id l : preserves keeps_valid (update_level id l).
Proof.
  intro db. unfold update_level. rewrite run_bind. unfold get at 1.
  cbn iota beta.
  destruct (memory_exists id db) eqn:Hex; cbn [andb].
  - destruct (negb _) eqn:Hcheck; [apply keeps_valid_refl|].
    apply negb_false_iff, andb_prop in Hcheck. destruct Hcheck as [Hlo Hhi].
    apply Z.leb_le in Hlo, Hhi. unfold put. cbn [snd].
    apply update_memory_valid; [reflexivity|].
    intros x _ _ H. unfold row_valid in *. cbn. intuition lia.
  - unfold put. cbn [snd]. apply update_memory_valid; [reflexivity|].
    intros x Hx E _. exfalso.
    assert (memory_exists id db = true); [|congruence].
    apply memory_exists_iff. now exists x.
Qed.

Lemma embedMemory_valid host id text :
  preserves keeps_valid (embedMemory host id text).
Proof.
  unfold embedMemory, storeEmbedding.
  destruct (generateEmbedding host text embedding_model); other_tables.
Qed.

Lemma updateMemoryStatus_valid id st p :
  preserves keeps_valid (updateMemoryStatus id st p).
Proof.
  intro db. unfold updateMemoryStatus. rewrite run_bind. unfold get at 1.
  cbn iota beta. cbv zeta.
  destruct (_ && _); [apply keeps_valid_refl|].
  rewrite run_bind. unfold put at 1, ret. cbn iota beta. cbn [snd].
  apply update_memory_valid; [reflexivity|].
  intros x _ _ H. exact H.
Qed.

Lemma createRelationship_valid s t r x now :
  preserves keeps_valid (createRelationship s t r x now).
Proof.
  unfold createRelationship.
  apply (preserves_bind _ keeps_valid_trans);
    [apply insert_memory_relationship_valid|].
  intro. apply preserves_ret, keeps_valid_refl.
Qed.

Lemma orphan_valid (p : Z) (m : Memory.t) : row_valid m -> row_valid (Memory.orphan p m).
Proof.
  unfold Memory.orphan. destruct (Memory.parent_id m) as [q|]; [|auto].
  destruct (q =? p); auto.
Qed.

Lemma deleteMemory_valid id : preserves keeps_valid (deleteMemory id).
Proof.
  intros db [Hnd Hrows]. split.
  - rewrite deleteMemory_ids. now apply NoDup_filter.
  - rewrite deleteMemory_run. cbn [snd]. cbv zeta.
    destruct (foreign_keys db && memory_exists id db);
      cbn [memories with_memories]; intros m Hm.
    + apply in_map_iff in Hm. destruct Hm as (x & <- & Hx).
      apply filter_In in Hx. apply orphan_valid, Hrows, Hx.
    + apply filter_In in Hm. apply Hrows, Hm.
Qed.

(** X12. Every operation of the engine, at any time and on any input,
    keeps the ranges of the data model: ids stay unique, and every memory
    keeps [importance] in 1..9, [level] in 1..3, [usefulnessScore] in
    [1.0, 9.0] and counters that are not negative; so does every sequence
    of operations. *)
Theorem every_operation_keeps_the_ranges
  (ops : list (EngineOp * Z)) (db : Db) :
  store_valid db ->
  store_valid (run_operations ops db)
  /\ forall op now, store_valid (exec op now db).
Proof.
  assert (Hone : forall op now d, keeps_valid d (exec op now d)).
  { intros op now d.
    apply (kept_exec keeps_valid keeps_valid_refl keeps_valid_trans).
    - intro d'. now apply same_memories_valid.
    - apply getMemory_valid.
    - apply recordFeedback_valid.
    - apply updateUsefulnessScore_valid.
    - apply coAccessPair_valid.
    - apply decayRelationshipStrengths_valid.
    - apply createMemory_valid.
    - apply update_level_valid.
    - apply embedMemory_valid.
    - apply updateMemoryStatus_valid.
    - apply createRelationship_valid.
    - apply deleteMemory_valid. }
  intro Hok. split; [|intros op now; now apply Hone].
  revert db Hok. induction ops as [|[op now] ops IH]; intros db Hok; [exact Hok|].
  cbn [run_operations fold_left fst snd]. apply IH. now apply Hone.
Qed.

Lemma every_operation_keeps_the_ranges_witness :
  store_valid
    (run_operations
       [(OpFeedback (Build_FeedbackInput (Some [7]) (Some helpful) None), 5000);
        (OpApplyDecayToAll, 6000);
        (OpPrune (Build_PruneInput None None None (Some true)) None, 7000)]
       db_C10).
Proof.
  assert (Hok : store_valid db_C10).
  { split.
    - repeat constructor. intros [].
    - intros m [<-|[]]. unfold row_valid. cbn. repeat split; try lia; lra. }
  exact (proj1 (every_operation_keeps_the_ranges _ db_C10 Hok)).
Defined.

(** ** The range of the strengths *)

Lemma touch_edge_strengths (inc : R) (now : Z)
  (st : list MemoryRelationship.t * Z) (p : Z * Z) :
  (0 < inc <= 10)%R ->
  Forall strength_ok (fst st) ->
  Forall strength_ok (fst (touch_edge inc now st p)).
Proof.
  intros Hinc Hall. unfold touch_edge.
  destruct (find (is_edge p) (fst st)) as [e|] eqn:Hfind; cbn [fst].
  - apply find_some in Hfind. destruct Hfind as [He _].
    rewrite Forall_forall in Hall. pose proof (Hall e He) as Hse.
    apply Forall_forall. intros r Hr. apply in_map_iff in Hr.
    destruct Hr as (x & <- & Hx).
    destruct (MemoryRelationship.id x =? MemoryRelationship.id e);
      [|now apply Hall].
    unfold strength_ok in *. cbn [MemoryRelationship.strength
                                   MemoryRelationship.set_strength].
    unfold Math_min, Rmin.
    destruct (Rle_dec 10 (MemoryRelationship.strength e + inc)); lra.
  - apply Forall_app. split; [exact Hall|].
    constructor; [|constructor]. exact Hinc.
Qed.

Lemma touch_edges_strengths (inc : R) (now : Z) (ps : list (Z * Z)) : forall st,
  (0 < inc <= 10)%R ->
  Forall strength_ok (fst st) ->
  Forall strength_ok (fst (fold_left (touch_edge inc now) ps st)).
Proof.
  induction ps as [|p ps IH]; intros st Hinc Hall; cbn [fold_left];
    [exact Hall|].
  apply IH; [exact Hinc | now apply touch_edge_strengths].
Qed.

Lemma fl_ten : fl 10 = 10%R.
Proof. apply (fl_IZR 10). lia. Qed.

Lemma rne_quarter : rne (1 / 4) = 0.
Proof.
  unfold rne. cbv zeta. rewrite (Int_part_unique (1 / 4) 0) by lra.
  destruct (Rlt_dec _ _) as [H|H]; [reflexivity|]. exfalso. lra.
Qed.

(** A product below half the smallest subnormal double rounds to zero. *)
Lemma fl_underflow : fl (pow2 (-1074) * 0.25) = 0%R.
Proof.
  pose proof (pow2_pos (-1074)) as Hp.
  assert (Hsmall : (pow2 (-1074) * 0.25 < pow2 (-1021))%R).
  { assert (pow2 (-1074) <= pow2 (-1021))%R by (apply pow2_le; lia). lra. }
  rewrite fl_of_nonneg by lra. unfold fl_pos, ulp.
  rewrite (exponent_small _ Hsmall).
  replace (-1022 - 52) with (-1074) by lia.
  replace (pow2 (-1074) * 0.25 / pow2 (-1074))%R with (1 / 4)%R.
  - rewrite rne_quarter. apply Rmult_0_l.
  - revert Hp. generalize (pow2 (-1074)). intros U Hp.
    unfold Rdiv. rewrite (Rmult_comm U 0.25), Rmult_assoc, Rinv_r by lra. lra.
Qed.

(** X13. The range of the strengths.  If every relationship of the store
    has a strength in (0, 10], then so has every relationship after
    [recordCoAccess] with an increment in (0, 10] (an existing edge is
    capped at 10, a new edge starts at the increment as it is given).
    After [decayRelationshipStrengths] with a factor in (0, 1] every
    strength is still in [0, 10] and at or above the floor, so in (0, 10]
    when the floor is positive; with a floor that is not, a strength can
    reach 0: the product of a strength and the factor is rounded to a
    double, and a small enough product rounds to zero. *)
Theorem strengths_stay_in_range (db : Db) :
  Forall strength_ok (memory_relationships db) ->
  (forall ids inc now,
     linkable ids db -> (0 < inc <= 10)%R ->
     Forall strength_ok
       (memory_relationships (snd (recordCoAccess ids inc now db))))
  /\ (forall decayFactor minStrength,
        (0 < decayFactor <= 1)%R ->
        Forall (fun r => (0 <= MemoryRelationship.strength r <= 10)%R
                         /\ (minStrength <= MemoryRelationship.strength r)%R
                         /\ ((0 < minStrength)%R -> strength_ok r))
          (memory_relationships
             (snd (decayRelationshipStrengths decayFactor minStrength db)))).
Proof.
  intro Hall. split.
  - intros ids inc now Hlink Hinc. rewrite (recordCoAccess_run _ _ _ _ Hlink).
    cbn [snd]. unfold set_relationship_table.
    cbn [memory_relationships with_relationships].
    now apply touch_edges_strengths.
  - intros f floor Hf. rewrite decayRelationshipStrengths_run.
    apply Forall_forall. intros r Hr.
    pose proof (decayed_at_least_floor f floor _ r Hr) as Hfloor.
    destruct (decayed_below_floor f floor _ r Hr) as (x & Hx & _ & _ & Hs).
    rewrite Forall_forall in Hall. pose proof (Hall x Hx) as Hsx.
    unfold strength_ok in *.
    assert (Hrange : (0 <= MemoryRelationship.strength r <= 10)%R).
    { rewrite Hs. destruct (Rltb floor (MemoryRelationship.strength x)); [|lra].
      split.
      - apply fl_nonneg. apply Rmult_le_pos; lra.
      - rewrite <- fl_ten. apply fl_le. split; [apply Rmult_le_pos; lra | nra]. }
    split; [exact Hrange|]. split; [exact Hfloor|]. intro H. lra.
Qed.

(** Memories 1 and 2 and an edge of strength [2 ^ -1074], the smallest
    positive double. *)
Lemma strengths_stay_in_range_witness :
  Forall strength_ok
    (memory_relationships (snd (recordCoAccess [1; 2; 3] 0.1 50 db_C9)))
  /\ Forall (fun r => (0 <= MemoryRelationship.strength r <= 10)%R
                      /\ (0.125 <= MemoryRelationship.strength r)%R
                      /\ ((0 < 0.125)%R -> strength_ok r))
       (memory_relationships (snd (decayRelationshipStrengths 0.5 0.125 db_C9)))
  /\ memory_relationships
       (snd (decayRelationshipStrengths 0.25 (-1) (db_C7 (pow2 (-1074)))))
     = [edge_C7 0].
Proof.
  assert (Hall : Forall strength_ok (memory_relationships db_C9)).
  { repeat constructor; unfold strength_ok; cbn; lra. }
  assert (Hlink : linkable [1; 2; 3] db_C9).
  { right. intros id [<-|[<-|[<-|[]]]]; reflexivity. }
  split; [|split].
  - apply (proj1 (strengths_stay_in_range db_C9 Hall) [1; 2; 3] 0.1%R 50 Hlink).
    lra.
  - apply (proj2 (strengths_stay_in_range db_C9 Hall) 0.5%R 0.125%R). lra.
  - rewrite decayRelationshipStrengths_run. unfold db_C7, edge_C7.
    cbn [memory_relationships]. rewrite decayed_cons. edge_simpl.
    pose proof (pow2_pos (-1074)) as Hp.
    rewrite (Rltb_true (-1) (pow2 (-1074))) by lra.
    rewrite fl_underflow. rcompare. reflexivity.
Defined.

(** ** Cosine similarity *)

Lemma dot_from_comm (a : list R) : forall b sum,
  dot_from sum a b = dot_from sum b a.
Proof.
  induction a as [|x a IH]; intros [|y b] sum; cbn [dot_from]; try reflexivity.
  now rewrite IH, (Rmult_comm x y).
Qed.

Lemma dot_comm (a b : list R) : dot a b = dot b a.
Proof. apply dot_from_comm. Qed.

Lemma dot_from_nonneg (a : list R) : forall b sum,
  Forall (fun x => 0 <= x)%R a -> Forall (fun y => 0 <= y)%R b ->
  (0 <= sum)%R -> (0 <= dot_from sum a b)%R.
Proof.
  induction a as [|x a IH]; intros [|y b] sum Ha Hb Hsum; cbn [dot_from];
    try exact Hsum.
  inversion Ha; subst. inversion Hb; subst.
  apply IH; try assumption. apply fl_nonneg.
  assert (0 <= fl (x * y))%R by (apply fl_nonneg; now apply Rmult_le_pos). lra.
Qed.

Lemma dot_from_self_nonneg (a : list R) : forall sum,
  (0 <= sum)%R -> (0 <= dot_from sum a a)%R.
Proof.
  induction a as [|x a IH]; intros sum Hsum; cbn [dot_from]; [exact Hsum|].
  apply IH. apply fl_nonneg.
  assert (0 <= fl (x * x))%R by (apply fl_nonneg; nra). lra.
Qed.

Lemma dot_self_nonneg (a : list R) : (0 <= dot a a)%R.
Proof. apply dot_from_self_nonneg. lra. Qed.

Lemma dot_from_zero (a : list R) : forall b,
  Forall (fun x => x = 0%R) a -> dot_from 0 a b = 0%R.
Proof.
  induction a as [|x a IH]; intros [|y b] Ha; cbn [dot_from]; try reflexivity.
  inversion Ha; subst. rewrite Rmult_0_l, fl_0, Rplus_0_l, fl_0. now apply IH.
Qed.

Lemma cosineSimilarity_run (a b : list R) :
  List.length a = List.length b ->
  cosineSimilarity a b
  = Ok (if Reqb (fl (fl (sqrt (dot a a)) * fl (sqrt (dot b b)))) 0 then 0%R
        else fl (dot a b / fl (fl (sqrt (dot a a)) * fl (sqrt (dot b b))))).
Proof.
  intro Hlen. unfold cosineSimilarity. rewrite Hlen, Nat.eqb_refl. cbn [negb].
  now destruct (Reqb _ 0).
Qed.

Lemma magnitude_nonneg (a b : list R) :
  (0 <= fl (fl (sqrt (dot a a)) * fl (sqrt (dot b b))))%R.
Proof.
  apply fl_nonneg. apply Rmult_le_pos; apply fl_nonneg; apply sqrt_pos.
Qed.

(** *** The similarity of (1, 1, 1) with itself *)

Lemma pow2_m52 : pow2 (-52) = (/ 4503599627370496)%R.
Proof. unfold pow2, powerRZ. simpl. lra. Qed.

Lemma pow2_m51 : pow2 (-51) = (/ 2251799813685248)%R.
Proof. unfold pow2, powerRZ. simpl. lra. Qed.

Lemma fl_2 : fl (1 + 1) = 2%R.
Proof. replace (1 + 1)%R with (IZR 2) by lra. apply fl_IZR. lia. Qed.

Lemma fl_3 : fl (2 + 1) = 3%R.
Proof. replace (2 + 1)%R with (IZR 3) by lra. apply fl_IZR. lia. Qed.

Lemma dot_ones : dot [1; 1; 1]%R [1; 1; 1]%R = 3%R.
Proof.
  unfold dot. cbn [dot_from].
  rewrite !Rmult_1_l, fl_1, Rplus_0_l, fl_1, fl_2, fl_3. reflexivity.
Qed.

Lemma sqrt_between (a b x : R) :
  (0 <= a)%R -> (a * a < x)%R -> (x < b * b)%R -> (0 <= b)%R ->
  (a < sqrt x < b)%R.
Proof.
  intros Ha Hax Hxb Hb. split.
  - rewrite <- (sqrt_square a Ha). apply sqrt_lt_1; nra.
  - rewrite <- (sqrt_square b Hb). apply sqrt_lt_1; nra.
Qed.

Lemma fl_sqrt_3 : fl (sqrt 3) = (7800463371553962 * / 4503599627370496)%R.
Proof.
  assert (Hs : (7800463371553961.5 / 4503599627370496 < sqrt 3
                < 7800463371553962.5 / 4503599627370496)%R)
    by (apply sqrt_between; lra).
  rewrite (fl_nearest (sqrt 3) 0 7800463371553962).
  - replace (0 - 52) with (-52) by lia. now rewrite pow2_m52.
  - lia.
  - change (pow2 (0 + 1)) with (pow2 1). rewrite pow2_0, pow2_1. lra.
  - replace (0 - 52) with (-52) by lia. rewrite pow2_m52.
    unfold Rdiv. rewrite Rinv_inv. lra.
Qed.

Lemma fl_magnitude_3 :
  fl (7800463371553962 * / 4503599627370496
      * (7800463371553962 * / 4503599627370496))
  = (6755399441055743 * / 2251799813685248)%R.
Proof.
  rewrite (fl_nearest _ 1 6755399441055743).
  - replace (1 - 52) with (-51) by lia. now rewrite pow2_m51.
  - lia.
  - change (pow2 (1 + 1)) with (pow2 2). rewrite pow2_1.
    replace (pow2 2) with 4%R by (unfold pow2, powerRZ; simpl; lra). lra.
  - replace (1 - 52) with (-51) by lia. rewrite pow2_m51.
    unfold Rdiv. rewrite Rinv_inv. lra.
Qed.

Lemma fl_quotient_3 :
  fl (3 / (6755399441055743 * / 2251799813685248))
  = (4503599627370497 * / 4503599627370496)%R.
Proof.
  rewrite (fl_nearest _ 0 4503599627370497).
  - replace (0 - 52) with (-52) by lia. now rewrite pow2_m52.
  - lia.
  - change (pow2 (0 + 1)) with (pow2 1). rewrite pow2_0, pow2_1. lra.
  - replace (0 - 52) with (-52) by lia. rewrite pow2_m52.
    unfold Rdiv. rewrite Rinv_inv. lra.
Qed.

(** In doubles the similarity of a vector with itself need not be 1:
    for (1, 1, 1) it is [1 + 2 ^ -52], that is 1.0000000000000002. *)
Lemma cosineSimilarity_ones :
  cosineSimilarity [1; 1; 1]%R [1; 1; 1]%R
  = Ok (4503599627370497 * / 4503599627370496)%R.
Proof.
  rewrite cosineSimilarity_run by reflexivity.
  rewrite dot_ones, fl_sqrt_3, fl_magnitude_3, fl_quotient_3.
  unfold Reqb. destruct (Req_dec_T _ 0) as [E|_]; [exfalso; lra | reflexivity].
Qed.

(** X14. [cosineSimilarity] throws "Vectors must have same dimension" for
    vectors of different lengths.  For vectors of the same length it
    returns a number that does not depend on the order of its arguments,
    that has the sign of the sum of products the loop computes (so it is
    not negative for two vectors without a negative component), and that is
    0 when the first vector is zero.  The loop and the three operations
    after it round to doubles, so the result need not lie in [-1, 1] and
    the similarity of a vector with itself need not be 1: for (1, 1, 1) it
    is 1.0000000000000002. *)
Theorem cosineSimilarity_is_a_cosine (a b : list R) :
  (List.length a <> List.length b ->
   cosineSimilarity a b = Throw (Error "Vectors must have same dimension"))
  /\ (List.length a = List.length b ->
      exists s,
        cosineSimilarity a b = Ok s
        /\ cosineSimilarity b a = Ok s
        /\ ((0 <= dot a b)%R -> (0 <= s)%R)
        /\ ((dot a b <= 0)%R -> (s <= 0)%R)
        /\ (Forall (fun x => 0 <= x)%R a -> Forall (fun y => 0 <= y)%R b ->
            (0 <= s)%R)
        /\ (Forall (fun x => x = 0%R) a -> s = 0%R))
  /\ cosineSimilarity [1; 1; 1]%R [1; 1; 1]%R
     = Ok (4503599627370497 * / 4503599627370496)%R.
Proof.
  split; [|split; [|exact cosineSimilarity_ones]].
  - intro Hne. unfold cosineSimilarity.
    destruct (Nat.eqb_spec (List.length a) (List.length b)); [contradiction|].
    reflexivity.
  - intro Hlen. rewrite (cosineSimilarity_run a b Hlen).
    rewrite (cosineSimilarity_run b a (eq_sym Hlen)).
    pose proof (magnitude_nonneg a b) as Hm.
    eexists. split; [reflexivity|].
    assert (Hpos : (0 <= dot a b)%R ->
              (0 <= (if Reqb (fl (fl (sqrt (dot a a)) * fl (sqrt (dot b b)))) 0
                     then 0
                     else fl (dot a b
                              / fl (fl (sqrt (dot a a)) * fl (sqrt (dot b b))))))%R).
    { intro Hd. unfold Reqb. destruct (Req_dec_T _ 0) as [E|E]; [lra|].
      apply fl_nonneg. unfold Rdiv. apply Rmult_le_pos; [exact Hd|].
      left. apply Rinv_0_lt_compat. lra. }
    split; [|split; [exact Hpos|split; [|split]]].
    + now rewrite (Rmult_comm (fl (sqrt (dot b b)))), (dot_comm b a).
    + intro Hd. unfold Reqb. destruct (Req_dec_T _ 0) as [E|E]; [lra|].
      apply fl_nonpos.
      assert (Hinv : (0 < / fl (fl (sqrt (dot a a)) * fl (sqrt (dot b b))))%R)
        by (apply Rinv_0_lt_compat; lra).
      unfold Rdiv. revert Hinv.
      generalize (/ fl (fl (sqrt (dot a a)) * fl (sqrt (dot b b))))%R.
      intros i Hi. nra.
    + intros Ha Hb. apply Hpos. apply dot_from_nonneg; try assumption. lra.
    + intro Hz. unfold dot at 1. rewrite (dot_from_zero a a Hz).
      rewrite sqrt_0, fl_0, Rmult_0_l, fl_0. unfold Reqb.
      destruct (Req_dec_T 0 0); [reflexivity | contradiction].
Qed.

Lemma cosineSimilarity_is_a_cosine_witness :
  exists s,
    cosineSimilarity [3; 4]%R [4; 3]%R = Ok s
    /\ cosineSimilarity [4; 3]%R [3; 4]%R = Ok s
    /\ (0 <= s)%R.
Proof.
  destruct (proj1 (proj2 (cosineSimilarity_is_a_cosine [3; 4]%R [4; 3]%R)) eq_refl)
    as (s & Hs & Hsym & _ & _ & Hpos & _).
  exists s. split; [exact Hs|]. split; [exact Hsym|].
  apply Hpos; repeat constructor; lra.
Defined.

(** ** Storing and reading embeddings *)

Lemma storeEmbedding_run (memoryId : Z) (vector : Float32Array) (model : string)
  (db : Db) :
  storeEmbedding memoryId vector model db
  = if foreign_keys db && negb (memory_exists memoryId db)
    then (Throw FOREIGN_KEY_FAILED, db)
    else (Ok tt,
          with_embeddings
            (filter (fun e => negb (Embedding.memory_id e =? memoryId))
                    (embeddings db)
             ++ [Embedding.mk memoryId (fa_buffer vector) model])
            db).
Proof.
  unfold storeEmbedding. rewrite run_bind. unfold get at 1. cbn iota beta zeta.
  now destruct (foreign_keys db && negb (memory_exists memoryId db)).
Qed.

Lemma find_filter_other (k id : Z) (es : list Embedding.t) :
  k <> id ->
  find (fun e => Embedding.memory_id e =? k)
    (filter (fun e => negb (Embedding.memory_id e =? id)) es)
  = find (fun e => Embedding.memory_id e =? k) es.
Proof.
  intro Hne. induction es as [|e es IH]; [reflexivity|]. cbn [filter find].
  destruct (Z.eqb_spec (Embedding.memory_id e) id) as [E|E]; cbn [negb find].
  - destruct (Z.eqb_spec (Embedding.memory_id e) k); [congruence | exact IH].
  - now rewrite IH.
Qed.

Lemma find_filter_same (id : Z) (es : list Embedding.t) :
  find (fun e => Embedding.memory_id e =? id)
    (filter (fun e => negb (Embedding.memory_id e =? id)) es)
  = None.
Proof.
  induction es as [|e es IH]; [reflexivity|]. cbn [filter].
  destruct (Embedding.memory_id e =? id) eqn:E; cbn [negb find];
    [exact IH | now rewrite E].
Qed.

Lemma find_app_right {A} (f : A -> bool) (l l' : list A) :
  find f l = None -> find f (l ++ l') = find f l'.
Proof.
  induction l as [|x l IH]; cbn [app find]; [reflexivity|].
  destruct (f x); [discriminate | exact IH].
Qed.

Lemma find_app_left {A} (f : A -> bool) (l l' : list A) (x : A) :
  find f l = Some x -> find f (l ++ l') = Some x.
Proof.
  induction l as [|y l IH]; cbn [app find]; [discriminate|].
  destruct (f y); [trivial | exact IH].
Qed.

Lemma deleteEmbedding_run (memoryId : Z) (db : Db) :
  deleteEmbedding memoryId db
  = (Ok (existsb (fun e => Embedding.memory_id e =? memoryId) (embeddings db)),
     with_embeddings
       (filter (fun e => negb (Embedding.memory_id e =? memoryId)) (embeddings db))
       db).
Proof. reflexivity. Qed.

Lemma elements_from (numbers : list R) :
  elements (Float32Array_from numbers) = numbers.
Proof.
  unfold elements, Float32Array_from. cbn [fa_length fa_offset fa_buffer skipn].
  apply firstn_all.
Qed.

(** X15. Storing an embedding and reading it back: [storeEmbedding] for a
    memory of the store (or on a connection that does not enforce foreign
    keys) returns, after which [getEmbedding] gives every slot of the
    buffer under the array stored, whatever was stored for that memory
    before: the elements of the array when it covers its buffer, as an
    array made by [new Float32Array(numbers)] does and so every array
    [embedMemory] stores, and more than the array's
    elements when it is a view of a part of a larger buffer.  The
    embeddings of the other memories are as before, a table with one
    embedding per memory keeps one per memory, and no other table changes.
    [deleteEmbedding] then removes it.  For an id that is no memory, on a
    connection that enforces foreign keys, [storeEmbedding] throws and
    stores nothing. *)
Theorem embedding_round_trip
  (db : Db) (memoryId : Z) (vector : Float32Array) (model : string) :
  (foreign_keys db = true -> memory_exists memoryId db = false ->
   storeEmbedding memoryId vector model db = (Throw FOREIGN_KEY_FAILED, db))
  /\ (foreign_keys db = false \/ memory_exists memoryId db = true ->
      let db' := snd (storeEmbedding memoryId vector model db) in
      fst (storeEmbedding memoryId vector model db) = Ok tt
      /\ getEmbedding memoryId db' = Some (fa_buffer vector)
      /\ (fa_offset vector = 0%nat ->
          fa_length vector = List.length (fa_buffer vector) ->
          getEmbedding memoryId db' = Some (elements vector))
      /\ (forall numbers, vector = Float32Array_from numbers ->
          getEmbedding memoryId db' = Some numbers)
      /\ (forall k, k <> memoryId -> getEmbedding k db' = getEmbedding k db)
      /\ (NoDup (map Embedding.memory_id (embeddings db)) ->
          NoDup (map Embedding.memory_id (embeddings db')))
      /\ memories db' = memories db
      /\ memory_feedback db' = memory_feedback db
      /\ memory_relationships db' = memory_relationships db
      /\ fst (deleteEmbedding memoryId db') = Ok true
      /\ getEmbedding memoryId (snd (deleteEmbedding memoryId db')) = None
      /\ (forall k, k <> memoryId ->
            getEmbedding k (snd (deleteEmbedding memoryId db'))
            = getEmbedding k db)).
Proof.
  split.
  - intros Hfk Hex. rewrite storeEmbedding_run, Hfk, Hex. reflexivity.
  - intro Hok. cbv zeta. rewrite storeEmbedding_run.
    assert (Hgo : foreign_keys db && negb (memory_exists memoryId db) = false).
    { destruct Hok as [-> | ->]; [reflexivity | apply andb_false_r]. }
    rewrite Hgo. cbn [fst snd].
    split; [reflexivity|]. rewrite deleteEmbedding_run. unfold getEmbedding.
    cbn [fst snd embeddings with_embeddings].
    assert (Hget : option_map Embedding.vector
                     (find (fun e => Embedding.memory_id e =? memoryId)
                        (filter (fun e => negb (Embedding.memory_id e =? memoryId))
                           (embeddings db)
                         ++ [Embedding.mk memoryId (fa_buffer vector) model]))
                   = Some (fa_buffer vector)).
    { rewrite find_app_right by apply find_filter_same.
      cbn [find Embedding.memory_id]. now rewrite Z.eqb_refl. }
    split; [exact Hget|].
    split.
    { intros Hoff Hlen. rewrite Hget. f_equal. unfold elements.
      rewrite Hoff, Hlen. cbn [skipn]. symmetry. apply firstn_all. }
    split.
    { intros numbers ->. rewrite Hget. reflexivity. }
    split; [|split; [|split; [|split; [|split; [|split; [|split]]]]]];
      try reflexivity.
    + intros k Hk. f_equal.
      destruct (find (fun e => Embedding.memory_id e =? k) (embeddings db))
        as [e|] eqn:Hfind.
      * apply find_app_left. now rewrite find_filter_other.
      * rewrite find_app_right by now rewrite find_filter_other.
        cbn [find Embedding.memory_id].
        destruct (Z.eqb_spec memoryId k); [congruence | reflexivity].
    + intro Hnd. rewrite map_app. cbn [map Embedding.memory_id].
      apply NoDup_app.
      * clear - Hnd. induction (embeddings db) as [|e es IH]; [constructor|].
        cbn [map] in Hnd. inversion Hnd as [|? ? Hnot Hnd']; subst.
        cbn [filter]. destruct (negb _); [|now apply IH].
        cbn [map]. constructor; [|now apply IH].
        intro Hin. apply Hnot. apply in_map_iff in Hin.
        destruct Hin as (x & Hx & Hin). apply filter_In in Hin.
        apply in_map_iff. exists x. tauto.
      * repeat constructor. intros [].
      * intros x Hx [<-|[]]. apply in_map_iff in Hx.
        destruct Hx as (e & He & Hin). apply filter_In in Hin.
        destruct Hin as [_ Hin]. apply negb_true_iff, Z.eqb_neq in Hin.
        congruence.
    + rewrite existsb_app. cbn [existsb Embedding.memory_id].
      rewrite Z.eqb_refl. cbn [orb]. now rewrite orb_true_r.
    + now rewrite find_filter_same.
    + intros k Hk. f_equal. rewrite find_filter_other by exact Hk.
      destruct (find (fun e => Embedding.memory_id e =? k) (embeddings db))
        as [e|] eqn:Hfind.
      * apply find_app_left. now rewrite find_filter_other.
      * rewrite find_app_right by now rewrite find_filter_other.
        cbn [find Embedding.memory_id].
        destruct (Z.eqb_spec memoryId k); [congruence | reflexivity].
Qed.

(** An array of its own buffer is read back as stored; the view
    [subarray(1, 3)] of a buffer of four slots is read back as all four. *)
Lemma embedding_round_trip_witness :
  getEmbedding 1
    (snd (storeEmbedding 1 (Float32Array_from [2%R; 0%R]) embedding_model
            db_C3_embedded))
  = Some [2%R; 0%R]
  /\ getEmbedding 2
       (snd (storeEmbedding 1 (Float32Array_from [2%R; 0%R]) embedding_model
               db_C3_embedded))
     = Some [1%R]
  /\ elements (Build_Float32Array [1%R; 2%R; 3%R; 4%R] 1 2) = [2%R; 3%R]
  /\ getEmbedding 1
       (snd (storeEmbedding 1 (Build_Float32Array [1%R; 2%R; 3%R; 4%R] 1 2)
               embedding_model db_C3_embedded))
     = Some [1%R; 2%R; 3%R; 4%R].
Proof.
  destruct (proj2 (embedding_round_trip db_C3_embedded 1
                     (Float32Array_from [2%R; 0%R]) embedding_model)
              (or_intror eq_refl))
    as (_ & _ & _ & Hget & Hother & _).
  destruct (proj2 (embedding_round_trip db_C3_embedded 1
                     (Build_Float32Array [1%R; 2%R; 3%R; 4%R] 1 2)
                     embedding_model)
              (or_intror eq_refl))
    as (_ & Hview & _).
  split; [exact (Hget _ eq_refl)|]. split; [now rewrite Hother|].
  split; [reflexivity | exact Hview].
Defined.

(** ** Semantic search *)

Lemma by_similarity_desc_total (a b : Memory.t * R) :
  by_similarity_desc a b = true \/ by_similarity_desc b a = true.
Proof.
  unfold by_similarity_desc. destruct (Rle_lt_dec (snd b) (snd a)).
  - left. now apply Rleb_true.
  - right. apply Rleb_true. lra.
Qed.

Lemma by_similarity_desc_trans (a b c : Memory.t * R) :
  by_similarity_desc a b = true -> by_similarity_desc b c = true ->
  by_similarity_desc a c = true.
Proof. unfold by_similarity_desc. rewrite !Rleb_iff. lra. Qed.

Lemma slice_to_In {A} (n : Z) (xs : list A) (x : A) :
  In x (slice_to n xs) -> In x xs.
Proof. unfold slice_to. destruct (n <? 0); apply In_firstn. Qed.

Lemma slice_to_sorted {A} (le : A -> A -> Prop) (n : Z) (xs : list A) :
  StronglySorted le xs -> StronglySorted le (slice_to n xs).
Proof. unfold slice_to. destruct (n <? 0); apply firstn_sorted. Qed.

Lemma slice_to_all {A} (n : Z) (xs : list A) :
  Z.of_nat (List.length xs) <= n -> slice_to n xs = xs.
Proof.
  intro H. unfold slice_to. destruct (Z.ltb_spec n 0); [lia|].
  apply firstn_all2. lia.
Qed.

Lemma similarity_loop_ok (db : Db) (q : list R) (minSimilarity : R)
  (memories : list Memory.t) :
  same_dimension db q memories ->
  similarity_loop db q minSimilarity memories
  = Ok (flat_map (similar_pair db q minSimilarity) memories).
Proof.
  induction memories as [|m rest IH]; intro Hdim; [reflexivity|].
  cbn [similarity_loop flat_map]. unfold similar_pair at 1.
  assert (Hrest : same_dimension db q rest).
  { intros x e Hx. apply Hdim. now right. }
  rewrite (IH Hrest).
  destruct (getEmbedding (Memory.id m) db) as [e|] eqn:He; [|reflexivity].
  rewrite (cosineSimilarity_run q e)
    by (symmetry; apply (Hdim m e); [now left | exact He]).
  now destruct (Rleb minSimilarity _).
Qed.

Lemma similarity_loop_throws (db : Db) (q : list R) (minSimilarity : R)
  (memories : list Memory.t) (m : Memory.t) (e : list R) :
  In m memories -> getEmbedding (Memory.id m) db = Some e ->
  List.length e <> List.length q ->
  similarity_loop db q minSimilarity memories
  = Throw (Error "Vectors must have same dimension").
Proof.
  intros Hin He Hlen. induction memories as [|x rest IH]; [contradiction|].
  cbn [similarity_loop].
  assert (Hbad : forall e', List.length e' <> List.length q ->
            cosineSimilarity q e' = Throw (Error "Vectors must have same dimension")).
  { intros e' H. unfold cosineSimilarity.
    destruct (Nat.eqb_spec (List.length q) (List.length e')); [congruence|].
    reflexivity. }
  destruct Hin as [->|Hin].
  - rewrite He, (Hbad e Hlen). reflexivity.
  - specialize (IH Hin).
    destruct (getEmbedding (Memory.id x) db) as [ex|]; [|exact IH].
    unfold cosineSimilarity at 1.
    destruct (negb (Nat.eqb (List.length q) (List.length ex))); [reflexivity|].
    cbv zeta. rewrite IH. now destruct (Reqb _ 0).
Qed.

Lemma similar_pair_In (db : Db) (q : list R) (minSimilarity : R)
  (m m' : Memory.t) (s : R) :
  In (m', s) (similar_pair db q minSimilarity m) <->
  m' = m
  /\ exists e, getEmbedding (Memory.id m) db = Some e
               /\ cosineSimilarity q e = Ok s
               /\ (minSimilarity <= s)%R.
Proof.
  unfold similar_pair.
  destruct (getEmbedding (Memory.id m) db) as [e|].
  - destruct (cosineSimilarity q e) as [s0|err] eqn:Hcos.
    + destruct (Rleb minSimilarity s0) eqn:Hle.
      * split.
        -- intros [H|[]]. injection H as <- <-. split; [reflexivity|].
           exists e. split; [reflexivity|].
           split; [exact Hcos | now apply Rleb_iff].
        -- intros (-> & e' & He' & Hs & _). injection He' as <-.
           left. congruence.
      * split; [intros []|].
        intros (_ & e' & He' & Hs & Hmin). injection He' as <-.
        assert (s0 = s) by congruence. subst s0.
        apply Rleb_iff in Hmin. congruence.
    + split; [intros []|].
      intros (_ & e' & He' & Hs & _). injection He' as <-. congruence.
  - split; [intros []|]. intros (_ & e' & He' & _). discriminate.
Qed.

(** X16. [searchBySimilarity] leaves the store as it is.  When the query's
    embedding is obtained and every embedding of the candidate memories
    (the first 1000 active memories in scope) has its dimension, the search
    returns pairs of a candidate and its cosine similarity with the query,
    each at least [minSimilarity], in descending order of similarity, at
    most [limit] of them; a candidate whose
    similarity reaches [minSimilarity] is returned when [limit] is not
    smaller than the number of candidates.  One candidate embedding of
    another dimension makes the whole search throw, and so does a failure
    of the embedding service. *)
Theorem searchBySimilarity_ranks_by_similarity
  (host : Host) (query : string) (options : SearchOptions) (db : Db)
  (q : list R) :
  generateEmbedding host query (orElse (so_model options) embedding_model)
  = Ok q ->
  let limit := orElse (so_limit options) 10 in
  let minSimilarity := orElse (so_minSimilarity options) 0.5%R in
  let candidates := search_candidates options db in
  snd (searchBySimilarity host query options db) = db
  /\ (same_dimension db q candidates ->
      exists results,
        fst (searchBySimilarity host query options db) = Ok results
        /\ StronglySorted (fun a b => (snd b <= snd a)%R) results
        /\ (0 <= limit -> Z.of_nat (List.length results) <= limit)
        /\ (forall m s, In (m, s) results ->
              In m candidates
              /\ Memory.status m = active
              /\ (minSimilarity <= s)%R
              /\ exists e, getEmbedding (Memory.id m) db = Some e
                           /\ cosineSimilarity q e = Ok s)
        /\ (Z.of_nat (List.length candidates) <= limit ->
            forall m e s, In m candidates ->
              getEmbedding (Memory.id m) db = Some e ->
              cosineSimilarity q e = Ok s -> (minSimilarity <= s)%R ->
              In (m, s) results))
  /\ (forall m e, In m candidates -> getEmbedding (Memory.id m) db = Some e ->
        List.length e <> List.length q ->
        fst (searchBySimilarity host query options db)
        = Throw (Error "Vectors must have same dimension")).
Proof.
  intro Hq. cbv zeta.
  assert (Hrun : searchBySimilarity host query options db
                 = match similarity_loop db q (orElse (so_minSimilarity options) 0.5%R)
                           (search_candidates options db) with
                   | Throw e => (Throw e, db)
                   | Ok results =>
                       (Ok (slice_to (orElse (so_limit options) 10)
                              (order_by by_similarity_desc results)), db)
                   end).
  { unfold searchBySimilarity. cbv zeta. rewrite Hq. rewrite run_bind.
    unfold get at 1. cbn iota beta. fold (search_candidates options db).
    now destruct (similarity_loop _ _ _ _). }
  rewrite Hrun. split; [now destruct (similarity_loop _ _ _ _)|]. split.
  - intro Hdim. rewrite (similarity_loop_ok _ _ _ _ Hdim). cbn [fst].
    set (pairs := flat_map _ (search_candidates options db)).
    eexists. split; [reflexivity|]. split; [|split; [|split]].
    + apply slice_to_sorted.
      pose proof (order_by_sorted by_similarity_desc by_similarity_desc_total
                    by_similarity_desc_trans pairs) as Hs.
      eapply StronglySorted_ind with (P := fun l =>
        StronglySorted (fun a b : Memory.t * R => (snd b <= snd a)%R) l);
        [constructor | | exact Hs].
      intros a l _ IHl Hall. constructor; [exact IHl|].
      eapply Forall_impl; [|exact Hall]. intros b Hb. now apply Rleb_iff.
    + intro Hl. unfold slice_to. destruct (Z.ltb_spec (orElse (so_limit options) 10) 0);
        [lia|]. rewrite length_firstn. lia.
    + intros m s Hin. apply slice_to_In, order_by_In in Hin.
      unfold pairs in Hin. apply in_flat_map in Hin.
      destruct Hin as (m0 & Hm0 & Hin). apply similar_pair_In in Hin.
      destruct Hin as (-> & e & He & Hs & Hmin).
      split; [exact Hm0|]. split.
      { unfold search_candidates, queryMemories in Hm0. cbv zeta in Hm0.
        apply sql_limit_In, In_skipn, order_by_In, filter_In in Hm0.
        destruct Hm0 as [_ Hc].
        repeat (apply andb_prop in Hc; destruct Hc as [Hc ?]).
        cbn [qm_includeArchived orElse] in Hc.
        destruct (Memory.status m0); [reflexivity | discriminate | discriminate]. }
      split; [exact Hmin|]. exists e; split; assumption.
    + intros Hall m e s Hm He Hs Hmin.
      rewrite slice_to_all.
      * apply order_by_In. unfold pairs. apply in_flat_map. exists m.
        split; [exact Hm|]. apply similar_pair_In. split; [reflexivity|].
        exists e. repeat split; assumption.
      * rewrite (Permutation_length (order_by_perm by_similarity_desc pairs)).
        assert (Hle : (List.length pairs <= List.length (search_candidates options db))%nat).
        { unfold pairs. clear. induction (search_candidates options db) as [|x l IH];
            [constructor|]. cbn [flat_map]. rewrite length_app. cbn [List.length].
          assert ((List.length (similar_pair db q (orElse (so_minSimilarity options) 0.5%R) x)
                   <= 1)%nat).
          { unfold similar_pair. destruct (getEmbedding _ _); [|cbn; lia].
            destruct (cosineSimilarity _ _); [|cbn; lia].
            destruct (Rleb _ _); cbn; lia. }
          lia. }
        lia.
  - intros m e Hm He Hlen.
    now rewrite (similarity_loop_throws _ _ _ _ m e Hm He Hlen).
Qed.

Lemma search_candidates_In (options : SearchOptions) (db : Db) (m : Memory.t) :
  In m (search_candidates options db) -> In m (memories db).
Proof.
  unfold search_candidates, queryMemories. cbv zeta. intro H.
  now apply sql_limit_In, In_skipn, order_by_In, filter_In in H.
Qed.

Lemma searchBySimilarity_ranks_by_similarity_witness :
  exists results,
    searchBySimilarity host_unit "strict mode"
      (Build_SearchOptions None None None None None) db_C3_embedded
    = (Ok results, db_C3_embedded)
    /\ In (memory_C3 1 6, 1%R) results
    /\ In (memory_C3 2 4, 1%R) results
    /\ (Z.of_nat (List.length results) <= 10)
    /\ forall m s, In (m, s) results -> s = 1%R.
Proof.
  destruct (searchBySimilarity_ranks_by_similarity host_unit "strict mode"
              (Build_SearchOptions None None None None None) db_C3_embedded
              [1%R] eq_refl)
    as (Hdb & Hok & _).
  destruct Hok as (results & Hres & _ & Hlen & Hall & Hfull).
  { intros m e Hm He. apply search_candidates_In in Hm.
    destruct Hm as [<-|[<-|[]]]; injection He as <-; reflexivity. }
  assert (Hc : search_candidates (Build_SearchOptions None None None None None)
                 db_C3_embedded
               = [memory_C3 1 6; memory_C3 2 4]).
  { unfold search_candidates, queryMemories, db_C3_embedded. reval.
    unfold query_order. reval. reflexivity. }
  exists results. split; [|split; [|split; [|split]]].
  - rewrite <- Hdb at 2. rewrite <- Hres. now destruct (searchBySimilarity _ _ _ _).
  - apply (Hfull ltac:(rewrite Hc; cbn; lia) (memory_C3 1 6) [1%R] 1%R).
    + rewrite Hc. now left.
    + reflexivity.
    + exact cosineSimilarity_unit.
    + cbn [orElse so_minSimilarity]. lra.
  - apply (Hfull ltac:(rewrite Hc; cbn; lia) (memory_C3 2 4) [1%R] 1%R).
    + rewrite Hc. right. now left.
    + reflexivity.
    + exact cosineSimilarity_unit.
    + cbn [orElse so_minSimilarity]. lra.
  - apply Hlen. cbn. lia.
  - intros m s Hin. destruct (Hall m s Hin) as (Hm & _ & _ & e & He & Hs).
    rewrite Hc in Hm.
    assert (e = [1%R]).
    { destruct Hm as [<-|[<-|[]]]; cbn in He; now injection He as <-. }
    subst e. rewrite cosineSimilarity_unit in Hs. now injection Hs as <-.
Defined.

(** ** The counters and the log *)

Lemma keeps_agreement_refl (db : Db) : keeps_agreement db db.
Proof. intro H. exact H. Qed.

Lemma keeps_agreement_trans (a b c : Db) :
  keeps_agreement a b -> keeps_agreement b c -> keeps_agreement a c.
Proof. unfold keeps_agreement. auto. Qed.

Lemma same_rows_agreement (db db' : Db) :
  foreign_keys db' = foreign_keys db ->
  memories db' = memories db ->
  memory_feedback db' = memory_feedback db ->
  keeps_agreement db db'.
Proof.
  intros Hfk Hms Hfb (H1 & H2 & H3 & H4). unfold log_agrees, memory_exists in *.
  rewrite Hfk, Hms, Hfb. repeat split; try assumption; now apply H4.
Qed.

Lemma update_memory_agreement (id : Z) (f : Memory.t -> Memory.t) (db : Db) :
  (forall x, Memory.id (f x) = Memory.id x) ->
  (forall x, Memory.times_helpful (f x) = Memory.times_helpful x) ->
  (forall x, Memory.times_unhelpful (f x) = Memory.times_unhelpful x) ->
  keeps_agreement db (update_memory id f db).
Proof.
  intros Hid Hh Hu (Hfk & Hnd & Hev & Hct). unfold log_agrees.
  assert (Hids : map Memory.id (memories (update_memory id f db))
                 = map Memory.id (memories db)).
  { unfold update_memory. rewrite with_memories_memories.
    now apply map_id_update. }
  split; [exact Hfk|]. split; [now rewrite Hids|]. split.
  - intros e He. apply memory_exists_ids. rewrite Hids.
    apply memory_exists_ids. now apply Hev.
  - intros m Hm. unfold update_memory in Hm.
    rewrite with_memories_memories in Hm. apply in_map_iff in Hm.
    destruct Hm as (x & <- & Hx). cbn [memory_feedback update_memory with_memories].
    destruct (Memory.id x =? id); [|now apply Hct].
    rewrite Hid, Hh, Hu. now apply Hct.
Qed.

(** Statements that write to neither [memories] nor [memory_feedback]. *)
Ltac other_rows :=
  intro db; apply same_rows_agreement;
  repeat first
    [ reflexivity
    | progress (unfold bind, get, put, ret, throw; cbn [snd fst])
    | match goal with
      | |- context [match ?x with _ => _ end] => destruct x
      | |- context [if ?b then _ else _] => destruct b
      end ].

Lemma getMemory_agreement id now : preserves keeps_agreement (getMemory id now).
Proof.
  intro db. rewrite getMemory_run. destruct (select_memory id db); cbn [snd].
  - now apply update_memory_agreement.
  - apply keeps_agreement_refl.
Qed.

Lemma updateUsefulnessScore_agreement id now :
  preserves keeps_agreement (updateUsefulnessScore id now).
Proof.
  intro db. rewrite updateUsefulnessScore_run.
  destruct (select_memory id db); cbn [snd].
  - now apply update_memory_agreement.
  - apply keeps_agreement_refl.
Qed.

Lemma count_events_app (p : FeedbackType -> bool) (id : Z)
  (log : list MemoryFeedback.t) (ev : MemoryFeedback.t) :
  count_events p id (log ++ [ev])
  = count_events p id log
    + (if (MemoryFeedback.memory_id ev =? id) && p (MemoryFeedback.feedback_type ev)
       then 1 else 0).
Proof.
  unfold count_events. rewrite filter_app, length_app. cbn [filter].
  destruct (_ && _); cbn [List.length]; lia.
Qed.

Lemma recordFeedback_agreement id fb ctx now :
  preserves keeps_agreement (recordFeedback id fb ctx now).
Proof.
  intro db. rewrite recordFeedback_run.
  destruct (foreign_keys db && negb (memory_exists id db)) eqn:Hcheck; cbn [snd].
  - apply keeps_agreement_refl.
  - cbv zeta. cbn [snd].
    eapply keeps_agreement_trans; [|apply updateUsefulnessScore_agreement].
    intros (Hfk & Hnd & Hev & Hct).
    rewrite Hfk in Hcheck. cbn [andb] in Hcheck.
    apply negb_false_iff in Hcheck.
    set (ev := feedback_event id fb ctx now db).
    assert (Hids : map Memory.id
                     (memories (update_memory id (bump fb)
                                  (with_feedback (memory_feedback db ++ [ev])
                                     (MemoryFeedback.id ev) db)))
                   = map Memory.id (memories db)).
    { unfold update_memory. rewrite with_memories_memories.
      apply map_id_update, bump_id. }
    split; [exact Hfk|]. split; [now rewrite Hids|]. split.
    + intros e He. apply memory_exists_ids. rewrite Hids. apply memory_exists_ids.
      cbn [memory_feedback update_memory with_memories with_feedback] in He.
      apply in_app_or in He. destruct He as [He|[<-|[]]]; [now apply Hev|].
      exact Hcheck.
    + intros m Hm. unfold update_memory in Hm.
      rewrite with_memories_memories in Hm. apply in_map_iff in Hm.
      destruct Hm as (x & <- & Hx).
      cbn [memories with_feedback] in Hx.
      cbn [memory_feedback update_memory with_memories with_feedback].
      destruct (Hct x Hx) as [Hh Hu].
      rewrite !count_events_app. unfold ev at 1 2 3 4.
      cbn [feedback_event MemoryFeedback.memory_id MemoryFeedback.feedback_type].
      destruct (Z.eqb_spec (Memory.id x) id) as [E|E].
      * rewrite bump_id, E, Z.eqb_refl. cbn [andb]. rewrite <- E.
        destruct fb; cbn [bump counts_helpful counts_unhelpful
                           Memory.incr_helpful Memory.incr_unhelpful
                           Memory.times_helpful Memory.times_unhelpful];
          lia.
      * assert (E' : (id =? Memory.id x) = false) by (apply Z.eqb_neq; congruence).
        rewrite E'. cbn [andb]. lia.
Qed.

Lemma insert_memory_relationship_agreement s t r x now :
  preserves keeps_agreement (insert_memory_relationship s t r x now).
Proof. unfold insert_memory_relationship. other_rows. Qed.

Lemma coAccessPair_agreement x now a b :
  preserves keeps_agreement (coAccessPair x now a b).
Proof.
  unfold coAccessPair. destruct (a <? b).
  - intro db. unfold bind, get.
    destruct (select_similar a b db); [now apply same_rows_agreement|].
    fold (bind (insert_memory_relationship a b similar x now) (fun _ => ret tt) db).
    apply (preserves_bind _ keeps_agreement_trans);
      [apply insert_memory_relationship_agreement|].
    intro. apply preserves_ret, keeps_agreement_refl.
  - intro db. unfold bind, get.
    destruct (select_similar b a db); [now apply same_rows_agreement|].
    fold (bind (insert_memory_relationship b a similar x now) (fun _ => ret tt) db).
    apply (preserves_bind _ keeps_agreement_trans);
      [apply insert_memory_relationship_agreement|].
    intro. apply preserves_ret, keeps_agreement_refl.
Qed.

Lemma decayRelationshipStrengths_agreement f m :
  preserves keeps_agreement (decayRelationshipStrengths f m).
Proof. unfold decayRelationshipStrengths. other_rows. Qed.

Lemma count_events_none (p : FeedbackType -> bool) (id : Z)
  (log : list MemoryFeedback.t) :
  (forall f, In f log -> MemoryFeedback.memory_id f <> id) ->
  count_events p id log = 0.
Proof.
  intro H. unfold count_events. rewrite filter_none; [reflexivity|].
  intros f Hf. apply andb_false_iff. left. apply Z.eqb_neq. now apply H.
Qed.

Lemma createMemory_agreement input now :
  preserves keeps_agreement (createMemory input now).
Proof.
  intro db. unfold createMemory. rewrite run_bind. unfold get at 1.
  cbn iota beta. cbv zeta.
  destruct (negb _); [apply keeps_agreement_refl|].
  rewrite run_bind. unfold put at 1, ret. cbn iota beta. cbn [snd].
  intros (Hfk & Hnd & Hev & Hct).
  set (id := next_rowid (memories_seq db) (map Memory.id (memories db))).
  assert (Hfresh : ~ In id (map Memory.id (memories db))) by apply next_rowid_fresh.
  split; [exact Hfk|]. split; [|split].
  - rewrite with_memories_memories, map_app. cbn [map Memory.id].
    apply NoDup_app; [exact Hnd | repeat constructor; intros [] |].
    intros k Hk [<-|[]]. contradiction.
  - intros e He. cbn [memory_feedback with_memories] in He.
    apply memory_exists_ids. rewrite with_memories_memories, map_app.
    apply in_or_app. left. apply memory_exists_ids. now apply Hev.
  - intros m Hm. rewrite with_memories_memories in Hm.
    cbn [memory_feedback with_memories].
    apply in_app_or in Hm. destruct Hm as [Hm|[<-|[]]]; [now apply Hct|].
    cbn [Memory.times_helpful Memory.times_unhelpful Memory.id].
    rewrite !count_events_none; [split; reflexivity | |];
      intros f Hf E; apply Hfresh; apply memory_exists_ids;
      rewrite <- E; now apply Hev.
Qed.

Lemma update_level_agreement id l : preserves keeps_agreement (update_level id l).
Proof.
  intro db. unfold update_level. rewrite run_bind. unfold get at 1.
  cbn iota beta.
  destruct (_ && _); [apply keeps_agreement_refl|].
  unfold put. cbn [snd]. now apply update_memory_agreement.
Qed.

Lemma embedMemory_agreement host id text :
  preserves keeps_agreement (embedMemory host id text).
Proof.
  unfold embedMemory, storeEmbedding.
  destruct (generateEmbedding host text embedding_model); other_rows.
Qed.

Lemma updateMemoryStatus_agreement id st p :
  preserves keeps_agreement (updateMemoryStatus id st p).
Proof.
  intro db. unfold updateMemoryStatus. rewrite run_bind. unfold get at 1.
  cbn iota beta. cbv zeta.
  destruct (_ && _); [apply keeps_agreement_refl|].
  rewrite run_bind. unfold put at 1, ret. cbn iota beta. cbn [snd].
  now apply update_memory_agreement.
Qed.

Lemma createRelationship_agreement s t r x now :
  preserves keeps_agreement (createRelationship s t r x now).
Proof.
  unfold createRelationship.
  apply (preserves_bind _ keeps_agreement_trans);
    [apply insert_memory_relationship_agreement|].
  intro. apply preserves_ret, keeps_agreement_refl.
Qed.

Lemma count_events_filter (p : FeedbackType -> bool) (id k : Z)
  (log : list MemoryFeedback.t) :
  k <> id ->
  count_events p k
    (filter (fun f => negb (MemoryFeedback.memory_id f =? id)) log)
  = count_events p k log.
Proof.
  intro Hne. unfold count_events. rewrite filter_filter. f_equal. f_equal.
  apply filter_ext. intro f.
  destruct (Z.eqb_spec (MemoryFeedback.memory_id f) id) as [E|E]; cbn [negb andb];
    [|reflexivity].
  rewrite E. destruct (Z.eqb_spec id k); [congruence | reflexivity].
Qed.

Lemma deleteMemory_agreement id : preserves keeps_agreement (deleteMemory id).
Proof.
  intros db (Hfk & Hnd & Hev & Hct).
  assert (Hids : map Memory.id (memories (snd (deleteMemory id db)))
                 = filter (fun k => negb (k =? id)) (map Memory.id (memories db)))
    by apply deleteMemory_ids.
  assert (Hkeep : forall k, k <> id -> memory_exists k db = true ->
            memory_exists k (snd (deleteMemory id db)) = true)
    by (intros; now apply delete_keeps_others).
  unfold log_agrees. rewrite Hids. revert Hkeep.
  rewrite deleteMemory_run. cbn [snd]. cbv zeta. rewrite Hfk. cbn [andb].
  destruct (memory_exists id db) eqn:Hex; intro Hkeep.
  - split; [first [exact Hfk | reflexivity]|]. split; [now apply NoDup_filter|]. split.
    + intros f Hf. cbn [memory_feedback] in Hf. apply filter_In in Hf.
      destruct Hf as [Hf Hne]. apply negb_true_iff, Z.eqb_neq in Hne.
      apply Hkeep; [exact Hne | now apply Hev].
    + intros m Hm. cbn [memories] in Hm. apply in_map_iff in Hm.
      destruct Hm as (x & <- & Hx). apply filter_In in Hx.
      destruct Hx as [Hx Hne]. apply negb_true_iff, Z.eqb_neq in Hne.
      cbn [memory_feedback]. rewrite orphan_id.
      rewrite !count_events_filter by exact Hne.
      assert (Ho : Memory.times_helpful (Memory.orphan id x) = Memory.times_helpful x
                   /\ Memory.times_unhelpful (Memory.orphan id x)
                      = Memory.times_unhelpful x).
      { unfold Memory.orphan. destruct (Memory.parent_id x) as [q|]; [|tauto].
        destruct (q =? id); tauto. }
      destruct Ho as [-> ->]. now apply Hct.
  - split; [first [exact Hfk | reflexivity]|]. split; [now apply NoDup_filter|]. split.
    + intros f Hf. cbn [memory_feedback with_memories] in Hf.
      apply Hkeep; [|now apply Hev].
      intro E. specialize (Hev f Hf). congruence.
    + intros m Hm. cbn [memories with_memories] in Hm. apply filter_In in Hm.
      cbn [memory_feedback with_memories]. now apply Hct.
Qed.

(** X17. The counters are the log's counts.  On a connection that enforces
    foreign keys, if [timesHelpful] of every memory is the number of
    'helpful' events recorded on it and [timesUnhelpful] the number of
    'unhelpful' and 'incorrect' events (as in a store whose memories were
    all created by [createMemory]), then the same holds after every operation of the
    engine and after every sequence of operations; every event still
    refers to a memory of the store. *)
Theorem counters_are_the_log_counts (ops : list (EngineOp * Z)) (db : Db) :
  log_agrees db ->
  log_agrees (run_operations ops db)
  /\ forall op now, log_agrees (exec op now db).
Proof.
  assert (Hone : forall op now d, keeps_agreement d (exec op now d)).
  { intros op now d.
    apply (kept_exec keeps_agreement keeps_agreement_refl keeps_agreement_trans).
    - intros d' (H1 & H2 & H3 & H4). repeat split; try assumption; now apply H4.
    - apply getMemory_agreement.
    - apply recordFeedback_agreement.
    - apply updateUsefulnessScore_agreement.
    - apply coAccessPair_agreement.
    - apply decayRelationshipStrengths_agreement.
    - apply createMemory_agreement.
    - apply update_level_agreement.
    - apply embedMemory_agreement.
    - apply updateMemoryStatus_agreement.
    - apply createRelationship_agreement.
    - apply deleteMemory_agreement. }
  intro Hok. split; [|intros op now; now apply Hone].
  revert db Hok. induction ops as [|[op now] ops IH]; intros db Hok; [exact Hok|].
  cbn [run_operations fold_left fst snd]. apply IH. now apply Hone.
Qed.

Lemma counters_are_the_log_counts_witness :
  log_agrees
    (run_operations
       [(OpFeedback (Build_FeedbackInput (Some [7; 7]) (Some helpful) None), 5000);
        (OpFeedback (Build_FeedbackInput (Some [7]) (Some incorrect) None), 6000);
        (OpApplyDecayToAll, 7000)]
       db_C10).
Proof.
  assert (Hok : log_agrees db_C10).
  { split; [reflexivity|]. split; [repeat constructor; intros []|].
    split; [intros f []|]. intros m [<-|[]]. split; reflexivity. }
  exact (proj1 (counters_are_the_log_counts _ db_C10 Hok)).
Defined.

(** ** The feedback history *)

Lemma tally_fold (l : list MemoryFeedback.t) (s : FeedbackSummary) :
  let s' := fold_left tally l s in
  totalHelpful s' = totalHelpful s + count_type counts_helpful l
  /\ totalUnhelpful s' + totalIncorrect s'
     = totalUnhelpful s + totalIncorrect s + count_type counts_unhelpful l
  /\ totalHelpful s' + totalUnhelpful s' + totalOutdated s' + totalIncorrect s'
     = totalHelpful s + totalUnhelpful s + totalOutdated s + totalIncorrect s
       + Z.of_nat (List.length l).
Proof.
  revert s. induction l as [|f l IH]; intro s; cbv zeta.
  - unfold count_type. cbn. lia.
  - cbn [fold_left]. specialize (IH (tally s f)). cbv zeta in IH.
    destruct IH as (H1 & H2 & H3).
    remember (fold_left tally l (tally s f)) as s' eqn:Es'. clear Es'.
    revert H1 H2 H3.
    unfold count_type, tally. cbn [filter List.length].
    destruct (MemoryFeedback.feedback_type f);
      cbn [counts_helpful counts_unhelpful List.length
           totalHelpful totalUnhelpful totalOutdated totalIncorrect]; lia.
Qed.

Lemma filter_length_perm {A} (p : A -> bool) (l l' : list A) :
  Permutation l l' -> List.length (filter p l) = List.length (filter p l').
Proof.
  induction 1 as [|x l l' _ IH|x y l|l l' l'' _ IH1 _ IH2]; cbn [filter].
  - reflexivity.
  - destruct (p x); cbn [List.length]; now rewrite IH.
  - destruct (p x), (p y); reflexivity.
  - now rewrite IH1.
Qed.

Lemma filter_length_firstn {A} (p : A -> bool) (n : nat) (l : list A) :
  (List.length (filter p (firstn n l)) <= List.length (filter p l))%nat.
Proof.
  revert l. induction n as [|n IH]; intros [|x l]; cbn [firstn filter List.length];
    try lia.
  specialize (IH l). destruct (p x); cbn [List.length]; lia.
Qed.

Lemma count_type_page (p : FeedbackType -> bool) (id limit : Z) (db : Db) :
  count_type p (getMemoryFeedback id limit db)
  <= count_events p id (memory_feedback db)
  /\ (whole_history id limit db ->
      count_type p (getMemoryFeedback id limit db)
      = count_events p id (memory_feedback db)).
Proof.
  unfold getMemoryFeedback, count_type, count_events.
  set (leb := fun a b => MemoryFeedback.timestamp b <=? MemoryFeedback.timestamp a).
  set (q := fun f => p (MemoryFeedback.feedback_type f)).
  fold (events_of id db).
  assert (Hall : List.length (filter q (order_by leb (events_of id db)))
                 = List.length
                     (filter (fun f => (MemoryFeedback.memory_id f =? id)
                                       && p (MemoryFeedback.feedback_type f))
                             (memory_feedback db))).
  { rewrite (filter_length_perm q _ _ (order_by_perm leb (events_of id db))).
    unfold events_of. now rewrite filter_filter. }
  rewrite <- Hall. split.
  - unfold sql_limit. destruct (limit <? 0); [lia|].
    apply inj_le, filter_length_firstn.
  - intros [Hneg|Hfit]; unfold sql_limit.
    + apply Z.ltb_lt in Hneg. now rewrite Hneg.
    + destruct (limit <? 0); [reflexivity|].
      rewrite firstn_all2; [reflexivity|].
      rewrite (Permutation_length (order_by_perm leb (events_of id db))). lia.
Qed.

(** X18. The history of a memory.  [getFeedbackHistory] succeeds for every
    id, changes nothing but the connection's set-up, and returns the
    newest events of the memory first, at most [limit] of them (20 when no
    limit is given).  The four totals of its summary count the events of
    the page it returns, not of the whole log: in a store whose counters
    agree with the log, [totalHelpful] is at most [timesHelpful] and
    [totalUnhelpful + totalIncorrect] at most [timesUnhelpful], with
    equality when the page holds the whole history.  For an id that is not
    in the store the history is empty and every total is 0. *)
Theorem getFeedbackHistory_summarises_the_page
  (memoryId : Z) (limit : option Z) (db : Db) :
  log_agrees db ->
  exists h,
    getFeedbackHistory memoryId limit db = (Ok h, initializeSchema db)
    /\ fh_success h = true
    /\ StronglySorted newest_first (fh_feedback h)
    /\ (0 <= orElse limit 20 ->
        Z.of_nat (List.length (fh_feedback h)) <= orElse limit 20)
    /\ totalHelpful (fh_summary h) + totalUnhelpful (fh_summary h)
       + totalOutdated (fh_summary h) + totalIncorrect (fh_summary h)
       = Z.of_nat (List.length (fh_feedback h))
    /\ (forall m, In m (memories db) -> Memory.id m = memoryId ->
          totalHelpful (fh_summary h) <= Memory.times_helpful m
          /\ totalUnhelpful (fh_summary h) + totalIncorrect (fh_summary h)
             <= Memory.times_unhelpful m
          /\ (whole_history memoryId (orElse limit 20) db ->
              totalHelpful (fh_summary h) = Memory.times_helpful m
              /\ totalUnhelpful (fh_summary h) + totalIncorrect (fh_summary h)
                 = Memory.times_unhelpful m))
    /\ (memory_exists memoryId db = false ->
        fh_feedback h = [] /\ fh_summary h = Build_FeedbackSummary 0 0 0 0).
Proof.
  intros (Hfk & Hnd & Hev & Hct).
  eexists. split; [reflexivity|]. cbn [fh_success fh_feedback fh_summary].
  set (page := getMemoryFeedback memoryId (orElse limit 20) (initializeSchema db)).
  assert (Hpage : page = getMemoryFeedback memoryId (orElse limit 20) db)
    by reflexivity.
  destruct (tally_fold page (Build_FeedbackSummary 0 0 0 0)) as (Hh & Hu & Hsum).
  cbn [totalHelpful totalUnhelpful totalOutdated totalIncorrect] in Hh, Hu, Hsum.
  split; [reflexivity|]. split; [|split; [|split; [|split]]].
  - apply map_sorted. unfold newest_first. cbn [fe_timestamp].
    rewrite Hpage. unfold getMemoryFeedback.
    apply sql_limit_sorted.
    set (leb := fun a b => MemoryFeedback.timestamp b <=? MemoryFeedback.timestamp a).
    eapply sorted_impl; [|apply (order_by_sorted leb)].
    + intros a b Hab. unfold leb in Hab. now apply Z.leb_le.
    + intros a b. unfold leb. destruct (Z.leb_spec (MemoryFeedback.timestamp b)
                                         (MemoryFeedback.timestamp a));
        [now left | right; apply Z.leb_le; lia].
    + intros a b c. unfold leb. rewrite !Z.leb_le. lia.
  - intro Hpos. rewrite length_map, Hpage. unfold getMemoryFeedback.
    assert (Hl := sql_limit_length (orElse limit 20)
                    (order_by (fun a b => MemoryFeedback.timestamp b
                                           <=? MemoryFeedback.timestamp a)
                       (filter (fun f => MemoryFeedback.memory_id f =? memoryId)
                          (memory_feedback db)))).
    revert Hl. unfold sql_limit. destruct (Z.ltb_spec (orElse limit 20) 0); [lia|].
    intros _. rewrite length_firstn. lia.
  - rewrite length_map. lia.
  - intros m Hm Hid. destruct (Hct m Hm) as [Eh Eu]. rewrite Hid in Eh, Eu.
    rewrite Hh, Hu, Eh, Eu, Hpage.
    destruct (count_type_page counts_helpful memoryId (orElse limit 20) db)
      as [Hle1 Heq1].
    destruct (count_type_page counts_unhelpful memoryId (orElse limit 20) db)
      as [Hle2 Heq2].
    split; [lia|]. split; [lia|]. intro Hw.
    rewrite (Heq1 Hw), (Heq2 Hw). split; lia.
  - intro Hno.
    assert (Hnone : page = []).
    { rewrite Hpage. unfold getMemoryFeedback. rewrite filter_none.
      - cbn. unfold sql_limit. destruct (_ <? 0); [reflexivity|]. apply firstn_nil.
      - intros f Hf. apply Z.eqb_neq. intro E. specialize (Hev f Hf).
        rewrite E in Hev. congruence. }
    rewrite Hnone. split; reflexivity.
Qed.

Lemma getFeedbackHistory_summarises_the_page_witness :
  exists h,
    getFeedbackHistory 1 None db_C6 = (Ok h, initializeSchema db_C6)
    /\ fh_success h = true
    /\ StronglySorted newest_first (fh_feedback h)
    /\ (0 <= 20 -> Z.of_nat (List.length (fh_feedback h)) <= 20)
    /\ totalHelpful (fh_summary h) + totalUnhelpful (fh_summary h)
       + totalOutdated (fh_summary h) + totalIncorrect (fh_summary h)
       = Z.of_nat (List.length (fh_feedback h))
    /\ (forall m, In m (memories db_C6) -> Memory.id m = 1 ->
          totalHelpful (fh_summary h) <= Memory.times_helpful m
          /\ totalUnhelpful (fh_summary h) + totalIncorrect (fh_summary h)
             <= Memory.times_unhelpful m
          /\ (whole_history 1 20 db_C6 ->
              totalHelpful (fh_summary h) = Memory.times_helpful m
              /\ totalUnhelpful (fh_summary h) + totalIncorrect (fh_summary h)
                 = Memory.times_unhelpful m))
    /\ (memory_exists 1 db_C6 = false ->
        fh_feedback h = [] /\ fh_summary h = Build_FeedbackSummary 0 0 0 0).
Proof.
  apply (getFeedbackHistory_summarises_the_page 1 None db_C6).
  split; [reflexivity|]. split; [repeat constructor; intros []|].
  split; [intros f [<-|[]]; reflexivity|].
  intros m [<-|[]]. split; reflexivity.
Defined.

(** ** The children of an abstraction *)

Lemma cluster_in_range (db0 db : Db) (members : list Memory.t)
  (c : ConsolidationCluster) :
  (forall m, In m (memories db) -> row_ok m) ->
  members <> [] ->
  (forall s, In s members -> In s (memories db)) ->
  make_cluster db0 members = Ok c ->
  cc_memories c = members
  /\ 1 <= cc_combinedImportance c <= 9
  /\ 1 <= newLevel_of c <= 3.
Proof.
  intros Hrows Hne Hsrc Hmk.
  destruct (make_cluster_fields db0 members c Hmk) as (Hmem & Himp & _).
  assert (Hmax : forall f : Memory.t -> Z, map f members <> [])
    by (intro f; destruct members; [congruence | discriminate]).
  split; [exact Hmem|]. split.
  - rewrite Himp.
    assert (1 <= max_list (map Memory.importance members) <= 9).
    { apply max_list_bounds; [apply Hmax|].
      intros x Hx. apply in_map_iff in Hx. destruct Hx as (s & <- & Hs).
      apply (Hrows s (Hsrc s Hs)). }
    pose proof (Z.log2_nonneg (Z.of_nat (List.length members))). lia.
  - unfold newLevel_of. rewrite Hmem.
    assert (1 <= max_list (map Memory.level members) <= 3).
    { apply max_list_bounds; [apply Hmax|].
      intros x Hx. apply in_map_iff in Hx. destruct Hx as (s & <- & Hs).
      apply (Hrows s (Hsrc s Hs)). }
    lia.
Qed.

Lemma children_of_marked (sources : list Z) (parent : Z) (ms : list Memory.t) :
  (forall m, In m ms -> Memory.parent_id m <> Some parent) ->
  filter (has_parent parent) (map (mark_consolidated sources parent) ms)
  = map (Memory.set_status consolidated (Some parent))
      (filter (fun m => mem_Z (Memory.id m) sources) ms).
Proof.
  induction ms as [|m ms IH]; intro Hp; [reflexivity|].
  assert (IH' := IH (fun x Hx => Hp x (or_intror Hx))).
  cbn [map filter].
  destruct (mem_Z (Memory.id m) sources) eqn:E.
  - assert (Hm : mark_consolidated sources parent m
                 = Memory.set_status consolidated (Some parent) m)
      by (unfold mark_consolidated; now rewrite E).
    rewrite Hm. unfold has_parent at 1. cbn [Memory.set_status Memory.parent_id].
    rewrite Z.eqb_refl. cbn [map]. now rewrite IH'.
  - assert (Hm : mark_consolidated sources parent m = m)
      by (unfold mark_consolidated; now rewrite E).
    rewrite Hm.
    assert (Hh : has_parent parent m = false).
    { unfold has_parent. specialize (Hp m (or_introl eq_refl)).
      destruct (Memory.parent_id m) as [q|]; [|reflexivity].
      apply Z.eqb_neq. congruence. }
    rewrite Hh. exact IH'.
Qed.

(** X19. The sources of an abstraction.  After [consolidateCluster] on a
    store that satisfies the schema's constraints, [getChildMemories] of
    the new abstraction returns exactly the cluster's memories, each with
    [status = consolidated] and the abstraction as parent, in table order.
    Deleting the abstraction afterwards, on a connection that enforces
    foreign keys, does not bring them back: the abstraction has no
    children any more and every source stays [consolidated], now without
    a parent. *)
Theorem children_of_an_abstraction_are_its_sources
  (host : Host) (projectHash : option string) (now : Z) (db0 db : Db)
  (members : list Memory.t) (c : ConsolidationCluster) :
  schema_ok db ->
  parents_exist db ->
  (2 <= List.length members)%nat ->
  (forall s, In s members -> In s (memories db)) ->
  make_cluster db0 members = Ok c ->
  exists a warnings db',
    consolidateCluster host projectHash now c db = (Ok (a, warnings), db')
    /\ getChildMemories (ab_id a) db'
       = map (Memory.set_status consolidated (Some (ab_id a)))
           (filter (fun m => mem_Z (Memory.id m) (map Memory.id members))
                   (memories db))
    /\ (forall k, In k (map Memory.id (getChildMemories (ab_id a) db'))
                  <-> In k (map Memory.id members))
    /\ (foreign_keys db = true ->
        let db'' := snd (deleteMemory (ab_id a) db') in
        getChildMemories (ab_id a) db'' = []
        /\ forall s, In s members ->
             select_memory (Memory.id s) db''
             = Some (Memory.set_status consolidated None s)).
Proof.
  intros [Hnd Hrows] Hpar Hlen Hsrc Hmk.
  assert (Hne : members <> []) by (destruct members; cbn in Hlen; [lia | discriminate]).
  destruct (cluster_in_range db0 db members c Hrows Hne Hsrc Hmk) as (Hmem & Hi & Hl).
  assert (Hsrc' : forall s, In s (cc_memories c) -> In s (memories db))
    by (rewrite Hmem; exact Hsrc).
  destruct (consolidateCluster_run host projectHash now c db Hnd Hsrc' Hi Hl)
    as (warnings & db' & Hrun & Hms & _ & Hfk & _).
  rewrite Hmem in Hms.
  set (newId := next_rowid (memories_seq db) (map Memory.id (memories db))) in *.
  assert (Hfresh : ~ In newId (map Memory.id (memories db)))
    by apply next_rowid_fresh.
  assert (Hnopar : forall m, In m (memories db) -> Memory.parent_id m <> Some newId).
  { intros m Hm E. apply Hfresh. apply memory_exists_ids. exact (Hpar m newId Hm E). }
  set (ids := map Memory.id members) in *.
  set (row := abstraction_row host projectHash now c newId) in *.
  assert (Hchildren :
            getChildMemories newId db'
            = map (Memory.set_status consolidated (Some newId))
                (filter (fun m => mem_Z (Memory.id m) ids) (memories db))).
  { unfold getChildMemories. rewrite Hms, filter_app.
    rewrite children_of_marked by exact Hnopar.
    cbn [filter has_parent row abstraction_row Memory.parent_id].
    apply app_nil_r. }
  eexists _, warnings, db'. split; [exact Hrun|]. cbn [ab_id].
  split; [exact Hchildren|]. split.
  - intro k. rewrite Hchildren, map_map. cbn [Memory.set_status Memory.id].
    rewrite in_map_iff. split.
    + intros (m & <- & Hm). apply filter_In in Hm. now apply mem_Z_In.
    + intro Hk. unfold ids in Hk. apply in_map_iff in Hk.
      destruct Hk as (s & <- & Hs). exists s. split; [reflexivity|].
      apply filter_In. split; [now apply Hsrc|].
      apply mem_Z_In. now apply in_map.
  - intro Hon. cbv zeta.
    assert (Hex : memory_exists newId db' = true).
    { apply memory_exists_ids. rewrite Hms, map_app. apply in_or_app. right.
      now left. }
    assert (Hafter : memories (snd (deleteMemory newId db'))
                     = map (Memory.orphan newId)
                         (map (mark_consolidated ids newId) (memories db))).
    { rewrite deleteMemory_run. cbn [snd]. cbv zeta.
      rewrite Hfk, Hon, Hex. cbn [andb memories]. f_equal.
      rewrite Hms, filter_app. cbn [filter row abstraction_row Memory.id].
      rewrite Z.eqb_refl. cbn [negb]. rewrite app_nil_r.
      apply filter_all. intros x Hx. apply in_map_iff in Hx.
      destruct Hx as (m & <- & Hm). rewrite mark_consolidated_id.
      apply negb_true_iff, Z.eqb_neq. intro E. apply Hfresh.
      rewrite <- E. now apply in_map. }
    split.
    + unfold getChildMemories. rewrite Hafter. apply filter_none.
      intros x Hx. apply in_map_iff in Hx. destruct Hx as (y & <- & _).
      unfold has_parent, Memory.orphan.
      destruct (Memory.parent_id y) as [q|] eqn:Ey; [|now rewrite Ey].
      destruct (Z.eqb_spec q newId) as [E|E].
      * reflexivity.
      * rewrite Ey. now apply Z.eqb_neq.
    + intros s Hs.
      assert (Hrow : In (Memory.set_status consolidated None s)
                       (memories (snd (deleteMemory newId db')))).
      { rewrite Hafter, map_map. apply in_map_iff. exists s.
        split; [|now apply Hsrc].
        unfold mark_consolidated.
        rewrite (proj2 (mem_Z_In _ _)) by now apply in_map.
        unfold Memory.orphan. cbn [Memory.set_status Memory.parent_id Memory.status].
        rewrite Z.eqb_refl. reflexivity. }
      apply (select_memory_In _ _) in Hrow; [exact Hrow|].
      rewrite Hafter, !map_map.
      erewrite map_ext; [exact Hnd|].
      intro m. now rewrite orphan_id, mark_consolidated_id.
Qed.

Lemma children_of_an_abstraction_are_its_sources_witness :
  exists a warnings db',
    consolidateCluster host_C3 (Some "abc") 77
      (Build_ConsolidationCluster [memory_C3 1 6; memory_C3 2 4] 0 7
         (generateAbstraction [memory_C3 1 6; memory_C3 2 4]))
      db_C3
    = (Ok (a, warnings), db')
    /\ map Memory.id (getChildMemories (ab_id a) db') = [1; 2]
    /\ getChildMemories (ab_id a) (snd (deleteMemory (ab_id a) db')) = [].
Proof.
  assert (Hok : schema_ok db_C3).
  { split.
    - repeat constructor; cbn; intuition discriminate.
    - intros m [<-|[<-|[]]]; unfold row_ok; cbn; lia. }
  assert (Hpar : parents_exist db_C3).
  { intros m p [<-|[<-|[]]]; discriminate. }
  destruct (children_of_an_abstraction_are_its_sources host_C3 (Some "abc") 77
              db_C3 db_C3 [memory_C3 1 6; memory_C3 2 4]
              (Build_ConsolidationCluster [memory_C3 1 6; memory_C3 2 4] 0 7
                 (generateAbstraction [memory_C3 1 6; memory_C3 2 4]))
              Hok Hpar (le_n 2) (fun s Hs => Hs) eq_refl)
    as (a & ws & db' & Hrun & Hch & _ & Hdel).
  exists a, ws, db'. split; [exact Hrun|]. split.
  - rewrite Hch. reflexivity.
  - exact (proj1 (Hdel eq_refl)).
Defined.

(** ** Pages of [queryMemories] *)

Lemma query_order_iff (a b : Memory.t) :
  query_order a b = true <-> ranked_before a b.
Proof.
  unfold query_order, ranked_before, Rltb.
  destruct (Rlt_dec (Memory.usefulness_score b) (Memory.usefulness_score a)) as [H1|H1].
  { split; [now left | reflexivity]. }
  destruct (Rlt_dec (Memory.usefulness_score a) (Memory.usefulness_score b)) as [H2|H2].
  { split; [discriminate|]. intros [H|[H _]]; lra. }
  assert (E : Memory.usefulness_score a = Memory.usefulness_score b) by lra.
  destruct (Z.ltb_spec (Memory.importance b) (Memory.importance a)) as [H3|H3].
  { split; [intros _; right; split; [exact E | now left] | reflexivity]. }
  destruct (Z.ltb_spec (Memory.importance a) (Memory.importance b)) as [H4|H4].
  { split; [discriminate|]. intros [H|[_ [H|[H _]]]]; [lra | lia | lia]. }
  rewrite Z.leb_le. split.
  - intro H. right. split; [exact E|]. right. split; [lia | exact H].
  - intros [H|[_ [H|[_ H]]]]; [lra | lia | exact H].
Qed.

Lemma query_order_total (a b : Memory.t) :
  query_order a b = true \/ query_order b a = true.
Proof.
  rewrite !query_order_iff. unfold ranked_before.
  destruct (Rtotal_order (Memory.usefulness_score a) (Memory.usefulness_score b))
    as [H|[H|H]]; [right; now left | | left; left; lra].
  destruct (Z.lt_total (Memory.importance a) (Memory.importance b))
    as [H'|[H'|H']].
  - right. right. split; [now symmetry | now left].
  - destruct (Z.le_ge_cases (Memory.accessed_at a) (Memory.accessed_at b)).
    + right. right. split; [now symmetry|]. right. split; [now symmetry | assumption].
    + left. right. split; [assumption|]. right. split; assumption.
  - left. right. split; [assumption | now left].
Qed.

Lemma query_order_trans (a b c : Memory.t) :
  query_order a b = true -> query_order b c = true -> query_order a c = true.
Proof.
  rewrite !query_order_iff. unfold ranked_before.
  intros [H1|[E1 H1]] [H2|[E2 H2]].
  - left. lra.
  - left. lra.
  - left. lra.
  - right. split; [congruence|].
    destruct H1 as [H1|[F1 H1]], H2 as [H2|[F2 H2]].
    + left. lia.
    + left. lia.
    + left. lia.
    + right. split; lia.
Qed.

Lemma MemoryType_eqb_eq (a b : MemoryType) : MemoryType_eqb a b = true <-> a = b.
Proof. destruct a, b; cbn; split; congruence. Qed.

Lemma where_clause_iff (input : QueryMemoriesInput) (m : Memory.t) :
  (if orElse (qm_includeArchived input) false then true
   else is_active (Memory.status m))
  && match qm_scope input with
     | Some (Some s) => MemoryScope_eqb (Memory.scope m) s
     | _ => true
     end
  && match truthy (qm_projectHash input) with
     | Some h => option_string_eqb (Memory.project_hash m) h
                 || is_global (Memory.scope m)
     | None => true
     end
  && match qm_types input with
     | Some (t :: ts) => existsb (MemoryType_eqb (Memory.type m)) (t :: ts)
     | _ => true
     end
  && match qm_minImportance input with
     | Some i => i <=? Memory.importance m
     | None => true
     end
  = true
  <-> matches input m.
Proof.
  unfold matches. rewrite !andb_true_iff.
  assert (H1 : (if orElse (qm_includeArchived input) false then true
                else is_active (Memory.status m)) = true
               <-> (qm_includeArchived input = Some true
                    \/ Memory.status m = active)).
  { destruct (qm_includeArchived input) as [[|]|]; cbn [orElse].
    - split; [now left | reflexivity].
    - destruct (Memory.status m); cbn; split; try discriminate; try (now right);
        try reflexivity; intros [H|H]; discriminate.
    - destruct (Memory.status m); cbn; split; try discriminate; try (now right);
        try reflexivity; intros [H|H]; discriminate. }
  assert (H2 : match qm_scope input with
               | Some (Some s) => MemoryScope_eqb (Memory.scope m) s
               | _ => true
               end = true
               <-> (forall s, qm_scope input = Some (Some s) -> Memory.scope m = s)).
  { destruct (qm_scope input) as [[s|]|].
    - split.
      + intros H s' E. injection E as <-.
        destruct (Memory.scope m), s; cbn in H; congruence.
      + intro H. rewrite (H s eq_refl). now destruct s.
    - split; [discriminate | reflexivity].
    - split; [discriminate | reflexivity]. }
  assert (H3 : match truthy (qm_projectHash input) with
               | Some h => option_string_eqb (Memory.project_hash m) h
                           || is_global (Memory.scope m)
               | None => true
               end = true
               <-> (forall h, truthy (qm_projectHash input) = Some h ->
                      Memory.project_hash m = Some h \/ Memory.scope m = global)).
  { destruct (truthy (qm_projectHash input)) as [h|].
    - rewrite orb_true_iff. split.
      + intros H h' E. injection E as <-. destruct H as [H|H].
        * left. unfold option_string_eqb in H.
          destruct (Memory.project_hash m) as [s|]; [|discriminate].
          apply String.eqb_eq in H. now subst.
        * right. now destruct (Memory.scope m).
      + intro H. destruct (H h eq_refl) as [E|E].
        * left. rewrite E. cbn. apply String.eqb_refl.
        * right. now rewrite E.
    - split; [discriminate | reflexivity]. }
  assert (H4 : match qm_types input with
               | Some (t :: ts) => existsb (MemoryType_eqb (Memory.type m)) (t :: ts)
               | _ => true
               end = true
               <-> (forall t ts, qm_types input = Some (t :: ts) ->
                      In (Memory.type m) (t :: ts))).
  { destruct (qm_types input) as [[|t ts]|].
    - split; [discriminate | reflexivity].
    - rewrite existsb_exists. split.
      + intros (x & Hx & E) t' ts' Et. injection Et as <- <-.
        apply MemoryType_eqb_eq in E. now subst.
      + intro H. exists (Memory.type m). split; [now apply H|].
        now apply MemoryType_eqb_eq.
    - split; [discriminate | reflexivity]. }
  assert (H5 : match qm_minImportance input with
               | Some i => i <=? Memory.importance m
               | None => true
               end = true
               <-> (forall i, qm_minImportance input = Some i ->
                      i <= Memory.importance m)).
  { destruct (qm_minImportance input) as [i|].
    - rewrite Z.leb_le. split.
      + intros H i' E. now injection E as <-.
      + intro H. now apply H.
    - split; [discriminate | reflexivity]. }
  rewrite H1, H2, H3, H4, H5. tauto.
Qed.

Lemma firstn_pages {A} (n n' : nat) (l : list A) :
  firstn n l ++ firstn n' (skipn n l) = firstn (n + n') l.
Proof.
  revert l. induction n as [|n IH]; intros [|x l]; cbn [firstn skipn app Nat.add];
    try reflexivity.
  - now rewrite firstn_nil.
  - now rewrite IH.
Qed.

Lemma skipn_skipn_add {A} (n n' : nat) (l : list A) :
  skipn n' (skipn n l) = skipn (n + n') l.
Proof.
  revert l. induction n as [|n IH]; intros [|x l]; cbn [skipn Nat.add];
    try reflexivity.
  - now rewrite skipn_nil.
  - apply IH.
Qed.

Lemma skipn_sorted {A} (le : A -> A -> Prop) (n : nat) (l : list A) :
  StronglySorted le l -> StronglySorted le (skipn n l).
Proof.
  revert l. induction n as [|n IH]; intros [|x l] Hs; cbn [skipn];
    try assumption.
  apply IH. now apply StronglySorted_inv in Hs.
Qed.

Lemma query_scan_In (input : QueryMemoriesInput) (rows : list Memory.t)
  (m : Memory.t) :
  In m (query_scan input rows) <-> In m rows.
Proof.
  unfold query_scan.
  destruct (orElse (qm_includeArchived input) false); [|tauto].
  destruct (qm_types input) as [[|t [|t' ts]]|], (qm_scope input) as [[s|]|];
    try tauto; apply order_by_In.
Qed.

Lemma query_scan_page_of (input : QueryMemoriesInput) (limit offset : Z)
  (rows : list Memory.t) :
  query_scan (page_of input limit offset) rows = query_scan input rows.
Proof. reflexivity. Qed.

(** Rows that tie on the three keys come in the order of the index that
    the query is read through. *)
Lemma queryMemories_ties :
  let ids input := map Memory.id (queryMemories input db_query_ties) in
  ids (Build_QueryMemoriesInput None None None None None None None) = [1; 2; 3]
  /\ ids (Build_QueryMemoriesInput None None None None None None (Some true))
     = [1; 2; 3]
  /\ ids (Build_QueryMemoriesInput (Some (Some project)) None None None None
            None (Some true)) = [3; 2; 1]
  /\ ids (Build_QueryMemoriesInput None None (Some [T_lesson; T_entity]) None
            None None (Some true)) = [2; 1; 3]
  /\ ids (Build_QueryMemoriesInput (Some (Some project)) None (Some [T_lesson])
            None None None (Some true)) = [1; 3].
Proof.
  cbv zeta. unfold queryMemories, query_scan, db_query_ties.
  repeat split; reval; unfold query_order; reval; reflexivity.
Qed.

(** X20. Pages of a query.  [queryMemories] returns rows of the store that
    satisfy the [WHERE] clause built from its input (only active rows
    unless [includeArchived] is set), ranked by usefulness score, then
    importance, then recency of access, and at most [limit] of them.
    Pages are consecutive slices of one ranking: the page
    at [offset] with [limit] followed by the page at [offset + limit]
    with [limit'] is the page at [offset] with [limit + limit'], and the
    query with [LIMIT -1 OFFSET 0] returns every matching row. *)
Theorem queryMemories_pages_are_slices
  (input : QueryMemoriesInput) (db : Db) (offset limit limit' : Z) :
  0 <= offset -> 0 <= limit -> 0 <= limit' ->
  let page := queryMemories (page_of input limit offset) db in
  queryMemories (page_of input (limit + limit') offset) db
  = page ++ queryMemories (page_of input limit' (offset + limit)) db
  /\ StronglySorted ranked_before page
  /\ Z.of_nat (List.length page) <= limit
  /\ (forall m, In m page -> In m (memories db) /\ matches input m)
  /\ (forall m, In m (memories db) -> matches input m ->
        In m (queryMemories (page_of input (-1) 0) db)).
Proof.
  intros Ho Hl Hl'. cbv zeta.
  unfold queryMemories. rewrite !query_scan_page_of. unfold page_of.
  cbn [qm_scope qm_projectHash qm_types qm_minImportance qm_limit qm_offset
       qm_includeArchived orElse].
  set (keep := fun m : Memory.t => _ && _ && _ && _ && _).
  set (rows := order_by query_order
                 (query_scan input (filter keep (memories db)))).
  assert (Hkeep : forall m, keep m = true <-> matches input m)
    by (intro m; apply where_clause_iff).
  assert (Hsorted : StronglySorted ranked_before rows).
  { eapply sorted_impl;
      [|apply (order_by_sorted query_order query_order_total query_order_trans)].
    intros a b. apply query_order_iff. }
  unfold sql_limit.
  destruct (Z.ltb_spec (limit + limit') 0); [lia|].
  destruct (Z.ltb_spec limit 0); [lia|].
  destruct (Z.ltb_spec limit' 0); [lia|].
  cbn [Z.ltb Z.compare Z.to_nat skipn].
  split; [|split; [|split; [|split]]].
  - rewrite !Z2Nat.inj_add by lia. rewrite <- skipn_skipn_add.
    symmetry. apply firstn_pages.
  - apply firstn_sorted, skipn_sorted, Hsorted.
  - rewrite length_firstn. lia.
  - intros m Hm. apply In_firstn, In_skipn in Hm.
    apply order_by_In, query_scan_In, filter_In in Hm. destruct Hm as [Hm Hk].
    split; [exact Hm | now apply Hkeep].
  - intros m Hm Hmatch. apply order_by_In, query_scan_In, filter_In.
    split; [exact Hm | now apply Hkeep].
Qed.

Lemma queryMemories_pages_are_slices_witness :
  let input := Build_QueryMemoriesInput None None None None None None None in
  let page := queryMemories (page_of input 1 0) db_C3 in
  queryMemories (page_of input (1 + 1) 0) db_C3
  = page ++ queryMemories (page_of input 1 (0 + 1)) db_C3
  /\ StronglySorted ranked_before page
  /\ Z.of_nat (List.length page) <= 1
  /\ (forall m, In m page -> In m (memories db_C3) /\ matches input m)
  /\ (forall m, In m (memories db_C3) -> matches input m ->
        In m (queryMemories (page_of input (-1) 0) db_C3)).
Proof.
  apply (queryMemories_pages_are_slices
           (Build_QueryMemoriesInput None None None None None None None)
           db_C3 0 1 1); lia.
Defined.

(** ** Access patterns *)

Lemma has_key_iff (key : Z) (buckets : list (Z * list Z)) :
  existsb (fun b => fst b =? key) buckets = true <-> In key (map fst buckets).
Proof.
  rewrite existsb_exists, in_map_iff. split.
  - intros (b & Hb & E). apply Z.eqb_eq in E. now exists b.
  - intros (b & E & Hb). exists b. split; [exact Hb | now apply Z.eqb_eq].
Qed.

Lemma bucket_ids_app (key : Z) (rows rows' : list Memory.t) :
  bucket_ids key (rows ++ rows') = bucket_ids key rows ++ bucket_ids key rows'.
Proof. unfold bucket_ids. now rewrite filter_app, map_app. Qed.

Lemma bucket_ids_one (key : Z) (r : Memory.t) :
  bucket_ids key [r] = if bucketKey 5000 r =? key then [Memory.id r] else [].
Proof. unfold bucket_ids. cbn [filter]. now destruct (_ =? _). Qed.

Lemma bucket_push_grouped (rows : list Memory.t) (buckets : list (Z * list Z))
  (r : Memory.t) :
  grouped rows buckets ->
  grouped (rows ++ [r]) (bucket_push (bucketKey 5000 r) (Memory.id r) buckets).
Proof.
  intros (Hnd & Hids & Hkeys). unfold bucket_push.
  set (key := bucketKey 5000 r).
  destruct (existsb (fun b => fst b =? key) buckets) eqn:Hhas.
  - assert (Hfst : map fst (map (fun b => if fst b =? key
                                          then (fst b, snd b ++ [Memory.id r])
                                          else b) buckets)
                   = map fst buckets).
    { rewrite map_map. apply map_ext. intro b. now destruct (fst b =? key). }
    split; [now rewrite Hfst|]. split.
    + intros b' Hb'. apply in_map_iff in Hb'. destruct Hb' as (b & <- & Hb).
      rewrite bucket_ids_app, bucket_ids_one. fold key.
      destruct (Z.eqb_spec (fst b) key) as [E|E]; cbn [fst snd].
      * rewrite (Hids b Hb), E, Z.eqb_refl. reflexivity.
      * assert (E' : (key =? fst b) = false) by (apply Z.eqb_neq; congruence).
        rewrite E', app_nil_r. now apply Hids.
    + rewrite Hfst. intros x Hx. apply in_app_or in Hx.
      destruct Hx as [Hx|[<-|[]]]; [now apply Hkeys|].
      now apply has_key_iff.
  - assert (Hnew : ~ In key (map fst buckets)).
    { intro H. apply has_key_iff in H. congruence. }
    split; [|split].
    + rewrite map_app. cbn [map fst]. apply NoDup_app;
        [exact Hnd | repeat constructor; intros [] |].
      intros k Hk [<-|[]]. contradiction.
    + intros b Hb. rewrite bucket_ids_app, bucket_ids_one. fold key.
      apply in_app_or in Hb. destruct Hb as [Hb|[<-|[]]].
      * assert (E : (key =? fst b) = false).
        { apply Z.eqb_neq. intro E. apply Hnew. rewrite E. now apply in_map. }
        rewrite E, app_nil_r. now apply Hids.
      * cbn [fst snd]. rewrite Z.eqb_refl.
        assert (Hnone : bucket_ids key rows = []).
        { unfold bucket_ids. rewrite filter_none; [reflexivity|].
          intros x Hx. apply Z.eqb_neq. intro E. apply Hnew.
          rewrite <- E. now apply Hkeys. }
        now rewrite Hnone.
    + intros x Hx. rewrite map_app. apply in_or_app.
      apply in_app_or in Hx. destruct Hx as [Hx|[<-|[]]];
        [left; now apply Hkeys | right; now left].
Qed.

Lemma bucket_loop_grouped (rows' : list Memory.t) : forall rows buckets,
  grouped rows buckets ->
  grouped (rows ++ rows')
    (fold_left (fun buckets row =>
                  bucket_push (bucketKey 5000 row) (Memory.id row) buckets)
               rows' buckets).
Proof.
  induction rows' as [|r rows' IH]; intros rows buckets H; cbn [fold_left].
  - now rewrite app_nil_r.
  - replace (rows ++ r :: rows') with ((rows ++ [r]) ++ rows')
      by (now rewrite <- app_assoc).
    apply IH. now apply bucket_push_grouped.
Qed.

Lemma patterns_spec (windowMs minCount now : Z) (db : Db) (b : Z * list Z) :
  In b (getRecentlyAccessedTogether (Some windowMs) (Some minCount) now db) ->
  snd b = bucket_ids (fst b) (recent_rows windowMs now db)
  /\ minCount <= Z.of_nat (List.length (snd b)).
Proof.
  unfold getRecentlyAccessedTogether. cbn [orElse]. cbv zeta.
  fold (recent_rows windowMs now db).
  destruct (_ <? minCount); [intros []|].
  intro Hb. apply filter_In in Hb. destruct Hb as [Hb Hc].
  split; [|now apply Z.leb_le].
  destruct (bucket_loop_grouped (recent_rows windowMs now db) [] [])
    as (_ & Hids & _).
  - split; [constructor|]. split; intros ? [].
  - now apply Hids.
Qed.

Lemma patterns_complete (windowMs minCount now : Z) (db : Db) (r : Memory.t) :
  In r (recent_rows windowMs now db) ->
  minCount
  <= Z.of_nat (List.length (bucket_ids (bucketKey 5000 r)
                              (recent_rows windowMs now db))) ->
  In (bucketKey 5000 r, bucket_ids (bucketKey 5000 r) (recent_rows windowMs now db))
     (getRecentlyAccessedTogether (Some windowMs) (Some minCount) now db).
Proof.
  intros Hr Hc. unfold getRecentlyAccessedTogether. cbn [orElse]. cbv zeta.
  fold (recent_rows windowMs now db).
  set (rows := recent_rows windowMs now db) in *.
  assert (Hlen : minCount <= Z.of_nat (List.length rows)).
  { unfold bucket_ids in Hc. rewrite length_map in Hc.
    pose proof (filter_length_le (fun x => bucketKey 5000 x =? bucketKey 5000 r) rows).
    lia. }
  destruct (Z.ltb_spec (Z.of_nat (List.length rows)) minCount); [lia|].
  destruct (bucket_loop_grouped rows [] []) as (_ & Hids & Hkeys).
  { split; [constructor|]. split; intros ? []. }
  cbn [app] in Hids, Hkeys.
  specialize (Hkeys r Hr). apply in_map_iff in Hkeys.
  destruct Hkeys as (b & E & Hb).
  apply filter_In. specialize (Hids b Hb). rewrite E in Hids.
  destruct b as [k ids]. cbn [fst snd] in *. subst k. rewrite <- Hids.
  split; [exact Hb|]. apply Z.leb_le. now rewrite Hids.
Qed.

Lemma unordered_pairs_length (ids : list Z) :
  let n := Z.of_nat (List.length ids) in
  Z.of_nat (List.length (unordered_pairs ids)) = (n * (n - 1)) / 2.
Proof.
  induction ids as [|a rest IH]; [reflexivity|]. cbv zeta in *.
  cbn [unordered_pairs]. rewrite length_app, length_map, Nat2Z.inj_add, IH.
  cbn [List.length]. rewrite Nat2Z.inj_succ.
  set (n := Z.of_nat (List.length rest)).
  replace (Z.succ n * (Z.succ n - 1)) with (n * (n - 1) + n * 2) by lia.
  rewrite Z.div_add by lia. lia.
Qed.

Lemma learn_loop_run (now : Z) (patterns : list (Z * list Z)) : forall db total,
  (forall b, In b patterns -> linkable (snd b) db) ->
  learn_loop now patterns total db
  = (Ok (total + Z.of_nat (List.length (pattern_pairs patterns))),
     set_relationship_table
       (fold_left (touch_edge 0.1%R now) (pattern_pairs patterns)
                  (relationship_table db))
       db).
Proof.
  induction patterns as [|[key ids] rest IH]; intros db total Hlink.
  - cbn. rewrite set_relationship_table_same. unfold ret. repeat f_equal. lia.
  - cbn [learn_loop]. rewrite run_bind.
    rewrite (recordCoAccess_run ids 0.1%R now db (Hlink (key, ids) (or_introl eq_refl))).
    cbn iota beta. cbv zeta. rewrite IH.
    + rewrite relationship_table_set, set_relationship_table_twice.
      unfold pattern_pairs. cbn [map List.concat snd].
      rewrite fold_left_app, length_app, Nat2Z.inj_add.
      pose proof (unordered_pairs_length ids) as Hn. cbv zeta in Hn.
      rewrite <- Hn. f_equal. f_equal. lia.
    + intros b Hb. apply linkable_set_table. apply Hlink. now right.
Qed.

(** X21. Learning from access patterns.  [learnFromAccessPatterns] returns
    the number of unordered pairs of its patterns and runs the co-access
    update of [recordCoAccess], with increment 0.1, on each of these pairs
    in turn; it writes to the table [memory_relationships] only.  A
    pattern is the list of the ids of all the memories read within the
    window (5 minutes by default) whose [accessed_at] falls in one
    five-second slot [key, key + 5000), most recent first, for every slot
    that holds at least two of them: two memories read within the window
    and in the same slot are always in one pattern. *)
Theorem learnFromAccessPatterns_links_each_slot
  (windowMs : option Z) (now : Z) (db : Db) :
  let w := orElse windowMs 300000 in
  let patterns := getRecentlyAccessedTogether (Some w) (Some 2) now db in
  learnFromAccessPatterns windowMs now db
  = (Ok (Z.of_nat (List.length (pattern_pairs patterns))),
     set_relationship_table
       (fold_left (touch_edge 0.1%R now) (pattern_pairs patterns)
                  (relationship_table db))
       db)
  /\ (forall key ids, In (key, ids) patterns ->
        ids = bucket_ids key (recent_rows w now db)
        /\ (2 <= List.length ids)%nat
        /\ forall id, In id ids ->
             exists m, In m (memories db) /\ Memory.id m = id
                       /\ now - w < Memory.accessed_at m
                       /\ key <= Memory.accessed_at m < key + 5000)
  /\ (forall m1 m2, In m1 (memories db) -> In m2 (memories db) -> m1 <> m2 ->
        now - w < Memory.accessed_at m1 -> now - w < Memory.accessed_at m2 ->
        Memory.accessed_at m1 / 5000 = Memory.accessed_at m2 / 5000 ->
        exists key ids, In (key, ids) patterns
                        /\ In (Memory.id m1) ids /\ In (Memory.id m2) ids).
Proof.
  cbv zeta. set (w := orElse windowMs 300000).
  set (patterns := getRecentlyAccessedTogether (Some w) (Some 2) now db).
  assert (Hrecent : forall m, In m (recent_rows w now db)
                              <-> In m (memories db) /\ now - w < Memory.accessed_at m).
  { intro m. unfold recent_rows. rewrite order_by_In, filter_In, Z.ltb_lt. tauto. }
  assert (Hspec : forall key ids, In (key, ids) patterns ->
            ids = bucket_ids key (recent_rows w now db)
            /\ (2 <= List.length ids)%nat
            /\ forall id, In id ids ->
                 exists m, In m (memories db) /\ Memory.id m = id
                           /\ now - w < Memory.accessed_at m
                           /\ key <= Memory.accessed_at m < key + 5000).
  { intros key ids Hb. destruct (patterns_spec w 2 now db _ Hb) as [Hids Hc].
    cbn [fst snd] in Hids, Hc. split; [exact Hids|]. split; [lia|].
    intros id Hid. rewrite Hids in Hid. unfold bucket_ids in Hid.
    apply in_map_iff in Hid. destruct Hid as (m & <- & Hm).
    apply filter_In in Hm. destruct Hm as [Hm Hk].
    apply Hrecent in Hm. destruct Hm as [Hm Hw].
    exists m. split; [exact Hm|]. split; [reflexivity|]. split; [exact Hw|].
    apply Z.eqb_eq in Hk. unfold bucketKey in Hk.
    pose proof (Z.mod_pos_bound (Memory.accessed_at m) 5000 ltac:(lia)).
    pose proof (Z.div_mod (Memory.accessed_at m) 5000 ltac:(lia)). lia. }
  split; [|split; [exact Hspec|]].
  - unfold learnFromAccessPatterns. rewrite run_bind. unfold get at 1.
    cbn iota beta. cbv zeta. fold w. fold patterns.
    rewrite learn_loop_run; [reflexivity|].
    intros [key ids] Hb. right. intros id Hid. cbn [snd] in Hid.
    destruct (Hspec key ids Hb) as (_ & _ & Hin).
    destruct (Hin id Hid) as (m & Hm & <- & _). now apply memory_exists_In.
  - intros m1 m2 H1 H2 Hne Hw1 Hw2 Hslot.
    assert (Hr1 : In m1 (recent_rows w now db)) by (apply Hrecent; tauto).
    assert (Hr2 : In m2 (recent_rows w now db)) by (apply Hrecent; tauto).
    assert (Hk : bucketKey 5000 m2 = bucketKey 5000 m1)
      by (unfold bucketKey; now rewrite Hslot).
    set (slot := filter (fun r => bucketKey 5000 r =? bucketKey 5000 m1)
                        (recent_rows w now db)).
    assert (Hs1 : In m1 slot) by (apply filter_In; split; [exact Hr1 | apply Z.eqb_refl]).
    assert (Hs2 : In m2 slot)
      by (apply filter_In; split; [exact Hr2 | now apply Z.eqb_eq]).
    assert (Hlen : (2 <= List.length slot)%nat).
    { destruct slot as [|x [|y rest]]; cbn [List.length]; try lia.
      - destruct Hs1.
      - destruct Hs1 as [<-|[]], Hs2 as [<-|[]]. congruence. }
    exists (bucketKey 5000 m1), (bucket_ids (bucketKey 5000 m1) (recent_rows w now db)).
    split.
    + apply patterns_complete; [exact Hr1|].
      unfold bucket_ids. rewrite length_map. fold slot. lia.
    + unfold bucket_ids. fold slot. split; now apply in_map.
Qed.

(** ** Forgetting *)

Lemma memory_exists_after_delete (k id : Z) (db : Db) :
  memory_exists k (snd (deleteMemory id db))
  = memory_exists k db && negb (k =? id).
Proof.
  apply Bool.eq_iff_eq_true.
  rewrite andb_true_iff, !memory_exists_ids, deleteMemory_ids, filter_In. tauto.
Qed.

Lemma deleteMemory_embeddings (id : Z) (db : Db) :
  foreign_keys (snd (deleteMemory id db)) = foreign_keys db
  /\ forall e, In e (embeddings (snd (deleteMemory id db))) -> In e (embeddings db).
Proof.
  rewrite deleteMemory_run. cbn [snd]. cbv zeta.
  destruct (foreign_keys db && memory_exists id db);
    cbn [foreign_keys embeddings with_memories]; split; try reflexivity.
  - intros e He. now apply filter_In in He.
  - auto.
Qed.

Lemma forget_loop_run (ids : list Z) : forall db acc,
  exists del db',
    forget_loop ids acc db = (Ok (acc ++ del), db')
    /\ NoDup del
    /\ (forall k, In k del <-> In k ids /\ memory_exists k db = true)
    /\ (forall k, memory_exists k db' = memory_exists k db && negb (mem_Z k ids))
    /\ (forall e, In e (embeddings db') ->
          In e (embeddings db) /\ ~ In (Embedding.memory_id e) del)
    /\ foreign_keys db' = foreign_keys db.
Proof.
  induction ids as [|id rest IH]; intros db acc.
  - exists [], db. cbn [forget_loop]. rewrite app_nil_r.
    split; [reflexivity|]. split; [constructor|]. split; [cbn; tauto|].
    split; [intro k; cbn; now rewrite andb_true_r|]. split; [|reflexivity].
    intros e He. split; [exact He | intros []].
  - cbn [forget_loop]. rewrite run_bind.
    pose proof (memory_exists_after_delete) as Hex.
    destruct (deleteMemory_embeddings id db) as [Hfk1 Hemb1].
    specialize (fun k => Hex k id db).
    revert Hex Hfk1 Hemb1. rewrite deleteMemory_run. cbn [snd]. cbv zeta.
    set (db1 := if foreign_keys db && memory_exists id db then _ else _).
    intros Hex Hfk1 Hemb1. cbn iota beta.
    destruct (memory_exists id db) eqn:Hid.
    + rewrite run_bind, deleteEmbedding_run. cbn iota beta.
      set (db2 := with_embeddings _ db1).
      destruct (IH db2 (acc ++ [id])) as (del & db' & Hrun & Hnd & Hin & Hmem & Hemb & Hfk).
      assert (Hex2 : forall k, memory_exists k db2 = memory_exists k db && negb (k =? id))
        by (intro k; exact (Hex k)).
      exists (id :: del), db'. rewrite Hrun, <- app_assoc.
      split; [reflexivity|]. split; [|split; [|split; [|split]]].
      * constructor; [|exact Hnd]. intro H. apply Hin in H. destruct H as [_ H].
        rewrite Hex2, Z.eqb_refl, andb_false_r in H. discriminate.
      * intro k. cbn [In]. rewrite Hin, Hex2, andb_true_iff, negb_true_iff, Z.eqb_neq.
        destruct (Z.eq_dec id k) as [<-|Hne]; [tauto|]. split.
        -- intros [H|(H1 & H2 & _)]; [contradiction | tauto].
        -- intros ([H|H] & H2); [contradiction|]. right. repeat split; auto.
      * intro k. rewrite Hmem, Hex2. unfold mem_Z. cbn [existsb].
        rewrite negb_orb, andb_assoc. reflexivity.
      * intros e He. destruct (Hemb e He) as [He2 Hnot].
        unfold db2 in He2. cbn [embeddings with_embeddings] in He2.
        apply filter_In in He2. destruct He2 as [He1 Hne].
        split; [now apply Hemb1|]. intros [E|H]; [|contradiction].
        rewrite <- E, Z.eqb_refl in Hne. discriminate.
      * now rewrite Hfk.
    + destruct (IH db1 acc) as (del & db' & Hrun & Hnd & Hin & Hmem & Hemb & Hfk).
      exists del, db'. split; [exact Hrun|]. split; [exact Hnd|].
      split; [|split; [|split]].
      * intro k. rewrite Hin, Hex, andb_true_iff, negb_true_iff, Z.eqb_neq. cbn [In].
        split.
        -- intros (H1 & H2 & _). tauto.
        -- intros ([<-|H] & H2); [congruence|]. repeat split; auto.
           intros ->. congruence.
      * intro k. rewrite Hmem, Hex. unfold mem_Z. cbn [existsb].
        rewrite negb_orb, andb_assoc. reflexivity.
      * intros e He. destruct (Hemb e He) as [He1 Hnot]. split; [now apply Hemb1|].
        exact Hnot.
      * now rewrite Hfk.
Qed.

Lemma no_embedding_of (k : Z) (db : Db) :
  (forall e, In e (embeddings db) -> Embedding.memory_id e <> k) ->
  getEmbedding k db = None.
Proof.
  intro H. unfold getEmbedding.
  destruct (find _ (embeddings db)) as [e|] eqn:Hf; [|reflexivity].
  apply find_some in Hf. destruct Hf as [He E]. apply Z.eqb_eq in E.
  now apply H in He.
Qed.

(** X22. Forgetting by id.  With a non-empty list of ids, [forget]
    succeeds and deletes every listed memory: afterwards none of the
    listed ids is a memory, and the existence of every other memory is as before.
    [deletedIds] lists, once each, the listed ids that were memories (an
    id that is listed twice or is no memory is skipped without error), and
    [deletedCount] is their number.  No deleted memory keeps an embedding,
    also on a connection that does not enforce foreign keys. *)
Theorem forget_by_ids_deletes_the_listed
  (host : Host) (env : ToolHost) (input : ForgetInput)
  (projectHash : option string) (db : Db) (id : Z) (ids : list Z) :
  fg_ids input = Some (id :: ids) ->
  exists r db',
    forget host env input projectHash db = (Ok r, db')
    /\ fg_success r = true
    /\ fg_deletedCount r = Z.of_nat (List.length (fg_deletedIds r))
    /\ NoDup (fg_deletedIds r)
    /\ (forall k, In k (fg_deletedIds r)
                  <-> In k (id :: ids) /\ memory_exists k db = true)
    /\ (forall k, In k (id :: ids) -> memory_exists k db' = false)
    /\ (forall k, ~ In k (id :: ids) -> memory_exists k db' = memory_exists k db)
    /\ (forall k, In k (fg_deletedIds r) -> getEmbedding k db' = None).
Proof.
  intro Hids. unfold forget. rewrite Hids. rewrite run_bind.
  destruct (forget_loop_run (id :: ids) db [])
    as (del & db' & Hrun & Hnd & Hin & Hmem & Hemb & _).
  rewrite Hrun. cbn iota beta. cbn [app]. unfold ret.
  eexists _, db'. split; [reflexivity|].
  cbn [fg_success fg_deletedCount fg_deletedIds].
  split; [reflexivity|]. split; [reflexivity|]. split; [exact Hnd|].
  split; [exact Hin|]. split; [|split].
  - intros k Hk. rewrite Hmem. apply (proj2 (mem_Z_In _ _)) in Hk.
    rewrite Hk. apply andb_false_r.
  - intros k Hk. rewrite Hmem, (mem_Z_not_In _ _ Hk). apply andb_true_r.
  - intros k Hk. apply no_embedding_of. intros e He E.
    destruct (Hemb e He) as [_ Hnot]. apply Hnot. now rewrite E.
Qed.

Lemma forget_by_ids_deletes_the_listed_witness :
  exists r db',
    forget host_C3 env_forget (Build_ForgetInput None (Some [1; 1; 9])) None db_forget
    = (Ok r, db')
    /\ fg_deletedIds r = [1]
    /\ memory_exists 1 db' = false
    /\ memory_exists 2 db' = true
    /\ getEmbedding 1 db' = None.
Proof.
  destruct (forget_by_ids_deletes_the_listed host_C3 env_forget
              (Build_ForgetInput None (Some [1; 1; 9])) None db_forget 1 [1; 9]
              eq_refl)
    as (r & db' & Hrun & _ & _ & _ & _ & Hgone & Hothers & _).
  exists r, db'. split; [exact Hrun|].
  split; [|split; [|split]].
  - vm_compute in Hrun. now injection Hrun as <- _.
  - apply Hgone. now left.
  - rewrite Hothers; [reflexivity|]. cbn. lia.
  - vm_compute in Hrun. now injection Hrun as _ <-.
Defined.

Lemma queryMemories_In (input : QueryMemoriesInput) (db : Db) (m : Memory.t) :
  In m (queryMemories input db) -> In m (memories db) /\ matches input m.
Proof.
  unfold queryMemories. cbv zeta. intro H.
  apply sql_limit_In, In_skipn, order_by_In, query_scan_In, filter_In in H.
  destruct H as [H Hk]. split; [exact H | now apply where_clause_iff].
Qed.

Lemma queryMemories_length (input : QueryMemoriesInput) (db : Db) (limit : Z) :
  qm_limit input = Some limit -> 0 <= limit ->
  Z.of_nat (List.length (queryMemories input db)) <= limit.
Proof.
  intros E H. unfold queryMemories. cbv zeta. rewrite E. cbn [orElse].
  now apply sql_limit_length.
Qed.

Lemma similarity_loop_In (db : Db) (q : list R) (minSimilarity : R)
  (memories : list Memory.t) : forall results,
  similarity_loop db q minSimilarity memories = Ok results ->
  forall x, In x results -> In (fst x) memories.
Proof.
  induction memories as [|m rest IH]; intros results H x Hx; cbn [similarity_loop] in H.
  - injection H as <-. destruct Hx.
  - destruct (getEmbedding (Memory.id m) db) as [e|].
    + destruct (cosineSimilarity q e) as [s|err]; [|discriminate].
      destruct (similarity_loop db q minSimilarity rest) as [rs|err]; [|discriminate].
      destruct (Rleb minSimilarity s); injection H as <-.
      * destruct Hx as [<-|Hx]; [now left | right; now apply (IH rs)].
      * right. now apply (IH rs).
    + right. now apply (IH results).
Qed.

Lemma searchBySimilarity_reads (host : Host) (query : string)
  (options : SearchOptions) (db : Db) :
  snd (searchBySimilarity host query options db) = db
  /\ forall results, fst (searchBySimilarity host query options db) = Ok results ->
       (0 <= orElse (so_limit options) 10 ->
        Z.of_nat (List.length results) <= orElse (so_limit options) 10)
       /\ forall x, In x results -> In (fst x) (search_candidates options db).
Proof.
  assert (Hrun :
            searchBySimilarity host query options db
            = match generateEmbedding host query
                      (orElse (so_model options) embedding_model) with
              | Throw e => (Throw e, db)
              | Ok q =>
                  match similarity_loop db q
                          (orElse (so_minSimilarity options) 0.5%R)
                          (search_candidates options db) with
                  | Throw e => (Throw e, db)
                  | Ok rs =>
                      (Ok (slice_to (orElse (so_limit options) 10)
                             (order_by by_similarity_desc rs)), db)
                  end
              end).
  { unfold searchBySimilarity, search_candidates. cbv zeta.
    destruct (generateEmbedding host query _); [|reflexivity].
    rewrite run_bind. unfold get at 1. cbn iota beta.
    now destruct (similarity_loop db _ _ _). }
  rewrite Hrun. clear Hrun.
  destruct (generateEmbedding host query _) as [q|err];
    [|split; [reflexivity | discriminate]].
  destruct (similarity_loop db q _ (search_candidates options db)) as [rs|err] eqn:Hloop;
    [|split; [reflexivity | discriminate]].
  split; [reflexivity|]. cbn [fst]. intros results H.
  injection H as <-. split.
  - intro Hpos. unfold slice_to.
    destruct (Z.ltb_spec (orElse (so_limit options) 10) 0); [lia|].
    rewrite length_firstn. lia.
  - intros x Hx. apply slice_to_In, order_by_In in Hx.
    now apply (similarity_loop_In _ _ _ _ _ Hloop).
Qed.

(** X23. Forgetting by query.  Without ids, [forget] with a query succeeds
    and deletes at most 50 memories, each of them an active memory of the
    store that belongs to the project of the call or to the global scope:
    an archived or consolidated memory is never deleted by a query.
    [deletedIds] lists the deleted memories once each, none of them is a
    memory afterwards and the existence of every other memory is as before.  With neither
    ids nor a query (an empty list of ids and an empty query count as
    none), [forget] reports a failure and leaves the store as it is. *)
Theorem forget_by_query_is_bounded
  (host : Host) (env : ToolHost) (input : ForgetInput)
  (projectHash : option string) (db : Db) :
  fg_ids input = None \/ fg_ids input = Some [] ->
  exists r db',
    forget host env input projectHash db = (Ok r, db')
    /\ fg_deletedCount r = Z.of_nat (List.length (fg_deletedIds r))
    /\ match truthy (fg_query input) with
       | None => fg_success r = false /\ fg_deletedIds r = [] /\ db' = db
       | Some _ =>
           fg_success r = true
           /\ (List.length (fg_deletedIds r) <= 50)%nat
           /\ NoDup (fg_deletedIds r)
           /\ (forall k, In k (fg_deletedIds r) ->
                 forgettable projectHash db k /\ memory_exists k db' = false)
           /\ (forall k, ~ In k (fg_deletedIds r) ->
                 memory_exists k db' = memory_exists k db)
       end.
Proof.
  intro Hids.
  assert (Hforget :
            forget host env input projectHash db
            = match truthy (fg_query input) with
              | Some query =>
                  (semantic <-
                     (if hasApiKey env && isEmbeddingsAvailable host
                      then
                        try_catch
                          (results <- searchBySimilarity host query
                                        (Build_SearchOptions (Some 50) (Some 0.6%R)
                                           (Some None) projectHash
                                           (config_embedding_model env)) ;;
                           ret (map (fun r => (Memory.id (fst r),
                                               decoded_content env (fst r)))
                                    results))
                          (fun _ => ret [])
                      else ret []) ;;
                   memoriesToDelete <-
                     (match semantic with
                      | [] =>
                          db <- get ;;
                          let memories :=
                            queryMemories
                              (Build_QueryMemoriesInput (Some None) projectHash None
                                 None (Some 50) None None)
                              db in
                          let queryLower := toLowerCase env query in
                          ret (map (fun m => (Memory.id m, decoded_content env m))
                                 (filter (fun m => includes
                                                     (toLowerCase env
                                                        (decoded_content env m))
                                                     queryLower)
                                         memories))
                      | _ => ret semantic
                      end) ;;
                   match memoriesToDelete with
                   | [] =>
                       ret (Build_ForgetResult true 0 []
                              ("No memories found matching " ++ quoted query
                               ++ ".")%string)
                   | _ =>
                       deletedIds <- forget_loop (map fst memoriesToDelete) [] ;;
                       ret (Build_ForgetResult true
                              (Z.of_nat (List.length deletedIds)) deletedIds
                              ("Deleted "
                               ++ show_Z (Z.of_nat (List.length deletedIds))
                               ++ " memories matching " ++ quoted query
                               ++ ".")%string)
                   end) db
              | None =>
                  (Ok (Build_ForgetResult false 0 []
                         "No query or IDs provided. Please specify what to forget."),
                   db)
              end).
  { unfold forget. destruct Hids as [-> | ->];
      destruct (truthy (fg_query input)); reflexivity. }
  rewrite Hforget. clear Hforget.
  destruct (truthy (fg_query input)) as [query|];
    [|eexists _, db; split; [reflexivity|]; repeat split].
  (* what the two searches may return *)
  assert (Hcand : forall m,
            In m (queryMemories
                    (Build_QueryMemoriesInput (Some None) projectHash None None
                       (Some 50) None None) db)
            \/ In m (search_candidates
                       (Build_SearchOptions (Some 50) (Some 0.6%R) (Some None)
                          projectHash (config_embedding_model env)) db) ->
            forgettable projectHash db (Memory.id m)).
  { intros m [H|H]; apply queryMemories_In in H;
      destruct H as (Hm & Hst & _ & Hproj & _);
      (exists m; split; [exact Hm|]; split; [reflexivity|]; split;
       [destruct Hst as [Hst|Hst]; [discriminate | exact Hst] | exact Hproj]). }
  rewrite run_bind.
  set (search := if hasApiKey env && isEmbeddingsAvailable host then _ else _).
  assert (Hsearch : exists semantic,
            search db = (Ok semantic, db)
            /\ (List.length semantic <= 50)%nat
            /\ forall k, In k (map fst semantic) -> forgettable projectHash db k).
  { unfold search. destruct (hasApiKey env && isEmbeddingsAvailable host).
    - unfold try_catch. rewrite run_bind.
      destruct (searchBySimilarity_reads host query
                  (Build_SearchOptions (Some 50) (Some 0.6%R) (Some None) projectHash
                     (config_embedding_model env)) db) as [Hdb Hres].
      destruct (searchBySimilarity host query _ db) as [[results|err] db1];
        cbn [fst snd] in Hdb, Hres; subst db1.
      + destruct (Hres results eq_refl) as [Hlen Hin]. cbn [so_limit orElse] in Hlen.
        eexists. cbn iota beta. unfold ret. split; [reflexivity|].
        rewrite length_map. split; [lia|].
        intros k Hk. rewrite map_map in Hk. cbn [fst] in Hk.
        apply in_map_iff in Hk. destruct Hk as (x & <- & Hx).
        apply Hcand. right. now apply Hin.
      + exists []. cbn iota beta. unfold ret. split; [reflexivity|].
        split; [cbn; lia | intros k []].
    - exists []. split; [reflexivity|]. split; [cbn; lia | intros k []]. }
  destruct Hsearch as (semantic & -> & Hlen & Hsem). cbn iota beta.
  rewrite run_bind.
  set (fallback := match semantic with [] => _ | _ => _ end).
  assert (Hfound : exists found,
            fallback db = (Ok found, db)
            /\ (List.length found <= 50)%nat
            /\ forall k, In k (map fst found) -> forgettable projectHash db k).
  { unfold fallback. destruct semantic as [|s0 rest].
    - rewrite run_bind. unfold get at 1. cbn iota beta. cbv zeta. unfold ret.
      eexists. split; [reflexivity|]. rewrite length_map. split.
      + pose proof (queryMemories_length
                      (Build_QueryMemoriesInput (Some None) projectHash None None
                         (Some 50) None None) db 50 eq_refl ltac:(lia)) as Hq.
        pose proof (filter_length_le
                      (fun m => includes (toLowerCase env (decoded_content env m))
                                  (toLowerCase env query))
                      (queryMemories
                         (Build_QueryMemoriesInput (Some None) projectHash None None
                            (Some 50) None None) db)).
        lia.
      + intros k Hk. rewrite map_map in Hk. cbn [fst] in Hk.
        apply in_map_iff in Hk. destruct Hk as (m & <- & Hm).
        apply filter_In in Hm. apply Hcand. left. tauto.
    - exists (s0 :: rest). split; [reflexivity|]. split; assumption. }
  destruct Hfound as (found & -> & Hflen & Hfin). cbn iota beta.
  destruct found as [|f0 found'].
  - eexists _, db. unfold ret. split; [reflexivity|].
    cbn [fg_success fg_deletedCount fg_deletedIds List.length].
    split; [reflexivity|]. split; [reflexivity|]. split; [lia|].
    split; [constructor|]. split; [intros k [] | reflexivity].
  - set (found := f0 :: found') in *. rewrite run_bind.
    destruct (forget_loop_run (map fst found) db [])
      as (del & db' & Hrun & Hnd & Hin & Hmem & _ & _).
    rewrite Hrun. cbn iota beta. cbn [app]. unfold ret.
    eexists _, db'. split; [reflexivity|].
    cbn [fg_success fg_deletedCount fg_deletedIds].
    split; [reflexivity|]. split; [reflexivity|]. split; [|split; [exact Hnd|split]].
    + assert (Hle : (List.length del <= List.length (map fst found))%nat).
      { apply NoDup_incl_length; [exact Hnd|]. intros k Hk. now apply Hin in Hk. }
      rewrite length_map in Hle. lia.
    + intros k Hk. apply Hin in Hk. destruct Hk as [Hk Hex]. split; [now apply Hfin|].
      rewrite Hmem, (proj2 (mem_Z_In _ _) Hk). apply andb_false_r.
    + intros k Hk. rewrite Hmem.
      destruct (mem_Z k (map fst found)) eqn:Hm; [|apply andb_true_r].
      apply mem_Z_In in Hm. rewrite andb_false_r.
      destruct (memory_exists k db) eqn:Hex; [|reflexivity].
      exfalso. apply Hk, Hin. now split.
Qed.

Lemma forget_by_query_is_bounded_witness :
  exists r db',
    forget host_C3 env_forget (Build_ForgetInput (Some "note") (Some [])) None db_forget
    = (Ok r, db')
    /\ fg_success r = true
    /\ (List.length (fg_deletedIds r) <= 50)%nat.
Proof.
  destruct (forget_by_query_is_bounded host_C3 env_forget
              (Build_ForgetInput (Some "note") (Some [])) None db_forget
              (or_intror eq_refl))
    as (r & db' & Hrun & _ & Hok & Hlen & _).
  exists r, db'. split; [exact Hrun|]. split; assumption.
Defined.

(** ** Co-accessed memories *)

Lemma coaccess_loop_run (now : Z) (rows : list (Z * R)) : forall db results,
  NoDup (map fst rows) ->
  coaccess_loop now rows results db
  = (Ok (results ++ flat_map (coaccess_of db) rows),
     with_memories (map (touch_in (map fst rows) now) (memories db))
       (memories_seq db) db).
Proof.
  induction rows as [|row rows IH]; intros db results Hnd.
  - cbn [coaccess_loop flat_map map]. rewrite touch_in_nil, with_memories_same,
      app_nil_r. reflexivity.
  - cbn [map] in Hnd. inversion Hnd as [|? ? Hnotin Hnd']; subst.
    cbn [coaccess_loop flat_map map]. rewrite run_bind.
    pose proof (getMemory_store (fst row) now db) as Hstore.
    revert Hstore. rewrite getMemory_run. unfold coaccess_of at 1.
    assert (Hrest : forall db1 acc,
              (forall k, k <> fst row -> select_memory k db1 = select_memory k db) ->
              db1 = with_memories (map (touch_in [fst row] now) (memories db))
                      (memories_seq db) db ->
              coaccess_loop now rows acc db1
              = (Ok (acc ++ flat_map (coaccess_of db) rows),
                 with_memories
                   (map (touch_in (fst row :: map fst rows) now) (memories db))
                   (memories_seq db) db)).
    { intros db1 acc Hsame Hdb1. rewrite IH by exact Hnd'. f_equal.
      - f_equal. f_equal. apply flat_map_ext_in. intros r Hr. unfold coaccess_of.
        rewrite Hsame; [reflexivity|].
        intro E. apply Hnotin. rewrite <- E. now apply in_map.
      - rewrite Hdb1. unfold with_memories. cbn. f_equal.
        rewrite map_map. apply map_ext. intro m. now apply touch_in_cons. }
    destruct (select_memory (fst row) db) as [m|]; cbn [snd]; intro Hstore;
      cbn iota beta.
    + assert (Hsame : forall k, k <> fst row ->
                select_memory k (update_memory (fst row) (Memory.touch now) db)
                = select_memory k db)
        by (intros k Hk; now apply select_memory_update_other).
      destruct (is_active (Memory.status m)).
      * rewrite (Hrest _ _ Hsame Hstore), <- app_assoc. reflexivity.
      * now rewrite (Hrest _ _ Hsame Hstore).
    + now rewrite (Hrest db results (fun k _ => eq_refl) Hstore).
Qed.

Lemma by_strength_total (a b : Z * R) :
  Rleb (snd b) (snd a) = true \/ Rleb (snd a) (snd b) = true.
Proof. rewrite !Rleb_iff. lra. Qed.

Lemma by_strength_trans (a b c : Z * R) :
  Rleb (snd b) (snd a) = true -> Rleb (snd c) (snd b) = true ->
  Rleb (snd c) (snd a) = true.
Proof. rewrite !Rleb_iff. lra. Qed.

Lemma coaccess_rows_In (memoryId : Z) (minStrength : R) (limit : Z) (db : Db)
  (k : Z) (s : R) :
  In (k, s) (coaccess_rows memoryId minStrength limit db) ->
  (minStrength <= s)%R
  /\ exists r, In r (memory_relationships db) /\ similar_edge memoryId k s r.
Proof.
  unfold coaccess_rows. intro H.
  apply sql_limit_In, order_by_In, in_map_iff in H.
  destruct H as (r & E & Hr). apply filter_In in Hr. destruct Hr as [Hr Hc].
  apply andb_true_iff in Hc. destruct Hc as [Hsim Hs].
  assert (Hscan : In r (memory_relationships db)
                  /\ ((MemoryRelationship.source_id r =? memoryId)
                      || (MemoryRelationship.target_id r =? memoryId)) = true).
  { unfold coaccess_scan in Hr. apply in_app_or in Hr.
    destruct Hr as [Hr|Hr]; apply filter_In in Hr; destruct Hr as [Hr Hends];
      (split; [exact Hr|]).
    - now rewrite Hends.
    - apply andb_true_iff in Hends. destruct Hends as [-> _]. apply orb_true_r. }
  destruct Hscan as [Hin Hends].
  injection E as Ek Es. apply Rleb_iff in Hs. split; [now rewrite <- Es|].
  exists r. split; [exact Hin|].
  split; [now destruct (MemoryRelationship.relationship r)|].
  split; [exact Es|].
  destruct (Z.eqb_spec (MemoryRelationship.source_id r) memoryId) as [E1|E1].
  - left. split; assumption.
  - right. split; [|exact Ek]. cbn [orb] in Hends. now apply Z.eqb_eq.
Qed.

Lemma flat_map_sorted {A B} (le : B -> B -> Prop) (le' : A -> A -> Prop)
  (f : A -> list B) (l : list A) :
  (forall a y, In y (f a) -> forall a' y', In y' (f a') -> le' a a' -> le y y') ->
  (forall a, (List.length (f a) <= 1)%nat) ->
  StronglySorted le' l -> StronglySorted le (flat_map f l).
Proof.
  intros Hle Hone. induction 1 as [|a l _ IH Ha]; cbn [flat_map]; [constructor|].
  specialize (Hone a). destruct (f a) as [|y [|z rest]] eqn:Ef;
    cbn [List.length] in Hone; try lia; cbn [app]; [exact IH|].
  constructor; [exact IH|]. apply Forall_forall. intros y' Hy'.
  apply in_flat_map in Hy'. destruct Hy' as (a' & Ha' & Hy').
  rewrite Forall_forall in Ha.
  assert (Hy : In y (f a)) by (rewrite Ef; now left).
  apply (Hle a y Hy a' y' Hy'). now apply Ha.
Qed.

(** X24. Co-accessed memories.  [getFrequentlyCoAccessedMemories] returns
    active memories only, each with the strength of a 'similar' edge
    that links it to [memoryId], at least [minStrength] (0.5 by default),
    the strongest first; among edges of equal strength those out of
    [memoryId] come before those into it.  The limit (5 by default) is
    applied to the edges before the memories are read, so the result has at
    most [limit] entries and has fewer when an edge within the limit leads
    to a memory that is not active or not in the store.  Every memory it
    reads, active or not, is left with [accessedAt = now] and one more
    access; nothing else is written. *)
Theorem getFrequentlyCoAccessedMemories_ranks_active_neighbours
  (memoryId : Z) (minStrength : option R) (limit : option Z) (now : Z) (db : Db) :
  let rows := coaccess_rows memoryId (orElse minStrength 0.5%R) (orElse limit 5) db in
  NoDup (map fst rows) ->
  exists results,
    getFrequentlyCoAccessedMemories memoryId minStrength limit now db
    = (Ok results,
       with_memories (map (touch_in (map fst rows) now) (memories db))
         (memories_seq db) db)
    /\ results = flat_map (coaccess_of db) rows
    /\ StronglySorted (fun a b => (snd b <= snd a)%R) results
    /\ (0 <= orElse limit 5 ->
        Z.of_nat (List.length results) <= orElse limit 5)
    /\ (forall m s, In (m, s) results ->
          In m (memories db) /\ Memory.status m = active
          /\ (orElse minStrength 0.5 <= s)%R
          /\ exists r, In r (memory_relationships db)
                       /\ similar_edge memoryId (Memory.id m) s r)
    /\ (NoDup (map Memory.id (memories db)) ->
        forall m, In m (memories db) ->
          exists m',
            select_memory (Memory.id m)
              (snd (getFrequentlyCoAccessedMemories memoryId minStrength limit
                      now db))
            = Some m'
            /\ Memory.accessed_at m'
               = (if mem_Z (Memory.id m) (map fst rows) then now
                  else Memory.accessed_at m)
            /\ Memory.access_count m'
               = Memory.access_count m
                 + (if mem_Z (Memory.id m) (map fst rows) then 1 else 0)
            /\ Memory.status m' = Memory.status m).
Proof.
  intros rows Hnd.
  exists (flat_map (coaccess_of db) rows).
  assert (Hone : forall row, (List.length (coaccess_of db row) <= 1)%nat).
  { intro row. unfold coaccess_of. destruct (select_memory (fst row) db) as [m|];
      [destruct (is_active (Memory.status m))|]; cbn; lia. }
  assert (Hof : forall row m s, In (m, s) (coaccess_of db row) ->
            In m (memories db) /\ Memory.id m = fst row /\ s = snd row
            /\ Memory.status m = active).
  { intros row m s H. unfold coaccess_of in H.
    destruct (select_memory (fst row) db) as [m'|] eqn:Hsel; [|destruct H].
    destruct (is_active (Memory.status m')) eqn:Hact; [|destruct H].
    destruct H as [H|[]]. injection H as <- <-.
    apply select_memory_some in Hsel. destruct Hsel as [Hin Hid].
    split; [exact Hin|]. split; [exact Hid|]. split; [reflexivity|].
    now destruct (Memory.status m'). }
  assert (Hrun : getFrequentlyCoAccessedMemories memoryId minStrength limit now db
                 = (Ok (flat_map (coaccess_of db) rows),
                    with_memories (map (touch_in (map fst rows) now) (memories db))
                      (memories_seq db) db)).
  { unfold getFrequentlyCoAccessedMemories. rewrite run_bind. unfold get at 1.
    cbn iota beta. fold rows. now rewrite coaccess_loop_run. }
  split; [exact Hrun|]. split; [reflexivity|]. split; [|split; [|split]].
  - apply (flat_map_sorted _ (fun a b : Z * R => (snd b <= snd a)%R)).
    + intros a [m s] Hy a' [m' s'] Hy' Hle.
      apply Hof in Hy. apply Hof in Hy'. cbn [snd].
      destruct Hy as (_ & _ & -> & _). destruct Hy' as (_ & _ & -> & _). exact Hle.
    + exact Hone.
    + unfold rows, coaccess_rows. apply sql_limit_sorted.
      eapply sorted_impl;
        [|apply (order_by_sorted _ by_strength_total by_strength_trans)].
      intros a b. apply Rleb_iff.
  - intro Hpos.
    assert (Hlen : (List.length (flat_map (coaccess_of db) rows)
                    <= List.length rows)%nat).
    { clear Hnd Hrun. induction rows as [|row rest IH]; [cbn; lia|].
      cbn [flat_map]. rewrite length_app. cbn [List.length].
      specialize (Hone row). lia. }
    assert (Hl : Z.of_nat (List.length rows) <= orElse limit 5)
      by (unfold rows, coaccess_rows; now apply sql_limit_length).
    lia.
  - intros m s H. apply in_flat_map in H. destruct H as (row & Hrow & H).
    apply Hof in H. destruct H as (Hin & Hid & -> & Hact).
    split; [exact Hin|]. split; [exact Hact|].
    destruct row as [k s]. cbn [fst snd] in *. subst k.
    now apply (coaccess_rows_In memoryId _ (orElse limit 5) db).
  - intros Hids m Hm. rewrite Hrun. cbn [snd].
    exists (touch_in (map fst rows) now m).
    split.
    + unfold select_memory. rewrite with_memories_memories.
      rewrite find_map_id
        by (intro x; unfold touch_in; now destruct (mem_Z _ _)).
      fold (select_memory (Memory.id m) db).
      now rewrite (select_memory_In db m Hids Hm).
    + unfold touch_in.
      destruct (mem_Z (Memory.id m) _); cbn; repeat split; lia.
Qed.

Lemma getFrequentlyCoAccessedMemories_ranks_active_neighbours_witness :
  (exists db',
     getFrequentlyCoAccessedMemories 1 None (Some 1) 50 db_coaccess = (Ok [], db')
     /\ map Memory.access_count (memories db') = [0; 0; 1])
  /\ (exists db',
        getFrequentlyCoAccessedMemories 2 None (Some 1) 50 db_coaccess_tie
        = (Ok [(memory_C8 3 5.0%R, 1%R)], db')
        /\ map Memory.access_count (memories db') = [0; 0; 1]
        /\ map Memory.accessed_at (memories db') = [0; 0; 50]).
Proof.
  assert (Hrows : coaccess_rows 1 0.5%R 1 db_coaccess = [(3, 2%R)]).
  { unfold coaccess_rows, coaccess_scan, db_coaccess. reval. reflexivity. }
  assert (Hnd : NoDup (map fst (coaccess_rows 1 (orElse None 0.5%R)
                                  (orElse (Some 1) 5) db_coaccess))).
  { cbn [orElse]. rewrite Hrows. repeat constructor. intros []. }
  assert (Hrows' : coaccess_rows 2 0.5%R 1 db_coaccess_tie = [(3, 1%R)]).
  { unfold coaccess_rows, coaccess_scan, db_coaccess_tie. reval. reflexivity. }
  assert (Hnd' : NoDup (map fst (coaccess_rows 2 (orElse None 0.5%R)
                                   (orElse (Some 1) 5) db_coaccess_tie))).
  { cbn [orElse]. rewrite Hrows'. repeat constructor. intros []. }
  split.
  - destruct (getFrequentlyCoAccessedMemories_ranks_active_neighbours
                1 None (Some 1) 50 db_coaccess Hnd)
      as (results & Hrun & Hres & _).
    eexists. rewrite Hrun, Hres. cbn [orElse]. rewrite Hrows.
    split; reflexivity.
  - destruct (getFrequentlyCoAccessedMemories_ranks_active_neighbours
                2 None (Some 1) 50 db_coaccess_tie Hnd')
      as (results & Hrun & Hres & _).
    eexists. rewrite Hrun, Hres. cbn [orElse]. rewrite Hrows'.
    repeat split.
Defined.

(** ** Statistics *)

Lemma group_count_sum {K} (values : list K) (name : K -> string)
  (has : K -> Memory.t -> bool) (rows : list Memory.t) :
  sum_Z (map snd (group_count values name has rows))
  = sum_Z (map (fun v => Z.of_nat (List.length (filter (has v) rows))) values).
Proof.
  unfold group_count. induction values as [|v values IH]; [reflexivity|].
  cbn [map filter snd]. destruct (Z.ltb_spec 0 (Z.of_nat (List.length (filter (has v) rows)))).
  - cbn [map sum_Z fold_right snd]. fold (sum_Z (map snd
        (filter (fun g => 0 <? snd g)
           (map (fun v0 => (name v0, Z.of_nat (List.length (filter (has v0) rows))))
                values)))).
    rewrite IH. reflexivity.
  - rewrite IH. cbn [sum_Z fold_right]. fold (sum_Z (map
        (fun v0 => Z.of_nat (List.length (filter (has v0) rows))) values)). lia.
Qed.

Lemma count_by_type (rows : list Memory.t) :
  sum_Z (map (fun t => Z.of_nat (List.length
                                   (filter (fun m => MemoryType_eqb (Memory.type m) t) rows)))
             [T_entity; T_error; T_lesson; T_relation])
  = Z.of_nat (List.length rows).
Proof.
  induction rows as [|m rows IH]; [reflexivity|].
  cbn [map sum_Z fold_right filter] in *.
  destruct (Memory.type m); cbn [MemoryType_eqb List.length]; lia.
Qed.

Lemma count_by_scope (rows : list Memory.t) :
  sum_Z (map (fun s => Z.of_nat (List.length
                                   (filter (fun m => MemoryScope_eqb (Memory.scope m) s) rows)))
             [global; project])
  = Z.of_nat (List.length rows).
Proof.
  induction rows as [|m rows IH]; [reflexivity|].
  cbn [map sum_Z fold_right filter] in *.
  destruct (Memory.scope m); cbn [MemoryScope_eqb List.length]; lia.
Qed.

Lemma sum_importance_bounds (rows : list Memory.t) :
  (forall m, In m rows -> 1 <= Memory.importance m <= 9) ->
  Z.of_nat (List.length rows) <= sum_Z (map Memory.importance rows)
  <= 9 * Z.of_nat (List.length rows).
Proof.
  induction rows as [|m rows IH]; intro H; [cbn; lia|].
  cbn [map sum_Z fold_right List.length].
  fold (sum_Z (map Memory.importance rows)).
  specialize (IH (fun x Hx => H x (or_intror Hx))).
  specialize (H m (or_introl eq_refl)). lia.
Qed.

Lemma group_count_In {K} (values : list K) (name : K -> string)
  (has : K -> Memory.t -> bool) (rows : list Memory.t) (key : string) (n : Z) :
  In (key, n) (group_count values name has rows) ->
  0 < n
  /\ exists v, In v values /\ name v = key
               /\ n = Z.of_nat (List.length (filter (has v) rows)).
Proof.
  unfold group_count. intro H. apply filter_In in H. destruct H as [H Hpos].
  apply Z.ltb_lt in Hpos. split; [exact Hpos|].
  apply in_map_iff in H. destruct H as (v & E & Hv). injection E as <- <-.
  now exists v.
Qed.

(** X25. Statistics.  The aggregates of [getMemoryStats] range over the
    same rows: every memory of the store whatever its status (archived
    and consolidated ones too) or, with a project hash, the memories of
    that project together with the global ones.  [total] is their number,
    the counts of [byType] add up to [total] and so do those of [byScope];
    a key is present only with a positive count.  [avgImportance] is 0 for
    no rows and otherwise the mean importance, between 1 and 9 when the
    rows satisfy the CHECK of the column. *)
Theorem getMemoryStats_counts_add_up (projectHash : option string) (db : Db) :
  (forall m, In m (memories db) -> 1 <= Memory.importance m <= 9) ->
  let stats := getMemoryStats projectHash db in
  let rows := stats_rows projectHash db in
  ms_total stats = Z.of_nat (List.length rows)
  /\ sum_Z (map snd (ms_byType stats)) = ms_total stats
  /\ sum_Z (map snd (ms_byScope stats)) = ms_total stats
  /\ (forall key n, In (key, n) (ms_byType stats) ->
        0 < n
        /\ exists t, MemoryType_name t = key
                     /\ n = Z.of_nat (List.length
                                        (filter (fun m => MemoryType_eqb (Memory.type m) t)
                                                rows)))
  /\ (forall key n, In (key, n) (ms_byScope stats) ->
        0 < n
        /\ exists s, MemoryScope_name s = key
                     /\ n = Z.of_nat (List.length
                                        (filter (fun m => MemoryScope_eqb (Memory.scope m) s)
                                                rows)))
  /\ (rows = [] -> ms_avgImportance stats = 0%R)
  /\ (rows <> [] ->
      (ms_avgImportance stats * IZR (ms_total stats)
       = IZR (sum_Z (map Memory.importance rows)))%R
      /\ (1 <= ms_avgImportance stats <= 9)%R).
Proof.
  intro Hcheck. cbv zeta. unfold getMemoryStats. cbv zeta.
  fold (stats_rows projectHash db). set (rows := stats_rows projectHash db).
  cbn [ms_total ms_byType ms_byScope ms_avgImportance].
  assert (Hrows : forall m, In m rows -> 1 <= Memory.importance m <= 9).
  { intros m Hm. apply Hcheck. unfold rows, stats_rows in Hm.
    destruct (truthy projectHash); [now apply filter_In in Hm | exact Hm]. }
  split; [reflexivity|]. split; [|split; [|split; [|split; [|split]]]].
  - rewrite group_count_sum. apply count_by_type.
  - rewrite group_count_sum. apply count_by_scope.
  - intros key n H. apply group_count_In in H.
    destruct H as (Hpos & t & _ & Hname & Hn). split; [exact Hpos|]. now exists t.
  - intros key n H. apply group_count_In in H.
    destruct H as (Hpos & s & _ & Hname & Hn). split; [exact Hpos|]. now exists s.
  - intros ->. reflexivity.
  - intro Hne.
    assert (Hpos : 0 < Z.of_nat (List.length rows))
      by (destruct rows; [congruence | cbn [List.length]; lia]).
    assert (Hpos' : (0 < IZR (Z.of_nat (List.length rows)))%R)
      by (apply IZR_lt in Hpos; exact Hpos).
    pose proof (sum_importance_bounds rows Hrows) as [Hlo Hhi].
    apply IZR_le in Hlo. apply IZR_le in Hhi. rewrite mult_IZR in Hhi.
    fold (sum_Z (map Memory.importance rows)).
    set (total := IZR (Z.of_nat (List.length rows))) in *.
    set (sum := IZR (sum_Z (map Memory.importance rows))) in *.
    assert (Havg : orElse (match rows with
                           | [] => None
                           | _ :: _ => Some (sum / total)%R
                           end) 0%R = (sum / total)%R)
      by (destruct rows; [congruence | reflexivity]).
    rewrite Havg. split.
    + field. lra.
    + split.
      * apply Rmult_le_reg_r with total; [exact Hpos'|].
        replace (sum / total * total)%R with sum by (field; lra). lra.
      * apply Rmult_le_reg_r with total; [exact Hpos'|].
        replace (sum / total * total)%R with sum by (field; lra). lra.
Qed.

Lemma getMemoryStats_counts_add_up_witness :
  let stats := getMemoryStats None db_coaccess in
  ms_total stats = 3
  /\ sum_Z (map snd (ms_byType stats)) = 3
  /\ lookup "lesson" (ms_byType stats) = Some 3
  /\ lookup "entity" (ms_byType stats) = None
  /\ (1 <= ms_avgImportance stats <= 9)%R.
Proof.
  assert (Hcheck : forall m, In m (memories db_coaccess) ->
                             1 <= Memory.importance m <= 9).
  { intros m [<-|[<-|[<-|[]]]]; cbn; lia. }
  destruct (getMemoryStats_counts_add_up None db_coaccess Hcheck)
    as (Htotal & Htypes & _ & _ & _ & _ & Havg).
  cbv zeta. split; [exact Htotal|]. split; [now rewrite Htypes|].
  split; [reflexivity|]. split; [reflexivity|].
  apply Havg. discriminate.
Defined.

(** ** Deleting many memories *)

Lemma gone_ids_mem (ids : list Z) (db : Db) (q : Z) :
  mem_Z q (gone_ids ids db) = mem_Z q ids && memory_exists q db.
Proof.
  apply Bool.eq_iff_eq_true. rewrite andb_true_iff, !mem_Z_In, memory_exists_ids.
  unfold gone_ids. rewrite !in_map_iff. split.
  - intros (m & <- & Hm). apply filter_In in Hm. destruct Hm as [Hm Hin].
    split; [now apply mem_Z_In | now exists m].
  - intros (Hq & m & <- & Hm). exists m. split; [reflexivity|].
    apply filter_In. split; [exact Hm | now apply mem_Z_In].
Qed.

Lemma map_same {A} (f : A -> A) (l : list A) :
  (forall x, In x l -> f x = x) -> map f l = l.
Proof.
  intro H. rewrite <- (map_id l) at 2. apply map_ext_in. exact H.
Qed.

Lemma orphan_of_none (gone : list Z) (m : Memory.t) :
  (forall q, mem_Z q gone = false) -> orphan_of gone m = m.
Proof.
  intro H. unfold orphan_of. destruct (Memory.parent_id m) as [q|]; [|reflexivity].
  now rewrite H.
Qed.

Lemma log_orphan_of_none (gone : list Z) (a : AutoLearn.t) :
  (forall q, mem_Z q gone = false) -> log_orphan_of gone a = a.
Proof.
  intro H. unfold log_orphan_of. destruct (AutoLearn.memory_id a) as [q|]; [|reflexivity].
  now rewrite H.
Qed.

Lemma batch_store_nil (db : Db) : batch_store [] db = db.
Proof.
  unfold batch_store. cbv zeta.
  assert (Hnone : forall q, mem_Z q (gone_ids [] db) = false)
    by (intro q; now rewrite gone_ids_mem).
  assert (Hkept : filter (fun m => negb (mem_Z (Memory.id m) [])) (memories db)
                  = memories db) by (now apply filter_all).
  rewrite Hkept. destruct db as [fk ms sq es al fs fq rs rq].
  cbn [foreign_keys memories memories_seq embeddings auto_learn_log memory_feedback
       memory_feedback_seq memory_relationships memory_relationships_seq with_memories]
    in *.
  destruct fk; [|reflexivity]. f_equal.
  - apply map_same. intros. now apply orphan_of_none.
  - apply filter_all. intros. now rewrite Hnone.
  - apply map_same. intros. now apply log_orphan_of_none.
  - apply filter_all. intros. now rewrite Hnone.
  - apply filter_all. intros. now rewrite !Hnone.
Qed.

Lemma orphan_of_id (gone : list Z) (m : Memory.t) :
  Memory.id (orphan_of gone m) = Memory.id m.
Proof.
  unfold orphan_of. destruct (Memory.parent_id m) as [q|]; [|reflexivity].
  now destruct (mem_Z q gone).
Qed.

Lemma filter_map_id {f : Memory.t -> Memory.t} (p : Z -> bool) (ms : list Memory.t) :
  (forall m, Memory.id (f m) = Memory.id m) ->
  filter (fun m => p (Memory.id m)) (map f ms)
  = map f (filter (fun m => p (Memory.id m)) ms).
Proof.
  intro Hid. induction ms as [|m ms IH]; [reflexivity|].
  cbn [map filter]. rewrite Hid. destruct (p (Memory.id m)); cbn [map]; now rewrite IH.
Qed.

(** The store after deleting [id] and then the memories [rest] in one
    statement is the store after deleting [id :: rest] in one statement. *)
Lemma batch_store_step (id : Z) (rest : list Z) (db : Db) :
  batch_store rest (snd (deleteMemory id db)) = batch_store (id :: rest) db.
Proof.
  assert (Hmem : forall q,
            mem_Z q (gone_ids (id :: rest) db)
            = (if memory_exists id db then q =? id else false)
              || mem_Z q (gone_ids rest (snd (deleteMemory id db)))).
  { intro q. rewrite !gone_ids_mem, memory_exists_after_delete.
    unfold mem_Z. cbn [existsb]. fold (mem_Z q rest).
    destruct (Z.eqb_spec q id) as [->|Hne]; cbn [orb andb negb].
    - destruct (memory_exists id db); cbn [orb]; [reflexivity|].
      now rewrite andb_false_r.
    - destruct (memory_exists id db); cbn [orb]; now rewrite andb_true_r. }
  assert (Hkept : forall ms : list Memory.t,
            filter (fun m => negb (mem_Z (Memory.id m) rest))
                   (filter (fun m => negb (Memory.id m =? id)) ms)
            = filter (fun m => negb (mem_Z (Memory.id m) (id :: rest))) ms).
  { intro ms. rewrite filter_filter. apply filter_ext. intro m.
    unfold mem_Z. cbn [existsb]. now rewrite negb_orb. }
  revert Hmem. unfold batch_store. cbv zeta.
  set (G := gone_ids (id :: rest) db).
  rewrite deleteMemory_run. cbn [snd]. cbv zeta.
  destruct (foreign_keys db) eqn:Hfk; cbn [andb].
  - destruct (memory_exists id db) eqn:Hex.
    + set (db1 := mkDb _ _ _ _ _ _ _ _ _).
      set (G1 := gone_ids rest db1). intro Hmem.
      cbn [foreign_keys memories memories_seq embeddings auto_learn_log
           memory_feedback memory_feedback_seq memory_relationships
           memory_relationships_seq db1].
      f_equal.
      * rewrite (filter_map_id (fun k => negb (mem_Z k rest))) by apply orphan_id.
        rewrite Hkept, map_map. apply map_ext. intro m.
        unfold orphan_of, Memory.orphan.
        destruct (Memory.parent_id m) as [q|] eqn:Eq; [|now rewrite Eq].
        rewrite Hmem. destruct (q =? id); cbn [orb].
        -- reflexivity.
        -- now rewrite Eq.
      * rewrite filter_filter. apply filter_ext. intro e.
        rewrite Hmem, negb_orb. reflexivity.
      * rewrite map_map. apply map_ext. intro a.
        unfold log_orphan_of, AutoLearn.orphan.
        destruct (AutoLearn.memory_id a) as [q|] eqn:Eq; [|now rewrite Eq].
        rewrite Hmem. destruct (q =? id); cbn [orb].
        -- reflexivity.
        -- now rewrite Eq.
      * rewrite filter_filter. apply filter_ext. intro f.
        rewrite Hmem, negb_orb. reflexivity.
      * rewrite filter_filter. apply filter_ext. intro r.
        rewrite !Hmem, !negb_orb.
        destruct (MemoryRelationship.source_id r =? id),
                 (MemoryRelationship.target_id r =? id),
                 (mem_Z (MemoryRelationship.source_id r) G1),
                 (mem_Z (MemoryRelationship.target_id r) G1); reflexivity.
    + set (db1 := with_memories _ _ db).
      set (G1 := gone_ids rest db1). intro Hmem. cbn [orb] in Hmem.
      assert (Hfk1 : foreign_keys db1 = true) by exact Hfk.
      rewrite Hfk1.
      cbn [memories memories_seq embeddings auto_learn_log memory_feedback
           memory_feedback_seq memory_relationships memory_relationships_seq
           db1 with_memories].
      rewrite Hkept. f_equal.
      * apply map_ext. intro m. unfold orphan_of.
        destruct (Memory.parent_id m) as [q|]; [|reflexivity]. now rewrite Hmem.
      * apply filter_ext. intro e. now rewrite Hmem.
      * apply map_ext. intro a. unfold log_orphan_of.
        destruct (AutoLearn.memory_id a) as [q|]; [|reflexivity]. now rewrite Hmem.
      * apply filter_ext. intro f. now rewrite Hmem.
      * apply filter_ext. intro r. now rewrite !Hmem.
  - intros _. set (db1 := with_memories _ _ db).
    assert (Hfk1 : foreign_keys db1 = false) by exact Hfk.
    rewrite Hfk1. unfold db1, with_memories.
    cbn [foreign_keys memories memories_seq embeddings auto_learn_log memory_feedback
         memory_feedback_seq memory_relationships memory_relationships_seq].
    rewrite Hkept. reflexivity.
Qed.

Lemma filter_partition_length {A} (p q : A -> bool) (l : list A) :
  List.length (filter (fun x => p x || q x) l)
  = (List.length (filter p l)
     + List.length (filter q (filter (fun x => negb (p x)) l)))%nat.
Proof.
  induction l as [|x l IH]; [reflexivity|]. cbn [filter].
  destruct (p x); cbn [orb negb filter List.length].
  - now rewrite IH.
  - destruct (q x); cbn [List.length]; rewrite IH; lia.
Qed.

Lemma one_row_per_id (id : Z) (ms : list Memory.t) :
  NoDup (map Memory.id ms) ->
  List.length (filter (fun m => Memory.id m =? id) ms)
  = if existsb (fun m => Memory.id m =? id) ms then 1%nat else 0%nat.
Proof.
  induction ms as [|m ms IH]; intro Hnd; [reflexivity|].
  cbn [map] in Hnd. inversion Hnd as [|? ? Hnotin Hnd']; subst.
  cbn [filter existsb]. destruct (Z.eqb_spec (Memory.id m) id) as [E|E]; cbn [orb].
  - cbn [List.length]. rewrite filter_none; [reflexivity|].
    intros x Hx. apply Z.eqb_neq. intro Ex. apply Hnotin. rewrite E, <- Ex.
    now apply in_map.
  - now apply IH.
Qed.

Lemma batch_count_step (id : Z) (rest : list Z) (db : Db) :
  NoDup (map Memory.id (memories db)) ->
  batch_count (id :: rest) db
  = (if memory_exists id db then 1 else 0)
    + batch_count rest (snd (deleteMemory id db)).
Proof.
  intro Hnd. unfold batch_count.
  assert (Hsplit : forall m, mem_Z (Memory.id m) (id :: rest)
                             = (Memory.id m =? id) || mem_Z (Memory.id m) rest)
    by reflexivity.
  rewrite (filter_ext _ _ Hsplit), filter_partition_length, Nat2Z.inj_add.
  rewrite (one_row_per_id id _ Hnd). fold (memory_exists id db).
  assert (Hrest : List.length
                    (filter (fun m => mem_Z (Memory.id m) rest)
                       (memories (snd (deleteMemory id db))))
                  = List.length
                      (filter (fun m => mem_Z (Memory.id m) rest)
                         (filter (fun m => negb (Memory.id m =? id)) (memories db)))).
  { rewrite deleteMemory_run. cbn [snd]. cbv zeta.
    destruct (foreign_keys db && memory_exists id db); cbn [memories with_memories];
      [|reflexivity].
    rewrite (filter_map_id (fun k => mem_Z k rest)) by apply orphan_id.
    apply length_map. }
  rewrite Hrest. destruct (memory_exists id db); lia.
Qed.

Lemma delete_each_run (ids : list Z) : forall db,
  NoDup (map Memory.id (memories db)) ->
  delete_each ids db = (Ok (batch_count ids db), batch_store ids db).
Proof.
  induction ids as [|id rest IH]; intros db Hnd.
  - cbn [delete_each]. rewrite batch_store_nil. unfold batch_count.
    rewrite filter_none by reflexivity. reflexivity.
  - cbn [delete_each]. rewrite run_bind.
    rewrite <- batch_store_step, (batch_count_step id rest db Hnd).
    assert (Hnd1 : NoDup (map Memory.id (memories (snd (deleteMemory id db)))))
      by (rewrite deleteMemory_ids; now apply NoDup_filter).
    specialize (IH _ Hnd1). revert IH. rewrite deleteMemory_run. cbn [snd].
    intro IH. cbn iota beta. rewrite run_bind, IH. reflexivity.
Qed.

(** X26. Deleting many memories at once.  In a store with unique ids,
    and for a list that has no more ids than a statement may have
    parameters, [deleteMemoriesByQuery] leaves the store exactly as calling
    [deleteMemory] on each id in turn does, with every foreign-key action
    on embeddings, feedback, relationships, the auto-learn log and the
    children of the deleted memories, and returns the number of successful
    calls: the number of listed ids that were memories, each counted once.
    For an empty list it returns 0 and writes nothing.  For a longer list
    the statement is refused and nothing is deleted. *)
Theorem deleteMemoriesByQuery_is_deleteMemory_on_each
  (maxVariables : Z) (ids : list Z) (db : Db) :
  NoDup (map Memory.id (memories db)) ->
  (Z.of_nat (List.length ids) <= maxVariables ->
   deleteMemoriesByQuery maxVariables ids db = delete_each ids db
   /\ fst (deleteMemoriesByQuery maxVariables ids db)
      = Ok (Z.of_nat (List.length
                        (filter (fun k => mem_Z k ids) (map Memory.id (memories db)))))
   /\ (forall k, memory_exists k (snd (deleteMemoriesByQuery maxVariables ids db))
                 = memory_exists k db && negb (mem_Z k ids)))
  /\ (maxVariables < Z.of_nat (List.length ids) -> ids <> [] ->
      deleteMemoriesByQuery maxVariables ids db
      = (Throw (SqliteError "SQLITE_ERROR"), db)).
Proof.
  intro Hnd. split.
  - intro Hfit.
    assert (Hrun : deleteMemoriesByQuery maxVariables ids db
                   = (Ok (batch_count ids db), batch_store ids db)).
    { destruct ids as [|id rest].
      - cbn [deleteMemoriesByQuery]. rewrite batch_store_nil. unfold batch_count.
        rewrite filter_none by reflexivity. reflexivity.
      - unfold deleteMemoriesByQuery, batch_store, batch_count, gone_ids.
        destruct (Z.ltb_spec maxVariables (Z.of_nat (List.length (id :: rest))));
          [lia|].
        rewrite run_bind. unfold get at 1. cbn iota beta. cbv zeta.
        rewrite run_bind. unfold put at 1. cbn iota beta. reflexivity. }
    split; [now rewrite delete_each_run|]. rewrite Hrun. cbn [fst snd]. split.
    + unfold batch_count. rewrite <- (map_id_filter (fun k => mem_Z k ids)).
      now rewrite length_map.
    + intro k. apply Bool.eq_iff_eq_true.
      rewrite andb_true_iff, negb_true_iff, !memory_exists_ids.
      assert (Hids : map Memory.id (memories (batch_store ids db))
                     = filter (fun k => negb (mem_Z k ids))
                         (map Memory.id (memories db))).
      { rewrite <- (map_id_filter (fun k => negb (mem_Z k ids))).
        unfold batch_store. cbv zeta.
        destruct (foreign_keys db); cbn [memories with_memories]; [|reflexivity].
        rewrite map_map. apply map_ext. intro m. apply orphan_of_id. }
      rewrite Hids, filter_In, negb_true_iff. tauto.
  - intros Hlong Hne. destruct ids as [|id rest]; [congruence|].
    unfold deleteMemoriesByQuery.
    destruct (Z.ltb_spec maxVariables (Z.of_nat (List.length (id :: rest))));
      [reflexivity | lia].
Qed.

Lemma deleteMemoriesByQuery_is_deleteMemory_on_each_witness :
  deleteMemoriesByQuery 999 [1; 9; 1] db_C6_linked
  = delete_each [1; 9; 1] db_C6_linked
  /\ fst (deleteMemoriesByQuery 999 [1; 9; 1] db_C6_linked) = Ok 1.
Proof.
  assert (Hnd : NoDup (map Memory.id (memories db_C6_linked))).
  { repeat constructor; cbn; intuition discriminate. }
  destruct (proj1 (deleteMemoriesByQuery_is_deleteMemory_on_each 999 [1; 9; 1]
                     db_C6_linked Hnd) ltac:(cbn; lia))
    as (Hsame & Hcount & _).
  split; [exact Hsame | exact Hcount].
Defined.

(** ** Refreshing a topic *)

(** X27. Refreshing a topic.  [refresh] succeeds and only reads: the store
    is left as it was, so no access is counted for the memories it
    returns.  It returns at most 20 memories (50 with depth 'deep'), each
    an active memory of the project of the call or of the global scope,
    and [total] is their number.  When the semantic search is not
    available, fails or finds nothing, the result is the best-ranked
    memories of [queryMemories] whatever the topic: without an API key two
    calls with different topics return the same memories. *)
Theorem refresh_reads_only
  (host : Host) (env : ToolHost) (input : RefreshInput)
  (projectHash : option string) (db : Db) :
  exists r,
    refresh host env input projectHash db = (Ok r, db)
    /\ rr_success r = true
    /\ rr_total r = Z.of_nat (List.length (rr_memories r))
    /\ rr_total r <= depth_limit (rf_depth input)
    /\ (forall x, In x (rr_memories r) ->
          exists m, x = refreshed env m /\ forgettable projectHash db (Memory.id m)
                    /\ In m (memories db))
    /\ (hasApiKey env && isEmbeddingsAvailable host = false ->
        rr_memories r
        = map (refreshed env)
            (top_ranked projectHash (depth_limit (rf_depth input)) db)
        /\ forall topic,
             exists r',
               refresh host env (Build_RefreshInput topic (rf_depth input))
                 projectHash db = (Ok r', db)
               /\ rr_memories r' = rr_memories r).
Proof.
  set (limit := depth_limit (rf_depth input)).
  assert (Hlimit : 0 <= limit)
    by (unfold limit, depth_limit; destruct (rf_depth input) as [[|]|]; lia).
  assert (Hcand : forall m (options : SearchOptions),
            so_scope options = Some None -> so_projectHash options = projectHash ->
            In m (top_ranked projectHash limit db)
            \/ In m (search_candidates options db) ->
            forgettable projectHash db (Memory.id m) /\ In m (memories db)).
  { intros m options Hs Hp [H|H];
      [|unfold search_candidates in H; rewrite Hs, Hp in H];
      apply queryMemories_In in H;
      destruct H as (Hm & Hst & _ & Hproj & _);
      (split; [|exact Hm]; exists m; split; [exact Hm|]; split; [reflexivity|];
       split; [destruct Hst as [Hst|Hst]; [discriminate | exact Hst] | exact Hproj]). }
  assert (Hrun : forall topic,
            exists found,
              refresh host env (Build_RefreshInput topic (rf_depth input))
                projectHash db
              = (Ok (Build_RefreshResult true topic (map (refreshed env) found)
                       (generateSummary topic (map (refreshed env) found))
                       (Z.of_nat (List.length (map (refreshed env) found)))),
                 db)
              /\ (List.length found <= Z.to_nat limit)%nat
              /\ (forall m, In m found ->
                    forgettable projectHash db (Memory.id m) /\ In m (memories db))
              /\ (hasApiKey env && isEmbeddingsAvailable host = false ->
                  found = top_ranked projectHash limit db)).
  { intro topic. unfold refresh. cbv zeta. cbn [rf_topic rf_depth].
    assert (Elimit : match orElse (rf_depth input) shallow with
                     | shallow => 20 | deep => 50 end = limit)
      by (unfold limit, depth_limit; now destruct (rf_depth input) as [[|]|]).
    rewrite Elimit. fold (top_ranked projectHash limit db).
    set (minSimilarity := match orElse (rf_depth input) shallow with
                          | shallow => 0.4%R | deep => 0.2%R end).
    set (options := Build_SearchOptions (Some limit) (Some minSimilarity) (Some None)
                      projectHash (config_embedding_model env)).
    rewrite run_bind.
    set (search := if hasApiKey env && isEmbeddingsAvailable host then _ else _).
    assert (Hsearch : exists semantic,
              search db = (Ok semantic, db)
              /\ (List.length semantic <= Z.to_nat limit)%nat
              /\ (forall m, In m semantic ->
                    forgettable projectHash db (Memory.id m) /\ In m (memories db))
              /\ (hasApiKey env && isEmbeddingsAvailable host = false ->
                  semantic = [])).
    { unfold search. destruct (hasApiKey env && isEmbeddingsAvailable host).
      - unfold try_catch. rewrite run_bind.
        destruct (searchBySimilarity_reads host topic options db) as [Hdb Hres].
        destruct (searchBySimilarity host topic options db) as [[results|err] db1];
          cbn [fst snd] in Hdb, Hres; subst db1.
        + destruct (Hres results eq_refl) as [Hlen Hin].
          cbn [so_limit orElse options] in Hlen. specialize (Hlen Hlimit).
          exists (map fst results). cbn iota beta. unfold ret.
          split; [reflexivity|]. rewrite length_map. split; [lia|].
          split; [|discriminate].
          intros m Hm. apply in_map_iff in Hm. destruct Hm as (x & <- & Hx).
          apply (Hcand _ options eq_refl eq_refl). right. now apply Hin.
        + exists []. cbn iota beta. unfold ret. split; [reflexivity|].
          split; [cbn; lia|]. split; [intros m [] | discriminate].
      - exists []. split; [reflexivity|]. split; [cbn; lia|].
        split; [intros m [] | reflexivity]. }
    destruct Hsearch as (semantic & -> & Hlen & Hsem & Hnone). cbn iota beta.
    rewrite run_bind.
    destruct semantic as [|s0 rest].
    - rewrite run_bind. unfold get at 1. cbn iota beta. unfold ret at 1.
      cbn iota beta. unfold ret.
      exists (top_ranked projectHash limit db). split; [reflexivity|].
      split; [|split; [|reflexivity]].
      + pose proof (queryMemories_length
                      (Build_QueryMemoriesInput (Some None) projectHash None None
                         (Some limit) None None) db limit eq_refl Hlimit) as Hq.
        fold (top_ranked projectHash limit db) in Hq. lia.
      + intros m Hm. apply (Hcand _ options eq_refl eq_refl). now left.
    - unfold ret at 1. cbn iota beta. unfold ret.
      exists (s0 :: rest). split; [reflexivity|]. split; [exact Hlen|].
      split; [exact Hsem|]. intro Hoff. now apply Hnone in Hoff. }
  destruct (Hrun (rf_topic input)) as (found & Hr & Hlen & Hin & Hoff).
  assert (Einput : Build_RefreshInput (rf_topic input) (rf_depth input) = input)
    by (now destruct input).
  rewrite Einput in Hr.
  eexists. split; [exact Hr|]. cbn [rr_success rr_total rr_memories].
  split; [reflexivity|]. split; [reflexivity|]. split; [|split].
  - rewrite length_map. lia.
  - intros x Hx. apply in_map_iff in Hx. destruct Hx as (m & <- & Hm).
    exists m. split; [reflexivity|]. now apply Hin.
  - intro Hno. split; [now rewrite (Hoff Hno)|].
    intro topic. destruct (Hrun topic) as (found' & Hr' & _ & _ & Hoff').
    eexists. split; [exact Hr'|]. cbn [rr_memories].
    now rewrite (Hoff Hno), (Hoff' Hno).
Qed.

(** ** Remembering *)

Lemma createMemory_ok (input : CreateMemoryInput) (now : Z) (db : Db) :
  let importance := match cm_importance input with Some i => i | None => 5 end in
  let id := next_rowid (memories_seq db) (map Memory.id (memories db)) in
  let row :=
    Memory.mk id (cm_type input) (cm_encoded input) (cm_decodedCache input)
      (cm_scope input) (cm_projectHash input) importance now now 0
      5.0%R 0 0 active None 1 None in
  createMemory input now db
  = if (1 <=? importance) && (importance <=? 9)
    then (Ok row, with_memories (memories db ++ [row]) id db)
    else (Throw CHECK_FAILED, db).
Proof.
  cbv zeta. unfold createMemory. rewrite run_bind. unfold get at 1.
  cbn iota beta. cbv zeta.
  now destruct ((1 <=? _) && (_ <=? 9)).
Qed.

(** X28. Remembering.  With an importance between 1 and 9 (5 when none is
    given), [remember] succeeds and adds exactly one memory: an active
    level-1 row with a fresh id, which it returns, the type [mapType]
    gives, global scope for 'both', and the project hash only for the
    project scope.  The memory is stored whatever happens to its
    embedding: with no warning the embedding of the content is stored for
    the new id, and with a warning (no API key, or the embedding call or
    its storage failed) the table of embeddings is as before.  With an
    importance outside 1..9 the CHECK of the column makes [remember] throw
    and nothing is stored. *)
Theorem remember_stores_one_memory
  (host : Host) (env : ToolHost) (input : RememberInput)
  (projectHash : option string) (now : Z) (db : Db) :
  let importance := orElse (rem_importance input) 5 in
  let newId := next_rowid (memories_seq db) (map Memory.id (memories db)) in
  let row := remembered_row host env input projectHash now newId in
  (1 <= importance <= 9 ->
   exists r db',
     remember host env input projectHash now db = (Ok r, db')
     /\ rem_success r = true
     /\ rem_memoryId r = newId
     /\ ~ In newId (map Memory.id (memories db))
     /\ memories db' = memories db ++ [row]
     /\ memory_feedback db' = memory_feedback db
     /\ memory_relationships db' = memory_relationships db
     /\ (rem_warning r = None ->
         exists v, generateEmbedding host (rem_content input)
                     (orElse (config_embedding_model env) embedding_model) = Ok v
                   /\ getEmbedding newId db' = Some v)
     /\ (rem_warning r <> None -> embeddings db' = embeddings db))
  /\ (~ 1 <= importance <= 9 ->
      remember host env input projectHash now db = (Throw CHECK_FAILED, db)).
Proof.
  cbv zeta. unfold remember. cbv zeta. rewrite run_bind, createMemory_ok.
  cbn [cm_importance cm_type cm_encoded cm_decodedCache cm_scope cm_projectHash].
  fold (remembered_row host env input projectHash now
          (next_rowid (memories_seq db) (map Memory.id (memories db)))).
  set (newId := next_rowid (memories_seq db) (map Memory.id (memories db))).
  set (row := remembered_row host env input projectHash now newId).
  set (importance := orElse (rem_importance input) 5).
  destruct ((1 <=? importance) && (importance <=? 9)) eqn:Hcheck.
  2:{ split; [|reflexivity]. intro H.
      apply andb_false_iff in Hcheck. rewrite !Z.leb_gt in Hcheck. lia. }
  split; [intros _ | intro H; apply andb_true_iff in Hcheck;
                     rewrite !Z.leb_le in Hcheck; lia].
  cbn iota beta. set (db1 := with_memories (memories db ++ [row]) newId db).
  assert (Hid : Memory.id row = newId) by reflexivity. rewrite Hid.
  assert (Hex : memory_exists newId db1 = true).
  { apply memory_exists_ids. unfold db1. rewrite with_memories_memories, map_app.
    apply in_or_app. right. now left. }
  rewrite run_bind.
  destruct (hasApiKey env && isEmbeddingsAvailable host).
  - unfold try_catch. rewrite run_bind. unfold embedMemoryWith. cbv zeta.
    destruct (generateEmbedding host (rem_content input) _) as [v|err] eqn:Hgen.
    + rewrite storeEmbedding_run, Hex, andb_false_r. cbn iota beta.
      unfold ret. eexists _, _. split; [reflexivity|].
      cbn [rem_success rem_memoryId rem_warning].
      split; [reflexivity|]. split; [reflexivity|].
      split; [apply next_rowid_fresh|]. split; [reflexivity|].
      split; [reflexivity|]. split; [reflexivity|]. split; [|congruence].
      intros _. exists v. split; [reflexivity|].
      unfold getEmbedding. cbn [embeddings with_embeddings].
      rewrite find_app_right by apply find_filter_same.
      cbn [find Embedding.memory_id]. now rewrite Z.eqb_refl.
    + unfold throw. cbn iota beta. unfold ret.
      eexists _, _. split; [reflexivity|].
      cbn [rem_success rem_memoryId rem_warning].
      split; [reflexivity|]. split; [reflexivity|].
      split; [apply next_rowid_fresh|]. split; [reflexivity|].
      split; [reflexivity|]. split; [reflexivity|]. split; [discriminate|].
      reflexivity.
  - unfold ret. eexists _, _. split; [reflexivity|].
    cbn [rem_success rem_memoryId rem_warning].
    split; [reflexivity|]. split; [reflexivity|].
    split; [apply next_rowid_fresh|]. split; [reflexivity|].
    split; [reflexivity|]. split; [reflexivity|]. split; [discriminate|].
    reflexivity.
Qed.

Lemma remember_stores_one_memory_witness :
  exists r db',
    remember host_unit env_forget
      (Build_RememberInput "use strict mode" (Some "pattern") None None) (Some "abc")
      77 db_C3
    = (Ok r, db')
    /\ rem_memoryId r = 3
    /\ List.length (memories db') = 3%nat
    /\ rem_warning r <> None.
Proof.
  destruct (proj1 (remember_stores_one_memory host_unit env_forget
                     (Build_RememberInput "use strict mode" (Some "pattern") None None)
                     (Some "abc") 77 db_C3) ltac:(cbn; lia))
    as (r & db' & Hrun & _ & Hid & _ & Hms & _).
  exists r, db'. split; [exact Hrun|]. split; [exact Hid|].
  split; [now rewrite Hms|].
  unfold remember in Hrun. cbn in Hrun. injection Hrun as <- _. discriminate.
Defined.

(** ** Updating a memory *)

Lemma updateMemory_run (input : UpdateMemoryInput) (now : Z) (db : Db) :
  names_a_field input ->
  updateMemory input now db
  = if memory_exists (um_id input) db
       && negb match um_importance input with
               | Some i => (1 <=? i) && (i <=? 9)
               | None => true
               end
    then (Throw CHECK_FAILED, db)
    else (Ok (memory_exists (um_id input) db),
          update_memory (um_id input) (set_fields input now) db).
Proof.
  intro Hfield. unfold updateMemory.
  assert (Hbody : forall k : M bool,
            match um_encoded input, um_decodedCache input, um_importance input with
            | None, None, None => ret false
            | _, _, _ => k
            end = k).
  { intro k. destruct Hfield as [H|[H|H]];
      destruct (um_encoded input), (um_decodedCache input), (um_importance input);
      congruence. }
  rewrite Hbody. rewrite run_bind. unfold get at 1. cbn iota beta. cbv zeta.
  now destruct (memory_exists (um_id input) db && _).
Qed.

(** X29. Updating a memory.  Without a field to set, [updateMemory]
    returns false and runs no statement, also for a memory of the store.
    With a field, it returns whether the id is a memory; the memory then
    has the fields given and [accessedAt = now], and everything else as
    before: the update is not counted as an access, the usefulness score
    is not recomputed for a new importance and the stored embedding is not
    touched for a new encoding.  The other memories are as before, and for
    an id that is no memory nothing changes.  A new importance outside
    1..9 on a memory of the store throws, and nothing changes. *)
Theorem updateMemory_sets_the_given_fields
  (input : UpdateMemoryInput) (now : Z) (db : Db) :
  (~ names_a_field input -> updateMemory input now db = (Ok false, db))
  /\ (names_a_field input ->
      match select_memory (um_id input) db with
      | None => updateMemory input now db = (Ok false, db)
      | Some m =>
          (importance_in_range input ->
           exists db',
             updateMemory input now db = (Ok true, db')
             /\ select_memory (um_id input) db' = Some (set_fields input now m)
             /\ (exists m', select_memory (um_id input) db' = Some m'
                            /\ has_the_given_fields input now m m')
             /\ Memory.access_count (set_fields input now m) = Memory.access_count m
             /\ Memory.usefulness_score (set_fields input now m)
                = Memory.usefulness_score m
             /\ Memory.accessed_at (set_fields input now m) = now
             /\ (forall k, k <> um_id input ->
                   select_memory k db' = select_memory k db)
             /\ embeddings db' = embeddings db
             /\ fst (getMemory (um_id input) now db')
                = Ok (Some (set_fields input now m)))
          /\ (~ importance_in_range input ->
              updateMemory input now db = (Throw CHECK_FAILED, db))
      end).
Proof.
  split.
  - intro Hno. unfold updateMemory, names_a_field in *.
    destruct (um_encoded input); [exfalso; apply Hno; left; discriminate|].
    destruct (um_decodedCache input);
      [exfalso; apply Hno; right; left; discriminate|].
    destruct (um_importance input);
      [exfalso; apply Hno; right; right; discriminate|].
    reflexivity.
  - intro Hfield. rewrite (updateMemory_run input now db Hfield).
    rewrite memory_exists_select.
    destruct (select_memory (um_id input) db) as [m|] eqn:Hsel.
    + cbn [andb]. split.
      * intro Hrange.
        assert (Hok : match um_importance input with
                      | Some i => (1 <=? i) && (i <=? 9)
                      | None => true
                      end = true).
        { unfold importance_in_range in Hrange.
          destruct (um_importance input) as [i|]; [|reflexivity].
          specialize (Hrange i eq_refl). apply andb_true_iff.
          split; apply Z.leb_le; lia. }
        rewrite Hok. cbn [negb].
        eexists. split; [reflexivity|].
        assert (Hnew : select_memory (um_id input)
                         (update_memory (um_id input) (set_fields input now) db)
                       = Some (set_fields input now m)).
        { rewrite select_memory_update_same by reflexivity. now rewrite Hsel. }
        split; [exact Hnew|].
        split.
        { exists (set_fields input now m). split; [exact Hnew|].
          unfold has_the_given_fields, set_fields, orElse.
          cbn [Memory.encoded Memory.decoded_cache Memory.importance
               Memory.accessed_at].
          repeat split. }
        split; [reflexivity|]. split; [reflexivity|].
        split; [reflexivity|]. split; [|split; [reflexivity|]].
        -- intros k Hk. now apply select_memory_update_other.
        -- rewrite getMemory_run, Hnew. reflexivity.
      * intro Hbad.
        assert (Hko : match um_importance input with
                      | Some i => (1 <=? i) && (i <=? 9)
                      | None => true
                      end = false).
        { unfold importance_in_range in Hbad.
          destruct (um_importance input) as [i|].
          - destruct ((1 <=? i) && (i <=? 9)) eqn:E; [|reflexivity].
            exfalso. apply Hbad. intros i' Ei. injection Ei as <-.
            apply andb_true_iff in E. rewrite !Z.leb_le in E. lia.
          - exfalso. apply Hbad. intros i Ei. discriminate. }
        now rewrite Hko.
    + cbn [andb]. unfold update_memory.
      unfold select_memory in Hsel. rewrite (find_none_map_id _ _ _ Hsel).
      now rewrite with_memories_same.
Qed.

Lemma updateMemory_sets_the_given_fields_witness :
  exists db',
    updateMemory (Build_UpdateMemoryInput 1 None (Some "strict") (Some 9)) 77 db_C3
    = (Ok true, db')
    /\ option_map Memory.importance (select_memory 1 db') = Some 9
    /\ option_map Memory.decoded_cache (select_memory 1 db') = Some (Some "strict")
    /\ option_map Memory.encoded (select_memory 1 db') = Some "enc"
    /\ option_map Memory.accessed_at (select_memory 1 db') = Some 77
    /\ option_map Memory.access_count (select_memory 1 db') = Some 0
    /\ option_map Memory.importance (select_memory 1 db_C3) = Some 6
    /\ option_map Memory.decoded_cache (select_memory 1 db_C3)
       = Some (Some "use strict mode")
    /\ option_map Memory.accessed_at (select_memory 1 db_C3) = Some 0.
Proof.
  assert (Hsel0 : select_memory 1 db_C3 = Some (memory_C3 1 6)) by reflexivity.
  assert (Hfield : names_a_field
                     (Build_UpdateMemoryInput 1 None (Some "strict") (Some 9)))
    by (right; right; discriminate).
  destruct (updateMemory_sets_the_given_fields
              (Build_UpdateMemoryInput 1 None (Some "strict") (Some 9)) 77 db_C3)
    as [_ H].
  specialize (H Hfield). cbn [um_id] in H. rewrite Hsel0 in H. destruct H as [H _].
  destruct H as (db' & Hrun & _ & (m' & Hsel & He & Hd & Hi & Ha & Hrest) & _).
  { intros i E. injection E as <-. lia. }
  exists db'. split; [exact Hrun|].
  rewrite Hsel, Hsel0. cbn [option_map].
  rewrite He, Hd, Hi, Ha.
  assert (Hc : Memory.access_count m' = 0).
  { unfold unset_columns in Hrest. now injection Hrest. }
  rewrite Hc. repeat split.
Defined.

(** ** The tools and the invariants *)

Lemma deleteMemoriesByQuery_store (maxVariables : Z) (ids : list Z) (db : Db) :
  snd (deleteMemoriesByQuery maxVariables ids db) = db
  \/ snd (deleteMemoriesByQuery maxVariables ids db) = batch_store ids db.
Proof.
  destruct ids as [|id rest]; [now left|].
  unfold deleteMemoriesByQuery.
  destruct (maxVariables <? _); [now left|]. right.
  unfold batch_store, gone_ids. rewrite run_bind. unfold get at 1.
  cbn iota beta. cbv zeta. rewrite run_bind. unfold put at 1. reflexivity.
Qed.

Section EveryTool.
Variable P : Db -> Db -> Prop.
Hypothesis P_refl : forall db, P db db.
Hypothesis P_trans : forall a b c, P a b -> P b c -> P a c.
Hypothesis P_other_tables :
  forall db db', foreign_keys db' = foreign_keys db -> memories db' = memories db ->
                 memory_feedback db' = memory_feedback db -> P db db'.
Hypothesis P_unique :
  forall db db', (NoDup (map Memory.id (memories db)) -> P db db') -> P db db'.
Hypothesis P_initializeSchema : forall db, P db (initializeSchema db).
Hypothesis P_getMemory : forall id now, preserves P (getMemory id now).
Hypothesis P_createMemory : forall input now, preserves P (createMemory input now).
Hypothesis P_deleteMemory : forall id, preserves P (deleteMemory id).
Hypothesis P_updateMemory : forall input now, preserves P (updateMemory input now).
Hypothesis P_coAccessPair : forall x now a b, preserves P (coAccessPair x now a b).

Let tool_ret {A} (a : A) : preserves P (ret a) := preserves_ret P P_refl a.

Let tool_bind {A B} (c : M A) (k : A -> M B) :
  preserves P c -> (forall a, preserves P (k a)) -> preserves P (bind c k)
  := preserves_bind P P_trans c k.

Lemma tool_try {A} (c : M A) (handler : Exn -> M A) :
  preserves P c -> (forall e, preserves P (handler e)) ->
  preserves P (try_catch c handler).
Proof. apply preserves_try_catch, P_trans. Qed.

Lemma tool_searchBySimilarity host query options :
  preserves P (searchBySimilarity host query options).
Proof.
  intro db. rewrite (proj1 (searchBySimilarity_reads host query options db)).
  apply P_refl.
Qed.

Lemma tool_storeEmbedding id v model : preserves P (storeEmbedding id v model).
Proof.
  intro db. rewrite storeEmbedding_run.
  destruct (foreign_keys db && negb (memory_exists id db)); cbn [snd];
    [apply P_refl | now apply P_other_tables].
Qed.

Lemma tool_deleteEmbedding id : preserves P (deleteEmbedding id).
Proof. intro db. rewrite deleteEmbedding_run. now apply P_other_tables. Qed.

Lemma tool_forget_loop ids : forall acc, preserves P (forget_loop ids acc).
Proof.
  induction ids as [|id rest IH]; intro acc; cbn [forget_loop]; [apply tool_ret|].
  apply tool_bind; [apply P_deleteMemory|]. intros [|]; [|apply IH].
  apply tool_bind; [apply tool_deleteEmbedding | intros _; apply IH].
Qed.

Lemma tool_delete_each ids : preserves P (delete_each ids).
Proof.
  induction ids as [|id rest IH]; cbn [delete_each]; [apply tool_ret|].
  apply tool_bind; [apply P_deleteMemory|]. intros success.
  apply tool_bind; [exact IH | intros n; apply tool_ret].
Qed.

Lemma tool_recordCoAccess ids x now : preserves P (recordCoAccess ids x now).
Proof.
  unfold recordCoAccess. destruct (_ <? 2); [apply tool_ret|].
  induction ids as [|a rest IH]; cbn [coAccessLoop]; [apply tool_ret|].
  apply tool_bind; [|intros _; exact IH].
  apply preserves_forM; [apply P_refl | apply P_trans|]. intro b. apply P_coAccessPair.
Qed.

Lemma tool_learn_loop now patterns : forall total,
  preserves P (learn_loop now patterns total).
Proof.
  induction patterns as [|[key ids] rest IH]; intro total; cbn [learn_loop];
    [apply tool_ret|].
  apply tool_bind; [apply tool_recordCoAccess | intros _; apply IH].
Qed.

Lemma tool_coaccess_loop now rows : forall results,
  preserves P (coaccess_loop now rows results).
Proof.
  induction rows as [|row rest IH]; intro results; cbn [coaccess_loop];
    [apply tool_ret|].
  apply tool_bind; [apply P_getMemory|]. intros [m|]; [|apply IH].
  destruct (is_active (Memory.status m)); apply IH.
Qed.

Lemma tool_remember host env input projectHash now :
  preserves P (remember host env input projectHash now).
Proof.
  unfold remember. cbv zeta.
  apply tool_bind; [apply P_createMemory|]. intro memory.
  apply tool_bind; [|intros w; apply tool_ret].
  destruct (hasApiKey env && isEmbeddingsAvailable host); [|apply tool_ret].
  apply tool_try; [|intros e; apply tool_ret].
  apply tool_bind; [|intros _; apply tool_ret].
  unfold embedMemoryWith. cbv zeta.
  destruct (generateEmbedding host _ _);
    [apply tool_storeEmbedding | apply preserves_throw, P_refl].
Qed.

Lemma tool_forget host env input projectHash :
  preserves P (forget host env input projectHash).
Proof.
  assert (Hquery : forall query,
            preserves P
              (semantic <-
                 (if hasApiKey env && isEmbeddingsAvailable host
                  then
                    try_catch
                      (results <- searchBySimilarity host query
                                    (Build_SearchOptions (Some 50) (Some 0.6%R)
                                       (Some None) projectHash
                                       (config_embedding_model env)) ;;
                       ret (map (fun r => (Memory.id (fst r),
                                           decoded_content env (fst r)))
                                results))
                      (fun _ => ret [])
                  else ret []) ;;
               memoriesToDelete <-
                 (match semantic with
                  | [] =>
                      db <- get ;;
                      let memories :=
                        queryMemories
                          (Build_QueryMemoriesInput (Some None) projectHash None
                             None (Some 50) None None)
                          db in
                      let queryLower := toLowerCase env query in
                      ret (map (fun m => (Memory.id m, decoded_content env m))
                             (filter (fun m => includes
                                                 (toLowerCase env
                                                    (decoded_content env m))
                                                 queryLower)
                                     memories))
                  | _ => ret semantic
                  end) ;;
               match memoriesToDelete with
               | [] =>
                   ret (Build_ForgetResult true 0 []
                          ("No memories found matching " ++ quoted query
                           ++ ".")%string)
               | _ =>
                   deletedIds <- forget_loop (map fst memoriesToDelete) [] ;;
                   ret (Build_ForgetResult true
                          (Z.of_nat (List.length deletedIds)) deletedIds
                          ("Deleted "
                           ++ show_Z (Z.of_nat (List.length deletedIds))
                           ++ " memories matching " ++ quoted query
                           ++ ".")%string)
               end)).
  { intro query. apply tool_bind.
    - destruct (hasApiKey env && isEmbeddingsAvailable host); [|apply tool_ret].
      apply tool_try; [|intros e; apply tool_ret].
      apply tool_bind; [apply tool_searchBySimilarity | intros r; apply tool_ret].
    - intro semantic. apply tool_bind.
      + destruct semantic; [|apply tool_ret].
        apply preserves_get. intro db. apply P_refl.
      + intros [|f0 found]; [apply tool_ret|].
        apply tool_bind; [apply tool_forget_loop | intros d; apply tool_ret]. }
  unfold forget.
  destruct (fg_ids input) as [[|id ids]|].
  - destruct (truthy (fg_query input)); [apply Hquery | apply tool_ret].
  - apply tool_bind; [apply tool_forget_loop | intros d; apply tool_ret].
  - destruct (truthy (fg_query input)); [apply Hquery | apply tool_ret].
Qed.

Lemma tool_refresh host env input projectHash :
  preserves P (refresh host env input projectHash).
Proof.
  unfold refresh. cbv zeta. apply tool_bind.
  - destruct (hasApiKey env && isEmbeddingsAvailable host); [|apply tool_ret].
    apply tool_try; [|intros e; apply tool_ret].
    apply tool_bind; [apply tool_searchBySimilarity | intros r; apply tool_ret].
  - intro semantic. apply tool_bind; [|intros ms; apply tool_ret].
    destruct semantic; [|apply tool_ret].
    apply preserves_get. intro db. apply P_refl.
Qed.

Lemma kept_run_tool (host : Host) (env : ToolHost) (op : ToolOp) (now : Z) (db : Db) :
  P db (run_tool host env op now db).
Proof.
  destruct op; cbn [run_tool].
  - apply tool_remember.
  - apply tool_forget.
  - apply tool_refresh.
  - apply P_updateMemory.
  - apply P_unique. intro Hnd.
    destruct (deleteMemoriesByQuery_store maxVariables ids db) as [-> | ->];
      [apply P_refl|].
    replace (batch_store ids db) with (snd (delete_each ids db))
      by (now rewrite delete_each_run).
    apply tool_delete_each.
  - unfold learnFromAccessPatterns. apply preserves_get. intro d.
    apply tool_learn_loop.
  - unfold getFrequentlyCoAccessedMemories. apply preserves_get. intro d.
    apply tool_coaccess_loop.
  - unfold getFeedbackHistory. rewrite run_bind. unfold get at 1. cbn iota beta.
    rewrite run_bind. unfold put at 1. cbn iota beta. apply P_initializeSchema.
Qed.
End EveryTool.

Lemma set_fields_valid (input : UpdateMemoryInput) (now : Z) (m : Memory.t) :
  importance_in_range input -> row_valid m -> row_valid (set_fields input now m).
Proof.
  intros Hrange (H1 & H2 & H3 & H4 & H5 & H6). unfold row_valid.
  cbn [set_fields Memory.importance Memory.level Memory.usefulness_score
       Memory.times_helpful Memory.times_unhelpful Memory.access_count].
  repeat split; try tauto;
    (destruct (um_importance input) as [i|] eqn:E; cbn [orElse];
     [specialize (Hrange i E); lia | lia]).
Qed.

Lemma updateMemory_store (input : UpdateMemoryInput) (now : Z) (db : Db) :
  snd (updateMemory input now db) = db
  \/ ((memory_exists (um_id input) db = true -> importance_in_range input)
      /\ snd (updateMemory input now db)
         = update_memory (um_id input) (set_fields input now) db).
Proof.
  assert (Hcases : names_a_field input
                   \/ (um_encoded input = None /\ um_decodedCache input = None
                       /\ um_importance input = None)).
  { unfold names_a_field.
    destruct (um_encoded input); [left; left; discriminate|].
    destruct (um_decodedCache input); [left; right; left; discriminate|].
    destruct (um_importance input); [left; right; right; discriminate|].
    right. repeat split. }
  destruct Hcases as [Hfield | (E1 & E2 & E3)].
  - rewrite (updateMemory_run input now db Hfield).
    destruct (memory_exists (um_id input) db && negb _) eqn:Hc; [now left|].
    right. split; [|reflexivity]. intros Hex i Ei.
    rewrite Hex, Ei in Hc. cbn [andb] in Hc. apply negb_false_iff in Hc.
    apply andb_true_iff in Hc. rewrite !Z.leb_le in Hc. lia.
  - left. unfold updateMemory. now rewrite E1, E2, E3.
Qed.

Lemma updateMemory_valid input now : preserves keeps_valid (updateMemory input now).
Proof.
  intro db. destruct (updateMemory_store input now db) as [-> | [Hrange ->]];
    [apply keeps_valid_refl|].
  apply update_memory_valid; [reflexivity|].
  intros x Hx Hid Hv. apply set_fields_valid; [|exact Hv].
  apply Hrange. apply memory_exists_iff. now exists x.
Qed.

Lemma updateMemory_agreement input now :
  preserves keeps_agreement (updateMemory input now).
Proof.
  intro db. destruct (updateMemory_store input now db) as [-> | [_ ->]];
    [apply keeps_agreement_refl|].
  now apply update_memory_agreement.
Qed.

(** X30. The tools keep the invariants.  Every tool and reader around the
    engine -- [remember], [forget], [refresh], [updateMemory],
    [deleteMemoriesByQuery], [learnFromAccessPatterns],
    [getFrequentlyCoAccessedMemories] and [getFeedbackHistory] -- whether
    it returns or throws, leaves a store with unique ids and with
    importance, level, usefulness score and counters in their ranges in
    such a state, and on a connection that enforces foreign keys it keeps
    the counters of every memory equal to the counts of the feedback log.
    So do all sequences of such calls. *)
Theorem tools_keep_the_invariants
  (host : Host) (env : ToolHost) (ops : list (ToolOp * Z)) (db : Db) :
  (store_valid db -> store_valid (run_tools host env ops db))
  /\ (log_agrees db -> log_agrees (run_tools host env ops db)).
Proof.
  assert (Hvalid : forall op now d, keeps_valid d (run_tool host env op now d)).
  { intros op now d.
    apply (kept_run_tool keeps_valid keeps_valid_refl keeps_valid_trans).
    - intros d1 d2 _ Hms _. now apply same_memories_valid.
    - intros d1 d2 H Hv. apply H; [apply Hv | exact Hv].
    - intro d1. now apply same_memories_valid.
    - apply getMemory_valid.
    - apply createMemory_valid.
    - apply deleteMemory_valid.
    - apply updateMemory_valid.
    - apply coAccessPair_valid. }
  assert (Hagree : forall op now d, keeps_agreement d (run_tool host env op now d)).
  { intros op now d.
    apply (kept_run_tool keeps_agreement keeps_agreement_refl keeps_agreement_trans).
    - intros d1 d2. apply same_rows_agreement.
    - intros d1 d2 H Hv. apply H; [apply Hv | exact Hv].
    - intros d1 (H1 & H2 & H3 & H4). repeat split; try assumption; now apply H4.
    - apply getMemory_agreement.
    - apply createMemory_agreement.
    - apply deleteMemory_agreement.
    - apply updateMemory_agreement.
    - apply coAccessPair_agreement. }
  split; revert db; induction ops as [|[op now] ops IH]; intros db H;
    try exact H; cbn [run_tools fold_left fst snd]; apply IH.
  - now apply Hvalid.
  - now apply Hagree.
Qed.

Lemma tools_keep_the_invariants_witness :
  store_valid
    (run_tools host_unit env_forget
       [(ToolRemember (Build_RememberInput "use strict mode" None None None) None, 10);
        (ToolUpdateMemory (Build_UpdateMemoryInput 1 None None (Some 9)), 20);
        (ToolForget (Build_ForgetInput None (Some [2])) None, 30);
        (ToolLearnFromAccessPatterns None, 40)]
       db_C3).
Proof.
  assert (Hok : store_valid db_C3).
  { split.
    - repeat constructor; cbn; intuition discriminate.
    - intros m [<-|[<-|[]]]; unfold row_valid; cbn; repeat split; try lia; lra. }
  exact (proj1 (tools_keep_the_invariants host_unit env_forget _ db_C3) Hok).
Defined.
